(** * MiniDatabaseApp: a disk-backed columnar store, verified against its specification

    A shallow embedding of the storage engine of [Database.cpp]
    (disk manager, buffer pool, B+ tree index, column store, table) and the
    properties its specification states about it.

    Conventions of the embedding:
    - [size_t], [PageId] and [RecordId] are 64-bit unsigned integers, carried
      as [N] with the wrap-around written out ([wrap64]);
    - a page is its 4096 bytes, each byte an [N] below 256; [memcpy] is a
      bounds-checked [poke]/[peek], and a transfer that leaves the page buffer
      is reported as [Fail OutOfRange] (the C++ behaviour is undefined there);
    - [int32_t]/[int64_t] are [Z]; [float]/[double] values are carried as their
      IEEE-754 bit patterns (they are only copied and compared by the engine),
      and decoded to primitive floats for the aggregates;
    - the target is x86-64 (little-endian, [sizeof(size_t) = 8],
      [sizeof(DataType) = 4], [sizeof(bool) = 1]);
    - the diagnostic output on [std::cout]/[std::cerr] is not modelled, and the
      file system never fails to create, extend or flush a file. *)

From Stdlib Require Import ZArith NArith List String Ascii Lia PrimFloat Uint63.
From stdpp Require Import base gmap strings list fin_maps numbers sorting.

Open Scope N_scope.

(** ** Constants and scalar types *)

Definition PAGE_SIZE : N := 4096.
Definition BUFFER_POOL_SIZE : N := 1000.
Definition BTREE_ORDER : N := 128.

Definition wrap64 (n : N) : N := n mod 2 ^ 64.

Inductive DataType := INT32 | INT64 | FLOAT | DOUBLE | STRING | BOOL.

#[global] Instance DataType_eq_dec : EqDecision DataType.
Proof. solve_decision. Defined.

(** [std::variant<int32_t, int64_t, float, double, std::string, bool>] *)
Inductive Value :=
| VInt32 (z : Z)
| VInt64 (z : Z)
| VFloat (bits : N)
| VDouble (bits : N)
| VString (s : string)
| VBool (b : bool).

#[global] Instance Value_eq_dec : EqDecision Value.
Proof. solve_decision. Defined.

Abbreviation PageId := N (only parsing).
Abbreviation RecordId := N (only parsing).

(** What a call can end in besides a normal return. *)
Inductive failure :=
| BadVariantAccess            (* std::get on the wrong alternative throws *)
| RuntimeError (msg : string) (* throw std::runtime_error(msg) *)
| OutOfRange                  (* access outside a buffer or vector, null dereference *)
| OutOfFuel.                  (* the recursion or loop bound of the model ran out *)

Inductive outcome (A : Type) :=
| Ret (a : A)
| Fail (e : failure).
Arguments Ret {A} a.
Arguments Fail {A} e.

Definition obind {A B} (m : outcome A) (f : A → outcome B) : outcome B :=
  match m with
  | Ret a => f a
  | Fail e => Fail e
  end.

Notation "x ←! m ; f" := (obind m (λ x, f))
  (at level 20, m at level 100, f at level 200, only parsing, right associativity).
Notation "' p ←! m ; f" := (obind m (λ p, f))
  (at level 20, p pattern, m at level 100, f at level 200, only parsing,
   right associativity).

(** ** Bytes *)

Definition zero_page : list N := replicate (N.to_nat PAGE_SIZE) 0.

(** [w] little-endian bytes of [n] *)
Fixpoint le_bytes (w : nat) (n : N) : list N :=
  match w with
  | O => []
  | S w' => n mod 256 :: le_bytes w' (n / 256)
  end.

Fixpoint le_value (bs : list N) : N :=
  match bs with
  | [] => 0
  | b :: bs' => b + 256 * le_value bs'
  end.

(** [memcpy(data + offset, src, |src|)] *)
Definition poke (data : list N) (offset : N) (src : list N) : outcome (list N) :=
  if decide (N.to_nat offset + length src ≤ length data)%nat
  then Ret (take (N.to_nat offset) data ++ src
              ++ drop (N.to_nat offset + length src) data)
  else Fail OutOfRange.

(** [memcpy(dst, data + offset, len)] *)
Definition peek (data : list N) (offset : N) (len : nat) : outcome (list N) :=
  if decide (N.to_nat offset + len ≤ length data)%nat
  then Ret (take len (drop (N.to_nat offset) data))
  else Fail OutOfRange.

Definition int_bits (w : nat) (z : Z) : N := Z.to_N (z mod 2 ^ Z.of_nat (8 * w)).

Definition int_of_bits (w : nat) (n : N) : Z :=
  if n <? 2 ^ N.of_nat (8 * w - 1) then Z.of_N n
  else (Z.of_N n - 2 ^ Z.of_nat (8 * w))%Z.

(** [val.resize(255, '\0')] followed by the 256 bytes of [val.c_str()] *)
Definition string_bytes (s : string) : list N :=
  let cs := take 255 (list_ascii_of_string s) in
  map N_of_ascii cs ++ replicate (256 - length cs) 0.

Fixpoint until_nul (bs : list N) : list N :=
  match bs with
  | [] => []
  | b :: bs' => if b =? 0 then [] else b :: until_nul bs'
  end.

(** [std::string val(ptr, 256); val = val.c_str();] *)
Definition string_of_bytes (bs : list N) : string :=
  string_of_list_ascii (map ascii_of_N (until_nul bs)).

Definition data_type_code (ty : DataType) : N :=
  match ty with
  | INT32 => 0 | INT64 => 1 | FLOAT => 2 | DOUBLE => 3 | STRING => 4 | BOOL => 5
  end.

Definition data_type_of_code (n : N) : option DataType :=
  match n with
  | 0 => Some INT32 | 1 => Some INT64 | 2 => Some FLOAT | 3 => Some DOUBLE
  | 4 => Some STRING | 5 => Some BOOL | _ => None
  end.

(** ** Pages and the disk manager *)

Record Page := mkPage {
  page_id : PageId;
  is_dirty : bool;
  data : list N
}.

(** [Page(PageId id)]: clean, [PAGE_SIZE] zero bytes *)
Definition new_Page (id : PageId) : Page :=
  {| page_id := id; is_dirty := false; data := zero_page |}.

(** The page after a client wrote [bytes] through its handle and set
    [is_dirty]. *)
Definition written (page : Page) (bytes : list N) : Page :=
  {| page_id := page_id page; is_dirty := true; data := bytes |}.

Module DiskManager.

  (** An open [std::fstream]: the file, as the pages written at page-aligned
      byte offsets (bytes in holes and beyond the end read as zero), and the
      stream's failure state. *)
Record fstream := mkStream {
    contents : gmap N (list N);
    failbit : bool
  }.

  (** [file_streams_], by file name. A file is created empty (truncated) the
      first time it is asked for. *)
Abbreviation t := (gmap string fstream) (only parsing).

Definition create : t := ∅.

Definition getFileStream (filename : string) (dm : t) : fstream :=
    default {| contents := ∅; failbit := false |} (dm !! filename).

  (** [page_id * PAGE_SIZE] in [size_t] arithmetic *)
Definition seek_offset (page_id : PageId) : N := wrap64 (page_id * PAGE_SIZE).

  (** The offset reaches [seekp]/[seekg] as a signed [std::streamoff]; a
      negative one makes the seek fail. *)
Definition seekable (offset : N) : bool := offset <? 2 ^ 63.

  (** [writePage]: seek, write, flush; if the stream is not good afterwards,
      [clear()] and one more attempt. *)
Definition writePage (filename : string) (page_id : PageId) (page : Page)
      (dm : t) : t :=
    let stream := getFileStream filename dm in
    let offset := seek_offset page_id in
    if seekable offset
    then <[filename := {| contents := <[offset / PAGE_SIZE := data page]> (contents stream);
                          failbit := false |}]> dm
    else <[filename := {| contents := contents stream; failbit := true |}]> dm.

  (** [readPage]: the bytes of the page, and the disk manager afterwards. The
      page is zero-filled when the seek fails or the stream is already in a
      failed state (which only a later [writePage] clears). *)
Definition readPage (filename : string) (page_id : PageId) (dm : t)
      : list N * t :=
    let stream := getFileStream filename dm in
    let offset := seek_offset page_id in
    if failbit stream then (zero_page, <[filename := stream]> dm)
    else if seekable offset
    then (default zero_page (contents stream !! (offset / PAGE_SIZE)),
          <[filename := stream]> dm)
    else (zero_page, <[filename := {| contents := contents stream; failbit := true |}]> dm).

End DiskManager.

(** ** The buffer pool *)

Module BufferPoolManager.

Abbreviation key := (string * N)%type (only parsing).

  (** [pages_] is keyed by file name and page id; [lru_list_] has the most
      recently used key first.  [lru_map_] only indexes [lru_list_] (it is
      updated together with it everywhere) and is read off the list. *)
Record t := mkPool {
    pool_size_ : N;
    pages_ : gmap key Page;
    lru_list_ : list key;
    disk_manager_ : DiskManager.t
  }.

Definition create (dm : DiskManager.t) : t :=
    {| pool_size_ := BUFFER_POOL_SIZE; pages_ := ∅; lru_list_ := [];
       disk_manager_ := dm |}.

Definition getTotalPages (bp : t) : N := N.of_nat (size (pages_ bp)).

Fixpoint erase_first (k : key) (l : list key) : list key :=
    match l with
    | [] => []
    | x :: l' => if decide (x = k) then l' else x :: erase_first k l'
    end.

Definition updateLRU (filename : string) (page_id : PageId) (bp : t) : t :=
    if decide ((filename, page_id) ∈ lru_list_ bp)
    then {| pool_size_ := pool_size_ bp; pages_ := pages_ bp;
            lru_list_ := (filename, page_id) :: erase_first (filename, page_id) (lru_list_ bp);
            disk_manager_ := disk_manager_ bp |}
    else bp.

Definition clean (pg : Page) : Page :=
    {| page_id := page_id pg; is_dirty := false; data := data pg |}.

Definition flushPage (filename : string) (page_id : PageId) (bp : t) : t :=
    match pages_ bp !! (filename, page_id) with
    | Some page =>
        if is_dirty page
        then {| pool_size_ := pool_size_ bp;
                pages_ := <[(filename, page_id) := clean page]> (pages_ bp);
                lru_list_ := lru_list_ bp;
                disk_manager_ :=
                  DiskManager.writePage filename page_id page (disk_manager_ bp) |}
        else bp
    | None => bp
    end.

  (** The loop over [pages_]: every dirty page is written and its flag cleared. *)
Definition flushAllPages (bp : t) : t :=
    {| pool_size_ := pool_size_ bp;
       pages_ := clean <$> pages_ bp;
       lru_list_ := lru_list_ bp;
       disk_manager_ :=
         map_fold (λ k page dm,
                     if is_dirty page
                     then DiskManager.writePage k.1 k.2 page dm else dm)
                  (disk_manager_ bp) (pages_ bp) |}.

Definition evictPage (bp : t) : t :=
    match list.last (lru_list_ bp) with
    | None => bp
    | Some (filename, page_id) =>
        let bp1 := flushPage filename page_id
                     {| pool_size_ := pool_size_ bp; pages_ := pages_ bp;
                        lru_list_ := removelast (lru_list_ bp);
                        disk_manager_ := disk_manager_ bp |} in
        {| pool_size_ := pool_size_ bp1;
           pages_ := delete (filename, page_id) (pages_ bp1);
           lru_list_ := lru_list_ bp1;
           disk_manager_ := disk_manager_ bp1 |}
    end.

Definition fetchPage (filename : string) (page_id : PageId) (bp : t) : Page * t :=
    match pages_ bp !! (filename, page_id) with
    | Some page => (page, updateLRU filename page_id bp)
    | None =>
        let '(bytes, dm) :=
          DiskManager.readPage filename page_id (disk_manager_ bp) in
        let page := {| page_id := page_id; is_dirty := false; data := bytes |} in
        let bp1 := {| pool_size_ := pool_size_ bp; pages_ := pages_ bp;
                      lru_list_ := lru_list_ bp; disk_manager_ := dm |} in
        let bp2 := if pool_size_ bp1 <=? getTotalPages bp1 then evictPage bp1 else bp1 in
        (page,
         {| pool_size_ := pool_size_ bp2;
            pages_ := <[(filename, page_id) := page]> (pages_ bp2);
            lru_list_ := (filename, page_id) :: lru_list_ bp2;
            disk_manager_ := disk_manager_ bp2 |})
    end.

  (** A client writing through the handle [fetchPage] gave it: the page object
      is the pool's own while the page is resident. *)
Definition store (filename : string) (page_id : PageId) (page : Page) (bp : t) : t :=
    match pages_ bp !! (filename, page_id) with
    | Some _ => {| pool_size_ := pool_size_ bp;
                   pages_ := <[(filename, page_id) := page]> (pages_ bp);
                   lru_list_ := lru_list_ bp;
                   disk_manager_ := disk_manager_ bp |}
    | None => bp
    end.

End BufferPoolManager.

(** ** Process state and the monad of the engine's operations

    Every index and column works on the one buffer pool of the database, and
    [createNewNode] draws page ids from one function-local [static] counter. *)

Record World := mkWorld {
  buffer_manager : BufferPoolManager.t;
  next_page_id : PageId
}.

Definition new_World : World :=
  {| buffer_manager := BufferPoolManager.create DiskManager.create;
     next_page_id := 1 |}.

Definition M (A : Type) : Type := World → outcome (A * World).

Definition ret {A} (a : A) : M A := λ w, Ret (a, w).

Definition bind {A B} (m : M A) (f : A → M B) : M B :=
  λ w, match m w with
       | Ret (a, w') => f a w'
       | Fail e => Fail e
       end.

Definition raise {A} (e : failure) : M A := λ _, Fail e.

Definition lift {A} (o : outcome A) : M A :=
  λ w, match o with Ret a => Ret (a, w) | Fail e => Fail e end.

Notation "x ←$ m ; f" := (bind m (λ x, f))
  (at level 20, m at level 100, f at level 200, only parsing, right associativity).

Definition with_pool (f : BufferPoolManager.t → BufferPoolManager.t) : M unit :=
  λ w, Ret (tt, {| buffer_manager := f (buffer_manager w);
                   next_page_id := next_page_id w |}).

Definition fetch (filename : string) (page_id : PageId) : M Page :=
  λ w, let '(page, bp) :=
         BufferPoolManager.fetchPage filename page_id (buffer_manager w) in
       Ret (page, {| buffer_manager := bp; next_page_id := next_page_id w |}).

(** ** Values: comparison and wire form *)

Definition variant_index (v : Value) : N :=
  match v with
  | VInt32 _ => 0 | VInt64 _ => 1 | VFloat _ => 2 | VDouble _ => 3
  | VString _ => 4 | VBool _ => 5
  end.

(** IEEE-754 comparison on bit patterns with [ebits] exponent and [mbits]
    fraction bits: a NaN compares false with everything; otherwise the order
    is that of the signed magnitudes (and -0 equals +0). *)
Definition fp_is_nan (ebits mbits : N) (bits : N) : bool :=
  ((bits / 2 ^ mbits) mod 2 ^ ebits =? 2 ^ ebits - 1) && negb (bits mod 2 ^ mbits =? 0).

Definition fp_key (ebits mbits : N) (bits : N) : Z :=
  let magnitude := Z.of_N (bits mod 2 ^ (ebits + mbits)) in
  if (bits / 2 ^ (ebits + mbits)) mod 2 =? 0 then magnitude else (- magnitude)%Z.

Definition fp_eqb (ebits mbits : N) (a b : N) : bool :=
  negb (fp_is_nan ebits mbits a) && negb (fp_is_nan ebits mbits b)
  && (fp_key ebits mbits a =? fp_key ebits mbits b)%Z.

Definition fp_ltb (ebits mbits : N) (a b : N) : bool :=
  negb (fp_is_nan ebits mbits a) && negb (fp_is_nan ebits mbits b)
  && (fp_key ebits mbits a <? fp_key ebits mbits b)%Z.

(** [operator==] of the variant *)
Definition value_eqb (a b : Value) : bool :=
  match a, b with
  | VInt32 x, VInt32 y => (x =? y)%Z
  | VInt64 x, VInt64 y => (x =? y)%Z
  | VFloat x, VFloat y => fp_eqb 8 23 x y
  | VDouble x, VDouble y => fp_eqb 11 52 x y
  | VString x, VString y => String.eqb x y
  | VBool x, VBool y => Bool.eqb x y
  | _, _ => false
  end.

(** [operator<] of the variant: by alternative first, then by value *)
Definition value_ltb (a b : Value) : bool :=
  match a, b with
  | VInt32 x, VInt32 y => (x <? y)%Z
  | VInt64 x, VInt64 y => (x <? y)%Z
  | VFloat x, VFloat y => fp_ltb 8 23 x y
  | VDouble x, VDouble y => fp_ltb 11 52 x y
  | VString x, VString y => String.ltb x y
  | VBool x, VBool y => negb x && y
  | _, _ => variant_index a <? variant_index b
  end.

Definition std_get_int32 (v : Value) : outcome Z :=
  match v with VInt32 z => Ret z | _ => Fail BadVariantAccess end.
Definition std_get_int64 (v : Value) : outcome Z :=
  match v with VInt64 z => Ret z | _ => Fail BadVariantAccess end.
Definition std_get_float (v : Value) : outcome N :=
  match v with VFloat b => Ret b | _ => Fail BadVariantAccess end.
Definition std_get_double (v : Value) : outcome N :=
  match v with VDouble b => Ret b | _ => Fail BadVariantAccess end.
Definition std_get_string (v : Value) : outcome string :=
  match v with VString s => Ret s | _ => Fail BadVariantAccess end.
Definition std_get_bool (v : Value) : outcome bool :=
  match v with VBool b => Ret b | _ => Fail BadVariantAccess end.

Definition bool_byte (b : bool) : N := if b then 1 else 0.

(** The bytes the declared type copies out of a value. *)
Definition value_bytes (type : DataType) (value : Value) : outcome (list N) :=
  match type with
  | INT32 => val ←! std_get_int32 value; Ret (le_bytes 4 (int_bits 4 val))
  | INT64 => val ←! std_get_int64 value; Ret (le_bytes 8 (int_bits 8 val))
  | FLOAT => val ←! std_get_float value; Ret (le_bytes 4 val)
  | DOUBLE => val ←! std_get_double value; Ret (le_bytes 8 val)
  | STRING => val ←! std_get_string value; Ret (string_bytes val)
  | BOOL => val ←! std_get_bool value; Ret [bool_byte val]
  end.

Definition value_width (type : DataType) : nat :=
  match type with
  | INT32 => 4 | INT64 => 8 | FLOAT => 4 | DOUBLE => 8 | STRING => 256 | BOOL => 1
  end.

(** The value the declared type reads back from [value_width type] bytes. *)
Definition value_of_bytes (type : DataType) (bs : list N) : Value :=
  match type with
  | INT32 => VInt32 (int_of_bits 4 (le_value bs))
  | INT64 => VInt64 (int_of_bits 8 (le_value bs))
  | FLOAT => VFloat (le_value bs)
  | DOUBLE => VDouble (le_value bs)
  | STRING => VString (string_of_bytes bs)
  | BOOL => VBool (negb (le_value bs =? 0))
  end.

(** ** The B+ tree index *)

Record BPlusTreeNode := mkNode {
  is_leaf : bool;
  keys : list Value;
  children : list PageId;
  records : list RecordId;
  next_leaf : PageId
}.

(** [BPlusTreeNode(bool leaf = true)] *)
Definition new_BPlusTreeNode (leaf : bool) : BPlusTreeNode :=
  {| is_leaf := leaf; keys := []; children := []; records := []; next_leaf := 0 |}.

(** [v.resize(n, fill)] *)
Definition resize {A} (n : nat) (fill : A) (v : list A) : list A :=
  take n v ++ replicate (n - length v) fill.

(** [v.insert(v.begin() + i, x)] *)
Definition insert_at {A} (i : nat) (x : A) (v : list A) : list A :=
  take i v ++ x :: drop i v.

(** [v[i]] *)
Definition at_index {A} (v : list A) (i : nat) : outcome A :=
  match v !! i with
  | Some x => Ret x
  | None => Fail OutOfRange
  end.

(** [std::lower_bound(first, first + len, ...)], with [comp x] standing for
    [comp(x, key)]: the usual halving search. *)
Fixpoint lower_bound_loop (steps : nat) (comp : Value → bool) (v : list Value)
    (first len : nat) : nat :=
  match steps with
  | O => first
  | S steps' =>
      if (len =? 0)%nat then first
      else
        let half := (len / 2)%nat in
        let mid := (first + half)%nat in
        match v !! mid with
        | Some x =>
            if comp x
            then lower_bound_loop steps' comp v (mid + 1)%nat (len - half - 1)%nat
            else lower_bound_loop steps' comp v first half
        | None => first
        end
  end.

Definition lower_bound (comp : Value → bool) (v : list Value) : nat :=
  lower_bound_loop (length v) comp v 0 (length v).

Module BPlusTreeIndex.

Record t := mkIndex {
  index_name_ : string;
  root_page_id_ : PageId;
  key_type_ : DataType;
  max_keys_ : N
}.

Definition create (name : string) (key_type : DataType) : t :=
  {| index_name_ := name; root_page_id_ := 0; key_type_ := key_type;
     max_keys_ := BTREE_ORDER - 1 |}.

Definition set_root (idx : t) (root : PageId) : t :=
  {| index_name_ := index_name_ idx; root_page_id_ := root;
     key_type_ := key_type_ idx; max_keys_ := max_keys_ idx |}.

Definition compareValues (a b : Value) : Z :=
  if value_eqb a b then 0%Z
  else if value_ltb a b then (-1)%Z else 1%Z.

Definition serializeValue (data : list N) (offset : N) (value : Value)
    (type : DataType) : outcome (list N * N) :=
  bytes ←! value_bytes type value;
  data' ←! poke data offset bytes;
  Ret (data', offset + N.of_nat (value_width type)).

(** The type comes from the page; a code outside the enumeration falls
    through the [switch] to [return int32_t(0)], the offset unchanged. *)
Definition deserializeValue (data : list N) (offset : N) (type : option DataType)
    : outcome (Value * N) :=
  match type with
  | Some ty =>
      bytes ←! peek data offset (value_width ty);
      Ret (value_of_bytes ty bytes, offset + N.of_nat (value_width ty))
  | None => Ret (VInt32 0, offset)
  end.

Fixpoint read_keys (count : nat) (data : list N) (offset : N)
    (type : option DataType) : outcome (list Value * N) :=
  match count with
  | O => Ret ([], offset)
  | S count' =>
      '(key, offset1) ←! deserializeValue data offset type;
      '(rest, offset2) ←! read_keys count' data offset1 type;
      Ret (key :: rest, offset2)
  end.

Fixpoint read_words (count : nat) (data : list N) (offset : N)
    : outcome (list N * N) :=
  match count with
  | O => Ret ([], offset)
  | S count' =>
      bytes ←! peek data offset 8;
      '(rest, offset1) ←! read_words count' data (offset + 8);
      Ret (le_value bytes :: rest, offset1)
  end.

Fixpoint write_keys (ks : list Value) (data : list N) (offset : N)
    (type : DataType) : outcome (list N * N) :=
  match ks with
  | [] => Ret (data, offset)
  | key :: ks' =>
      '(data1, offset1) ←! serializeValue data offset key type;
      write_keys ks' data1 offset1 type
  end.

Fixpoint write_words (ws : list N) (data : list N) (offset : N)
    : outcome (list N * N) :=
  match ws with
  | [] => Ret (data, offset)
  | word :: ws' =>
      data1 ←! poke data offset (le_bytes 8 word);
      write_words ws' data1 (offset + 8)
  end.

(** The node a page's bytes deserialize to. *)
Definition parse_node (max_keys : N) (data : list N) : outcome BPlusTreeNode :=
  if forallb (N.eqb 0) data then Ret (new_BPlusTreeNode true)
  else
    leaf_byte ←! peek data 0 1;
    let leaf := negb (le_value leaf_byte =? 0) in
    type_bytes ←! peek data 1 4;
    let node_data_type := data_type_of_code (le_value type_bytes) in
    count_bytes ←! peek data 5 8;
    let key_count := le_value count_bytes in
    if max_keys <? key_count
    then Ret {| is_leaf := leaf; keys := []; children := []; records := [];
                next_leaf := 0 |}
    else
      '(ks, offset) ←! read_keys (N.to_nat key_count) data 13 node_data_type;
      if leaf then
        '(rs, offset1) ←! read_words (N.to_nat key_count) data offset;
        next_bytes ←! peek data offset1 8;
        let min_size := min (length ks) (length rs) in
        Ret (if decide (length ks = length rs)
             then {| is_leaf := leaf; keys := ks; children := []; records := rs;
                     next_leaf := le_value next_bytes |}
             else {| is_leaf := leaf; keys := take min_size ks; children := [];
                     records := take min_size rs;
                     next_leaf := le_value next_bytes |})
      else
        '(cs, offset1) ←! read_words (N.to_nat key_count + 1) data offset;
        Ret {| is_leaf := leaf; keys := ks;
               children := (if decide (length cs = length ks + 1)%nat then cs
                            else resize (length ks + 1) 0 cs);
               records := []; next_leaf := 0 |}.

Definition getNode (idx : t) (page_id : PageId) : M BPlusTreeNode :=
  page ←$ fetch (index_name_ idx) page_id;
  lift (parse_node (max_keys_ idx) (data page)).

(** The bytes a node serializes to, written over a zeroed page. *)
Definition node_bytes (key_type : DataType) (node : BPlusTreeNode)
    : outcome (list N) :=
  data0 ←! poke zero_page 0 [bool_byte (is_leaf node)];
  data1 ←! poke data0 1 (le_bytes 4 (data_type_code key_type));
  data2 ←! poke data1 5 (le_bytes 8 (N.of_nat (length (keys node))));
  '(data3, offset) ←! write_keys (keys node) data2 13 key_type;
  if is_leaf node then
    '(data4, offset1) ←! write_words (records node) data3 offset;
    poke data4 offset1 (le_bytes 8 (next_leaf node))
  else
    '(data4, _) ←! write_words (children node) data3 offset;
    Ret data4.

(** A node that fails the consistency check is not written at all. *)
Definition saveNode (idx : t) (page_id : PageId) (node : BPlusTreeNode) : M unit :=
  if (if is_leaf node
      then bool_decide (length (keys node) ≠ length (records node))
      else bool_decide (length (children node) ≠ length (keys node) + 1)%nat)
  then ret tt
  else
    page ←$ fetch (index_name_ idx) page_id;
    bytes ←$ lift (node_bytes (key_type_ idx) node);
    with_pool (BufferPoolManager.store (index_name_ idx) page_id
                 (written page bytes)).

Definition createNewNode (idx : t) (leaf : bool) : M PageId :=
  λ w,
    let page_id := next_page_id w in
    bind (saveNode idx page_id (new_BPlusTreeNode leaf)) (λ _, ret page_id)
      {| buffer_manager := buffer_manager w;
         next_page_id := wrap64 (page_id + 1) |}.

Definition key_less (key : Value) (a : Value) : bool :=
  (compareValues a key <? 0)%Z.

Definition insertIntoLeaf (node : BPlusTreeNode) (key : Value)
    (record_id : RecordId) : BPlusTreeNode :=
  let index := lower_bound (key_less key) (keys node) in
  let recs := if decide (length (records node) = length (keys node))
              then records node
              else resize (length (keys node)) 0 (records node) in
  {| is_leaf := is_leaf node;
     keys := insert_at index key (keys node);
     children := children node;
     records := insert_at index record_id recs;
     next_leaf := next_leaf node |}.

Definition insertIntoInternal (node : BPlusTreeNode) (key : Value)
    (new_child : PageId) (child_index : nat) : BPlusTreeNode :=
  let child_index := if decide (length (keys node) < child_index)%nat
                     then length (keys node) else child_index in
  let chs := if decide (length (children node) = length (keys node) + 1)%nat
             then children node
             else resize (length (keys node) + 1) 0 (children node) in
  {| is_leaf := is_leaf node;
     keys := insert_at child_index key (keys node);
     children := insert_at (child_index + 1) new_child chs;
     records := records node;
     next_leaf := next_leaf node |}.

Definition clamp_child_index (node : BPlusTreeNode) (index : nat) : nat :=
  if decide (length (children node) ≤ index)%nat
  then (if decide (0 < length (children node))%nat
        then length (children node) - 1 else 0)%nat
  else index.

Definition findChildIndex (node : BPlusTreeNode) (key : Value) : nat :=
  let index := lower_bound (key_less key) (keys node) in
  if negb (is_leaf node) then clamp_child_index node index else index.

Definition splitLeaf (idx : t) (page_id : PageId) (node : BPlusTreeNode)
    : M (Value * PageId) :=
  let mid := (length (keys node) / 2)%nat in
  new_page_id ←$ createNewNode idx true;
  new_node ←$ getNode idx new_page_id;
  let new_node' :=
    {| is_leaf := is_leaf new_node;
       keys := drop mid (keys node);
       children := children new_node;
       records := drop mid (records node);
       next_leaf := next_leaf node |} in
  let node' :=
    {| is_leaf := is_leaf node;
       keys := resize mid (VInt32 0) (keys node);
       children := children node;
       records := resize mid 0 (records node);
       next_leaf := new_page_id |} in
  saved ←$ saveNode idx page_id node';
  saved ←$ saveNode idx new_page_id new_node';
  first_key ←$ lift (at_index (keys new_node') 0);
  ret (first_key, new_page_id).

Definition splitInternal (idx : t) (page_id : PageId) (node : BPlusTreeNode)
    : M (Value * PageId) :=
  let mid := (length (keys node) / 2)%nat in
  new_page_id ←$ createNewNode idx false;
  new_node ←$ getNode idx new_page_id;
  promoted_key ←$ lift (at_index (keys node) mid);
  let new_node' :=
    {| is_leaf := is_leaf new_node;
       keys := drop (mid + 1) (keys node);
       children := drop (mid + 1) (children node);
       records := records new_node;
       next_leaf := next_leaf new_node |} in
  let node' :=
    {| is_leaf := is_leaf node;
       keys := resize mid (VInt32 0) (keys node);
       children := resize (mid + 1) 0 (children node);
       records := records node;
       next_leaf := next_leaf node |} in
  saved ←$ saveNode idx page_id node';
  saved ←$ saveNode idx new_page_id new_node';
  ret (promoted_key, new_page_id).

(** [{ Value{}, 0 }]: nothing was split *)
Definition no_split : Value * PageId := (VInt32 0, 0).

Fixpoint insertInternal (fuel : nat) (idx : t) (page_id : PageId) (key : Value)
    (record_id : RecordId) : M (Value * PageId) :=
  match fuel with
  | O => raise OutOfFuel
  | S fuel' =>
      node ←$ getNode idx page_id;
      if is_leaf node then
        let node1 := insertIntoLeaf node key record_id in
        if max_keys_ idx <? N.of_nat (length (keys node1))
        then splitLeaf idx page_id node1
        else saved ←$ saveNode idx page_id node1; ret no_split
      else
        let child_index :=
          clamp_child_index node (findChildIndex node key) in
        child ←$ lift (at_index (children node) child_index);
        result ←$ insertInternal fuel' idx child key record_id;
        if negb (result.2 =? 0) then
          let node1 := insertIntoInternal node result.1 result.2 child_index in
          if max_keys_ idx <? N.of_nat (length (keys node1))
          then splitInternal idx page_id node1
          else saved ←$ saveNode idx page_id node1; ret no_split
        else saved ←$ saveNode idx page_id node; ret no_split
  end.

Fixpoint findLeaf (fuel : nat) (idx : t) (page_id : PageId) (key : Value)
    : M PageId :=
  match fuel with
  | O => raise OutOfFuel
  | S fuel' =>
      node ←$ getNode idx page_id;
      if is_leaf node then ret page_id
      else
        let child_index :=
          clamp_child_index node (findChildIndex node key) in
        child ←$ lift (at_index (children node) child_index);
        findLeaf fuel' idx child key
  end.

Definition insert (fuel : nat) (idx : t) (key : Value) (record_id : RecordId)
    : M t :=
  idx1 ←$ (if root_page_id_ idx =? 0
           then root ←$ createNewNode idx true; ret (set_root idx root)
           else ret idx);
  result ←$ insertInternal fuel idx1 (root_page_id_ idx1) key record_id;
  if negb (result.2 =? 0) then
    new_root ←$ createNewNode idx1 false;
    root_node ←$ getNode idx1 new_root;
    let root_node' :=
      {| is_leaf := is_leaf root_node;
         keys := keys root_node ++ [result.1];
         children := children root_node ++ [root_page_id_ idx1; result.2];
         records := records root_node;
         next_leaf := next_leaf root_node |} in
    saved ←$ saveNode idx1 new_root root_node';
    ret (set_root idx1 new_root)
  else ret idx1.

(** The scan of one leaf in [search]. *)
Fixpoint collect_equal (key : Value) (ks : list Value) (rs : list RecordId)
    (i : nat) : outcome (list RecordId) :=
  match ks with
  | [] => Ret []
  | k :: ks' =>
      if value_eqb k key
      then r ←! at_index rs i; rest ←! collect_equal key ks' rs (S i); Ret (r :: rest)
      else collect_equal key ks' rs (S i)
  end.

Definition search (fuel : nat) (idx : t) (key : Value) : M (list RecordId) :=
  if root_page_id_ idx =? 0 then ret []
  else
    leaf_page ←$ findLeaf fuel idx (root_page_id_ idx) key;
    leaf_node ←$ getNode idx leaf_page;
    lift (collect_equal key (keys leaf_node) (records leaf_node) 0).

(** The scan of one leaf in [rangeSearch]: the record ids it adds, and
    whether a key above [end_key] ended the whole search. *)
Fixpoint collect_range (start_key end_key : Value) (ks : list Value)
    (rs : list RecordId) (i : nat) : outcome (list RecordId * bool) :=
  match ks with
  | [] => Ret ([], false)
  | k :: ks' =>
      pushed ←! (if (0 <=? compareValues k start_key)%Z
                      && (compareValues k end_key <=? 0)%Z
                   then r ←! at_index rs i; Ret [r]
                   else Ret []);
      if (0 <? compareValues k end_key)%Z then Ret (pushed, true)
      else
        '(rest, stop) ←! collect_range start_key end_key ks' rs (S i);
        Ret (pushed ++ rest, stop)
  end.

Fixpoint rangeSearch_loop (fuel : nat) (idx : t) (start_key end_key : Value)
    (leaf_page : PageId) (results : list RecordId) : M (list RecordId) :=
  match fuel with
  | O => raise OutOfFuel
  | S fuel' =>
      if leaf_page =? 0 then ret results
      else
        leaf_node ←$ getNode idx leaf_page;
        found ←$ lift (collect_range start_key end_key (keys leaf_node)
                         (records leaf_node) 0);
        if found.2 then ret (results ++ found.1)
        else rangeSearch_loop fuel' idx start_key end_key (next_leaf leaf_node)
               (results ++ found.1)
  end.

Definition rangeSearch (fuel : nat) (idx : t) (start_key end_key : Value)
    : M (list RecordId) :=
  if root_page_id_ idx =? 0 then ret []
  else
    leaf_page ←$ findLeaf fuel idx (root_page_id_ idx) start_key;
    rangeSearch_loop fuel idx start_key end_key leaf_page [].

End BPlusTreeIndex.

(** ** Doubles, for the aggregates *)

(** [static_cast<double>] of an unsigned 64-bit integer (round to nearest;
    above 2^63 through the halved value with a sticky low bit). *)
Definition double_of_N (n : N) : float :=
  if n <? 2 ^ 63 then PrimFloat.of_uint63 (Uint63.of_Z (Z.of_N n))
  else PrimFloat.mul
         (PrimFloat.of_uint63 (Uint63.of_Z (Z.of_N (N.lor (n / 2) (n mod 2)))))
         2%float.

(** [static_cast<double>] of a signed integer *)
Definition double_of_Z (z : Z) : float :=
  if (z <? 0)%Z then PrimFloat.opp (double_of_N (Z.to_N (- z)))
  else double_of_N (Z.to_N z).

(** [m * 2^e] for an integer [m] below 2^53 (exact unless it underflows,
    which the uses below exclude) *)
Definition scale2 (m : N) (e : Z) : float :=
  PrimFloat.ldshiftexp (double_of_N m) (Uint63.of_Z (e + 2101)).

(** The value of a bit pattern with [ebits] exponent and [mbits] fraction
    bits, as a double (exact for binary32 and binary64). *)
Definition double_of_fp (ebits mbits : N) (bits : N) : float :=
  let fraction := bits mod 2 ^ mbits in
  let exponent := (bits / 2 ^ mbits) mod 2 ^ ebits in
  let bias := Z.of_N (2 ^ (ebits - 1) - 1 + mbits) in
  let magnitude :=
    if exponent =? 2 ^ ebits - 1
    then (if fraction =? 0 then PrimFloat.infinity else PrimFloat.nan)
    else if exponent =? 0 then scale2 fraction (1 - bias)
    else scale2 (2 ^ mbits + fraction) (Z.of_N exponent - bias) in
  if (bits / 2 ^ (ebits + mbits)) mod 2 =? 0 then magnitude
  else PrimFloat.opp magnitude.

(** ** The column store *)

Module DiskBasedColumn.

Record t := mkColumn {
  name_ : string;
  type_ : DataType;
  data_file_ : string;
  index_ : BPlusTreeIndex.t;
  total_records_ : N;
  records_per_page_ : N
}.

Definition getRecordSize (type : DataType) : N :=
  match type with
  | INT32 => 4 | INT64 => 8 | FLOAT => 4 | DOUBLE => 8 | STRING => 256 | BOOL => 1
  end.

Definition create (name : string) (type : DataType) : t :=
  {| name_ := name; type_ := type;
     data_file_ := name ++ ".data";
     index_ := BPlusTreeIndex.create (name ++ ".idx") type;
     total_records_ := 0;
     records_per_page_ := PAGE_SIZE / getRecordSize type |}.

Definition size (c : t) : N := total_records_ c.
Definition getName (c : t) : string := name_ c.
Definition getType (c : t) : DataType := type_ c.

Definition writeValueToPage (c : t) (page_data : list N) (offset : N)
    (value : Value) : outcome (list N) :=
  bytes ←! value_bytes (type_ c) value;
  poke page_data (wrap64 (offset * getRecordSize (type_ c))) bytes.

Definition readValueFromPage (c : t) (page_data : list N) (offset : N)
    : outcome Value :=
  bytes ←! peek page_data (wrap64 (offset * getRecordSize (type_ c)))
             (value_width (type_ c));
  Ret (value_of_bytes (type_ c) bytes).

Definition getNumericValue (c : t) (value : Value) : outcome float :=
  match type_ c with
  | INT32 => z ←! std_get_int32 value; Ret (double_of_Z z)
  | INT64 => z ←! std_get_int64 value; Ret (double_of_Z z)
  | FLOAT => b ←! std_get_float value; Ret (double_of_fp 8 23 b)
  | DOUBLE => b ←! std_get_double value; Ret (double_of_fp 11 52 b)
  | _ => Ret 0%float
  end.

Definition append (fuel : nat) (c : t) (value : Value) : M (RecordId * t) :=
  let record_id := total_records_ c in
  let page_id := record_id / records_per_page_ c in
  let offset := record_id mod records_per_page_ c in
  page ←$ fetch (data_file_ c) page_id;
  bytes ←$ lift (writeValueToPage c (data page) offset value);
  stored ←$ with_pool (BufferPoolManager.store (data_file_ c) page_id
                         (written page bytes));
  index ←$ BPlusTreeIndex.insert fuel (index_ c) value record_id;
  flushed ←$ (if ((total_records_ c <? 5) || (total_records_ c mod 10000 =? 0))
                 && (total_records_ c mod 1000 =? 0)
              then with_pool (BufferPoolManager.flushPage (data_file_ c) page_id)
              else ret tt);
  ret (record_id,
       {| name_ := name_ c; type_ := type_ c; data_file_ := data_file_ c;
          index_ := index;
          total_records_ := wrap64 (total_records_ c + 1);
          records_per_page_ := records_per_page_ c |}).

Definition get (c : t) (record_id : RecordId) : M Value :=
  let page_id := record_id / records_per_page_ c in
  let offset := record_id mod records_per_page_ c in
  page ←$ fetch (data_file_ c) page_id;
  lift (readValueFromPage c (data page) offset).

Definition findRecords (fuel : nat) (c : t) (value : Value) : M (list RecordId) :=
  BPlusTreeIndex.search fuel (index_ c) value.

Definition findRecordsInRange (fuel : nat) (c : t) (start end_ : Value)
    : M (list RecordId) :=
  BPlusTreeIndex.rangeSearch fuel (index_ c) start end_.

(** The inner loop of [sum] over the records [i .. end_record) of one page. *)
Fixpoint sum_page (count : nat) (c : t) (page_data : list N)
    (i start_record : N) (result : float) : outcome float :=
  match count with
  | O => Ret result
  | S count' =>
      val ←! readValueFromPage c page_data (i - start_record);
      x ←! getNumericValue c val;
      sum_page count' c page_data (i + 1) start_record (PrimFloat.add result x)
  end.

Fixpoint sum_loop (fuel : nat) (c : t) (page_id : PageId) (result : float)
    : M float :=
  match fuel with
  | O => raise OutOfFuel
  | S fuel' =>
      if wrap64 (page_id * records_per_page_ c) <? total_records_ c then
        page ←$ fetch (data_file_ c) page_id;
        let start_record := wrap64 (page_id * records_per_page_ c) in
        let end_record :=
          N.min (wrap64 (start_record + records_per_page_ c)) (total_records_ c) in
        result' ←$ lift (sum_page (N.to_nat (end_record - start_record)) c
                           (data page) start_record start_record result);
        sum_loop fuel' c (wrap64 (page_id + 1)) result'
      else ret result
  end.

Definition sum (fuel : nat) (c : t) : M float := sum_loop fuel c 0 0%float.

Definition average (fuel : nat) (c : t) : M float :=
  if total_records_ c =? 0 then ret 0%float
  else
    s ←$ sum fuel c;
    ret (PrimFloat.div s (double_of_N (total_records_ c))).

End DiskBasedColumn.

(** ** Tables *)

Abbreviation Row := (gmap string Value) (only parsing).

Definition default_value (type : DataType) : Value :=
  match type with
  | INT32 => VInt32 0
  | INT64 => VInt64 0
  | FLOAT => VFloat 0
  | DOUBLE => VDouble 0
  | STRING => VString ""
  | BOOL => VBool false
  end.

Module DiskBasedTable.

Record t := mkTable {
  name_ : string;
  table_path_ : string;
  columns_ : gmap string DiskBasedColumn.t;
  column_order_ : list string;
  row_count_ : N
}.

Definition create (name : string) : t :=
  {| name_ := name; table_path_ := name; columns_ := ∅; column_order_ := [];
     row_count_ := 0 |}.

Definition getName (tb : t) : string := name_ tb.
Definition getRowCount (tb : t) : N := row_count_ tb.
Definition getColumnNames (tb : t) : list string := column_order_ tb.

Definition getColumn (tb : t) (name : string) : option DiskBasedColumn.t :=
  columns_ tb !! name.

Definition set_column (tb : t) (name : string) (c : DiskBasedColumn.t) : t :=
  {| name_ := name_ tb; table_path_ := table_path_ tb;
     columns_ := <[name := c]> (columns_ tb);
     column_order_ := column_order_ tb; row_count_ := row_count_ tb |}.

(** The back-filling loop of [addColumn]. *)
Fixpoint append_defaults (fuel : nat) (count : nat) (c : DiskBasedColumn.t)
    (type : DataType) : M DiskBasedColumn.t :=
  match count with
  | O => ret c
  | S count' =>
      r ←$ DiskBasedColumn.append fuel c (default_value type);
      append_defaults fuel count' r.2 type
  end.

Definition addColumn (fuel : nat) (tb : t) (name : string) (type : DataType)
    : M t :=
  match columns_ tb !! name with
  | Some _ => raise (RuntimeError ("Column already exists: " ++ name))
  | None =>
      let column := DiskBasedColumn.create (table_path_ tb ++ "/" ++ name) type in
      column' ←$ append_defaults fuel (N.to_nat (row_count_ tb)) column type;
      ret {| name_ := name_ tb; table_path_ := table_path_ tb;
             columns_ := <[name := column']> (columns_ tb);
             column_order_ := column_order_ tb ++ [name];
             row_count_ := row_count_ tb |}
  end.

(** The loop of [insertRow] over [column_order_]; [columns_[col_name]] on a
    name that is not a key yields a null pointer, which is then dereferenced. *)
Fixpoint insertRow_loop (fuel : nat) (names : list string) (tb : t)
    (row_data : Row) : M t :=
  match names with
  | [] => ret tb
  | col_name :: names' =>
      match columns_ tb !! col_name with
      | None => raise OutOfRange
      | Some column =>
          let value :=
            match row_data !! col_name with
            | Some v => v
            | None => default_value (DiskBasedColumn.getType column)
            end in
          r ←$ DiskBasedColumn.append fuel column value;
          insertRow_loop fuel names' (set_column tb col_name r.2) row_data
      end
  end.

Definition insertRow (fuel : nat) (tb : t) (row_data : Row) : M t :=
  tb' ←$ insertRow_loop fuel (column_order_ tb) tb row_data;
  ret {| name_ := name_ tb'; table_path_ := table_path_ tb';
         columns_ := columns_ tb'; column_order_ := column_order_ tb';
         row_count_ := wrap64 (row_count_ tb' + 1) |}.

Fixpoint bulkInsert (fuel : nat) (tb : t) (rows : list Row) : M t :=
  match rows with
  | [] => ret tb
  | row :: rows' =>
      tb' ←$ insertRow fuel tb row;
      flushed ←$ (if row_count_ tb' mod 1000 =? 0
                  then with_pool BufferPoolManager.flushAllPages
                  else ret tt);
      bulkInsert fuel tb' rows'
  end.

(** One result row: the selected columns that exist, read at [record_id]. *)
Fixpoint build_row (tb : t) (cols : list string) (record_id : RecordId)
    (row : Row) : M Row :=
  match cols with
  | [] => ret row
  | col_name :: cols' =>
      match getColumn tb col_name with
      | Some col =>
          v ←$ DiskBasedColumn.get col record_id;
          build_row tb cols' record_id (<[col_name := v]> row)
      | None => build_row tb cols' record_id row
      end
  end.

Fixpoint build_rows (tb : t) (cols : list string) (record_ids : list RecordId)
    : M (list Row) :=
  match record_ids with
  | [] => ret []
  | record_id :: record_ids' =>
      row ←$ build_row tb cols record_id ∅;
      rest ←$ build_rows tb cols record_ids';
      ret (row :: rest)
  end.

Definition indexedSelect (fuel : nat) (tb : t) (index_column : string)
    (value : Value) (selected_columns : list string) : M (list Row) :=
  match getColumn tb index_column with
  | None => ret []
  | Some column =>
      record_ids ←$ DiskBasedColumn.findRecords fuel column value;
      let cols := match selected_columns with
                  | [] => column_order_ tb
                  | _ => selected_columns
                  end in
      build_rows tb cols record_ids
  end.

Definition rangeSelect (fuel : nat) (tb : t) (index_column : string)
    (start_value end_value : Value) (selected_columns : list string)
    : M (list Row) :=
  match getColumn tb index_column with
  | None => ret []
  | Some column =>
      record_ids ←$ DiskBasedColumn.findRecordsInRange fuel column
                      start_value end_value;
      let cols := match selected_columns with
                  | [] => column_order_ tb
                  | _ => selected_columns
                  end in
      build_rows tb cols record_ids
  end.

End DiskBasedTable.


(** * Specification-level definitions *)

(** ** Buffer pool: client operations and the residency invariant *)

Inductive pool_op :=
| Fetch (filename : string) (page_id : PageId)
| Flush (filename : string) (page_id : PageId)
| FlushAll
| WriteThrough (filename : string) (page_id : PageId) (bytes : list N).

(** [WriteThrough] is what every client of the pool does with a page: fetch
    it, overwrite its bytes through the handle, set [is_dirty]. *)
Definition run_pool_op (bp : BufferPoolManager.t) (op : pool_op)
    : BufferPoolManager.t :=
  match op with
  | Fetch f p => (BufferPoolManager.fetchPage f p bp).2
  | Flush f p => BufferPoolManager.flushPage f p bp
  | FlushAll => BufferPoolManager.flushAllPages bp
  | WriteThrough f p bytes =>
      let '(page, bp') := BufferPoolManager.fetchPage f p bp in
      BufferPoolManager.store f p (written page bytes) bp'
  end.

Definition run_pool_ops (bp : BufferPoolManager.t) (ops : list pool_op)
    : BufferPoolManager.t :=
  foldl run_pool_op bp ops.

(** The residency map and the LRU list hold the same keys, each once, and
    no more than the pool allows. *)
Definition pool_inv (bp : BufferPoolManager.t) : Prop :=
  BufferPoolManager.pool_size_ bp = BUFFER_POOL_SIZE
  ∧ NoDup (BufferPoolManager.lru_list_ bp)
  ∧ dom (BufferPoolManager.pages_ bp)
    = list_to_set (C := gset BufferPoolManager.key) (BufferPoolManager.lru_list_ bp)
  ∧ (size (BufferPoolManager.pages_ bp) ≤ N.to_nat BUFFER_POOL_SIZE)%nat.

Definition no_dirty_page (bp : BufferPoolManager.t) : Prop :=
  ∀ k page, BufferPoolManager.pages_ bp !! k = Some page → is_dirty page = false.

(** ** Tables: client operations and the equal-length invariant *)

Inductive table_op :=
| AddColumn (name : string) (type : DataType)
| InsertRow (row_data : Row)
| BulkInsert (rows : list Row).

Definition run_table_op (fuel : nat) (tb : DiskBasedTable.t) (op : table_op)
    : M DiskBasedTable.t :=
  match op with
  | AddColumn name type => DiskBasedTable.addColumn fuel tb name type
  | InsertRow row_data => DiskBasedTable.insertRow fuel tb row_data
  | BulkInsert rows => DiskBasedTable.bulkInsert fuel tb rows
  end.

Fixpoint run_table_ops (fuel : nat) (tb : DiskBasedTable.t) (ops : list table_op)
    : M DiskBasedTable.t :=
  match ops with
  | [] => ret tb
  | op :: ops' =>
      tb' ←$ run_table_op fuel tb op;
      run_table_ops fuel tb' ops'
  end.



(** The entries of a row whose name is a declared column. *)
Definition declared_entries (tb : DiskBasedTable.t) (row_data : Row) : Row :=
  filter (λ entry, entry.1 ∈ DiskBasedTable.column_order_ tb) row_data.

(** ** What a file holds, seen through the pool

    [view bp f p] is what a fetch of page [p] of file [f] yields: the resident
    copy if there is one, else what the disk manager reads. *)

Definition page_sized (bytes : list N) : Prop :=
  length bytes = N.to_nat PAGE_SIZE.

Definition disk_page (dm : DiskManager.t) (f : string) (p : PageId) : list N :=
  (DiskManager.readPage f p dm).1.

Definition view (bp : BufferPoolManager.t) (f : string) (p : PageId) : list N :=
  match BufferPoolManager.pages_ bp !! (f, p) with
  | Some page => data page
  | None => disk_page (BufferPoolManager.disk_manager_ bp) f p
  end.

(** Page ids whose byte offset [page_id * PAGE_SIZE] is a valid file
    position (below 2^63). *)
Definition addressable (p : PageId) : Prop := p < 2 ^ 51.

(** Every page of the file is a full page. *)
Definition file_sized (bp : BufferPoolManager.t) (f : string) : Prop :=
  (∀ i bytes,
     DiskManager.contents
       (DiskManager.getFileStream f (BufferPoolManager.disk_manager_ bp)) !! i
     = Some bytes → page_sized bytes)
  ∧ ∀ p page, BufferPoolManager.pages_ bp !! (f, p) = Some page →
              page_sized (data page).

(** The file is in good order: its stream has not failed, its resident pages
    are addressable, and a resident page that is not dirty equals its image on
    disk. *)
Definition file_ok (bp : BufferPoolManager.t) (f : string) : Prop :=
  file_sized bp f
  ∧ DiskManager.failbit
      (DiskManager.getFileStream f (BufferPoolManager.disk_manager_ bp)) = false
  ∧ ∀ p page, BufferPoolManager.pages_ bp !! (f, p) = Some page →
      addressable p
      ∧ (is_dirty page = false →
         data page = disk_page (BufferPoolManager.disk_manager_ bp) f p).

(** Going from [bp] to [bp'] kept every file that was in good order so, and
    what its addressable pages hold. *)
Definition same_views (bp bp' : BufferPoolManager.t) : Prop :=
  ∀ f, file_ok bp f →
       file_ok bp' f ∧ ∀ p, addressable p → view bp' f p = view bp f p.

(** The same, except that page [p0] of file [f0] now holds [bytes]. *)
Definition views_updated (f0 : string) (p0 : PageId) (bytes : list N)
    (bp bp' : BufferPoolManager.t) : Prop :=
  ∀ f, file_ok bp f →
       file_ok bp' f
       ∧ ∀ p, addressable p →
              view bp' f p = if decide ((f, p) = (f0, p0)) then bytes
                             else view bp f p.

(** A column laid out as [DiskBasedColumn.create] does. *)
Definition column_layout (c : DiskBasedColumn.t) : Prop :=
  DiskBasedColumn.records_per_page_ c
  = PAGE_SIZE / DiskBasedColumn.getRecordSize (DiskBasedColumn.type_ c).

(** ** Values on the wire *)

(** The values a column of the declared type can be given. *)
Definition has_type (type : DataType) (v : Value) : Prop :=
  match type, v with
  | INT32, VInt32 z => (- 2 ^ 31 ≤ z < 2 ^ 31)%Z
  | INT64, VInt64 z => (- 2 ^ 63 ≤ z < 2 ^ 63)%Z
  | FLOAT, VFloat bits => bits < 2 ^ 32
  | DOUBLE, VDouble bits => bits < 2 ^ 64
  | STRING, VString _ => True
  | BOOL, VBool _ => True
  | _, _ => False
  end.

(** The bytes of a value of the declared type. *)
Definition enc (type : DataType) (v : Value) : list N :=
  match value_bytes type v with
  | Ret bytes => bytes
  | Fail _ => []
  end.

(** A value as it comes back from its wire form: unchanged, except that a
    string is cut to 255 bytes and at its first NUL. *)
Definition stored (type : DataType) (v : Value) : Value :=
  value_of_bytes type (enc type v).

(** The strings the 256-byte wire form holds in full. *)
Definition string_fits (s : string) : Prop :=
  (String.length s ≤ 255)%nat
  ∧ Forall (λ a, a ≠ Ascii.zero) (list_ascii_of_string s).

(** The bytes of a page holding a leaf with the given keys, record ids and
    successor. *)
Definition leaf_image (type : DataType) (ks : list Value) (rs : list RecordId)
    (next : PageId) : list N :=
  let flat :=
    [1] ++ le_bytes 4 (data_type_code type)
        ++ le_bytes 8 (N.of_nat (length ks))
        ++ concat (map (enc type) ks)
        ++ concat (map (le_bytes 8) rs)
        ++ le_bytes 8 next in
  flat ++ replicate (N.to_nat PAGE_SIZE - length flat) 0.

(** Bytes a serialized leaf of [n] keys takes. *)
Definition leaf_size (type : DataType) (n : nat) : nat :=
  (13 + n * value_width type + n * 8 + 8)%nat.

Definition leaf_node (ks : list Value) (rs : list RecordId) (next : PageId)
    : BPlusTreeNode :=
  {| is_leaf := true; keys := ks; children := []; records := rs;
     next_leaf := next |}.

Fixpoint until_zero (cs : list ascii) : list ascii :=
  match cs with
  | [] => []
  | c :: cs' => if decide (c = Ascii.zero) then [] else c :: until_zero cs'
  end.

(** What the 256-byte wire form keeps of a string: at most 255 bytes, up to
    the first NUL. *)
Definition wire_string (s : string) : string :=
  string_of_list_ascii (until_zero (take 255 (list_ascii_of_string s))).

Definition as_stored (v : Value) : Value :=
  match v with
  | VString s => VString (wire_string s)
  | _ => v
  end.

(** Values that are their own wire form. *)
Definition normal (type : DataType) (v : Value) : Prop :=
  has_type type v ∧ ∀ s, v = VString s → string_fits s.

(** ** Calls that return *)

(** The call [m] in world [w] returns normally, with a result and a world
    that satisfy [Q]. *)
Definition returns {A} (m : M A) (w : World) (Q : A → World → Prop) : Prop :=
  ∃ a w', m w = Ret (a, w') ∧ Q a w'.

(** File [f] is in good order and its addressable pages hold [c]. *)
Definition file_is (w : World) (f : string) (c : PageId → list N) : Prop :=
  file_ok (buffer_manager w) f
  ∧ ∀ p, addressable p → view (buffer_manager w) f p = c p.

(** [c] with page [p0] replaced by [bytes] *)
Definition with_page (p0 : PageId) (bytes : list N) (c : PageId → list N)
    : PageId → list N :=
  λ p, if decide (p = p0) then bytes else c p.

(** Going from [w] to [w'] left every file but [f] as it was. *)
Definition only_file (f : string) (w w' : World) : Prop :=
  ∀ f' c, f' ≠ f → file_is w f' c → file_is w' f' c.

(** ** What an index holds

    In the states the column store reaches, the tree is its root leaf: the
    root page deserializes to the leaf with entries [es] (a blank page reads
    as the empty leaf). Pages from [next_page_id] on have not been handed
    out and are blank. *)

(** The check [saveNode] makes before it writes. *)
Definition node_consistent (node : BPlusTreeNode) : Prop :=
  if is_leaf node then length (keys node) = length (records node)
  else length (children node) = (length (keys node) + 1)%nat.

Definition index_holds (idx : BPlusTreeIndex.t) (w : World)
    (es : list (Value * RecordId)) : Prop :=
  let root := BPlusTreeIndex.root_page_id_ idx in
  let ty := BPlusTreeIndex.key_type_ idx in
  BPlusTreeIndex.max_keys_ idx = 127
  ∧ Forall (normal ty) es.*1
  ∧ Forall (λ r, r < 2 ^ 64) es.*2
  ∧ (length es ≤ 127)%nat
  ∧ root < next_page_id w
  ∧ ∃ c, file_is w (BPlusTreeIndex.index_name_ idx) c
         ∧ (∀ p, next_page_id w ≤ p → c p = zero_page)
         ∧ if root =? 0 then es = []
           else BPlusTreeIndex.parse_node 127 (c root)
                = Ret (leaf_node es.*1 es.*2 0).

(** Where [insertIntoLeaf] puts a new entry among [es]. *)
Definition leaf_insert (key : Value) (record_id : RecordId)
    (es : list (Value * RecordId)) : list (Value * RecordId) :=
  insert_at (lower_bound (BPlusTreeIndex.key_less key) es.*1)
            (as_stored key, record_id) es.

(** The entries of the root leaf after one more insertion: a leaf that
    would exceed 127 keys is split, and the search then starts from a blank
    root page. *)
Definition index_step (key : Value) (record_id : RecordId)
    (es : list (Value * RecordId)) : list (Value * RecordId) :=
  if decide (length es < 127)%nat then leaf_insert key record_id es else [].

(** ** Ordered keys *)

Definition not_nan (v : Value) : Prop :=
  match v with
  | VFloat bits => fp_is_nan 8 23 bits = false
  | VDouble bits => fp_is_nan 11 52 bits = false
  | _ => True
  end.

(** The values of the declared type that [operator<] orders totally and
    that are their own wire form: no NaN, and strings of at most 255 bytes
    without NUL. *)
Definition comparable (type : DataType) (v : Value) : Prop :=
  normal type v ∧ not_nan v.

(** [lo ≤ v ≤ hi], in terms of [operator<] *)
Definition in_range (lo hi v : Value) : bool :=
  negb (value_ltb v lo) && negb (value_ltb hi v).

(** Ascending key, and descending record id among equal keys. *)
Definition entry_before (a b : Value * RecordId) : Prop :=
  value_ltb a.1 b.1 = true ∨ (value_eqb a.1 b.1 = true ∧ b.2 < a.2).

(** The record ids, in ascending order, of the appended values equal to [v]. *)
Definition records_equal (v : Value) (vs : list Value) : list RecordId :=
  (filter (λ e, value_eqb e.1 v = true)
          (zip vs (N.of_nat <$> seq 0 (length vs)))).*2.

(** What the scan of [rangeSearch] collects from the entries of one leaf. *)
Fixpoint range_scan (lo hi : Value) (es : list (Value * RecordId))
    : list RecordId * bool :=
  match es with
  | [] => ([], false)
  | e :: es' =>
      let pushed :=
        if (0 <=? BPlusTreeIndex.compareValues e.1 lo)%Z
           && (BPlusTreeIndex.compareValues e.1 hi <=? 0)%Z
        then [e.2] else [] in
      if (0 <? BPlusTreeIndex.compareValues e.1 hi)%Z then (pushed, true)
      else (pushed ++ (range_scan lo hi es').1, (range_scan lo hi es').2)
  end.

(** ** Columns *)

(** The appends of [vs], in order, to a column. *)
Fixpoint run_appends (fuel : nat) (c : DiskBasedColumn.t) (vs : list Value)
    : M DiskBasedColumn.t :=
  match vs with
  | [] => ret c
  | v :: vs' =>
      r ←$ DiskBasedColumn.append fuel c v;
      run_appends fuel r.2 vs'
  end.

(** The entries of the index's root leaf after the appends of [vs] to a new
    column whose first record id is [first]. *)
Fixpoint index_entries (es : list (Value * RecordId)) (first : N)
    (vs : list Value) : list (Value * RecordId) :=
  match vs with
  | [] => es
  | v :: vs' => index_entries (index_step v first es) (first + 1) vs'
  end.

(** The records of a column are [vs]: the data file holds their bytes in
    their slots, and the index holds [es]. *)
Definition column_holds (c : DiskBasedColumn.t) (w : World) (vs : list Value)
    (es : list (Value * RecordId)) : Prop :=
  let ty := DiskBasedColumn.type_ c in
  column_layout c
  ∧ DiskBasedColumn.data_file_ c
    ≠ BPlusTreeIndex.index_name_ (DiskBasedColumn.index_ c)
  ∧ BPlusTreeIndex.key_type_ (DiskBasedColumn.index_ c) = ty
  ∧ DiskBasedColumn.total_records_ c = N.of_nat (length vs)
  ∧ Forall (has_type ty) vs
  ∧ index_holds (DiskBasedColumn.index_ c) w es
  ∧ ∃ cd, file_is w (DiskBasedColumn.data_file_ c) cd
          ∧ ∀ (r : nat) v, vs !! r = Some v →
              peek (cd (N.of_nat r / DiskBasedColumn.records_per_page_ c))
                   ((N.of_nat r mod DiskBasedColumn.records_per_page_ c)
                    * DiskBasedColumn.getRecordSize ty)
                   (value_width ty)
              = Ret (enc ty v).

(** A world in which a column can be created under [name]: its two files
    are in good order, and no index page from [next_page_id] on has been
    written. *)
Definition column_ready (name : string) (w : World) : Prop :=
  0 < next_page_id w
  ∧ (∃ cd, file_is w (name ++ ".data") cd)
  ∧ ∃ ci, file_is w (name ++ ".idx") ci
          ∧ ∀ p, next_page_id w ≤ p → ci p = zero_page.

(** Records a leaf of the declared type can hold on one page: all 127 that
    the order allows, except for 256-byte strings. *)
Definition leaf_capacity (type : DataType) : nat :=
  match type with
  | STRING => 15
  | _ => 127
  end.

(** The root leaf [es] of the index of a column that holds [done], while
    no leaf has been split: the entries are the records, ordered by
    [entry_before], and the entries with a given key list their record ids
    from the latest to the earliest. *)
Definition entries_of (type : DataType) (done : list Value)
    (es : list (Value * RecordId)) : Prop :=
  Forall (comparable type) es.*1
  ∧ StronglySorted entry_before es
  ∧ NoDup es.*2
  ∧ length es = length done
  ∧ (∀ k r, (k, r) ∈ es ↔ done !! N.to_nat r = Some k)
  ∧ ∀ v, (filter (λ e, value_eqb e.1 v = true) es).*2
         = reverse (records_equal v done).

(** The result of a call, without the world it leaves. *)
Definition result_of {A} (m : M A) (w : World) : outcome A :=
  match m w with
  | Ret (a, _) => Ret a
  | Fail e => Fail e
  end.

(** ** Sample data *)

(** The keys 1, 2, ..., n *)
Definition first_keys (n : nat) : list Value :=
  VInt32 <$> (Z.of_nat <$> seq 1 n).

(** A string of 256 letters *)
Definition long_note : string := string_of_list_ascii (replicate 256 "a"%char).

(** A table with one column, as [addColumn] builds it, and no rows. *)
Definition employees : DiskBasedTable.t :=
  {| DiskBasedTable.name_ := "employees";
     DiskBasedTable.table_path_ := "employees";
     DiskBasedTable.columns_ :=
       {[ "id" := DiskBasedColumn.create "employees/id" INT32 ]};
     DiskBasedTable.column_order_ := ["id"];
     DiskBasedTable.row_count_ := 0 |}.


(** * Further properties of the engine: definitions *)

(** ** Buffer pool *)

(** Pool operations that only read and flush: no client writes a page. *)
Definition reads_only (op : pool_op) : Prop :=
  match op with
  | Fetch _ p => addressable p
  | Flush _ _ => True
  | FlushAll => True
  | WriteThrough _ _ _ => False
  end.

(** The pages [0 .. n-1] of one file, fetched in this order. *)
Definition fetch_first (f : string) (n : nat) : list pool_op :=
  (λ i, Fetch f (N.of_nat i)) <$> seq 0 n.

(** ** Index nodes *)

(** An internal node with the given keys and children. *)
Definition internal_node (ks : list Value) (cs : list PageId) : BPlusTreeNode :=
  {| is_leaf := false; keys := ks; children := cs; records := [];
     next_leaf := 0 |}.

(** The bytes of a page holding an internal node. *)
Definition internal_image (type : DataType) (ks : list Value) (cs : list PageId)
    : list N :=
  let flat :=
    [0] ++ le_bytes 4 (data_type_code type)
        ++ le_bytes 8 (N.of_nat (length ks))
        ++ concat (map (enc type) ks)
        ++ concat (map (le_bytes 8) cs) in
  flat ++ replicate (N.to_nat PAGE_SIZE - length flat) 0.

(** Bytes a serialized internal node of [n] keys takes. *)
Definition internal_size (type : DataType) (n : nat) : nat :=
  (13 + n * value_width type + (n + 1) * 8)%nat.

(** Keys in non-decreasing order, in terms of [operator<] *)
Definition non_decreasing (ks : list Value) : Prop :=
  StronglySorted (λ a b, value_ltb b a = false) ks.

(** ** Columns *)

(** The slots of the data pages [cd] from record [n] on hold zeros. *)
Definition blank_from (c : DiskBasedColumn.t) (cd : PageId → list N) (n : N)
    : Prop :=
  ∀ r, n ≤ r → addressable (r / DiskBasedColumn.records_per_page_ c) →
       peek (cd (r / DiskBasedColumn.records_per_page_ c))
            (r mod DiskBasedColumn.records_per_page_ c
             * DiskBasedColumn.getRecordSize (DiskBasedColumn.type_ c))
            (value_width (DiskBasedColumn.type_ c))
       = Ret (replicate (value_width (DiskBasedColumn.type_ c)) 0).

(** A world in which a column can be created under [name] and nothing has
    been written to its data file. *)
Definition column_new (name : string) (w : World) : Prop :=
  column_ready name w
  ∧ ∀ cd, file_is w (name ++ ".data") cd →
          ∀ p, addressable p → cd p = zero_page.

(** The number [getNumericValue] takes from a value of the column's type. *)
Definition as_double (v : Value) : float :=
  match v with
  | VInt32 z => double_of_Z z
  | VInt64 z => double_of_Z z
  | VFloat bits => double_of_fp 8 23 bits
  | VDouble bits => double_of_fp 11 52 bits
  | VString _ => 0%float
  | VBool _ => 0%float
  end.

(** The running sum of [sum()]: left to right, in double arithmetic. *)
Definition running_sum (start : float) (vs : list Value) : float :=
  foldl (λ acc v, PrimFloat.add acc (as_double v)) start vs.

(** ** Tables *)

(** The declared columns of a table, in declaration order. *)
Abbreviation Schema := (list (string * DataType)) (only parsing).

Definition add_columns (schema : Schema) : list table_op :=
  (λ column, AddColumn column.1 column.2) <$> schema.

Definition insert_rows (rows : list Row) : list table_op := InsertRow <$> rows.

(** The value [insertRow] appends to the column [name] of type [type]: the
    entry of the row, or the default of the type when the row has none. *)
Definition cell (type : DataType) (row : Row) (name : string) : Value :=
  match row !! name with
  | Some v => v
  | None => default_value type
  end.

Definition column_values (type : DataType) (name : string) (rows : list Row)
    : list Value :=
  (λ row, cell type row name) <$> rows.

(** Every entry of the row for a declared column is of the column's type. *)
Definition row_typed (schema : Schema) (row : Row) : Prop :=
  ∀ name type, (name, type) ∈ schema → has_type type (cell type row name).

Definition schema_type (schema : Schema) (name : string) : option DataType :=
  (list_to_map schema : gmap string DataType) !! name.

(** The result row a select builds for a stored row: for each selected
    name that is a declared column, the stored value of the row's cell. *)
Definition selected_row (schema : Schema) (cols : list string) (row : Row)
    : Row :=
  foldl (λ (m : gmap string Value) name,
           match schema_type schema name with
           | Some type => <[name := as_stored (cell type row name)]> m
           | None => m
           end) ∅ cols.

(** The columns a select projects on: all declared ones when none is named *)
Definition projection (schema : Schema) (selected_columns : list string)
    : list string :=
  match selected_columns with
  | [] => schema.*1
  | _ => selected_columns
  end.

(** A column of the table at [path], as [addColumn] names its files. *)
Definition column_of (path name : string) (type : DataType)
    (c : DiskBasedColumn.t) : Prop :=
  DiskBasedColumn.type_ c = type
  ∧ DiskBasedColumn.data_file_ c = (path +:+ "/" +:+ name) +:+ ".data"
  ∧ BPlusTreeIndex.index_name_ (DiskBasedColumn.index_ c)
    = (path +:+ "/" +:+ name) +:+ ".idx".

(** The table holds [rows]: each declared column holds its cells of the rows,
    in order. [rows_of name] are the rows the column [name] holds. *)
Definition columns_hold (tb : DiskBasedTable.t) (w : World) (schema : Schema)
    (rows_of : string → list Row) : Prop :=
  (∀ name, is_Some (DiskBasedTable.columns_ tb !! name) → name ∈ schema.*1)
  ∧ ∀ name type, (name, type) ∈ schema →
      ∃ c, DiskBasedTable.columns_ tb !! name = Some c
           ∧ column_of (DiskBasedTable.table_path_ tb) name type c
           ∧ column_holds c w (column_values type name (rows_of name))
               (index_entries [] 0 (column_values type name (rows_of name))).

Definition table_holds (tb : DiskBasedTable.t) (w : World) (schema : Schema)
    (rows : list Row) : Prop :=
  DiskBasedTable.column_order_ tb = schema.*1
  ∧ NoDup schema.*1
  ∧ DiskBasedTable.row_count_ tb = N.of_nat (length rows)
  ∧ columns_hold tb w schema (λ _, rows).

(** A world in which the columns of [schema] can be created for the table
    at [path]. *)
Definition table_ready (path : string) (schema : Schema) (w : World) : Prop :=
  ∀ name type, (name, type) ∈ schema → column_ready (path +:+ "/" +:+ name) w.

(** The rows do not overfill the leaf of a string column's index. *)
Definition strings_fit (schema : Schema) (n : nat) : Prop :=
  ∀ name, (name, STRING) ∈ schema → (n ≤ 15)%nat.

(** The row stored under a record id (the empty row outside the table). *)
Definition row_at (rows : list Row) (record_id : RecordId) : Row :=
  default ∅ (rows !! N.to_nat record_id).

(** The files the columns of [schema] use, for the table at [path]. *)
Definition table_file (path : string) (schema : list (string * DataType))
    (f : string) : Prop :=
  ∃ name type, (name, type) ∈ schema
    ∧ (f = (path +:+ "/" +:+ name) +:+ ".data"
       ∨ f = (path +:+ "/" +:+ name) +:+ ".idx").

(** ** The database: named tables over one disk manager and buffer pool *)

Module LargeScaleDatabase.

(** [disk_manager_] and [buffer_manager_], which the constructor makes and
    every table of the database shares, are the [World] the operations run
    in. *)
Record t := mkDatabase {
  name_ : string;
  db_path_ : string;
  tables_ : gmap string DiskBasedTable.t
}.

Definition create (name db_path : string) : t :=
  {| name_ := name; db_path_ := db_path; tables_ := ∅ |}.

Definition createTable (db : t) (table_name : string) : M t :=
  match tables_ db !! table_name with
  | Some _ => raise (RuntimeError ("Table already exists: " +:+ table_name))
  | None =>
      ret {| name_ := name_ db; db_path_ := db_path_ db;
             tables_ := <[table_name := DiskBasedTable.create table_name]>
                          (tables_ db) |}
  end.

Definition getTable (db : t) (table_name : string) : option DiskBasedTable.t :=
  tables_ db !! table_name.

Definition dropTable (db : t) (table_name : string) : t :=
  {| name_ := name_ db; db_path_ := db_path_ db;
     tables_ := delete table_name (tables_ db) |}.

Definition optimize (db : t) : M unit :=
  with_pool BufferPoolManager.flushAllPages.

End LargeScaleDatabase.

(** What a client does with a database. [OnTable] is the client's
    [getTable] followed by calls on the table it points to; on a name that
    is not a table the pointer is null and the calls dereference it. *)
Inductive database_op :=
| CreateTable (table_name : string)
| DropTable (table_name : string)
| OnTable (table_name : string) (ops : list table_op)
| Optimize.

Definition run_database_op (fuel : nat) (db : LargeScaleDatabase.t)
    (op : database_op) : M LargeScaleDatabase.t :=
  match op with
  | CreateTable table_name => LargeScaleDatabase.createTable db table_name
  | DropTable table_name => ret (LargeScaleDatabase.dropTable db table_name)
  | OnTable table_name ops =>
      match LargeScaleDatabase.getTable db table_name with
      | None => raise OutOfRange
      | Some tb =>
          tb' ←$ run_table_ops fuel tb ops;
          ret {| LargeScaleDatabase.name_ := LargeScaleDatabase.name_ db;
                 LargeScaleDatabase.db_path_ := LargeScaleDatabase.db_path_ db;
                 LargeScaleDatabase.tables_ :=
                   <[table_name := tb']> (LargeScaleDatabase.tables_ db) |}
      end
  | Optimize =>
      flushed ←$ LargeScaleDatabase.optimize db;
      ret db
  end.

Fixpoint run_database_ops (fuel : nat) (db : LargeScaleDatabase.t)
    (ops : list database_op) : M LargeScaleDatabase.t :=
  match ops with
  | [] => ret db
  | op :: ops' =>
      db' ←$ run_database_op fuel db op;
      run_database_ops fuel db' ops'
  end.

(** A sample table: three declared columns and three rows, the second
    lacking a name. *)
Definition staff_schema : list (string * DataType) :=
  [("id", INT32); ("name", STRING); ("dept", INT32)].

Definition staff_rows : list (gmap string Value) :=
  [ {[ "id" := VInt32 1; "name" := VString "Ann"; "dept" := VInt32 5 ]};
    {[ "id" := VInt32 2; "dept" := VInt32 3 ]};
    {[ "id" := VInt32 3; "name" := VString "Eve"; "dept" := VInt32 5 ]} ].

(** A second sample table. *)
Definition depts_schema : list (string * DataType) :=
  [("dept", INT32); ("title", STRING)].

Definition depts_rows : list (gmap string Value) :=
  [ {[ "dept" := VInt32 3; "title" := VString "Lab" ]};
    {[ "dept" := VInt32 5 ]} ].


(** * Proofs *)

(** ** The buffer pool *)

Section buffer_pool.
Import BufferPoolManager.

Lemma erase_first_elem (k x : key) (l : list key) :
  NoDup l → x ∈ erase_first k l ↔ x ∈ l ∧ x ≠ k.
Proof.
  induction l as [|y l IH]; simpl; intros Hnd.
  - set_solver.
  - apply list.NoDup_cons in Hnd as [Hy Hnd]. case_decide as Hyk.
    + subst y. set_solver.
    + rewrite !elem_of_cons, IH by done. naive_solver.
Qed.

Lemma erase_first_NoDup (k : key) (l : list key) :
  NoDup l → NoDup (erase_first k l).
Proof.
  induction l as [|y l IH]; simpl; intros Hnd; [done|].
  apply list.NoDup_cons in Hnd as [Hy Hnd]. case_decide; [done|].
  apply list.NoDup_cons. split; [|auto].
  rewrite erase_first_elem by done. tauto.
Qed.

Lemma pool_inv_size (bp : t) :
  pool_inv bp → size (pages_ bp) = length (lru_list_ bp).
Proof.
  intros (_ & Hnd & Hdom & _).
  rewrite <- size_dom, Hdom. by apply size_list_to_set.
Qed.

Lemma pool_inv_create (dm : DiskManager.t) : pool_inv (create dm).
Proof.
  split; [done|]. split; [constructor|]. split; simpl.
  - by rewrite dom_empty_L.
  - rewrite map_size_empty. lia.
Qed.

Lemma updateLRU_inv (f : string) (p : PageId) (bp : t) :
  pool_inv bp → pool_inv (updateLRU f p bp).
Proof.
  intros Hinv. pose proof Hinv as (Hsz & Hnd & Hdom & Hle).
  unfold updateLRU. case_decide as Hin; [|done].
  split; [done|]. split; [|split; [|done]]; simpl.
  - apply list.NoDup_cons. split; [|by apply erase_first_NoDup].
    rewrite erase_first_elem by done. tauto.
  - rewrite Hdom. apply set_eq. intros x.
    rewrite elem_of_union, elem_of_singleton, !elem_of_list_to_set,
      erase_first_elem by done.
    destruct (decide (x = (f, p))); naive_solver.
Qed.

Lemma flushPage_pages_dom (f : string) (p : PageId) (bp : t) :
  dom (pages_ (flushPage f p bp)) = dom (pages_ bp).
Proof.
  unfold flushPage. destruct (pages_ bp !! (f, p)) as [pg|] eqn:E; [|done].
  destruct (is_dirty pg); [|done]. simpl.
  rewrite dom_insert_L. apply elem_of_dom_2 in E. set_solver.
Qed.

Lemma flushPage_inv (f : string) (p : PageId) (bp : t) :
  pool_inv bp → pool_inv (flushPage f p bp).
Proof.
  intros (Hsz & Hnd & Hdom & Hle).
  assert (Hd := flushPage_pages_dom f p bp).
  assert (lru_list_ (flushPage f p bp) = lru_list_ bp
          ∧ pool_size_ (flushPage f p bp) = pool_size_ bp) as [Hl Hp].
  { unfold flushPage. destruct (pages_ bp !! (f, p)) as [pg|]; [|done].
    by destruct (is_dirty pg). }
  split; [by rewrite Hp|]. split; [by rewrite Hl|].
  split; [by rewrite Hd, Hl|]. by rewrite <- size_dom, Hd, size_dom.
Qed.

Lemma flushAllPages_inv (bp : t) : pool_inv bp → pool_inv (flushAllPages bp).
Proof.
  intros (Hsz & Hnd & Hdom & Hle).
  split; [done|]. split; [done|]. split; simpl.
  - by rewrite dom_fmap_L.
  - by rewrite map_size_fmap.
Qed.

Lemma flushAllPages_clean (bp : t) : no_dirty_page (flushAllPages bp).
Proof.
  intros k pg. simpl. rewrite lookup_fmap.
  destruct (pages_ bp !! k); simpl; [|done]. by intros [= <-].
Qed.

Lemma store_inv (f : string) (p : PageId) (pg : Page) (bp : t) :
  pool_inv bp → pool_inv (store f p pg bp).
Proof.
  intros (Hsz & Hnd & Hdom & Hle). unfold store.
  destruct (pages_ bp !! (f, p)) as [old|] eqn:E; [|done].
  assert (dom (<[(f, p) := pg]> (pages_ bp)) = dom (pages_ bp)) as Hd.
  { rewrite dom_insert_L. apply elem_of_dom_2 in E. set_solver. }
  split; [done|]. split; [done|]. split; simpl.
  - by rewrite Hd.
  - by rewrite <- size_dom, Hd, size_dom.
Qed.

(** Eviction removes the key at the back of the list from both structures. *)
Lemma evictPage_inv (bp : t) :
  pool_inv bp → lru_list_ bp ≠ [] →
  pool_inv (evictPage bp)
  ∧ S (size (pages_ (evictPage bp))) = size (pages_ bp).
Proof.
  intros Hinv Hne. pose proof Hinv as (Hsz & Hnd & Hdom & Hle).
  destruct (lru_list_ bp) as [|k0 l0] eqn:El using rev_ind; [done|]. clear IHl0 Hne.
  rename k0 into k, l0 into l.
  unfold evictPage. rewrite El, last_snoc. destruct k as [f p].
  rewrite removelast_last.
  set (bp0 := {| pool_size_ := pool_size_ bp; pages_ := pages_ bp;
                 lru_list_ := l; disk_manager_ := disk_manager_ bp |}).
  assert (Hd := flushPage_pages_dom f p bp0).
  assert (lru_list_ (flushPage f p bp0) = l) as Hl.
  { unfold flushPage. destruct (pages_ bp0 !! (f, p)) as [pg|]; [|done].
    by destruct (is_dirty pg). }
  assert (pool_size_ (flushPage f p bp0) = BUFFER_POOL_SIZE) as Hps.
  { unfold flushPage. destruct (pages_ bp0 !! (f, p)) as [pg|]; [|done].
    by destruct (is_dirty pg). }
  apply list.NoDup_app in Hnd as (Hndl & Hnotin & _).
  assert ((f, p) ∉ l) as Hk by (intros ?; eapply Hnotin; [done|set_solver]).
  assert ((f, p) ∈ dom (pages_ (flushPage f p bp0))) as Hres.
  { rewrite Hd. simpl. rewrite Hdom, elem_of_list_to_set. set_solver. }
  assert (S (size (delete (f, p) (pages_ (flushPage f p bp0)))) = size (pages_ bp)) as Hs.
  { apply elem_of_dom in Hres.
    rewrite map_size_delete_Some by done.
    rewrite <- (size_dom (pages_ (flushPage _ _ _))), Hd, size_dom. simpl.
    assert (size (pages_ bp) ≠ 0)%nat; [|lia].
    rewrite <- size_dom, Hdom. intros Hz%size_empty_inv. set_solver. }
  split; [|done]. split; [done|]. split; [|split; [|simpl; lia]]; simpl.
  - by rewrite Hl.
  - rewrite Hl, dom_delete_L, Hd. simpl. rewrite Hdom, list_to_set_app_L. set_solver.
Qed.

Lemma fetchPage_inv (f : string) (p : PageId) (bp : t) :
  pool_inv bp → pool_inv (fetchPage f p bp).2.
Proof.
  intros Hinv. pose proof Hinv as (Hsz & Hnd & Hdom & Hle).
  unfold fetchPage. destruct (pages_ bp !! (f, p)) as [pg|] eqn:E.
  { simpl. by apply updateLRU_inv. }
  destruct (DiskManager.readPage f p (disk_manager_ bp)) as [bytes dm]. simpl.
  set (bp1 := {| pool_size_ := pool_size_ bp; pages_ := pages_ bp;
                 lru_list_ := lru_list_ bp; disk_manager_ := dm |}).
  assert (pool_inv bp1) as Hinv1 by done.
  set (bp2 := if pool_size_ bp <=? getTotalPages bp1 then evictPage bp1 else bp1).
  assert (pool_inv bp2 ∧ (size (pages_ bp2) < N.to_nat BUFFER_POOL_SIZE)%nat
          ∧ dom (pages_ bp2) ⊆ dom (pages_ bp)) as (Hinv2 & Hlt & Hsub).
  { unfold bp2. rewrite Hsz. unfold getTotalPages.
    destruct (N.leb_spec BUFFER_POOL_SIZE (N.of_nat (size (pages_ bp1)))) as [Hfull|Hroom].
    - assert (lru_list_ bp1 ≠ []) as Hne.
      { intros Hnil. rewrite (pool_inv_size bp1 Hinv1), Hnil in Hfull.
        unfold BUFFER_POOL_SIZE in Hfull. simpl in Hfull. lia. }
      destruct (evictPage_inv bp1 Hinv1 Hne) as [He Hs]. split; [done|].
      split; [simpl in *; lia|].
      unfold evictPage. destruct (list.last (lru_list_ bp1)) as [[f' p']|]; [|done].
      simpl. rewrite dom_delete_L, flushPage_pages_dom. simpl. set_solver.
    - split; [done|]. split; [simpl in *; lia|done]. }
  destruct Hinv2 as (Hsz2 & Hnd2 & Hdom2 & Hle2).
  assert ((f, p) ∉ dom (pages_ bp2)) as Hfresh.
  { intros Hin%Hsub. apply elem_of_dom in Hin as [x Hx]. by rewrite E in Hx. }
  split; [done|]. split; [|split]; simpl.
  - apply list.NoDup_cons. split; [|done].
    intros Hin. apply Hfresh. rewrite Hdom2, elem_of_list_to_set. done.
  - rewrite dom_insert_L, Hdom2. done.
  - rewrite map_size_insert_None; [lia|]. by apply not_elem_of_dom.
Qed.

Lemma run_pool_op_inv (bp : t) (op : pool_op) :
  pool_inv bp → pool_inv (run_pool_op bp op).
Proof.
  intros Hinv. destruct op as [f p|f p| |f p bytes]; simpl.
  - by apply fetchPage_inv.
  - by apply flushPage_inv.
  - by apply flushAllPages_inv.
  - pose proof (fetchPage_inv f p bp Hinv) as H.
    destruct (fetchPage f p bp) as [pg bp']. by apply store_inv.
Qed.

Lemma run_pool_ops_inv (ops : list pool_op) (bp : t) :
  pool_inv bp → pool_inv (run_pool_ops bp ops).
Proof.
  revert bp. induction ops as [|op ops IH]; intros bp Hinv; [done|].
  simpl. apply IH. by apply run_pool_op_inv.
Qed.

(** C5. Whatever sequence of page fetches, page flushes, full flushes and
    client writes a buffer pool has served since its creation, it holds at
    most [BUFFER_POOL_SIZE] = 1000 resident pages; and right after
    [flushAllPages] no resident page has its dirty flag set. *)
Theorem buffer_pool_residency_bounded_and_flush_cleans :
  ∀ (dm : DiskManager.t) (ops : list pool_op),
    let bp := run_pool_ops (create dm) ops in
    BUFFER_POOL_SIZE = 1000
    ∧ getTotalPages bp <= BUFFER_POOL_SIZE
    ∧ no_dirty_page (flushAllPages bp).
Proof.
  intros dm ops bp. split; [done|]. split.
  - destruct (run_pool_ops_inv ops (create dm) (pool_inv_create dm))
      as (_ & _ & _ & Hle).
    unfold getTotalPages. fold bp in Hle. lia.
  - apply flushAllPages_clean.
Qed.

End buffer_pool.


(** ** Reasoning about the monad *)

Lemma bind_Ret {A B} (m : M A) (f : A → M B) (w : World) (b : B) (w' : World) :
  bind m f w = Ret (b, w') →
  ∃ a w1, m w = Ret (a, w1) ∧ f a w1 = Ret (b, w').
Proof.
  unfold bind. destruct (m w) as [[a w1]|e]; [|done]. eauto.
Qed.

Lemma bind_eq {A B} (m : M A) (f : A → M B) (w : World) (a : A) (w1 : World) :
  m w = Ret (a, w1) → bind m f w = f a w1.
Proof. unfold bind. by intros ->. Qed.

Lemma lift_Ret {A} (o : outcome A) (w : World) (a : A) (w' : World) :
  lift o w = Ret (a, w') → o = Ret a ∧ w' = w.
Proof. unfold lift. destruct o; [|done]. by intros [= -> ->]. Qed.

Lemma obind_Ret {A B} (m : outcome A) (f : A → outcome B) (b : B) :
  obind m f = Ret b → ∃ a, m = Ret a ∧ f a = Ret b.
Proof. destruct m; [|done]. eauto. Qed.

(** Splits a hypothesis that a monadic computation returned into one
    hypothesis per step. *)
Ltac inv_bind H :=
  let a := fresh "a" in let w1 := fresh "w" in
  let H1 := fresh H "_" in
  first
    [ apply bind_Ret in H as (a & w1 & H1 & H)
    | apply obind_Ret in H as (a & H1 & H) ].

(** ** Tables *)

Section tables.
Import DiskBasedTable.

(** C8 (as the code has it). A select on an index column the table does
    not have returns normally, with no rows and the state untouched: the
    miss is not reported. *)
Theorem select_on_unknown_column_returns_no_rows :
  ∀ (fuel : nat) (tb : t) (index_column : string) (value lo hi : Value)
    (selected_columns : list string) (w : World),
    getColumn tb index_column = None →
    indexedSelect fuel tb index_column value selected_columns w = Ret ([], w)
    ∧ rangeSelect fuel tb index_column lo hi selected_columns w = Ret ([], w).
Proof.
  intros fuel tb index_column value lo hi selected_columns w Hmiss.
  unfold indexedSelect, rangeSelect. by rewrite Hmiss.
Qed.

Lemma insertRow_loop_agree (fuel : nat) (names : list string) (row1 row2 : Row) :
  (∀ name, name ∈ names → row1 !! name = row2 !! name) →
  ∀ tb w, insertRow_loop fuel names tb row1 w = insertRow_loop fuel names tb row2 w.
Proof.
  induction names as [|name names IH]; intros Hagree tb w; [done|].
  simpl. destruct (columns_ tb !! name) as [column|]; [|done].
  rewrite (Hagree name) by set_solver.
  unfold bind. destruct (DiskBasedColumn.append _ _ _ _) as [[r w1]|e]; [|done].
  apply IH. intros n Hn. apply Hagree. set_solver.
Qed.

Lemma insertRow_loop_frame (fuel : nat) (names : list string) (row_data : Row) :
  ∀ tb w tb' w',
    insertRow_loop fuel names tb row_data w = Ret (tb', w') →
    row_count_ tb' = row_count_ tb ∧ column_order_ tb' = column_order_ tb
    ∧ name_ tb' = name_ tb ∧ table_path_ tb' = table_path_ tb.
Proof.
  induction names as [|name names IH]; intros tb w tb' w' Hrun; simpl in Hrun.
  - by injection Hrun as <- <-.
  - destruct (columns_ tb !! name) as [column|]; [|done].
    inv_bind Hrun. by apply IH in Hrun.
Qed.

Lemma declared_entries_lookup (tb : t) (row_data : Row) (name : string) :
  name ∈ column_order_ tb →
  declared_entries tb row_data !! name = row_data !! name.
Proof.
  intros Hin. unfold declared_entries.
  destruct (row_data !! name) as [v|] eqn:E.
  - by apply map_lookup_filter_Some.
  - apply map_lookup_filter_None. left. done.
Qed.

(** C10. A call of [insertRow] does exactly what the same call does on the
    row without its entries for undeclared names, and when it returns the
    row count has gone up by one (as a 64-bit counter) and the declared
    columns are the same. *)
Theorem insertRow_ignores_undeclared_entries :
  ∀ (fuel : nat) (tb : t) (row_data : Row) (w : World),
    insertRow fuel tb row_data w
    = insertRow fuel tb (declared_entries tb row_data) w
    ∧ ∀ tb' w', insertRow fuel tb row_data w = Ret (tb', w') →
                getRowCount tb' = wrap64 (getRowCount tb + 1)
                ∧ getColumnNames tb' = getColumnNames tb.
Proof.
  intros fuel tb row_data w. split.
  - unfold insertRow, bind.
    rewrite (insertRow_loop_agree fuel _ row_data (declared_entries tb row_data)); [done|].
    intros name Hin. by rewrite declared_entries_lookup.
  - intros tb' w' Hrun. unfold insertRow in Hrun. inv_bind Hrun.
    apply insertRow_loop_frame in Hrun_ as (Hrc & Hco & _).
    injection Hrun as <- <-. unfold getRowCount, getColumnNames. simpl.
    by rewrite Hrc, Hco.
Qed.

Lemma append_fields (fuel : nat) (c : DiskBasedColumn.t) (v : Value) (w : World)
    (r : RecordId) (c' : DiskBasedColumn.t) (w' : World) :
  DiskBasedColumn.append fuel c v w = Ret ((r, c'), w') →
  r = DiskBasedColumn.total_records_ c
  ∧ DiskBasedColumn.total_records_ c' = wrap64 (DiskBasedColumn.total_records_ c + 1)
  ∧ DiskBasedColumn.type_ c' = DiskBasedColumn.type_ c
  ∧ DiskBasedColumn.name_ c' = DiskBasedColumn.name_ c
  ∧ DiskBasedColumn.data_file_ c' = DiskBasedColumn.data_file_ c
  ∧ DiskBasedColumn.records_per_page_ c' = DiskBasedColumn.records_per_page_ c.
Proof.
  unfold DiskBasedColumn.append. intros H.
  do 5 inv_bind H. by injection H as <- <- <-.
Qed.






Lemma with_pool_Ret (f : BufferPoolManager.t → BufferPoolManager.t) (w : World)
    (u : unit) (w' : World) :
  with_pool f w = Ret (u, w') →
  w' = {| buffer_manager := f (buffer_manager w); next_page_id := next_page_id w |}.
Proof. by intros [= <- <-]. Qed.





End tables.


(** ** Files seen through the pool *)

Section views.
Import BufferPoolManager.

Lemma zero_page_sized : page_sized zero_page.
Proof. unfold page_sized, zero_page. by rewrite length_replicate. Qed.

Lemma getFileStream_insert (f f' : string) (s : DiskManager.fstream)
    (dm : DiskManager.t) :
  DiskManager.getFileStream f' (<[f := s]> dm)
  = if decide (f = f') then s else DiskManager.getFileStream f' dm.
Proof.
  unfold DiskManager.getFileStream. rewrite lookup_insert.
  by case_decide.
Qed.

Lemma getFileStream_insert_same (f f' : string) (dm : DiskManager.t) :
  DiskManager.getFileStream f' (<[f := DiskManager.getFileStream f dm]> dm)
  = DiskManager.getFileStream f' dm.
Proof. rewrite getFileStream_insert. case_decide; by subst. Qed.

Lemma addressable_seek (p : PageId) :
  addressable p →
  DiskManager.seekable (DiskManager.seek_offset p) = true
  ∧ DiskManager.seek_offset p / PAGE_SIZE = p.
Proof.
  unfold addressable, DiskManager.seekable, DiskManager.seek_offset, wrap64, PAGE_SIZE.
  intros Hp. rewrite N.mod_small by lia. split.
  - apply N.ltb_lt. lia.
  - by rewrite N.div_mul.
Qed.

Lemma disk_page_good (dm : DiskManager.t) (f : string) (p : PageId) :
  DiskManager.failbit (DiskManager.getFileStream f dm) = false →
  addressable p →
  disk_page dm f p
  = default zero_page (DiskManager.contents (DiskManager.getFileStream f dm) !! p).
Proof.
  intros Hgood Hp. unfold disk_page, DiskManager.readPage.
  destruct (addressable_seek p Hp) as [-> ->]. by rewrite Hgood.
Qed.

(** Reading does not change what the streams hold, as long as the position
    asked for is addressable. *)
Lemma readPage_streams (f : string) (p : PageId) (dm : DiskManager.t) (f' : string) :
  (f' = f → addressable p) →
  DiskManager.getFileStream f' (DiskManager.readPage f p dm).2
  = DiskManager.getFileStream f' dm.
Proof.
  intros Hp. unfold DiskManager.readPage.
  destruct (DiskManager.failbit (DiskManager.getFileStream f dm)) eqn:Hfail; simpl.
  { apply getFileStream_insert_same. }
  destruct (DiskManager.seekable _) eqn:Hseek; simpl.
  { apply getFileStream_insert_same. }
  rewrite getFileStream_insert. case_decide as Hf; [|done]. subst f'.
  destruct (addressable_seek p (Hp eq_refl)) as [Hs _]. congruence.
Qed.

Lemma writePage_streams (f : string) (p : PageId) (page : Page) (dm : DiskManager.t)
    (f' : string) :
  (f' = f → addressable p) →
  DiskManager.getFileStream f' (DiskManager.writePage f p page dm)
  = if decide (f = f')
    then {| DiskManager.contents :=
              <[p := data page]> (DiskManager.contents (DiskManager.getFileStream f dm));
            DiskManager.failbit := false |}
    else DiskManager.getFileStream f' dm.
Proof.
  intros Hp. unfold DiskManager.writePage.
  destruct (DiskManager.seekable _) eqn:Hseek; rewrite getFileStream_insert;
    case_decide as Hf; try done; subst f'.
  - by destruct (addressable_seek p (Hp eq_refl)) as [_ ->].
  - destruct (addressable_seek p (Hp eq_refl)) as [Hs _]. congruence.
Qed.

(** [disk_page] depends on the disk manager only through the file's stream. *)
Lemma disk_page_ext (dm dm' : DiskManager.t) (f : string) (p : PageId) :
  DiskManager.getFileStream f dm' = DiskManager.getFileStream f dm →
  disk_page dm' f p = disk_page dm f p.
Proof.
  unfold disk_page, DiskManager.readPage. intros ->.
  destruct (DiskManager.failbit _); [done|]. by destruct (DiskManager.seekable _).
Qed.

Lemma view_sized (bp : t) (f : string) (p : PageId) :
  file_sized bp f → page_sized (view bp f p).
Proof.
  intros [Hdisk Hres]. unfold view.
  destruct (pages_ bp !! (f, p)) as [pg|] eqn:E; [by eapply Hres|].
  unfold disk_page, DiskManager.readPage.
  destruct (DiskManager.failbit _); [apply zero_page_sized|].
  destruct (DiskManager.seekable _); simpl; [|apply zero_page_sized].
  destruct (DiskManager.contents _ !! _) as [bytes|] eqn:Eb; simpl;
    [by eapply Hdisk|apply zero_page_sized].
Qed.

Lemma same_views_refl (bp : t) : same_views bp bp.
Proof. by intros f Hok. Qed.

Lemma same_views_trans (bp1 bp2 bp3 : t) :
  same_views bp1 bp2 → same_views bp2 bp3 → same_views bp1 bp3.
Proof.
  intros H12 H23 f Hok. destruct (H12 f Hok) as [Hok2 Hv2].
  destruct (H23 f Hok2) as [Hok3 Hv3]. split; [done|].
  intros p Hp. by rewrite Hv3, Hv2.
Qed.

(** [file_ok] and [view] only look at the pool's pages and the file's stream. *)
Lemma file_ok_ext (bp bp' : t) (f : string) :
  (∀ p, pages_ bp' !! (f, p) = pages_ bp !! (f, p)) →
  DiskManager.getFileStream f (disk_manager_ bp')
  = DiskManager.getFileStream f (disk_manager_ bp) →
  file_ok bp f →
  file_ok bp' f ∧ ∀ p, view bp' f p = view bp f p.
Proof.
  intros Hpages Hstream ((Hdisk & Hres) & Hgood & Hclean).
  assert (∀ p, disk_page (disk_manager_ bp') f p = disk_page (disk_manager_ bp) f p)
    as Hdp by (intros p; by apply disk_page_ext).
  split.
  - split; [split|split].
    + intros i bytes. rewrite Hstream. apply Hdisk.
    + intros p pg. rewrite Hpages. apply Hres.
    + by rewrite Hstream.
    + intros p pg. rewrite Hpages, Hdp. apply Hclean.
  - intros p. unfold view. by rewrite Hpages, Hdp.
Qed.

Lemma updateLRU_same_views (f : string) (p : PageId) (bp : t) :
  same_views bp (updateLRU f p bp).
Proof.
  unfold updateLRU. case_decide; [|apply same_views_refl].
  intros f' Hok. destruct (file_ok_ext bp _ f' (λ _, eq_refl) eq_refl Hok) as [? Hv].
  split; [done|]. intros p' _. apply Hv.
Qed.

Lemma flushPage_same_views (f : string) (p : PageId) (bp : t) :
  same_views bp (flushPage f p bp).
Proof.
  unfold flushPage.
  destruct (pages_ bp !! (f, p)) as [pg|] eqn:E; [|apply same_views_refl].
  destruct (is_dirty pg) eqn:Hdirty; [|apply same_views_refl].
  intros f' Hok. destruct (decide (f' = f)) as [->|Hf].
  - destruct Hok as ((Hdisk & Hres) & Hgood & Hclean).
    destruct (Hclean p pg E) as [Hp _].
    assert (∀ q, addressable q →
              disk_page (DiskManager.writePage f p pg (disk_manager_ bp)) f q
              = if decide (q = p) then data pg else disk_page (disk_manager_ bp) f q)
      as Hdp.
    { intros q Hq. rewrite !disk_page_good; try done.
      - rewrite writePage_streams by done. rewrite decide_True by done. simpl.
        rewrite lookup_insert. destruct (decide (p = q)), (decide (q = p)); by subst.
      - rewrite writePage_streams by done. by rewrite decide_True. }
    split.
    + split; [split|split]; simpl.
      * intros i bytes. rewrite writePage_streams by done.
        rewrite decide_True by done. simpl. rewrite lookup_insert.
        case_decide; [intros [= <-]; by eapply Hres|apply Hdisk].
      * intros q pg'. rewrite lookup_insert. case_decide as Hq.
        -- intros [= <-]. simpl. by eapply Hres.
        -- apply Hres.
      * rewrite writePage_streams by done. by rewrite decide_True.
      * intros q pg'. rewrite lookup_insert. case_decide as Hq.
        -- injection Hq as <-. intros [= <-]. split; [done|]. intros _. simpl.
           by rewrite Hdp, decide_True.
        -- intros Hpg'. destruct (Hclean q pg' Hpg') as [Hq' Hcl]. split; [done|].
           intros Hnd. rewrite Hdp by done. rewrite decide_False by congruence. auto.
    + intros q Hq. unfold view. simpl. rewrite lookup_insert. case_decide as Hqp.
      * injection Hqp as <-. by rewrite E.
      * destruct (pages_ bp !! (f, q)); [done|].
        rewrite Hdp by done. by rewrite decide_False by congruence.
  - assert (∀ q, <[(f, p) := clean pg]> (pages_ bp) !! (f', q) = pages_ bp !! (f', q))
      as Hpages by (intros q; apply lookup_insert_ne; congruence).
    destruct (file_ok_ext bp
                {| pool_size_ := pool_size_ bp;
                   pages_ := <[(f, p) := clean pg]> (pages_ bp);
                   lru_list_ := lru_list_ bp;
                   disk_manager_ :=
                     DiskManager.writePage f p pg (disk_manager_ bp) |}
                f' Hpages) as [Hok' Hv]; [|done|].
    + simpl. unfold DiskManager.writePage.
      destruct (DiskManager.seekable _); rewrite getFileStream_insert;
        by rewrite decide_False by done.
    + split; [done|]. intros q _. apply Hv.
Qed.

Lemma flushPage_clean (f : string) (p : PageId) (bp : t) (pg : Page) :
  pages_ (flushPage f p bp) !! (f, p) = Some pg → is_dirty pg = false.
Proof.
  unfold flushPage. destruct (pages_ bp !! (f, p)) as [pg0|] eqn:E; [|by rewrite E].
  destruct (is_dirty pg0) eqn:Hd; simpl.
  - rewrite lookup_insert_eq. by intros [= <-].
  - rewrite E. by intros [= <-].
Qed.

Lemma flushPage_absent (f : string) (p : PageId) (bp : t) (k : string * N) :
  pages_ bp !! k = None → pages_ (flushPage f p bp) !! k = None.
Proof.
  intros Hk. unfold flushPage. destruct (pages_ bp !! (f, p)) as [pg0|] eqn:E; [|done].
  destruct (is_dirty pg0); [|done]. simpl.
  rewrite lookup_insert_ne; [done|]. intros <-. by rewrite E in Hk.
Qed.

(** Dropping a resident page that is not dirty changes no view. *)
Lemma drop_clean_same_views (f : string) (p : PageId) (bp : t) (lru : list (string * N)) :
  (∀ pg, pages_ bp !! (f, p) = Some pg → is_dirty pg = false) →
  same_views bp {| pool_size_ := pool_size_ bp;
                   pages_ := delete (f, p) (pages_ bp);
                   lru_list_ := lru;
                   disk_manager_ := disk_manager_ bp |}.
Proof.
  intros Hcl f' Hok. destruct (decide (f' = f)) as [->|Hf].
  - pose proof Hok as ((Hdisk & Hres) & Hgood & Hclean). split.
    + split; [split|split]; simpl; [done| |done|].
      * intros q pg. rewrite lookup_delete. case_decide; [done|]. apply Hres.
      * intros q pg. rewrite lookup_delete. case_decide; [done|]. apply Hclean.
    + intros q Hq. unfold view. simpl. rewrite lookup_delete. case_decide as Hqp; [|done].
      injection Hqp as <-. destruct (pages_ bp !! (f, p)) as [pg|] eqn:E; [|done].
      symmetry. apply (Hclean p pg E). by apply Hcl.
  - eapply file_ok_ext in Hok as [Hok' Hv]; [split; [exact Hok'|]|..].
    + intros q _. apply Hv.
    + intros q. simpl. apply lookup_delete_ne. congruence.
    + done.
Qed.

Lemma evictPage_same_views (bp : t) : same_views bp (evictPage bp).
Proof.
  unfold evictPage. destruct (list.last (lru_list_ bp)) as [[f p]|]; [|apply same_views_refl].
  set (bp0 := {| pool_size_ := pool_size_ bp; pages_ := pages_ bp;
                 lru_list_ := removelast (lru_list_ bp);
                 disk_manager_ := disk_manager_ bp |}).
  eapply same_views_trans; [|eapply same_views_trans].
  - instantiate (1 := bp0). intros f' Hok.
    destruct (file_ok_ext bp bp0 f' (λ _, eq_refl) eq_refl Hok) as [? Hv].
    split; [done|]. intros q _. apply Hv.
  - apply (flushPage_same_views f p).
  - apply drop_clean_same_views. apply flushPage_clean.
Qed.

Lemma evictPage_absent (bp : t) (k : string * N) :
  pages_ bp !! k = None → pages_ (evictPage bp) !! k = None.
Proof.
  intros Hk. unfold evictPage.
  destruct (list.last (lru_list_ bp)) as [[f p]|]; [|done]. simpl.
  rewrite lookup_delete. case_decide; [done|]. by apply flushPage_absent.
Qed.

(** What [fetchPage] hands out is the view of the page; the page is resident
    afterwards, and no view has changed. *)
Lemma fetchPage_spec (f : string) (p : PageId) (bp : t) :
  (file_ok bp f → addressable p) →
  same_views bp (fetchPage f p bp).2
  ∧ data (fetchPage f p bp).1 = view bp f p
  ∧ pages_ (fetchPage f p bp).2 !! (f, p) = Some (fetchPage f p bp).1.
Proof.
  intros Hp. unfold fetchPage, view.
  destruct (pages_ bp !! (f, p)) as [pg|] eqn:E; simpl.
  { split; [apply updateLRU_same_views|]. split; [done|].
    unfold updateLRU. by case_decide. }
  unfold disk_page.
  destruct (DiskManager.readPage f p (disk_manager_ bp)) as [bytes dm] eqn:Hread.
  simpl.
  set (bp1 := {| pool_size_ := pool_size_ bp; pages_ := pages_ bp;
                 lru_list_ := lru_list_ bp; disk_manager_ := dm |}).
  set (bp2 := if pool_size_ bp <=? getTotalPages bp1 then evictPage bp1 else bp1).
  split; [|split; [done|by rewrite lookup_insert_eq]].
  assert (same_views bp bp1) as H01.
  { intros f' Hok. eapply file_ok_ext in Hok as [Hok' Hv]; [split; [exact Hok'|]|..].
    - intros q _. apply Hv.
    - done.
    - simpl. replace dm with (DiskManager.readPage f p (disk_manager_ bp)).2
        by (by rewrite Hread).
      apply readPage_streams. intros ->. auto. }
  assert (same_views bp1 bp2) as H12.
  { unfold bp2. destruct (_ <=? _); [apply evictPage_same_views|apply same_views_refl]. }
  assert (pages_ bp2 !! (f, p) = None) as Habs.
  { unfold bp2. destruct (_ <=? _); [by apply evictPage_absent|done]. }
  pose proof (same_views_trans _ _ _ H01 H12) as H02.
  intros f' Hok. destruct (H02 f' Hok) as [Hok2 Hv2].
  destruct (decide (f' = f)) as [->|Hf].
  - pose proof Hok2 as ((Hdisk & Hres) & Hgood & Hclean).
    assert (disk_page (disk_manager_ bp2) f p = bytes) as Hbytes.
    { specialize (Hv2 p (Hp Hok)). unfold view in Hv2.
      rewrite Habs, E in Hv2. rewrite Hv2. unfold disk_page. by rewrite Hread. }
    split.
    + split; [split|split]; simpl; [done| |done|].
      * intros q pg. rewrite lookup_insert. case_decide as Hq; [|apply Hres].
        intros [= <-]. simpl. rewrite <- Hbytes.
        pose proof (view_sized bp2 f p (conj Hdisk Hres)) as Hs.
        unfold view in Hs. by rewrite Habs in Hs.
      * intros q pg. rewrite lookup_insert. case_decide as Hq; [|apply Hclean].
        injection Hq as <-. intros [= <-]. split; [auto|done].
    + intros q Hq. rewrite <- Hv2 by done. unfold view. simpl.
      rewrite lookup_insert. case_decide as Hqp; [|done].
      injection Hqp as <-. by rewrite Habs.
  - eapply file_ok_ext in Hok2 as [Hok' Hv]; [split; [exact Hok'|]|..].
    + intros q Hq. rewrite Hv. by apply Hv2.
    + intros q. simpl. apply lookup_insert_ne. congruence.
    + done.
Qed.

(** A write through the handle of a resident page changes that page's view
    and no other. *)
Lemma store_views (f : string) (p : PageId) (page : Page) (bytes : list N) (bp : t) :
  is_Some (pages_ bp !! (f, p)) →
  (file_ok bp f → addressable p ∧ page_sized bytes) →
  views_updated f p bytes bp (store f p (written page bytes) bp).
Proof.
  intros [old Hold] Hp f' Hok. unfold store. rewrite Hold.
  destruct (decide (f' = f)) as [->|Hf].
  - pose proof Hok as ((Hdisk & Hres) & Hgood & Hclean).
    destruct (Hp Hok) as [Hadd Hsz]. split.
    + split; [split|split]; simpl; [done| |done|].
      * intros q pg. rewrite lookup_insert. case_decide as Hq; [|apply Hres].
        by intros [= <-].
      * intros q pg. rewrite lookup_insert. case_decide as Hq; [|apply Hclean].
        injection Hq as <-. by intros [= <-].
    + intros q Hq. unfold view. simpl. rewrite lookup_insert.
      destruct (decide ((f, p) = (f, q))) as [[= <-]|Hne].
      * by rewrite decide_True.
      * rewrite decide_False; [done|congruence].
  - eapply file_ok_ext in Hok as [Hok' Hv]; [split; [exact Hok'|]|..].
    + intros q _. rewrite Hv. rewrite decide_False; [done|congruence].
    + intros q. simpl. apply lookup_insert_ne. congruence.
    + done.
Qed.

End views.


(** ** Bytes *)

Lemma length_le_bytes (w : nat) (n : N) : length (le_bytes w n) = w.
Proof. revert n. induction w as [|w IH]; intros n; simpl; [done|]. by rewrite IH. Qed.

Lemma le_value_le_bytes (w : nat) (n : N) :
  le_value (le_bytes w n) = n mod 256 ^ N.of_nat w.
Proof.
  revert n. induction w as [|w IH]; intros n.
  - simpl. by rewrite N.mod_1_r.
  - cbn [le_bytes le_value]. rewrite IH.
    replace (N.of_nat (S w)) with (N.succ (N.of_nat w)) by lia.
    rewrite N.pow_succ_r'.
    rewrite (N.Div0.mod_mul_r n 256 (256 ^ N.of_nat w)). lia.
Qed.

Lemma le_value_le_bytes_small (w : nat) (n : N) :
  n < 256 ^ N.of_nat w → le_value (le_bytes w n) = n.
Proof. intros Hn. rewrite le_value_le_bytes. by apply N.mod_small. Qed.

Lemma int_of_bits_int_bits (w : nat) (z : Z) :
  (0 < w)%nat →
  (- 2 ^ Z.of_nat (8 * w - 1) ≤ z < 2 ^ Z.of_nat (8 * w - 1))%Z →
  int_of_bits w (int_bits w z) = z
  ∧ int_bits w z < 256 ^ N.of_nat w.
Proof.
  intros Hw Hz. unfold int_of_bits, int_bits.
  assert (2 ^ Z.of_nat (8 * w) = 2 * 2 ^ Z.of_nat (8 * w - 1))%Z as Hpow.
  { rewrite <- Z.pow_succ_r by lia. f_equal. lia. }
  assert (0 < 2 ^ Z.of_nat (8 * w - 1))%Z as Hpos by (apply Z.pow_pos_nonneg; lia).
  assert (Z.of_N (2 ^ N.of_nat (8 * w - 1)) = 2 ^ Z.of_nat (8 * w - 1))%Z as HN.
  { rewrite N2Z.inj_pow. f_equal. lia. }
  assert (Z.of_N (256 ^ N.of_nat w) = 2 ^ Z.of_nat (8 * w))%Z as HN'.
  { rewrite N2Z.inj_pow. change (Z.of_N 256) with (2 ^ 8)%Z.
    rewrite <- Z.pow_mul_r by lia. f_equal. lia. }
  pose proof (Z.mod_pos_bound z (2 ^ Z.of_nat (8 * w))%Z ltac:(lia)) as Hmod.
  split; [|lia].
  destruct (Z.ltb_spec z 0) as [Hneg|Hnn].
  - assert (z mod 2 ^ Z.of_nat (8 * w) = z + 2 ^ Z.of_nat (8 * w))%Z as ->.
    { symmetry. apply Z.mod_unique_pos with (q := (-1)%Z); lia. }
    destruct (N.ltb_spec (Z.to_N (z + 2 ^ Z.of_nat (8 * w)))
                (2 ^ N.of_nat (8 * w - 1))); lia.
  - rewrite Z.mod_small by lia.
    destruct (N.ltb_spec (Z.to_N z) (2 ^ N.of_nat (8 * w - 1))); lia.
Qed.

Lemma poke_Ret (data : list N) (offset : N) (src : list N) :
  (N.to_nat offset + length src ≤ length data)%nat →
  poke data offset src
  = Ret (take (N.to_nat offset) data ++ src
           ++ drop (N.to_nat offset + length src) data).
Proof. intros H. unfold poke. by rewrite decide_True. Qed.

Lemma poke_length (data : list N) (offset : N) (src data' : list N) :
  poke data offset src = Ret data' → length data' = length data.
Proof.
  unfold poke. case_decide as H; [|done]. intros [= <-].
  rewrite !length_app, length_take, length_drop. lia.
Qed.

Lemma peek_Ret (data : list N) (offset : N) (len : nat) :
  (N.to_nat offset + len ≤ length data)%nat →
  peek data offset len = Ret (take len (drop (N.to_nat offset) data)).
Proof. intros H. unfold peek. by rewrite decide_True. Qed.

(** Reading the middle of three concatenated pieces. *)
Lemma peek_app (a b c : list N) (offset : N) (len : nat) :
  N.to_nat offset = length a → len = length b →
  peek (a ++ b ++ c) offset len = Ret b.
Proof.
  intros Ho Hl. rewrite peek_Ret by (rewrite !length_app; lia).
  rewrite Ho, drop_app_length, Hl. by rewrite take_app_length.
Qed.

(** Writing right behind what has been written so far on a zeroed page. *)
Lemma poke_zeros (pre src : list N) (k : nat) (offset : N) :
  N.to_nat offset = length pre → (length src ≤ k)%nat →
  poke (pre ++ replicate k 0) offset src
  = Ret ((pre ++ src) ++ replicate (k - length src) 0).
Proof.
  intros Ho Hk. rewrite poke_Ret by (rewrite length_app, length_replicate; lia).
  rewrite Ho, take_app_length, drop_app_add'  by done.
  rewrite drop_replicate. by rewrite <- app_assoc.
Qed.

Lemma poke_same (data : list N) (offset : N) (src data' : list N) :
  poke data offset src = Ret data' →
  peek data' offset (length src) = Ret src.
Proof.
  unfold poke. case_decide as H; [|done]. intros [= <-].
  apply peek_app; [|done]. rewrite length_take. lia.
Qed.

Lemma poke_other (data : list N) (offset : N) (src data' : list N)
    (offset' : N) (len : nat) :
  poke data offset src = Ret data' →
  (N.to_nat offset' + len ≤ N.to_nat offset)%nat
  ∨ (N.to_nat offset + length src ≤ N.to_nat offset')%nat →
  peek data' offset' len = peek data offset' len.
Proof.
  intros Hpoke Hdisj. pose proof (poke_length _ _ _ _ Hpoke) as Hlen.
  unfold poke in Hpoke. case_decide as H; [|done]. injection Hpoke as <-.
  unfold peek. rewrite Hlen. case_decide as Hin; [|done]. f_equal.
  apply list_eq. intros i. rewrite !lookup_take, !lookup_drop.
  case_decide as Hi; [|done].
  destruct Hdisj as [Hbefore|Hafter].
  - rewrite lookup_app_l by (rewrite length_take; lia).
    rewrite lookup_take. by rewrite decide_True by lia.
  - rewrite lookup_app_r by (rewrite length_take; lia).
    rewrite lookup_app_r by (rewrite length_take; lia).
    rewrite lookup_drop, length_take. f_equal. lia.
Qed.

(** ** Values on the wire *)

Arguments le_bytes : simpl never.
Arguments le_value : simpl never.
Arguments string_bytes : simpl never.
Arguments N.pow : simpl never.
Arguments Z.pow : simpl never.

Lemma N_of_ascii_zero (a : ascii) : N_of_ascii a = 0 ↔ a = Ascii.zero.
Proof.
  split; [|by intros ->].
  intros H. rewrite <- (ascii_N_embedding a), H. done.
Qed.

Lemma until_nul_ascii (cs : list ascii) (rest : list N) :
  until_nul (map N_of_ascii cs ++ 0 :: rest) = map N_of_ascii (until_zero cs).
Proof.
  induction cs as [|c cs IH]; simpl; [done|].
  destruct (N.eqb_spec (N_of_ascii c) 0) as [Hz|Hnz].
  - apply N_of_ascii_zero in Hz. by rewrite decide_True.
  - rewrite decide_False by (by intros ->). simpl. by rewrite IH.
Qed.

Lemma length_string_bytes (s : string) : length (string_bytes s) = 256%nat.
Proof.
  unfold string_bytes. rewrite length_app, length_map, length_replicate.
  rewrite length_take. lia.
Qed.

Lemma string_of_bytes_string_bytes (s : string) :
  string_of_bytes (string_bytes s) = wire_string s.
Proof.
  unfold string_of_bytes, string_bytes, wire_string.
  set (cs := take 255 (list_ascii_of_string s)).
  assert (length cs ≤ 255)%nat as Hlen by (unfold cs; rewrite length_take; lia).
  replace (256 - length cs)%nat with (S (255 - length cs)) by lia. simpl.
  rewrite until_nul_ascii. f_equal. rewrite <- list_fmap_compose.
  erewrite list_fmap_ext; [apply list_fmap_id|].
  intros i a _. simpl. apply ascii_N_embedding.
Qed.

Lemma length_list_ascii_of_string (s : string) :
  length (list_ascii_of_string s) = String.length s.
Proof. induction s as [|a s IH]; simpl; [done|]. by rewrite IH. Qed.

Lemma until_zero_length (cs : list ascii) : (length (until_zero cs) ≤ length cs)%nat.
Proof.
  induction cs as [|c cs IH]; simpl; [done|]. case_decide; simpl; lia.
Qed.

Lemma until_zero_nonzero (cs : list ascii) :
  Forall (λ a, a ≠ Ascii.zero) (until_zero cs).
Proof.
  induction cs as [|c cs IH]; simpl; [constructor|].
  case_decide; [constructor|]. by constructor.
Qed.

Lemma until_zero_id (cs : list ascii) :
  Forall (λ a, a ≠ Ascii.zero) cs → until_zero cs = cs.
Proof.
  induction 1 as [|c cs Hc _ IH]; simpl; [done|].
  rewrite decide_False by done. by rewrite IH.
Qed.

Lemma wire_string_fits (s : string) : string_fits (wire_string s).
Proof.
  unfold string_fits, wire_string. rewrite <- length_list_ascii_of_string.
  rewrite list_ascii_of_string_of_list_ascii. split.
  - etrans; [apply until_zero_length|]. rewrite length_take. lia.
  - apply until_zero_nonzero.
Qed.

Lemma wire_string_id (s : string) : string_fits s → wire_string s = s.
Proof.
  intros [Hlen Hnz]. unfold wire_string.
  rewrite take_ge by (rewrite length_list_ascii_of_string; lia).
  rewrite until_zero_id by done. apply string_of_list_ascii_of_string.
Qed.

Lemma value_bytes_typed (ty : DataType) (v : Value) :
  has_type ty v →
  value_bytes ty v = Ret (enc ty v) ∧ length (enc ty v) = value_width ty.
Proof.
  unfold enc. destruct ty, v; simpl; try done; intros _;
    (split; [done|]); try apply length_le_bytes. apply length_string_bytes.
Qed.

Lemma stored_as_stored (ty : DataType) (v : Value) :
  has_type ty v → stored ty v = as_stored v.
Proof.
  unfold stored, enc. destruct ty, v; simpl; try done.
  - intros Hz. f_equal.
    destruct (int_of_bits_int_bits 4 z ltac:(lia) Hz) as [Hr Hb].
    by rewrite le_value_le_bytes_small.
  - intros Hz. f_equal.
    destruct (int_of_bits_int_bits 8 z ltac:(lia) Hz) as [Hr Hb].
    by rewrite le_value_le_bytes_small.
  - intros Hb. f_equal. by apply le_value_le_bytes_small.
  - intros Hb. f_equal. by apply le_value_le_bytes_small.
  - intros _. f_equal. apply string_of_bytes_string_bytes.
  - intros _. by destruct b.
Qed.

Lemma as_stored_normal (ty : DataType) (v : Value) :
  has_type ty v → normal ty (as_stored v).
Proof.
  destruct ty, v; simpl; try done; intros H; (split; [done|]); try done.
  intros s' [= <-]. apply wire_string_fits.
Qed.

Lemma as_stored_id (ty : DataType) (v : Value) : normal ty v → as_stored v = v.
Proof.
  intros [Hty Hfit]. destruct v; simpl; try done.
  f_equal. apply wire_string_id. by apply Hfit.
Qed.

Lemma stored_normal (ty : DataType) (v : Value) : normal ty v → stored ty v = v.
Proof.
  intros Hn. rewrite stored_as_stored by apply Hn. by eapply as_stored_id.
Qed.

Lemma has_type_width_pos (ty : DataType) : (0 < value_width ty)%nat.
Proof. destruct ty; simpl; lia. Qed.

(** ** Leaf pages *)

Section leaf_pages.
Import BPlusTreeIndex.

Lemma peek_split (data a b c : list N) (offset : N) (len : nat) :
  data = a ++ b ++ c → N.to_nat offset = length a → len = length b →
  peek data offset len = Ret b.
Proof. intros ->. apply peek_app. Qed.

Lemma length_enc_keys (ty : DataType) (ks : list Value) :
  Forall (has_type ty) ks →
  length (concat (map (enc ty) ks)) = (length ks * value_width ty)%nat.
Proof.
  induction 1 as [|k ks Hk _ IH]; cbn [map concat]; [done|].
  rewrite length_app, IH. destruct (value_bytes_typed ty k Hk) as [_ ->].
  cbn [length]. lia.
Qed.

Lemma length_words (ws : list N) :
  length (concat (map (le_bytes 8) ws)) = (length ws * 8)%nat.
Proof.
  induction ws as [|x ws IH]; cbn [map concat]; [done|].
  rewrite length_app, IH, length_le_bytes. cbn [length]. lia.
Qed.

Lemma write_keys_zeros (ty : DataType) (ks : list Value) :
  Forall (has_type ty) ks →
  ∀ (pre : list N) (k : nat) (offset : N),
    N.to_nat offset = length pre →
    (length ks * value_width ty ≤ k)%nat →
    write_keys ks (pre ++ replicate k 0) offset ty
    = Ret ((pre ++ concat (map (enc ty) ks))
             ++ replicate (k - length ks * value_width ty) 0,
           offset + N.of_nat (length ks * value_width ty)).
Proof.
  induction 1 as [|key ks Hkey Hks IH]; intros pre k offset Ho Hk.
  - simpl. rewrite app_nil_r, Nat.sub_0_r, N.add_0_r. done.
  - cbn [write_keys]. unfold serializeValue.
    destruct (value_bytes_typed ty key Hkey) as [-> Hlen]. cbn [obind].
    cbn [length] in Hk.
    rewrite poke_zeros by lia. cbn [obind].
    rewrite IH by (rewrite ?length_app; lia).
    cbn [map concat length]. rewrite <- !app_assoc. f_equal.
    f_equal; [|lia]. do 4 f_equal. lia.
Qed.

Lemma write_words_zeros (ws : list N) :
  ∀ (pre : list N) (k : nat) (offset : N),
    N.to_nat offset = length pre →
    (length ws * 8 ≤ k)%nat →
    write_words ws (pre ++ replicate k 0) offset
    = Ret ((pre ++ concat (map (le_bytes 8) ws))
             ++ replicate (k - length ws * 8) 0,
           offset + N.of_nat (length ws * 8)).
Proof.
  induction ws as [|x ws IH]; intros pre k offset Ho Hk.
  - simpl. rewrite app_nil_r, Nat.sub_0_r, N.add_0_r. done.
  - cbn [write_words]. cbn [length] in Hk.
    rewrite poke_zeros by (rewrite ?length_le_bytes; lia). cbn [obind].
    rewrite length_le_bytes.
    rewrite IH by (rewrite ?length_app, ?length_le_bytes; lia).
    cbn [map concat length]. rewrite <- !app_assoc. f_equal.
    f_equal; [|lia]. do 4 f_equal. lia.
Qed.

Lemma node_bytes_leaf (ty : DataType) (node : BPlusTreeNode) :
  is_leaf node = true →
  Forall (has_type ty) (keys node) →
  length (records node) = length (keys node) →
  (leaf_size ty (length (keys node)) ≤ N.to_nat PAGE_SIZE)%nat →
  node_bytes ty node
  = Ret (leaf_image ty (keys node) (records node) (next_leaf node)).
Proof.
  intros Hleaf Hks Hrs Hfit. unfold node_bytes, leaf_size in *. rewrite Hleaf.
  change zero_page with ([] ++ replicate (N.to_nat PAGE_SIZE) 0).
  set (n := length (keys node)) in *.
  assert (N.to_nat PAGE_SIZE = 4096%nat) as HP by done. rewrite HP in *.
  rewrite poke_zeros by (simpl; lia). cbn [obind].
  rewrite poke_zeros by (rewrite ?length_le_bytes; simpl; lia). cbn [obind].
  rewrite poke_zeros by (rewrite ?length_app, ?length_le_bytes; simpl; lia).
  cbn [obind].
  rewrite write_keys_zeros
    by (rewrite ?length_app, ?length_le_bytes; simpl; try done; lia).
  cbn [obind]. fold n.
  rewrite write_words_zeros
    by (rewrite ?length_app, ?length_le_bytes, ?length_enc_keys by done;
        simpl; lia).
  cbn [obind].
  rewrite poke_zeros
    by (rewrite ?length_app, ?length_le_bytes, ?length_enc_keys, ?length_words
          by done; simpl; lia).
  unfold leaf_image. f_equal.
  rewrite !length_app, !length_le_bytes, length_enc_keys, length_words by done.
  rewrite HP, Hrs. fold n. cbn [length bool_byte].
  rewrite <- !app_assoc. cbn [app]. do 7 f_equal. lia.
Qed.

Lemma read_keys_split (ty : DataType) (ks : list Value) :
  Forall (has_type ty) ks →
  ∀ (pre rest : list N) (offset : N),
    N.to_nat offset = length pre →
    read_keys (length ks) (pre ++ concat (map (enc ty) ks) ++ rest) offset (Some ty)
    = Ret (map (stored ty) ks, offset + N.of_nat (length ks * value_width ty)).
Proof.
  induction 1 as [|key ks Hkey Hks IH]; intros pre rest offset Ho.
  - simpl. by rewrite N.add_0_r.
  - cbn [length read_keys map concat]. unfold deserializeValue.
    destruct (value_bytes_typed ty key Hkey) as [_ Hlen].
    rewrite (peek_split _ pre (enc ty key) (concat (map (enc ty) ks) ++ rest))
      by (rewrite <- ?app_assoc; done).
    cbn [obind].
    replace (pre ++ (enc ty key ++ concat (map (enc ty) ks)) ++ rest)
      with ((pre ++ enc ty key) ++ concat (map (enc ty) ks) ++ rest)
      by (by rewrite <- !app_assoc).
    rewrite IH by (rewrite length_app; lia). cbn [obind].
    do 2 f_equal. lia.
Qed.

Lemma read_words_split (ws : list N) :
  Forall (λ x, x < 2 ^ 64) ws →
  ∀ (pre rest : list N) (offset : N),
    N.to_nat offset = length pre →
    read_words (length ws) (pre ++ concat (map (le_bytes 8) ws) ++ rest) offset
    = Ret (ws, offset + N.of_nat (length ws * 8)).
Proof.
  induction 1 as [|x ws Hx Hws IH]; intros pre rest offset Ho.
  - simpl. by rewrite N.add_0_r.
  - cbn [length read_words map concat].
    rewrite (peek_split _ pre (le_bytes 8 x) (concat (map (le_bytes 8) ws) ++ rest))
      by (rewrite <- ?app_assoc, ?length_le_bytes; done).
    cbn [obind].
    replace (pre ++ (le_bytes 8 x ++ concat (map (le_bytes 8) ws)) ++ rest)
      with ((pre ++ le_bytes 8 x) ++ concat (map (le_bytes 8) ws) ++ rest)
      by (by rewrite <- !app_assoc).
    rewrite IH by (rewrite length_app, length_le_bytes; lia). cbn [obind].
    rewrite le_value_le_bytes_small by done.
    do 2 f_equal. lia.
Qed.

Lemma data_type_code_inv (ty : DataType) :
  data_type_of_code (data_type_code ty) = Some ty ∧ data_type_code ty < 256 ^ 4.
Proof. by destruct ty. Qed.

Lemma parse_leaf_image (ty : DataType) (ks : list Value) (rs : list RecordId)
    (next : PageId) :
  Forall (has_type ty) ks →
  length rs = length ks →
  (length ks ≤ 127)%nat →
  Forall (λ x, x < 2 ^ 64) rs →
  next < 2 ^ 64 →
  parse_node 127 (leaf_image ty ks rs next)
  = Ret (leaf_node (map (stored ty) ks) rs next).
Proof.
  intros Hks Hrs Hn Hsmall Hnext. unfold parse_node, leaf_image.
  set (zeros := replicate _ 0).
  rewrite <- !app_assoc.
  set (K := concat (map (enc ty) ks)). set (R := concat (map (le_bytes 8) rs)).
  set (C := le_bytes 8 (N.of_nat (length ks))).
  set (T := le_bytes 4 (data_type_code ty)).
  set (X := le_bytes 8 next).
  cbn [forallb app N.eqb andb].
  change (1 :: T ++ C ++ K ++ R ++ X ++ zeros)
    with ([1] ++ T ++ C ++ K ++ R ++ X ++ zeros).
  rewrite (peek_split _ [] [1] (T ++ C ++ K ++ R ++ X ++ zeros)) by done.
  cbn [obind]. change (negb (le_value [1] =? 0)) with true. cbv iota.
  rewrite (peek_split _ [1] T (C ++ K ++ R ++ X ++ zeros))
    by (unfold T; rewrite ?length_le_bytes; done).
  cbn [obind].
  rewrite (peek_split _ ([1] ++ T) C (K ++ R ++ X ++ zeros))
    by (unfold T, C; rewrite <- ?app_assoc, ?length_app, ?length_le_bytes; done).
  cbn [obind]. unfold T, C.
  destruct (data_type_code_inv ty) as [Hcode Hcode_small].
  rewrite !le_value_le_bytes_small by (try done; simpl; lia).
  rewrite Hcode.
  destruct (N.ltb_spec 127 (N.of_nat (length ks))) as [Hbad|_]; [lia|].
  rewrite Nat2N.id.
  fold T C.
  replace ([1] ++ T ++ C ++ K ++ R ++ X ++ zeros)
    with (([1] ++ T ++ C) ++ K ++ R ++ X ++ zeros)
    by (by rewrite <- !app_assoc).
  unfold K. rewrite read_keys_split
    by (unfold T, C; rewrite ?length_app, ?length_le_bytes; done).
  cbn [obind]. fold K.
  replace (([1] ++ T ++ C) ++ K ++ R ++ X ++ zeros)
    with (([1] ++ T ++ C ++ K) ++ R ++ X ++ zeros)
    by (by rewrite <- !app_assoc).
  rewrite <- Hrs. unfold R.
  assert (length ([1] ++ T ++ C ++ K) = (13 + length rs * value_width ty)%nat) as HlenK.
  { unfold T, C, K. rewrite !length_app, !length_le_bytes, length_enc_keys by done.
    rewrite Hrs. simpl. lia. }
  rewrite read_words_split by (try done; rewrite HlenK; lia).
  cbn [obind]. fold R.
  rewrite (peek_split _ (([1] ++ T ++ C ++ K) ++ R) X zeros); cycle 1.
  { by rewrite <- !app_assoc. }
  { rewrite (length_app _ R), HlenK. unfold R. rewrite length_words. lia. }
  { unfold X. by rewrite length_le_bytes. }
  cbn [obind]. unfold X. rewrite le_value_le_bytes_small by done.
  rewrite length_map. rewrite decide_True by done. done.
Qed.

Lemma leaf_image_sized (ty : DataType) (ks : list Value) (rs : list RecordId)
    (next : PageId) :
  Forall (has_type ty) ks → length rs = length ks →
  (leaf_size ty (length ks) ≤ N.to_nat PAGE_SIZE)%nat →
  page_sized (leaf_image ty ks rs next).
Proof.
  intros Hks Hrs Hfit. unfold page_sized, leaf_image, leaf_size in *.
  rewrite length_app, length_replicate.
  rewrite !length_app, !length_le_bytes, length_enc_keys, length_words by done.
  cbn [length]. lia.
Qed.

Lemma parse_zero_page : parse_node 127 zero_page = Ret (new_BPlusTreeNode true).
Proof.
  unfold parse_node.
  assert (forallb (N.eqb 0) zero_page = true) as ->; [|done].
  unfold zero_page. induction (N.to_nat PAGE_SIZE) as [|n IH]; [done|]. by simpl.
Qed.

End leaf_pages.


(** ** Calls that return *)

Lemma returns_bind {A B} (m : M A) (f : A → M B) (w : World)
    (Q : B → World → Prop) :
  returns m w (λ a w1, returns (f a) w1 Q) → returns (bind m f) w Q.
Proof.
  intros (a & w1 & Hm & b & w2 & Hf & HQ). exists b, w2. split; [|done].
  unfold bind. by rewrite Hm.
Qed.

Lemma returns_ret {A} (a : A) (w : World) (Q : A → World → Prop) :
  Q a w → returns (ret a) w Q.
Proof. intros HQ. by exists a, w. Qed.

Lemma returns_lift {A} (o : outcome A) (a : A) (w : World) (Q : A → World → Prop) :
  o = Ret a → Q a w → returns (lift o) w Q.
Proof. intros -> HQ. by exists a, w. Qed.

Lemma returns_mono {A} (m : M A) (w : World) (Q Q' : A → World → Prop) :
  returns m w Q → (∀ a w', Q a w' → Q' a w') → returns m w Q'.
Proof. intros (a & w' & Hm & HQ) Himp. exists a, w'. auto. Qed.

(** ** Files across the steps of an operation *)

Lemma with_page_same (p : PageId) (bytes : list N) (c : PageId → list N) :
  with_page p bytes c p = bytes.
Proof. unfold with_page. by rewrite decide_True. Qed.

Lemma with_page_other (p0 p : PageId) (bytes : list N) (c : PageId → list N) :
  p ≠ p0 → with_page p0 bytes c p = c p.
Proof. intros Hp. unfold with_page. by rewrite decide_False. Qed.

Lemma only_file_refl (f : string) (w : World) : only_file f w w.
Proof. by intros f' c _ H. Qed.

Lemma only_file_trans (f : string) (w1 w2 w3 : World) :
  only_file f w1 w2 → only_file f w2 w3 → only_file f w1 w3.
Proof. intros H12 H23 f' c Hf Hc. apply H23; [done|]. by apply H12. Qed.

Lemma file_is_sized (w : World) (f : string) (c : PageId → list N) (p : PageId) :
  file_is w f c → addressable p → page_sized (c p).
Proof.
  intros [Hok Hc] Hp. rewrite <- Hc by done. apply view_sized, Hok.
Qed.

(** A fetch of an addressable page returns the page's content and changes
    no file. *)
Lemma fetch_returns (f : string) (p : PageId) (w : World) (c : PageId → list N)
    (Q : Page → World → Prop) :
  file_is w f c → addressable p →
  (∀ page w',
     data page = c p →
     BufferPoolManager.pages_ (buffer_manager w') !! (f, p) = Some page →
     next_page_id w' = next_page_id w →
     (∀ f' c', file_is w f' c' → file_is w' f' c') →
     Q page w') →
  returns (fetch f p) w Q.
Proof.
  intros [Hok Hc] Hp HQ. unfold returns, fetch.
  destruct (fetchPage_spec f p (buffer_manager w) (λ _, Hp)) as (Hsame & Hdata & Hres).
  destruct (BufferPoolManager.fetchPage f p (buffer_manager w)) as [page bp'].
  simpl in *. eexists _, _. split; [done|].
  apply HQ; simpl; try done.
  - by rewrite Hdata, Hc.
  - intros f' c' [Hok' Hc']. destruct (Hsame f' Hok') as [Hok'' Hv]. split; [done|].
    intros q Hq. rewrite Hv by done. by apply Hc'.
Qed.

(** A write through the handle of a resident, addressable page. *)
Lemma store_returns (f : string) (p : PageId) (page : Page) (bytes : list N)
    (w : World) (c : PageId → list N) (Q : unit → World → Prop) :
  file_is w f c → addressable p → page_sized bytes →
  is_Some (BufferPoolManager.pages_ (buffer_manager w) !! (f, p)) →
  (∀ w',
     file_is w' f (with_page p bytes c) →
     next_page_id w' = next_page_id w →
     only_file f w w' →
     Q tt w') →
  returns (with_pool (BufferPoolManager.store f p (written page bytes))) w Q.
Proof.
  intros [Hok Hc] Hp Hsz Hres HQ. unfold returns, with_pool.
  eexists _, _. split; [done|].
  pose proof (store_views f p page bytes (buffer_manager w) Hres (λ _, conj Hp Hsz))
    as Hup.
  apply HQ; simpl; [|done|].
  - destruct (Hup f Hok) as [Hok' Hv]. split; [done|].
    intros q Hq. simpl. rewrite Hv by done. unfold with_page.
    destruct (decide (q = p)) as [->|Hne].
    + by rewrite decide_True.
    + rewrite decide_False by congruence. by apply Hc.
  - intros f' c' Hf' [Hok' Hc']. destruct (Hup f' Hok') as [Hok'' Hv]. split; [done|].
    intros q Hq. simpl. rewrite Hv by done.
    rewrite decide_False by congruence. by apply Hc'.
Qed.

Lemma flushPage_returns (f : string) (p : PageId) (w : World)
    (Q : unit → World → Prop) :
  (∀ w',
     next_page_id w' = next_page_id w →
     (∀ f' c', file_is w f' c' → file_is w' f' c') →
     Q tt w') →
  returns (with_pool (BufferPoolManager.flushPage f p)) w Q.
Proof.
  intros HQ. unfold returns, with_pool. eexists _, _. split; [done|].
  apply HQ; simpl; [done|].
  intros f' c' [Hok' Hc'].
  destruct (flushPage_same_views f p (buffer_manager w) f' Hok') as [Hok'' Hv].
  split; [done|]. intros q Hq. simpl. rewrite Hv by done. by apply Hc'.
Qed.

(** ** The index, node by node *)

Section index_nodes.
Import BPlusTreeIndex.

Lemma getNode_returns (idx : t) (p : PageId) (w : World) (c : PageId → list N)
    (node : BPlusTreeNode) (Q : BPlusTreeNode → World → Prop) :
  file_is w (index_name_ idx) c → addressable p →
  parse_node (max_keys_ idx) (c p) = Ret node →
  (∀ w',
     next_page_id w' = next_page_id w →
     (∀ f' c', file_is w f' c' → file_is w' f' c') →
     Q node w') →
  returns (getNode idx p) w Q.
Proof.
  intros Hc Hp Hparse HQ. unfold getNode.
  apply returns_bind. eapply fetch_returns; [done..|].
  intros page w' Hdata _ Hnp Hkeep.
  eapply returns_lift; [by rewrite Hdata|]. by apply HQ.
Qed.

(** A node that passes the consistency check is written over its page. *)
Lemma saveNode_returns (idx : t) (p : PageId) (node : BPlusTreeNode)
    (bytes : list N) (w : World) (c : PageId → list N)
    (Q : unit → World → Prop) :
  file_is w (index_name_ idx) c → addressable p →
  node_consistent node →
  node_bytes (key_type_ idx) node = Ret bytes → page_sized bytes →
  (∀ w',
     file_is w' (index_name_ idx) (with_page p bytes c) →
     next_page_id w' = next_page_id w →
     only_file (index_name_ idx) w w' →
     Q tt w') →
  returns (saveNode idx p node) w Q.
Proof.
  intros Hc Hp Hcons Hbytes Hsz HQ. unfold saveNode, node_consistent in *.
  assert ((if is_leaf node
           then bool_decide (length (keys node) ≠ length (records node))
           else bool_decide (length (children node) ≠ (length (keys node) + 1)%nat))
          = false) as ->.
  { destruct (is_leaf node); by rewrite bool_decide_eq_false; intros ?. }
  apply returns_bind. eapply fetch_returns; [done..|].
  intros page w1 _ Hres Hnp1 Hkeep1.
  apply returns_bind. eapply returns_lift; [done|].
  eapply store_returns; [by apply Hkeep1|done..|by rewrite Hres|].
  intros w' Hc' Hnp' Honly. apply HQ; [done|congruence|].
  intros f' c' Hf' Hfc'. apply Honly; [done|]. by apply Hkeep1.
Qed.

(** A node that fails the check is silently dropped. *)
Lemma saveNode_dropped (idx : t) (p : PageId) (node : BPlusTreeNode) (w : World) :
  ¬ node_consistent node → saveNode idx p node w = Ret (tt, w).
Proof.
  intros Hbad. unfold saveNode, node_consistent in *.
  destruct (is_leaf node); by rewrite bool_decide_eq_true_2.
Qed.

End index_nodes.


(** ** Insertion into the index *)

Section index_insert.
Import BPlusTreeIndex.

Lemma resize_le {A} (n : nat) (fill : A) (v : list A) :
  (n ≤ length v)%nat → resize n fill v = take n v.
Proof.
  intros Hn. unfold resize. replace (n - length v)%nat with 0%nat by lia.
  apply app_nil_r.
Qed.

Lemma length_insert_at {A} (i : nat) (x : A) (v : list A) :
  length (insert_at i x v) = S (length v).
Proof.
  unfold insert_at. rewrite length_app. cbn [length].
  rewrite length_take, length_drop. lia.
Qed.

Lemma fmap_insert_at {A B} (g : A → B) (i : nat) (x : A) (v : list A) :
  g <$> insert_at i x v = insert_at i (g x) (g <$> v).
Proof.
  unfold insert_at. by rewrite fmap_app, fmap_cons, fmap_take, fmap_drop.
Qed.

Lemma Forall_insert_at {A} (P : A → Prop) (i : nat) (x : A) (v : list A) :
  P x → Forall P v → Forall P (insert_at i x v).
Proof.
  intros Hx Hv. unfold insert_at. apply Forall_app. split.
  - by apply Forall_take.
  - constructor; [done|]. by apply Forall_drop.
Qed.

Lemma normal_has_type (ty : DataType) (ks : list Value) :
  Forall (normal ty) ks → Forall (has_type ty) ks.
Proof. intros H. eapply list.Forall_impl; [exact H|]. by intros k [? _]. Qed.

Lemma stored_normal_map (ty : DataType) (ks : list Value) :
  Forall (normal ty) ks → map (stored ty) ks = ks.
Proof.
  induction 1 as [|k ks Hk _ IH]; [done|]. cbn [map].
  by rewrite IH, stored_normal.
Qed.

(** What a page reads as right after a leaf was saved to it. *)
Lemma parse_saved_leaf (ty : DataType) (node : BPlusTreeNode) :
  is_leaf node = true →
  Forall (has_type ty) (keys node) →
  length (records node) = length (keys node) →
  (length (keys node) ≤ 127)%nat →
  Forall (λ x, x < 2 ^ 64) (records node) →
  next_leaf node < 2 ^ 64 →
  (leaf_size ty (length (keys node)) ≤ N.to_nat PAGE_SIZE)%nat →
  ∃ bytes,
    node_bytes ty node = Ret bytes ∧ page_sized bytes
    ∧ parse_node 127 bytes
      = Ret (leaf_node (map (stored ty) (keys node)) (records node) (next_leaf node)).
Proof.
  intros Hleaf Hks Hrs Hn Hsmall Hnext Hfit. eexists. split; [|split].
  - by apply node_bytes_leaf.
  - by apply leaf_image_sized.
  - by apply parse_leaf_image.
Qed.

Lemma leaf_size_mono (ty : DataType) (n m : nat) :
  (n ≤ m)%nat → (leaf_size ty n ≤ leaf_size ty m)%nat.
Proof. unfold leaf_size. nia. Qed.

(** [createNewNode(true)] hands out the next page id and leaves an empty
    leaf on that page. *)
Lemma createNewNode_leaf_returns (idx : t) (w : World) (c : PageId → list N)
    (Q : PageId → World → Prop) :
  file_is w (index_name_ idx) c →
  addressable (next_page_id w) →
  (∀ w' bytes,
     file_is w' (index_name_ idx) (with_page (next_page_id w) bytes c) →
     parse_node 127 bytes = Ret (leaf_node [] [] 0) →
     next_page_id w' = next_page_id w + 1 →
     only_file (index_name_ idx) w w' →
     Q (next_page_id w) w') →
  returns (createNewNode idx true) w Q.
Proof.
  intros Hc Hp HQ. unfold createNewNode.
  destruct (parse_saved_leaf (key_type_ idx) (new_BPlusTreeNode true))
    as (bytes & Hbytes & Hsz & Hparse); try done.
  { cbn. lia. }
  { unfold leaf_size. change (N.to_nat PAGE_SIZE) with 4096%nat. cbn [keys new_BPlusTreeNode length]. lia. }
  set (w0 := {| buffer_manager := buffer_manager w;
                next_page_id := wrap64 (next_page_id w + 1) |}).
  apply returns_bind.
  eapply (saveNode_returns idx (next_page_id w) _ bytes w0 c); [done..|].
  intros w' Hc' Hnp Honly. apply returns_ret. apply HQ with bytes; try done.
  rewrite Hnp. unfold w0. simpl. unfold wrap64. apply N.mod_small.
  unfold addressable in Hp. lia.
Qed.

(** [createNewNode(false)] hands out the next page id, but the empty
    internal node fails the consistency check of [saveNode] (it has no
    child) and nothing is written. *)
Lemma createNewNode_internal (idx : t) (w : World) :
  createNewNode idx false w
  = Ret (next_page_id w,
         {| buffer_manager := buffer_manager w;
            next_page_id := wrap64 (next_page_id w + 1) |}).
Proof. unfold createNewNode, bind. by rewrite saveNode_dropped. Qed.

Lemma keep_only_file (f : string) (w w' : World) :
  (∀ f' c', file_is w f' c' → file_is w' f' c') → only_file f w w'.
Proof. intros H f' c' _. apply H. Qed.

Lemma insertIntoLeaf_entries (es : list (Value * RecordId)) (key : Value)
    (record_id : RecordId) (next : PageId) :
  let i := lower_bound (key_less key) es.*1 in
  insertIntoLeaf (leaf_node es.*1 es.*2 next) key record_id
  = leaf_node (insert_at i (key, record_id) es).*1
              (insert_at i (key, record_id) es).*2 next.
Proof.
  intros i. unfold insertIntoLeaf, leaf_node. cbn.
  rewrite decide_True by (by rewrite !length_fmap).
  by rewrite !fmap_insert_at.
Qed.

Lemma stored_leaf_insert (ty : DataType) (es : list (Value * RecordId))
    (key : Value) (record_id : RecordId) (i : nat) :
  Forall (normal ty) es.*1 → has_type ty key →
  map (stored ty) (insert_at i (key, record_id) es).*1
  = (insert_at i (as_stored key, record_id) es).*1.
Proof.
  intros Hn Hk. rewrite !fmap_insert_at. cbn [fst].
  rewrite stored_as_stored by done. f_equal. by apply stored_normal_map.
Qed.

(** Insertion into a root leaf that has room. *)
Lemma insertInternal_room (fuel : nat) (idx : t) (root : PageId) (w : World)
    (c : PageId → list N) (es : list (Value * RecordId)) (key : Value)
    (record_id : RecordId) (Q : Value * PageId → World → Prop) :
  max_keys_ idx = 127 →
  file_is w (index_name_ idx) c → addressable root →
  parse_node 127 (c root) = Ret (leaf_node es.*1 es.*2 0) →
  Forall (normal (key_type_ idx)) es.*1 →
  Forall (λ r, r < 2 ^ 64) es.*2 →
  (length es < 127)%nat →
  has_type (key_type_ idx) key → record_id < 2 ^ 64 →
  (leaf_size (key_type_ idx) (S (length es)) ≤ N.to_nat PAGE_SIZE)%nat →
  (∀ w' bytes,
     file_is w' (index_name_ idx) (with_page root bytes c) →
     parse_node 127 bytes
     = Ret (leaf_node (leaf_insert key record_id es).*1
                      (leaf_insert key record_id es).*2 0) →
     next_page_id w' = next_page_id w →
     only_file (index_name_ idx) w w' →
     Q no_split w') →
  returns (insertInternal (S fuel) idx root key record_id) w Q.
Proof.
  intros Hmax Hc Hroot Hparse Hnorm Hr64 Hlen Hkey Hrid Hfit HQ.
  cbn [insertInternal]. apply returns_bind.
  eapply getNode_returns; [done..|by rewrite Hmax|].
  intros w1 Hnp1 Hkeep1. cbn [is_leaf leaf_node].
  rewrite insertIntoLeaf_entries.
  set (i := lower_bound (key_less key) es.*1).
  set (es1 := insert_at i (key, record_id) es).
  assert (length es1 = S (length es)) as Hlen1 by apply length_insert_at.
  cbn [keys leaf_node]. rewrite length_fmap, Hlen1, Hmax.
  destruct (N.ltb_spec 127 (N.of_nat (S (length es)))) as [Hbad|_]; [lia|].
  destruct (parse_saved_leaf (key_type_ idx) (leaf_node es1.*1 es1.*2 0))
    as (bytes & Hbytes & Hsz & Hparse1); cbn [is_leaf keys records next_leaf leaf_node];
    rewrite ?length_fmap, ?Hlen1; try done; try lia.
  { unfold es1. rewrite fmap_insert_at. apply Forall_insert_at; [done|].
    by apply normal_has_type. }
  { unfold es1. rewrite fmap_insert_at. by apply Forall_insert_at. }
  apply returns_bind.
  eapply saveNode_returns; [by apply Hkeep1|done| |done..|].
  { unfold node_consistent. cbn. by rewrite !length_fmap. }
  intros w' Hc' Hnp' Honly. apply returns_ret.
  apply HQ with bytes; [done| |congruence|].
  - rewrite Hparse1. unfold es1. cbn [keys records next_leaf leaf_node].
    rewrite stored_leaf_insert by done. unfold leaf_insert. fold i.
    by rewrite !(fmap_insert_at snd).
  - eapply only_file_trans; [by apply keep_only_file|done].
Qed.

(** Insertion into a full root leaf: the leaf is split over the root page
    and a new page, whose id is returned. *)
Lemma insertInternal_split (fuel : nat) (idx : t) (root : PageId) (w : World)
    (c : PageId → list N) (es : list (Value * RecordId)) (key : Value)
    (record_id : RecordId) (Q : Value * PageId → World → Prop) :
  max_keys_ idx = 127 →
  file_is w (index_name_ idx) c → addressable root →
  addressable (next_page_id w) → root ≠ next_page_id w →
  parse_node 127 (c root) = Ret (leaf_node es.*1 es.*2 0) →
  Forall (normal (key_type_ idx)) es.*1 →
  Forall (λ r, r < 2 ^ 64) es.*2 →
  length es = 127%nat →
  has_type (key_type_ idx) key → record_id < 2 ^ 64 →
  (leaf_size (key_type_ idx) 64 ≤ N.to_nat PAGE_SIZE)%nat →
  (∀ w' c' first_key,
     file_is w' (index_name_ idx) c' →
     (∀ p, p ≠ root → p ≠ next_page_id w → c' p = c p) →
     next_page_id w' = next_page_id w + 1 →
     only_file (index_name_ idx) w w' →
     Q (first_key, next_page_id w) w') →
  returns (insertInternal (S fuel) idx root key record_id) w Q.
Proof.
  intros Hmax Hc Hroot Hnew Hne Hparse Hnorm Hr64 Hlen Hkey Hrid Hfit HQ.
  cbn [insertInternal]. apply returns_bind.
  eapply getNode_returns; [done..|by rewrite Hmax|].
  intros w1 Hnp1 Hkeep1. cbn [is_leaf leaf_node].
  rewrite insertIntoLeaf_entries.
  set (i := lower_bound (key_less key) es.*1).
  set (es1 := insert_at i (key, record_id) es).
  assert (length es1 = 128%nat) as Hlen1.
  { unfold es1. rewrite length_insert_at. lia. }
  assert (Forall (has_type (key_type_ idx)) es1.*1) as Hty1.
  { unfold es1. rewrite fmap_insert_at. apply Forall_insert_at; [done|].
    by apply normal_has_type. }
  assert (Forall (λ r, r < 2 ^ 64) es1.*2) as Hr1.
  { unfold es1. rewrite fmap_insert_at. by apply Forall_insert_at. }
  cbn [keys leaf_node]. rewrite length_fmap, Hlen1, Hmax.
  change (127 <? N.of_nat 128) with true. cbv iota.
  unfold splitLeaf. cbn [keys records next_leaf is_leaf children leaf_node].
  rewrite length_fmap, Hlen1. change (128 / 2)%nat with 64%nat.
  rewrite !resize_le by (rewrite length_fmap; lia).
  apply returns_bind.
  eapply createNewNode_leaf_returns; [by apply Hkeep1|by rewrite Hnp1|].
  rewrite Hnp1. intros w2 bytes0 Hc2 Hparse0 Hnp2 Honly2.
  apply returns_bind.
  eapply getNode_returns; [done..| |].
  { rewrite Hmax, with_page_same. exact Hparse0. }
  intros w3 Hnp3 Hkeep3. cbn [keys records next_leaf is_leaf children leaf_node].
  unfold addressable in Hnew.
  destruct (parse_saved_leaf (key_type_ idx)
              {| is_leaf := true; keys := take 64 es1.*1; children := [];
                 records := take 64 es1.*2; next_leaf := next_page_id w |})
    as (bytesL & HbytesL & HszL & _); cbn [is_leaf keys records next_leaf];
    rewrite ?length_take, ?length_fmap, ?Hlen1; try done; try lia.
  { by apply Forall_take. }
  { by apply Forall_take. }
  destruct (parse_saved_leaf (key_type_ idx)
              {| is_leaf := true; keys := drop 64 es1.*1; children := [];
                 records := drop 64 es1.*2; next_leaf := 0 |})
    as (bytesR & HbytesR & HszR & _); cbn [is_leaf keys records next_leaf];
    rewrite ?length_drop, ?length_fmap, ?Hlen1; try done; try lia.
  { by apply Forall_drop. }
  { by apply Forall_drop. }
  apply returns_bind.
  eapply saveNode_returns; [by apply Hkeep3|done| |done..|].
  { unfold node_consistent. cbn. rewrite !length_take, !length_fmap. done. }
  intros w4 Hc4 Hnp4 Honly4.
  apply returns_bind.
  eapply saveNode_returns; [done|done| |done..|].
  { unfold node_consistent. cbn. rewrite !length_drop, !length_fmap. done. }
  intros w5 Hc5 Hnp5 Honly5.
  assert (∃ first_key, drop 64 es1.*1 !! 0%nat = Some first_key) as [first_key Hfirst].
  { apply lookup_lt_is_Some. rewrite length_drop, length_fmap. lia. }
  apply returns_bind. eapply returns_lift.
  { unfold at_index. by rewrite Hfirst. }
  apply returns_ret. eapply HQ; [done| |congruence|].
  - intros p Hp1 Hp2. by rewrite !with_page_other.
  - eapply only_file_trans; [by apply keep_only_file|].
    eapply only_file_trans; [done|].
    eapply only_file_trans; [by apply keep_only_file|].
    eapply only_file_trans; done.
Qed.

Lemma index_holds_root (idx : t) (w : World) (es : list (Value * RecordId)) :
  index_holds idx w es → 0 < next_page_id w.
Proof. intros (_ & _ & _ & _ & Hlt & _). lia. Qed.

(** One insertion, from a state in which the index holds [es]: the call
    returns, the index then holds [index_step key record_id es], between
    zero and three page ids have been handed out, and no other file has
    changed. *)
Lemma insert_holds (fuel : nat) (idx : t) (w : World)
    (es : list (Value * RecordId)) (key : Value) (record_id : RecordId) :
  (0 < fuel)%nat →
  index_holds idx w es →
  has_type (key_type_ idx) key → record_id < 2 ^ 64 →
  next_page_id w + 3 < 2 ^ 51 →
  (leaf_size (key_type_ idx) (Nat.min (S (length es)) 64) ≤ N.to_nat PAGE_SIZE)%nat →
  (length es < 127 →
   leaf_size (key_type_ idx) (S (length es)) ≤ N.to_nat PAGE_SIZE)%nat →
  returns (insert fuel idx key record_id) w
    (λ idx' w',
       index_holds idx' w' (index_step key record_id es)
       ∧ index_name_ idx' = index_name_ idx
       ∧ key_type_ idx' = key_type_ idx
       ∧ next_page_id w ≤ next_page_id w' ≤ next_page_id w + 3
       ∧ only_file (index_name_ idx) w w'
       ∧ root_page_id_ idx' ≠ 0).
Proof.
  intros Hfuel (Hmax & Hnorm & Hr64 & Hlen & Hroot & c & Hc & Hfresh & Hleaf)
    Hkey Hrid Hnp Hfit64 Hfit.
  destruct fuel as [|fuel]; [lia|].
  unfold insert. apply returns_bind.
  (* phase one: the root exists after it *)
  assert (returns
            (if root_page_id_ idx =? 0
             then bind (createNewNode idx true) (λ root, ret (set_root idx root))
             else ret idx)
            w
            (λ idx1 w1,
               index_name_ idx1 = index_name_ idx
               ∧ key_type_ idx1 = key_type_ idx
               ∧ max_keys_ idx1 = 127
               ∧ root_page_id_ idx1 ≠ 0
               ∧ root_page_id_ idx1 < next_page_id w1
               ∧ next_page_id w ≤ next_page_id w1 ≤ next_page_id w + 1
               ∧ only_file (index_name_ idx) w w1
               ∧ ∃ c1, file_is w1 (index_name_ idx) c1
                       ∧ (∀ p, next_page_id w1 ≤ p → c1 p = zero_page)
                       ∧ parse_node 127 (c1 (root_page_id_ idx1))
                         = Ret (leaf_node es.*1 es.*2 0))) as Hphase1.
  { destruct (N.eqb_spec (root_page_id_ idx) 0) as [Hz|Hnz].
    - subst es. apply returns_bind.
      eapply createNewNode_leaf_returns; [done|unfold addressable; lia|].
      intros w1 bytes Hc1 Hparse Hnp1 Honly1. apply returns_ret.
      cbn [set_root index_name_ key_type_ max_keys_ root_page_id_].
      repeat (split; [done || lia|]).
      exists (with_page (next_page_id w) bytes c). split; [done|]. split.
      + intros p Hp. rewrite with_page_other by lia. apply Hfresh. lia.
      + by rewrite with_page_same.
    - apply returns_ret. repeat (split; [done || lia || apply only_file_refl|]).
      exists c. done. }
  eapply returns_mono; [exact Hphase1|]. clear Hphase1.
  intros idx1 w1 (Hname1 & Hty1 & Hmax1 & Hroot1 & Hlt1 & Hnp1 & Honly1
                  & c1 & Hc1 & Hfresh1 & Hparse1).
  rewrite <- Hname1, <- Hty1 in *.
  apply returns_bind. unfold index_step.
  destruct (decide (length es < 127)%nat) as [Hroom|Hfull].
  - (* the leaf has room *)
    eapply insertInternal_room; try done.
    { unfold addressable. lia. }
    { by apply Hfit. }
    intros w2 bytes Hc2 Hparse2 Hnp2 Honly2.
    cbn [no_split snd]. change (negb (0 =? 0)) with false. cbv iota.
    apply returns_ret.
    split; [|split; [done|split; [done|split; [lia|split; [|done]]]]].
    + split; [done|]. unfold leaf_insert at 1 2 3.
      split; [|split; [|split; [|split]]].
      * rewrite fmap_insert_at. apply Forall_insert_at; [|done].
        by apply as_stored_normal.
      * rewrite fmap_insert_at. by apply Forall_insert_at.
      * rewrite length_insert_at. lia.
      * lia.
      * exists (with_page (root_page_id_ idx1) bytes c1). split; [done|]. split.
        -- intros p Hp. rewrite with_page_other by lia. apply Hfresh1. lia.
        -- destruct (N.eqb_spec (root_page_id_ idx1) 0) as [|_]; [done|].
           by rewrite with_page_same.
    + eapply only_file_trans; done.
  - (* the leaf is full: it is split, and a new root is started *)
    assert (length es = 127%nat) as Hlen127 by lia.
    eapply insertInternal_split; try done.
    { unfold addressable. lia. }
    { unfold addressable. lia. }
    { lia. }
    { rewrite Hlen127 in Hfit64. exact Hfit64. }
    intros w2 c2 first_key Hc2 Hsame2 Hnp2 Honly2.
    cbn [snd fst].
    destruct (N.eqb_spec (next_page_id w1) 0) as [Hz|_]; [lia|]. cbn [negb].
    apply returns_bind.
    exists (next_page_id w2),
      {| buffer_manager := buffer_manager w2;
         next_page_id := wrap64 (next_page_id w2 + 1) |}.
    split; [apply createNewNode_internal|].
    set (w3 := {| buffer_manager := buffer_manager w2;
                  next_page_id := wrap64 (next_page_id w2 + 1) |}).
    assert (next_page_id w3 = next_page_id w2 + 1) as Hnp3.
    { unfold w3. cbn. unfold wrap64. apply N.mod_small. lia. }
    assert (c2 (next_page_id w2) = zero_page) as Hblank.
    { rewrite Hsame2 by lia. apply Hfresh1. lia. }
    apply returns_bind.
    eapply (getNode_returns idx1 _ w3 c2); [done|unfold addressable; lia| |].
    { rewrite Hmax1, Hblank. apply parse_zero_page. }
    intros w4 Hnp4 Hkeep4. apply returns_bind.
    exists tt, w4. split.
    { apply saveNode_dropped. unfold node_consistent. cbn. lia. }
    apply returns_ret.
    cbn [set_root index_name_ key_type_ max_keys_ root_page_id_].
    split; [|split; [done|split; [done|split; [lia|split; [|lia]]]]].
    + unfold index_holds.
      cbn [set_root index_name_ key_type_ max_keys_ root_page_id_].
      split; [done|]. split; [constructor|]. split; [constructor|].
      split; [cbn; lia|]. split; [lia|].
      exists c2. split; [by apply Hkeep4|]. split.
      * intros p Hp. rewrite Hsame2 by lia. apply Hfresh1. lia.
      * destruct (N.eqb_spec (next_page_id w2) 0) as [|_]; [lia|].
        rewrite Hblank. apply parse_zero_page.
    + eapply only_file_trans; [done|]. eapply only_file_trans; [done|].
      apply keep_only_file. intros f' c' Hf'. apply Hkeep4. exact Hf'.
Qed.

End index_insert.


(** ** The order on keys *)

Section key_order.

Lemma string_compare_trans (a b c : string) :
  (a ?= b)%string = Lt → (b ?= c)%string = Lt → (a ?= c)%string = Lt.
Proof.
  revert b c. induction a as [|x a IH]; intros [|y b] [|z c]; simpl; try done.
  unfold Ascii.compare.
  destruct (N.compare_spec (N_of_ascii x) (N_of_ascii y)) as [Hxy|Hxy|Hxy];
    destruct (N.compare_spec (N_of_ascii y) (N_of_ascii z)) as [Hyz|Hyz|Hyz];
    try done.
  - rewrite Hxy, Hyz, N.compare_refl. apply IH.
  - intros _ _. rewrite Hxy. by rewrite (proj2 (N.compare_lt_iff _ _) Hyz).
  - intros _ _. rewrite <- Hyz. by rewrite (proj2 (N.compare_lt_iff _ _) Hxy).
  - intros _ _.
    by rewrite (proj2 (N.compare_lt_iff (N_of_ascii x) (N_of_ascii z)) ltac:(lia)).
Qed.

Lemma string_ltb_asym (a b : string) :
  String.ltb a b = true → String.ltb b a = false.
Proof.
  unfold String.ltb. rewrite (String.compare_antisym b a).
  by destruct (a ?= b)%string.
Qed.

Lemma string_total (a b : string) :
  String.ltb a b = false → String.ltb b a = false → String.eqb a b = true.
Proof.
  unfold String.ltb. rewrite (String.compare_antisym b a).
  destruct (a ?= b)%string eqn:E; try done.
  intros _ _. apply String.eqb_eq. by apply String.compare_eq_iff.
Qed.

Lemma string_ltb_irrefl (a : string) : String.ltb a a = false.
Proof.
  destruct (String.ltb a a) eqn:E; [|done]. by rewrite (string_ltb_asym a a E) in E.
Qed.

Lemma string_neg_trans (a b c : string) :
  String.ltb a b = false → String.ltb b c = false → String.ltb a c = false.
Proof.
  intros Hab Hbc. destruct (String.ltb a c) eqn:Hac; [|done]. exfalso.
  destruct (String.ltb b a) eqn:Hba.
  - destruct (String.ltb c b) eqn:Hcb.
    + unfold String.ltb in *.
      destruct (c ?= b)%string eqn:E1; try done.
      destruct (b ?= a)%string eqn:E2; try done.
      pose proof (string_compare_trans c b a E1 E2) as E3.
      rewrite (String.compare_antisym a c), E3 in Hac. done.
    + pose proof (string_total b c Hbc Hcb) as ->%String.eqb_eq.
      by rewrite (string_ltb_asym c a Hba) in Hac.
  - pose proof (string_total a b Hab Hba) as ->%String.eqb_eq. congruence.
Qed.

(** Unfolds the comparisons of two values of one comparable type down to
    comparisons of integers, strings or booleans. *)
Ltac by_type ty a b :=
  unfold comparable, normal;
  destruct ty, a; cbn [has_type]; try (intros; exfalso; tauto);
  destruct b; cbn [has_type]; try (intros; exfalso; tauto);
  unfold not_nan, value_ltb, value_eqb, fp_ltb, fp_eqb.

Ltac bool_cases :=
  repeat match goal with b : bool |- _ => destruct b end; done.

Ltac int_cases :=
  repeat match goal with
         | H : fp_is_nan _ _ _ = false |- _ => rewrite ?H in *; clear H
         end;
  cbn [negb andb];
  repeat match goal with
         | |- context [(?x <? ?y)%Z] => destruct (Z.ltb_spec x y)
         | |- context [(?x =? ?y)%Z] => destruct (Z.eqb_spec x y)
         end;
  try done; try lia.

Lemma value_ltb_asym (ty : DataType) (a b : Value) :
  comparable ty a → comparable ty b →
  value_ltb a b = true → value_ltb b a = false.
Proof.
  by_type ty a b; intros [_ Ha] [_ Hb]; int_cases.
  - apply string_ltb_asym.
  - bool_cases.
Qed.

Lemma value_total (ty : DataType) (a b : Value) :
  comparable ty a → comparable ty b →
  value_ltb a b = false → value_ltb b a = false → value_eqb a b = true.
Proof.
  by_type ty a b; intros [_ Ha] [_ Hb]; int_cases.
  - apply string_total.
  - bool_cases.
Qed.

Lemma value_eqb_not_ltb (ty : DataType) (a b : Value) :
  comparable ty a → comparable ty b →
  value_eqb a b = true → value_ltb a b = false ∧ value_ltb b a = false.
Proof.
  by_type ty a b; intros [_ Ha] [_ Hb]; int_cases.
  - intros ->%String.eqb_eq. split; apply string_ltb_irrefl.
  - bool_cases.
Qed.

Lemma value_neg_trans (ty : DataType) (a b c : Value) :
  comparable ty a → comparable ty b → comparable ty c →
  value_ltb a b = false → value_ltb b c = false → value_ltb a c = false.
Proof.
  intros Ha Hb Hc. revert Ha Hb.
  by_type ty a b; intros [_ Ha] [_ Hb]; revert Hc;
    unfold comparable, normal;
    (destruct c; cbn [has_type]; try (intros; exfalso; tauto));
    unfold not_nan, value_ltb, fp_ltb;
    intros [_ Hc]; int_cases.
  - apply string_neg_trans.
  - bool_cases.
Qed.

Lemma value_eqb_sym (ty : DataType) (a b : Value) :
  comparable ty a → comparable ty b →
  value_eqb a b = true → value_eqb b a = true.
Proof.
  intros Ha Hb Heq. destruct (value_eqb_not_ltb ty a b Ha Hb Heq).
  by apply (value_total ty).
Qed.

(** The three-way comparison, in terms of [operator<]. *)
Lemma key_less_ltb (ty : DataType) (key a : Value) :
  comparable ty key → comparable ty a →
  BPlusTreeIndex.key_less key a = value_ltb a key.
Proof.
  intros Hk Ha. unfold BPlusTreeIndex.key_less, BPlusTreeIndex.compareValues.
  destruct (value_eqb a key) eqn:Heq.
  - by destruct (value_eqb_not_ltb ty a key Ha Hk Heq) as [-> _].
  - by destruct (value_ltb a key).
Qed.

Lemma compare_above (ty : DataType) (a hi : Value) :
  comparable ty a → comparable ty hi →
  (0 <? BPlusTreeIndex.compareValues a hi)%Z = value_ltb hi a.
Proof.
  intros Ha Hh. unfold BPlusTreeIndex.compareValues.
  destruct (value_eqb a hi) eqn:Heq.
  - by destruct (value_eqb_not_ltb ty a hi Ha Hh Heq) as [_ ->].
  - destruct (value_ltb a hi) eqn:Hlt.
    + by rewrite (value_ltb_asym ty a hi).
    + destruct (value_ltb hi a) eqn:Hgt; [done|].
      by rewrite (value_total ty a hi) in Heq.
Qed.

Lemma compare_in_range (ty : DataType) (a lo hi : Value) :
  comparable ty a → comparable ty lo → comparable ty hi →
  (0 <=? BPlusTreeIndex.compareValues a lo)%Z
  && (BPlusTreeIndex.compareValues a hi <=? 0)%Z
  = in_range lo hi a.
Proof.
  intros Ha Hl Hh. unfold in_range.
  pose proof (compare_above ty a hi Ha Hh) as Habove. f_equal.
  - unfold BPlusTreeIndex.compareValues. destruct (value_eqb a lo) eqn:Heq.
    + by destruct (value_eqb_not_ltb ty a lo Ha Hl Heq) as [-> _].
    + by destruct (value_ltb a lo).
  - rewrite <- Habove. by destruct (BPlusTreeIndex.compareValues a hi).
Qed.

(** No key below [key] equals something [key] equals. *)
Lemma ltb_eqb_contra (ty : DataType) (a key v : Value) :
  comparable ty a → comparable ty key →
  value_ltb a key = true → value_eqb key v = true → value_eqb a v = false.
Proof.
  revert v. by_type ty a key; intros v [_ Ha] [_ Hk]; destruct v; try done;
    int_cases.
  - intros Hlt ->%String.eqb_eq. apply String.eqb_neq. intros ->.
    by rewrite string_ltb_irrefl in Hlt.
  - bool_cases.
Qed.

End key_order.

(** ** Binary search *)

Lemma lower_bound_loop_partition (comp : Value → bool) (l1 l2 : list Value) :
  Forall (λ a, comp a = true) l1 → Forall (λ a, comp a = false) l2 →
  ∀ steps first len,
    (len ≤ steps)%nat → (first ≤ length l1)%nat →
    (length l1 ≤ first + len)%nat → (first + len ≤ length (l1 ++ l2))%nat →
    lower_bound_loop steps comp (l1 ++ l2) first len = length l1.
Proof.
  intros H1 H2. induction steps as [|steps IH]; intros first len Hs Hf Hl Hb.
  { cbn [lower_bound_loop]. lia. }
  cbn [lower_bound_loop]. destruct (Nat.eqb_spec len 0) as [->|Hpos]; [lia|].
  assert (len / 2 < len)%nat as Hhalf by (apply Nat.div_lt; lia).
  destruct ((l1 ++ l2) !! (first + len / 2)%nat) as [x|] eqn:Hx.
  2: { apply lookup_ge_None in Hx. lia. }
  destruct (decide (first + len / 2 < length l1)%nat) as [Hin|Hout].
  - rewrite lookup_app_l in Hx by done.
    rewrite (proj1 (Forall_lookup _ _) H1 _ _ Hx).
    apply IH; lia.
  - rewrite lookup_app_r in Hx by lia.
    rewrite (proj1 (Forall_lookup _ _) H2 _ _ Hx).
    apply IH; lia.
Qed.

Lemma lower_bound_partition (comp : Value → bool) (l1 l2 : list Value) :
  Forall (λ a, comp a = true) l1 → Forall (λ a, comp a = false) l2 →
  lower_bound comp (l1 ++ l2) = length l1.
Proof.
  intros H1 H2. unfold lower_bound.
  apply lower_bound_loop_partition; try done; try lia.
  rewrite length_app. lia.
Qed.


(** ** Columns: appending and reading back *)

Section columns.
Import DiskBasedColumn.

Lemma index_holds_transfer (idx : BPlusTreeIndex.t) (w w' : World)
    (es : list (Value * RecordId)) :
  index_holds idx w es →
  next_page_id w' = next_page_id w →
  (∀ c, file_is w (BPlusTreeIndex.index_name_ idx) c →
        file_is w' (BPlusTreeIndex.index_name_ idx) c) →
  index_holds idx w' es.
Proof.
  intros (Hmax & Hnorm & Hr64 & Hlen & Hroot & c & Hc & Hfresh & Hleaf) Hnp Hkeep.
  unfold index_holds. rewrite Hnp. repeat (split; [done|]).
  exists c. split; [by apply Hkeep|done].
Qed.

Lemma record_size_width (ty : DataType) :
  getRecordSize ty = N.of_nat (value_width ty).
Proof. by destruct ty. Qed.

(** Slots of one page do not overlap and lie inside the page. *)
Lemma slot_in_page (ty : DataType) (offset : N) :
  offset < PAGE_SIZE / getRecordSize ty →
  offset * getRecordSize ty + getRecordSize ty <= PAGE_SIZE
  ∧ wrap64 (offset * getRecordSize ty) = offset * getRecordSize ty.
Proof.
  intros Ho. unfold wrap64, PAGE_SIZE in *.
  assert (offset * getRecordSize ty + getRecordSize ty <= 4096) as Hin.
  { destruct ty; cbn [getRecordSize] in *;
      [change (4096 / 4) with 1024 in Ho|change (4096 / 8) with 512 in Ho
      |change (4096 / 4) with 1024 in Ho|change (4096 / 8) with 512 in Ho
      |change (4096 / 256) with 16 in Ho|change (4096 / 1) with 4096 in Ho]; lia. }
  split; [done|]. apply N.mod_small. lia.
Qed.

Lemma records_per_page_pos (c : t) : column_layout c → 0 < records_per_page_ c.
Proof. unfold column_layout. intros ->. by destruct (type_ c). Qed.

Lemma get_holds (c : t) (w : World) (vs : list Value)
    (es : list (Value * RecordId)) (r : nat) (v : Value) :
  column_holds c w vs es → vs !! r = Some v → N.of_nat r < 2 ^ 51 →
  returns (get c (N.of_nat r)) w
    (λ v' w', v' = as_stored v ∧ column_holds c w' vs es
              ∧ next_page_id w' = next_page_id w).
Proof.
  intros (Hlay & Hfiles & Hkty & Htot & Hty & Hidx & cd & Hcd & Hslots) Hv Hr.
  pose proof (records_per_page_pos c Hlay) as Hrpp.
  unfold get. apply returns_bind.
  eapply fetch_returns; [done| |].
  { unfold addressable. pose proof (N.Div0.div_le_upper_bound (N.of_nat r)
      (records_per_page_ c) (N.of_nat r)). nia. }
  intros page w' Hdata _ Hnp Hkeep.
  eapply returns_lift.
  { unfold readValueFromPage. rewrite Hdata.
    destruct (slot_in_page (type_ c) (N.of_nat r mod records_per_page_ c)) as [_ ->].
    { rewrite <- Hlay. by apply N.mod_lt, N.neq_0_lt_0. }
    rewrite (Hslots r v Hv). cbn [obind]. done. }
  split; [|split; [|done]].
  - change (value_of_bytes (type_ c) (enc (type_ c) v)) with (stored (type_ c) v).
    apply stored_as_stored. by eapply Forall_lookup_1.
  - repeat (split; [done|]). split.
    + eapply index_holds_transfer; [done..|]. intros ci. apply Hkeep.
    + exists cd. split; [by apply Hkeep|done].
Qed.

(** One append: the record lands in its slot, the index takes its step. *)
Lemma append_holds (fuel : nat) (c : t) (w : World) (vs : list Value)
    (es : list (Value * RecordId)) (v : Value) :
  (0 < fuel)%nat →
  column_holds c w vs es →
  has_type (type_ c) v →
  N.of_nat (length vs) < 2 ^ 51 →
  next_page_id w + 3 < 2 ^ 51 →
  (leaf_size (type_ c) (Nat.min (S (length es)) 64) ≤ N.to_nat PAGE_SIZE)%nat →
  (length es < 127 → leaf_size (type_ c) (S (length es)) ≤ N.to_nat PAGE_SIZE)%nat →
  returns (append fuel c v) w
    (λ rc w',
       rc.1 = N.of_nat (length vs)
       ∧ column_holds rc.2 w' (vs ++ [v]) (index_step v (N.of_nat (length vs)) es)
       ∧ next_page_id w ≤ next_page_id w' ≤ next_page_id w + 3
       ∧ name_ rc.2 = name_ c ∧ type_ rc.2 = type_ c
       ∧ BPlusTreeIndex.root_page_id_ (index_ rc.2) ≠ 0
       ∧ (∃ bytes, ∀ cd,
            file_is w (data_file_ c) cd →
            poke (cd (N.of_nat (length vs) / records_per_page_ c))
                 (N.of_nat (length vs) mod records_per_page_ c
                  * getRecordSize (type_ c))
                 (enc (type_ c) v) = Ret bytes
            ∧ file_is w' (data_file_ c)
                (with_page (N.of_nat (length vs) / records_per_page_ c) bytes cd))
       ∧ ∀ f' c', f' ≠ data_file_ c →
                  f' ≠ BPlusTreeIndex.index_name_ (index_ c) →
                  file_is w f' c' → file_is w' f' c').
Proof.
  intros Hfuel (Hlay & Hfiles & Hkty & Htot & Hty & Hidx & cd & Hcd & Hslots)
    Hv Hlen Hnp Hfit64 Hfit.
  pose proof (records_per_page_pos c Hlay) as Hrpp.
  unfold append. rewrite Htot.
  set (r := N.of_nat (length vs)).
  set (pid := r / records_per_page_ c).
  set (off := r mod records_per_page_ c).
  assert (addressable pid) as Hpid.
  { unfold addressable, pid. pose proof (N.Div0.div_le_upper_bound r
      (records_per_page_ c) r). nia. }
  assert (off < PAGE_SIZE / getRecordSize (type_ c)) as Hoff.
  { rewrite <- Hlay. by apply N.mod_lt, N.neq_0_lt_0. }
  destruct (slot_in_page (type_ c) off Hoff) as [Hin Hwrap].
  destruct (value_bytes_typed (type_ c) v Hv) as [Hbytes Hwidth].
  apply returns_bind. eapply fetch_returns; [done..|].
  intros page w1 Hdata Hres Hnp1 Hkeep1.
  pose proof (file_is_sized w (data_file_ c) cd pid Hcd Hpid) as Hsz.
  assert (∃ bytes, poke (cd pid) (off * getRecordSize (type_ c)) (enc (type_ c) v)
                   = Ret bytes) as [bytes Hpoke].
  { eexists. apply poke_Ret. unfold page_sized in Hsz.
    rewrite Hsz, Hwidth. rewrite record_size_width in *. unfold PAGE_SIZE in *. lia. }
  apply returns_bind. eapply returns_lift.
  { unfold writeValueToPage. rewrite Hbytes, Hdata, Hwrap. cbn [obind]. exact Hpoke. }
  apply returns_bind.
  eapply store_returns; [by apply Hkeep1|done| |by rewrite Hres|].
  { unfold page_sized. rewrite (poke_length _ _ _ _ Hpoke). exact Hsz. }
  intros w2 Hcd2 Hnp2 Honly2.
  assert (index_holds (index_ c) w2 es) as Hidx2.
  { eapply index_holds_transfer; [done|congruence|].
    intros ci Hci. apply Honly2; [done|]. by apply Hkeep1. }
  apply returns_bind.
  eapply returns_mono.
  { apply (insert_holds fuel (index_ c) w2 es v r); try done.
    - by rewrite Hkty.
    - unfold r. lia.
    - lia.
    - by rewrite Hkty.
    - by rewrite Hkty. }
  intros idx' w3 (Hidx3 & Hname3 & Hkty3 & Hnp3 & Honly3 & Hroot3).
  assert (file_is w3 (data_file_ c) (with_page pid bytes cd)) as Hcd3.
  { by apply Honly3. }
  apply returns_bind.
  assert (returns
            (if ((N.of_nat (length vs) <? 5) || (N.of_nat (length vs) mod 10000 =? 0))
                && (N.of_nat (length vs) mod 1000 =? 0)
             then with_pool (BufferPoolManager.flushPage (data_file_ c) pid)
             else ret tt)
            w3
            (λ _ w4, next_page_id w4 = next_page_id w3
                     ∧ ∀ f' c', file_is w3 f' c' → file_is w4 f' c')) as Hflush.
  { destruct (_ && _).
    - apply flushPage_returns. intros w4 Hnp4 Hkeep4. done.
    - apply returns_ret. done. }
  eapply returns_mono; [exact Hflush|]. clear Hflush.
  intros _ w4 [Hnp4 Hkeep4]. apply returns_ret.
  cbn [fst snd name_ type_ index_].
  split; [done|].
  split; [|split; [lia|split; [done|split; [done|split; [done|]]]]]; cycle 1.
  { split.
    - exists bytes. intros cd' Hcd'.
      assert (∀ p, addressable p → cd' p = cd p) as Hagree.
      { intros p Hp. destruct Hcd as [_ Hview], Hcd' as [_ Hview'].
        by rewrite <- Hview, <- Hview'. }
      fold r pid off. split; [by rewrite Hagree|].
      destruct (Hkeep4 _ _ Hcd3) as [Hok4 Hview4]. split; [done|].
      intros p Hp. rewrite Hview4 by done. unfold with_page.
      case_decide; [done|]. symmetry. by apply Hagree.
    - intros f' c' Hf1 Hf2 Hf'. apply Hkeep4, Honly3; [done|].
      apply Honly2; [done|]. by apply Hkeep1. }
  unfold column_holds.
  cbn [type_ data_file_ index_ total_records_ records_per_page_].
  split; [done|]. split; [by rewrite Hname3|]. split; [congruence|].
  split.
  { rewrite length_app. cbn [length]. unfold wrap64. rewrite N.mod_small; lia. }
  split; [apply Forall_app; split; [done|by constructor]|].
  split.
  { eapply index_holds_transfer; [done..|]. rewrite Hname3.
    intros ci. apply Hkeep4. }
  exists (with_page pid bytes cd). split; [by apply Hkeep4|].
  intros r' v' Hv'.
  destruct (decide (r' < length vs)%nat) as [Hold|Hnew].
  - rewrite lookup_app_l in Hv' by done.
    specialize (Hslots r' v' Hv').
    destruct (decide (N.of_nat r' / records_per_page_ c = pid)) as [Hsame|Hother].
    + rewrite Hsame, with_page_same.
      rewrite (poke_other _ _ _ _ _ _ Hpoke); [by rewrite <- Hsame|].
      assert (N.of_nat r' mod records_per_page_ c ≠ off) as Hslot.
      { intros Heq. unfold off, pid in *.
        pose proof (N.Div0.div_mod (N.of_nat r') (records_per_page_ c)).
        pose proof (N.Div0.div_mod r (records_per_page_ c)).
        unfold r in *. rewrite Hsame, Heq in *. lia. }
      rewrite Hwidth, record_size_width. nia.
    + by rewrite with_page_other.
  - apply lookup_app_Some in Hv' as [Hv'|[Hge Hv']].
    { apply lookup_lt_Some in Hv'. lia. }
    apply list_lookup_singleton_Some in Hv' as [Hz <-].
    replace r' with (length vs) by lia. fold r pid off.
    rewrite with_page_same, <- Hwidth. by eapply poke_same.
Qed.

Lemma string_app_inj (s a b : string) : s +:+ a = s +:+ b → a = b.
Proof. induction s as [|x s IH]; simpl; [done|]. intros [= H]. by apply IH. Qed.

Lemma column_ready_holds (name : string) (ty : DataType) (w : World) :
  column_ready name w → column_holds (create name ty) w [] [].
Proof.
  intros (Hnp & [cd Hcd] & ci & Hci & Hfresh).
  unfold column_holds, create.
  cbn [type_ data_file_ index_ total_records_ records_per_page_
       BPlusTreeIndex.create BPlusTreeIndex.index_name_ BPlusTreeIndex.key_type_].
  split; [done|]. split; [by intros ?%string_app_inj|].
  split; [done|]. split; [done|]. split; [constructor|]. split.
  - unfold index_holds.
    cbn [BPlusTreeIndex.create BPlusTreeIndex.index_name_ BPlusTreeIndex.key_type_
         BPlusTreeIndex.max_keys_ BPlusTreeIndex.root_page_id_].
    split; [done|]. split; [constructor|]. split; [constructor|].
    split; [cbn; lia|]. split; [done|]. exists ci. done.
  - exists cd. split; [done|]. intros r v Hv. by rewrite lookup_nil in Hv.
Qed.

Lemma length_index_step (v : Value) (r : RecordId) (es : list (Value * RecordId)) :
  (length (index_step v r es) ≤ S (length es))%nat.
Proof.
  unfold index_step. case_decide; [|cbn; lia].
  unfold leaf_insert. rewrite length_insert_at. lia.
Qed.

(** A leaf of up to [leaf_capacity] keys fits its page. *)
Lemma leaf_fits (ty : DataType) (n : nat) :
  (n ≤ leaf_capacity ty)%nat → (leaf_size ty n ≤ N.to_nat PAGE_SIZE)%nat.
Proof.
  change (N.to_nat PAGE_SIZE) with 4096%nat.
  unfold leaf_size. destruct ty; cbn [leaf_capacity value_width]; lia.
Qed.

(** Any number of appends, as long as the leaves the index builds fit
    their pages. *)
Lemma insert_index_name (fuel : nat) (idx : BPlusTreeIndex.t) (key : Value)
    (record_id : RecordId) (w : World) (idx' : BPlusTreeIndex.t) (w' : World) :
  BPlusTreeIndex.insert fuel idx key record_id w = Ret (idx', w') →
  BPlusTreeIndex.index_name_ idx' = BPlusTreeIndex.index_name_ idx.
Proof.
  unfold BPlusTreeIndex.insert. intros H. inv_bind H.
  assert (BPlusTreeIndex.index_name_ a = BPlusTreeIndex.index_name_ idx) as Hname.
  { destruct (BPlusTreeIndex.root_page_id_ idx =? 0).
    - inv_bind H_. by injection H_ as <- _.
    - by injection H_ as <- _. }
  inv_bind H. destruct (negb (a0.2 =? 0)).
  - do 3 inv_bind H. by injection H as <- _.
  - by injection H as <- _.
Qed.

Lemma append_index_name (fuel : nat) (c : DiskBasedColumn.t) (v : Value)
    (w : World) (r : RecordId) (c' : DiskBasedColumn.t) (w' : World) :
  DiskBasedColumn.append fuel c v w = Ret ((r, c'), w') →
  BPlusTreeIndex.index_name_ (DiskBasedColumn.index_ c')
  = BPlusTreeIndex.index_name_ (DiskBasedColumn.index_ c).
Proof.
  unfold DiskBasedColumn.append. intros H. do 3 inv_bind H.
  inv_bind H. apply insert_index_name in H_2. inv_bind H.
  by injection H as _ <- _.
Qed.

Lemma run_appends_holds (fuel : nat) (vs : list Value) :
  (0 < fuel)%nat →
  ∀ (c : t) (w : World) (done : list Value) (es : list (Value * RecordId)),
    column_holds c w done es →
    Forall (has_type (type_ c)) vs →
    (length es ≤ length done)%nat →
    (type_ c = STRING → length done + length vs ≤ 15)%nat →
    N.of_nat (length done + length vs) < 2 ^ 51 →
    next_page_id w + 3 * N.of_nat (length vs) < 2 ^ 51 →
    returns (run_appends fuel c vs) w
      (λ c' w',
         column_holds c' w' (done ++ vs)
           (index_entries es (N.of_nat (length done)) vs)
         ∧ type_ c' = type_ c ∧ name_ c' = name_ c
         ∧ next_page_id w' ≤ next_page_id w + 3 * N.of_nat (length vs)
         ∧ (vs ≠ [] ∨ BPlusTreeIndex.root_page_id_ (index_ c) ≠ 0 →
            BPlusTreeIndex.root_page_id_ (index_ c') ≠ 0)
         ∧ next_page_id w ≤ next_page_id w'
         ∧ data_file_ c' = data_file_ c
         ∧ BPlusTreeIndex.index_name_ (index_ c')
           = BPlusTreeIndex.index_name_ (index_ c)
         ∧ ∀ f' cf, f' ≠ data_file_ c →
                    f' ≠ BPlusTreeIndex.index_name_ (index_ c) →
                    file_is w f' cf → file_is w' f' cf).
Proof.
  intros Hfuel. induction vs as [|v vs IH];
    intros c w done es Hc Hty Hes Hstr Hlen Hnp.
  { apply returns_ret. rewrite app_nil_r. repeat (split; [done|]).
    split; [cbn; lia|]. split; [by intros [?|?]|]. split; [lia|]. done. }
  cbn [run_appends index_entries]. cbn [length] in *.
  apply list.Forall_cons in Hty as [Hv Hty].
  pose proof Hc as (_ & _ & _ & _ & _ & (_ & _ & _ & Hes127 & _) & _).
  destruct (append_holds fuel c w done es v) as ([r c1] & w1 & Hrun & Hpost);
    try done; try lia.
  { apply leaf_fits. destruct (decide (type_ c = STRING)) as [Hs|Hs].
    - rewrite Hs. cbn. specialize (Hstr Hs). lia.
    - destruct (type_ c); cbn; try done; lia. }
  { intros Hroom. apply leaf_fits. destruct (decide (type_ c = STRING)) as [Hs|Hs].
    - rewrite Hs. cbn. specialize (Hstr Hs). lia.
    - destruct (type_ c); cbn; try done; lia. }
  destruct Hpost as (Hr & Hc1 & Hnp1 & Hname1 & Hty1 & Hroot1 & _ & Hframe1).
  cbn [fst snd] in *.
  destruct (append_fields _ _ _ _ _ _ _ Hrun) as (_ & _ & _ & _ & Hfile1 & _).
  pose proof (append_index_name _ _ _ _ _ _ _ Hrun) as Hiname1.
  apply returns_bind. exists (r, c1), w1. split; [exact Hrun|]. cbn [snd].
  eapply returns_mono.
  { apply (IH c1 w1 (done ++ [v]) (index_step v (N.of_nat (length done)) es));
      rewrite ?length_app, ?Hty1; cbn [length]; try done; try lia.
    - pose proof (length_index_step v (N.of_nat (length done)) es). lia.
    - intros Hs. specialize (Hstr Hs). lia. }
  intros c' w' (Hc' & Hty' & Hname' & Hnp' & Hroot' & Hlo' & Hfile' & Hiname'
                 & Hframe'). cbn beta.
  rewrite <- app_assoc in Hc'. cbn [app] in Hc'.
  rewrite length_app in Hc'. cbn [length] in Hc'.
  replace (N.of_nat (length done + 1)) with (N.of_nat (length done) + 1) in Hc' by lia.
  split; [done|]. split; [congruence|]. split; [congruence|].
  split; [lia|]. split; [intros _; apply Hroot'; by right|].
  split; [lia|]. split; [congruence|]. split; [congruence|].
  intros f' cf Hf1 Hf2 Hcf. apply Hframe'; [congruence|congruence|].
  by apply Hframe1.
Qed.

End columns.


(** ** The entries of an unsplit leaf *)

Section leaf_entries.

Lemma entry_before_not_ltb (ty : DataType) (a b : Value * RecordId) :
  comparable ty a.1 → comparable ty b.1 →
  entry_before a b → value_ltb b.1 a.1 = false.
Proof.
  intros Ha Hb [Hlt|[Heq _]].
  - by apply (value_ltb_asym ty).
  - by destruct (value_eqb_not_ltb ty _ _ Ha Hb Heq).
Qed.

(** A sorted leaf splits into the keys below [key] and the others. *)
Lemma sorted_split (ty : DataType) (key : Value) (es : list (Value * RecordId)) :
  comparable ty key →
  Forall (comparable ty) es.*1 → StronglySorted entry_before es →
  ∃ l1 l2, es = l1 ++ l2
           ∧ Forall (λ e, value_ltb e.1 key = true) l1
           ∧ Forall (λ e, value_ltb e.1 key = false) l2.
Proof.
  intros Hk. induction es as [|e es IH]; intros Hcomp Hsorted.
  { exists [], []. by repeat constructor. }
  rewrite fmap_cons in Hcomp. apply list.Forall_cons in Hcomp as [He Hcomp].
  apply StronglySorted_cons in Hsorted as [Hbefore Hsorted].
  destruct (value_ltb e.1 key) eqn:Hlt.
  - destruct (IH Hcomp Hsorted) as (l1 & l2 & -> & H1 & H2).
    exists (e :: l1), l2. split; [done|]. split; [by constructor|done].
  - exists [], (e :: es). split; [done|]. split; [constructor|].
    constructor; [done|].
    rewrite Forall_forall in Hbefore. rewrite Forall_fmap, Forall_forall in Hcomp.
    apply Forall_forall. intros b Hb.
    apply (value_neg_trans ty b.1 e.1 key); try done; [by apply Hcomp|].
    apply (entry_before_not_ltb ty e b); [done|by apply Hcomp|by apply Hbefore].
Qed.

Lemma filter_none {A} (P : A → Prop) `{∀ x, Decision (P x)} (l : list A) :
  Forall (λ x, ¬ P x) l → filter P l = [].
Proof.
  induction 1 as [|x l Hx _ IH]; [done|]. by rewrite filter_cons_False.
Qed.

Lemma insert_at_app {A} (l1 l2 : list A) (x : A) :
  insert_at (length l1) x (l1 ++ l2) = l1 ++ x :: l2.
Proof. unfold insert_at. by rewrite take_app_length, drop_app_length. Qed.

Lemma leaf_insert_split (ty : DataType) (key : Value) (r : RecordId)
    (l1 l2 : list (Value * RecordId)) :
  comparable ty key →
  Forall (comparable ty) (l1 ++ l2).*1 →
  Forall (λ e, value_ltb e.1 key = true) l1 →
  Forall (λ e, value_ltb e.1 key = false) l2 →
  leaf_insert key r (l1 ++ l2) = l1 ++ (key, r) :: l2.
Proof.
  intros Hk Hcomp H1 H2. unfold leaf_insert.
  rewrite (as_stored_id ty) by apply Hk.
  rewrite fmap_app in *. apply Forall_app in Hcomp as [Hc1 Hc2].
  rewrite lower_bound_partition.
  - rewrite length_fmap. apply insert_at_app.
  - rewrite Forall_fmap, Forall_forall in *. intros e He. cbn.
    rewrite (key_less_ltb ty); [by apply H1|done|by apply Hc1].
  - rewrite Forall_fmap, Forall_forall in *. intros e He. cbn.
    rewrite (key_less_ltb ty); [by apply H2|done|by apply Hc2].
Qed.

Lemma records_equal_snoc (v key : Value) (done : list Value) :
  records_equal v (done ++ [key])
  = records_equal v done
      ++ (if value_eqb key v then [N.of_nat (length done)] else []).
Proof.
  unfold records_equal. rewrite length_app. cbn [length].
  rewrite Nat.add_1_r, seq_S, fmap_app. cbn [fmap list_fmap Nat.add].
  rewrite zip_with_app by (by rewrite length_fmap, length_seq).
  rewrite filter_app, fmap_app. f_equal. cbn [zip_with].
  rewrite filter_cons, filter_nil. cbn [fst].
  destruct (value_eqb key v); by rewrite ?decide_True, ?decide_False by done.
Qed.

Lemma entries_of_nil (ty : DataType) : entries_of ty [] [].
Proof.
  split; [constructor|]. split; [constructor|]. split; [constructor|].
  split; [done|]. split; [|done].
  intros k r. rewrite lookup_nil. split; [by intros ?%elem_of_nil|done].
Qed.

(** The step of [index_step] on an unsplit leaf. *)
Lemma entries_of_step (ty : DataType) (done : list Value)
    (es : list (Value * RecordId)) (key : Value) :
  entries_of ty done es → comparable ty key → (length done < 127)%nat →
  entries_of ty (done ++ [key]) (index_step key (N.of_nat (length done)) es).
Proof.
  intros (Hcomp & Hsorted & Hnd & Hlen & Hmem & Hfilter) Hk Hroom.
  unfold index_step. rewrite decide_True by lia.
  destruct (sorted_split ty key es Hk Hcomp Hsorted) as (l1 & l2 & -> & H1 & H2).
  rewrite (leaf_insert_split ty) by done.
  set (n := N.of_nat (length done)).
  assert (∀ k r, (k, r) ∈ l1 ++ l2 → r < n) as Hbound.
  { intros k r Hin. apply Hmem in Hin. apply lookup_lt_Some in Hin. lia. }
  split; [|split; [|split; [|split; [|split]]]].
  - rewrite fmap_app, fmap_cons in *. apply Forall_app in Hcomp as [Hc1 Hc2].
    apply Forall_app. split; [done|]. by constructor.
  - apply StronglySorted_app in Hsorted as (H12 & Hs1 & Hs2).
    apply StronglySorted_app. split; [|split; [done|]].
    + intros a Ha b [->|Hb]%elem_of_cons; [|by apply H12].
      left. cbn. by apply (proj1 (Forall_forall _ _) H1).
    + apply StronglySorted_cons. split; [|done].
      apply Forall_forall. intros [kb rb] Hb.
      pose proof (proj1 (Forall_forall _ _) H2 _ Hb) as Hnlt. cbn in Hnlt.
      destruct (value_ltb key kb) eqn:Hlt; [by left|]. right. cbn. split.
      * apply (value_total ty); try done.
        rewrite Forall_fmap, Forall_forall in Hcomp.
        apply (Hcomp (kb, rb)). set_solver.
      * apply (Hbound kb). set_solver.
  - rewrite fmap_app, fmap_cons in *. cbn [snd].
    apply list.NoDup_app in Hnd as (Hn1 & Hn12 & Hn2).
    apply list.NoDup_app. split; [done|]. split.
    + intros r Hr [Heq|Hr2]%elem_of_cons; [|by eapply Hn12].
      apply list_elem_of_fmap in Hr as ([k r'] & Heq' & Hin). cbn in *.
      assert (r' < n) by (apply (Hbound k); set_solver). lia.
    + apply list.NoDup_cons. split; [|done].
      intros Hr. apply list_elem_of_fmap in Hr as ([k r'] & Heq & Hin). cbn in *.
      assert (r' < n) by (apply (Hbound k); set_solver). lia.
  - rewrite !length_app in *. cbn [length] in *. lia.
  - intros k r.
    assert ((k, r) ∈ l1 ++ (key, n) :: l2 ↔ (k, r) ∈ l1 ++ l2 ∨ (k, r) = (key, n))
      as -> by set_solver.
    rewrite Hmem. split.
    + intros [Hold|[= -> ->]].
      * by apply lookup_app_l_Some.
      * unfold n. rewrite Nat2N.id. by rewrite list_lookup_middle.
    + intros Hlook. apply lookup_app_Some in Hlook as [Hold|[Hge Hnew]]; [by left|].
      right. apply list_lookup_singleton_Some in Hnew as [Hz <-].
      f_equal. unfold n. lia.
  - intros v. rewrite records_equal_snoc, reverse_app. fold n.
    rewrite <- Hfilter. rewrite !filter_app, filter_cons. cbn [fst].
    destruct (value_eqb key v) eqn:Heq.
    + rewrite decide_True by done.
      assert (filter (λ e, value_eqb e.1 v = true) l1 = []) as ->.
      { apply filter_none. apply Forall_forall. intros a Ha.
        rewrite fmap_app in Hcomp. apply Forall_app in Hcomp as [Hc1 _].
        rewrite Forall_fmap, Forall_forall in Hc1.
        rewrite (ltb_eqb_contra ty a.1 key v); try done; [by apply Hc1|].
        by apply (proj1 (Forall_forall _ _) H1). }
      done.
    + rewrite decide_False by done. done.
Qed.

Lemma entries_of_index_entries (ty : DataType) (vs : list Value) :
  ∀ (done : list Value) (es : list (Value * RecordId)),
    entries_of ty done es → Forall (comparable ty) vs →
    (length done + length vs ≤ 127)%nat →
    entries_of ty (done ++ vs) (index_entries es (N.of_nat (length done)) vs).
Proof.
  induction vs as [|v vs IH]; intros done es Hes Hcomp Hlen.
  { by rewrite app_nil_r. }
  apply list.Forall_cons in Hcomp as [Hv Hcomp]. cbn [index_entries length] in *.
  replace (done ++ v :: vs) with ((done ++ [v]) ++ vs) by (by rewrite <- app_assoc).
  replace (N.of_nat (length done) + 1) with (N.of_nat (length (done ++ [v])))
    by (rewrite length_app; cbn; lia).
  apply IH; [|done|rewrite length_app; cbn; lia].
  apply entries_of_step; [done..|lia].
Qed.

(** On a sorted leaf the scan of [rangeSearch] collects the entries in
    range, and all of them. *)
Lemma range_scan_filter (ty : DataType) (lo hi : Value)
    (es : list (Value * RecordId)) :
  comparable ty lo → comparable ty hi →
  Forall (comparable ty) es.*1 → StronglySorted entry_before es →
  (range_scan lo hi es).1 = (filter (λ e, in_range lo hi e.1 = true) es).*2.
Proof.
  intros Hlo Hhi. induction es as [|e es IH]; intros Hcomp Hsorted; [done|].
  rewrite fmap_cons in Hcomp. apply list.Forall_cons in Hcomp as [He Hcomp].
  apply StronglySorted_cons in Hsorted as [Hbefore Hsorted].
  cbn [range_scan]. rewrite (compare_in_range ty), (compare_above ty) by done.
  rewrite filter_cons.
  destruct (value_ltb hi e.1) eqn:Habove.
  - assert (in_range lo hi e.1 = false) as Hout.
    { unfold in_range. rewrite Habove. by rewrite andb_false_r. }
    rewrite Hout, decide_False by done. cbn [fst].
    rewrite filter_none; [done|]. apply Forall_forall. intros b Hb.
    rewrite Forall_forall in Hbefore. rewrite Forall_fmap, Forall_forall in Hcomp.
    assert (value_ltb hi b.1 = true) as Hb_above.
    { destruct (value_ltb hi b.1) eqn:Hlt; [done|].
      rewrite (value_neg_trans ty hi b.1 e.1) in Habove; try done; [by apply Hcomp|].
      apply (entry_before_not_ltb ty e b); [done|by apply Hcomp|by apply Hbefore]. }
    unfold in_range. rewrite Hb_above. by rewrite andb_false_r.
  - cbn [fst snd]. rewrite IH by done.
    destruct (in_range lo hi e.1); by rewrite ?decide_True, ?decide_False by done.
Qed.

End leaf_entries.


(** ** Searching the index *)

Section index_search.
Import BPlusTreeIndex.

Lemma collect_equal_entries (key : Value) (es : list (Value * RecordId)) :
  ∀ pre,
    collect_equal key es.*1 (pre ++ es.*2) (length pre)
    = Ret (filter (λ e, value_eqb e.1 key = true) es).*2.
Proof.
  induction es as [|e es IH]; intros pre; [done|].
  rewrite !fmap_cons. cbn [collect_equal]. rewrite filter_cons.
  replace (pre ++ e.2 :: es.*2) with ((pre ++ [e.2]) ++ es.*2)
    by (by rewrite <- app_assoc).
  replace (S (length pre)) with (length (pre ++ [e.2]))
    by (rewrite length_app; cbn; lia).
  destruct (value_eqb e.1 key) eqn:Heq.
  - rewrite decide_True by done. unfold at_index at 1.
    rewrite <- app_assoc. cbn [app]. rewrite list_lookup_middle by done.
    cbn [obind].
    replace (pre ++ e.2 :: es.*2) with ((pre ++ [e.2]) ++ es.*2)
      by (by rewrite <- app_assoc).
    by rewrite IH.
  - rewrite decide_False by done. apply IH.
Qed.

Lemma collect_range_entries (lo hi : Value) (es : list (Value * RecordId)) :
  ∀ pre,
    collect_range lo hi es.*1 (pre ++ es.*2) (length pre)
    = Ret (range_scan lo hi es).
Proof.
  induction es as [|e es IH]; intros pre; [done|].
  rewrite !fmap_cons. cbn [collect_range range_scan].
  assert (at_index (pre ++ e.2 :: es.*2) (length pre) = Ret e.2) as Hat.
  { unfold at_index. by rewrite list_lookup_middle. }
  replace (pre ++ e.2 :: es.*2) with ((pre ++ [e.2]) ++ es.*2) in *
    by (by rewrite <- app_assoc).
  replace (S (length pre)) with (length (pre ++ [e.2]))
    by (rewrite length_app; cbn; lia).
  rewrite IH.
  destruct ((0 <=? compareValues e.1 lo)%Z && (compareValues e.1 hi <=? 0)%Z);
    rewrite ?Hat; cbn [obind]; destruct (0 <? compareValues e.1 hi)%Z; cbn [obind];
    by destruct (range_scan lo hi es).
Qed.

Lemma index_holds_root_page (idx : t) (w : World) (es : list (Value * RecordId)) :
  index_holds idx w es → next_page_id w ≤ 2 ^ 51 →
  root_page_id_ idx ≠ 0 →
  ∃ c, file_is w (index_name_ idx) c
       ∧ addressable (root_page_id_ idx)
       ∧ parse_node (max_keys_ idx) (c (root_page_id_ idx))
         = Ret (leaf_node es.*1 es.*2 0).
Proof.
  intros (Hmax & _ & _ & _ & Hroot & c & Hc & _ & Hleaf) Hnp Hnz.
  exists c. split; [done|]. split; [unfold addressable; lia|].
  rewrite Hmax. by destruct (N.eqb_spec (root_page_id_ idx) 0).
Qed.

Lemma index_holds_empty (idx : t) (w : World) (es : list (Value * RecordId)) :
  index_holds idx w es → root_page_id_ idx = 0 → es = [].
Proof.
  intros (_ & _ & _ & _ & _ & c & _ & _ & Hleaf) Hz. by rewrite Hz in Hleaf.
Qed.

Lemma search_holds (fuel : nat) (idx : t) (w : World)
    (es : list (Value * RecordId)) (key : Value) :
  (0 < fuel)%nat → index_holds idx w es → next_page_id w ≤ 2 ^ 51 →
  returns (search fuel idx key) w
    (λ rs w',
       rs = (filter (λ e, value_eqb e.1 key = true) es).*2
       ∧ next_page_id w' = next_page_id w
       ∧ ∀ f' c', file_is w f' c' → file_is w' f' c').
Proof.
  intros Hfuel Hidx Hnp. unfold search.
  destruct (N.eqb_spec (root_page_id_ idx) 0) as [Hz|Hnz].
  { apply returns_ret. by rewrite (index_holds_empty idx w es). }
  destruct (index_holds_root_page idx w es Hidx Hnp Hnz) as (c & Hc & Hroot & Hparse).
  destruct fuel as [|fuel]; [lia|]. cbn [findLeaf].
  apply returns_bind. apply returns_bind.
  eapply getNode_returns; [done..|]. intros w1 Hnp1 Hkeep1.
  cbn [is_leaf leaf_node]. apply returns_ret.
  apply returns_bind.
  eapply getNode_returns; [by apply Hkeep1|done..|]. intros w2 Hnp2 Hkeep2.
  eapply returns_lift.
  { cbn [keys records leaf_node]. apply (collect_equal_entries key es []). }
  split; [done|]. split; [congruence|]. intros f' c' Hf'. by apply Hkeep2, Hkeep1.
Qed.

Lemma rangeSearch_holds (fuel : nat) (idx : t) (w : World)
    (es : list (Value * RecordId)) (lo hi : Value) :
  (1 < fuel)%nat → index_holds idx w es → next_page_id w ≤ 2 ^ 51 →
  returns (rangeSearch fuel idx lo hi) w
    (λ rs w',
       rs = (range_scan lo hi es).1
       ∧ next_page_id w' = next_page_id w
       ∧ ∀ f' c', file_is w f' c' → file_is w' f' c').
Proof.
  intros Hfuel Hidx Hnp. unfold rangeSearch.
  destruct (N.eqb_spec (root_page_id_ idx) 0) as [Hz|Hnz].
  { apply returns_ret. by rewrite (index_holds_empty idx w es). }
  destruct (index_holds_root_page idx w es Hidx Hnp Hnz) as (c & Hc & Hroot & Hparse).
  destruct fuel as [|[|fuel]]; [lia..|]. cbn [findLeaf].
  apply returns_bind. apply returns_bind.
  eapply getNode_returns; [done..|]. intros w1 Hnp1 Hkeep1.
  cbn [is_leaf leaf_node]. apply returns_ret.
  cbn [rangeSearch_loop].
  destruct (N.eqb_spec (root_page_id_ idx) 0) as [|_]; [done|].
  apply returns_bind.
  eapply getNode_returns; [by apply Hkeep1|done..|]. intros w2 Hnp2 Hkeep2.
  apply returns_bind. eapply returns_lift.
  { cbn [keys records leaf_node]. apply (collect_range_entries lo hi es []). }
  cbn [next_leaf leaf_node app].
  destruct (range_scan lo hi es) as [found stop]. cbn [fst snd].
  assert (returns (ret found) w2
            (λ rs w', rs = found ∧ next_page_id w' = next_page_id w
                      ∧ ∀ f' c', file_is w f' c' → file_is w' f' c')) as Hret.
  { apply returns_ret. split; [done|]. split; [congruence|].
    intros f' c' Hf'. by apply Hkeep2, Hkeep1. }
  by destruct stop.
Qed.

End index_search.


(** ** Columns: the specification's properties *)

Section column_properties.
Import DiskBasedColumn.

(** In a process that has just started, every column can be created. *)
Lemma new_World_ready (name : string) : column_ready name new_World.
Proof.
  assert (∀ f, file_is new_World f (λ _, zero_page)) as Hblank.
  { intros f. split.
    - split; [split|split]; cbn.
      + intros i bytes. unfold DiskManager.getFileStream, DiskManager.create.
        rewrite lookup_empty. cbn. by rewrite lookup_empty.
      + intros p page. by rewrite lookup_empty.
      + unfold DiskManager.getFileStream, DiskManager.create.
        by rewrite lookup_empty.
      + intros p page. by rewrite lookup_empty.
    - intros p Hp. unfold view. cbn. rewrite lookup_empty.
      rewrite disk_page_good; [|done|done].
      unfold DiskManager.getFileStream, DiskManager.create.
      rewrite lookup_empty. cbn. by rewrite lookup_empty. }
  split; [done|]. split; [by eexists|]. eexists. split; [apply Hblank|done].
Qed.

Lemma appends_hold (fuel : nat) (name : string) (ty : DataType)
    (vs : list Value) (w0 : World) :
  (0 < fuel)%nat →
  column_ready name w0 →
  Forall (has_type ty) vs →
  (ty = STRING → length vs ≤ 15)%nat →
  next_page_id w0 + 3 * N.of_nat (length vs) < 2 ^ 51 →
  ∃ c w,
    run_appends fuel (create name ty) vs w0 = Ret (c, w)
    ∧ column_holds c w vs (index_entries [] 0 vs)
    ∧ type_ c = ty
    ∧ next_page_id w < 2 ^ 51
    ∧ (vs ≠ [] → BPlusTreeIndex.root_page_id_ (index_ c) ≠ 0).
Proof.
  intros Hfuel Hready Hty Hstr Hnp.
  destruct (run_appends_holds fuel vs Hfuel (create name ty) w0 [] [])
    as (c & w & Hrun & Hholds & Htype & _ & Hnp' & Hroot & _); try done.
  - by apply column_ready_holds.
  - cbn. lia.
  - exists c, w. split; [done|]. split; [done|]. split; [done|].
    split; [lia|]. intros Hsome. apply Hroot. by left.
Qed.

(** C2 (as the code has it). After any appends to a new column, [get]
    of a record id below [size] returns the value appended under that id,
    a string cut to its first 255 bytes and at its first NUL byte. (For a
    string column the statement covers up to 15 appends: the index leaf of
    a longer one does not fit the page it is serialized into.) *)
Theorem get_returns_what_was_appended :
  ∀ (fuel : nat) (name : string) (ty : DataType) (vs : list Value) (w0 : World),
    (0 < fuel)%nat →
    column_ready name w0 →
    Forall (has_type ty) vs →
    (ty = STRING → length vs ≤ 15)%nat →
    next_page_id w0 + 3 * N.of_nat (length vs) < 2 ^ 51 →
    ∃ c w,
      run_appends fuel (create name ty) vs w0 = Ret (c, w)
      ∧ size c = N.of_nat (length vs)
      ∧ ∀ (r : nat) (v : Value),
          vs !! r = Some v →
          ∃ w', get c (N.of_nat r) w = Ret (as_stored v, w').
Proof.
  intros fuel name ty vs w0 Hfuel Hready Hty Hstr Hnp.
  destruct (appends_hold fuel name ty vs w0) as (c & w & Hrun & Hholds & _ & _ & _);
    try done.
  exists c, w. split; [done|]. split; [apply Hholds|].
  intros r v Hv.
  destruct (get_holds c w vs _ r v Hholds Hv) as (v' & w' & Hget & -> & _).
  { apply lookup_lt_Some in Hv. lia. }
  by exists w'.
Qed.

Lemma comparable_has_type (ty : DataType) (vs : list Value) :
  Forall (comparable ty) vs → Forall (has_type ty) vs.
Proof. intros H. eapply list.Forall_impl; [exact H|]. by intros v [[? _] _]. Qed.

Lemma capacity_string (ty : DataType) (n : nat) :
  (n ≤ leaf_capacity ty)%nat → (n ≤ 127)%nat ∧ (ty = STRING → n ≤ 15)%nat.
Proof. destruct ty; cbn; intros; split; try done; lia. Qed.

(** C1 (as the code has it). After appends to a new column that have not
    yet filled its index leaf, [findRecords v] returns exactly the record
    ids of the appended values equal to [v], the latest first. *)
Theorem find_records_lists_latest_first :
  ∀ (fuel : nat) (name : string) (ty : DataType) (vs : list Value) (w0 : World),
    (0 < fuel)%nat →
    column_ready name w0 →
    Forall (comparable ty) vs →
    (length vs ≤ leaf_capacity ty)%nat →
    next_page_id w0 + 3 * N.of_nat (length vs) < 2 ^ 51 →
    ∃ c w,
      run_appends fuel (create name ty) vs w0 = Ret (c, w)
      ∧ ∀ v, ∃ w',
          findRecords fuel c v w = Ret (reverse (records_equal v vs), w').
Proof.
  intros fuel name ty vs w0 Hfuel Hready Hcomp Hcap Hnp.
  destruct (capacity_string ty _ Hcap) as [H127 Hstr].
  destruct (appends_hold fuel name ty vs w0) as (c & w & Hrun & Hholds & _ & Hnp' & _);
    try done.
  { by apply comparable_has_type. }
  exists c, w. split; [done|]. intros v.
  destruct Hholds as (_ & _ & _ & _ & _ & Hidx & _).
  destruct (search_holds fuel (index_ c) w _ v Hfuel Hidx) as (rs & w' & Hfind & -> & _);
    [lia|].
  exists w'. unfold findRecords. rewrite Hfind. do 2 f_equal.
  apply (entries_of_index_entries ty vs [] [] (entries_of_nil ty) Hcomp H127).
Qed.

Lemma StronglySorted_filter {A} (R : A → A → Prop) (P : A → Prop)
    `{∀ x, Decision (P x)} (l : list A) :
  StronglySorted R l → StronglySorted R (filter P l).
Proof.
  induction 1 as [|x l Hl IH Hx]; [constructor|].
  rewrite filter_cons. case_decide; [|done].
  constructor; [done|]. apply Forall_forall. intros y [_ Hy]%list_elem_of_filter.
  by apply (proj1 (Forall_forall _ _) Hx).
Qed.


End column_properties.


(** ** Aggregates *)

Section aggregates.
Import DiskBasedColumn.

(** A value read from a slot has the column's variant, so [std::get] in
    [getNumericValue] does not throw. *)
Lemma getNumericValue_typed (c : t) (bs : list N) :
  ∃ x, getNumericValue c (value_of_bytes (type_ c) bs) = Ret x.
Proof. unfold getNumericValue. destruct (type_ c); cbn; eauto. Qed.

Lemma sum_page_returns (c : t) (page_data : list N) (start : N) :
  column_layout c → page_sized page_data →
  ∀ (count : nat) (i : N) (result : float),
    start ≤ i → i - start + N.of_nat count ≤ records_per_page_ c →
    ∃ s, sum_page count c page_data i start result = Ret s.
Proof.
  intros Hlay Hsized. induction count as [|count IH]; intros i result Hi Hin;
    [by eexists|].
  cbn [sum_page]. unfold readValueFromPage.
  destruct (slot_in_page (type_ c) (i - start)) as [Hslot ->].
  { rewrite <- Hlay. lia. }
  rewrite peek_Ret.
  2:{ unfold page_sized in Hsized. rewrite Hsized.
      rewrite record_size_width in *. unfold PAGE_SIZE in *. lia. }
  cbn [obind].
  destruct (getNumericValue_typed c
              (take (value_width (type_ c))
                 (drop (N.to_nat ((i - start) * getRecordSize (type_ c))) page_data)))
    as [x ->].
  cbn [obind]. apply IH; lia.
Qed.

Lemma sum_loop_returns (c : t) :
  column_layout c → total_records_ c < 2 ^ 51 →
  ∀ (fuel : nat) (page_id : PageId) (result : float) (w : World)
    (cd : PageId → list N),
    file_is w (data_file_ c) cd →
    page_id * records_per_page_ c ≤ total_records_ c + records_per_page_ c →
    (0 < fuel)%nat →
    total_records_ c + records_per_page_ c
      ≤ (page_id + N.of_nat fuel) * records_per_page_ c →
    returns (sum_loop fuel c page_id result) w (λ _ _, True).
Proof.
  intros Hlay Htotal.
  pose proof (records_per_page_pos c Hlay) as Hpos.
  assert (records_per_page_ c ≤ 4096) as Hrpp.
  { rewrite Hlay. unfold PAGE_SIZE. apply N.Div0.div_le_upper_bound.
    destruct (type_ c); cbn [getRecordSize]; lia. }
  induction fuel as [|fuel IH]; intros page_id result w cd Hfile Hpage Hfuel Hend;
    [lia|].
  cbn [sum_loop].
  assert (wrap64 (page_id * records_per_page_ c) = page_id * records_per_page_ c)
    as ->.
  { unfold wrap64. apply N.mod_small.
    change (2 ^ 64) with 18446744073709551616.
    change (2 ^ 51) with 2251799813685248 in Htotal. lia. }
  destruct (N.ltb_spec (page_id * records_per_page_ c) (total_records_ c))
    as [Hmore|Hdone]; [|by apply returns_ret].
  assert (page_id < 2 ^ 51) as Haddr by nia.
  apply returns_bind. eapply fetch_returns; [exact Hfile|exact Haddr|].
  intros page w1 Hdata _ _ Hkeep.
  assert (wrap64 (page_id * records_per_page_ c + records_per_page_ c)
          = page_id * records_per_page_ c + records_per_page_ c) as ->.
  { unfold wrap64. apply N.mod_small.
    change (2 ^ 64) with 18446744073709551616.
    change (2 ^ 51) with 2251799813685248 in Htotal. lia. }
  destruct (sum_page_returns c (data page) (page_id * records_per_page_ c) Hlay)
    with (count := N.to_nat (N.min (page_id * records_per_page_ c + records_per_page_ c)
                                   (total_records_ c)
                             - page_id * records_per_page_ c))
         (i := page_id * records_per_page_ c) (result := result) as [s Hs].
  { rewrite Hdata. by apply (file_is_sized w (data_file_ c)). }
  { lia. }
  { lia. }
  apply returns_bind. eapply returns_lift; [exact Hs|].
  assert (wrap64 (page_id + 1) = page_id + 1) as ->.
  { unfold wrap64. apply N.mod_small.
    change (2 ^ 64) with 18446744073709551616.
    change (2 ^ 51) with 2251799813685248 in Haddr. lia. }
  apply (IH _ _ _ cd); [by apply Hkeep|lia|nia|lia].
Qed.

(** C7. [average()] is [sum()] divided by the record count when the column
    has records, and 0.0 when it has none; both calls return. *)
Theorem average_is_sum_over_count :
  ∀ (fuel : nat) (c : t) (w : World) (cd : PageId → list N),
    column_layout c →
    file_is w (data_file_ c) cd →
    size c < 2 ^ 51 →
    size c / records_per_page_ c + 1 < N.of_nat fuel →
    ∃ s w',
      sum fuel c w = Ret (s, w')
      ∧ average fuel c w
        = Ret (if size c =? 0 then 0%float
               else PrimFloat.div s (double_of_N (size c)), w').
Proof.
  unfold size. intros fuel c w cd Hlay Hfile Htotal Hfuel.
  pose proof (records_per_page_pos c Hlay) as Hpos.
  pose proof (N.mul_succ_div_gt (total_records_ c) (records_per_page_ c)) as Hdiv.
  assert (0 < fuel)%nat as Hsome_fuel.
  { destruct fuel; [|lia]. exfalso. revert Hfuel.
    generalize (total_records_ c / records_per_page_ c). lia. }
  revert Hfuel Hdiv. generalize (total_records_ c / records_per_page_ c).
  intros q Hfuel Hdiv.
  unfold average. destruct (N.eqb_spec (total_records_ c) 0) as [Hzero|Hsome].
  - exists 0%float, w. split; [|done]. unfold sum.
    destruct fuel as [|fuel]; [lia|]. cbn [sum_loop]. by rewrite Hzero.
  - destruct (sum_loop_returns c Hlay Htotal fuel 0 0%float w cd Hfile)
      as (s & w' & Hsum & _); [lia|lia|nia|].
    exists s, w'. split; [done|]. unfold bind. fold (sum fuel c). unfold sum.
    by rewrite Hsum.
Qed.

End aggregates.


(** ** The root split *)

Section root_split.
Import DiskBasedColumn.

Lemma index_entries_app (a b : list Value) :
  ∀ (es : list (Value * RecordId)) (first : N),
    index_entries es first (a ++ b)
    = index_entries (index_entries es first a) (first + N.of_nat (length a)) b.
Proof.
  induction a as [|v a IH]; intros es first; cbn [app index_entries length].
  - by rewrite N.add_0_r.
  - rewrite IH. f_equal. lia.
Qed.

Lemma length_index_entries (vs : list Value) :
  ∀ (es : list (Value * RecordId)) (first : N),
    (length es + length vs ≤ 127)%nat →
    length (index_entries es first vs) = (length es + length vs)%nat.
Proof.
  induction vs as [|v vs IH]; intros es first Hlen; cbn [index_entries length] in *;
    [lia|].
  rewrite IH.
  - unfold index_step. rewrite decide_True by lia.
    unfold leaf_insert. rewrite length_insert_at. lia.
  - pose proof (length_index_step v first es). lia.
Qed.

(** The 128th append splits the root leaf, and the root the index then
    tracks is a blank page, which [getNode] reads as an empty leaf: the
    records are all in the column, and the searches that follow find none. *)
Lemma root_split_forgets_all_keys (fuel : nat) (name : string) (ty : DataType)
    (vs : list Value) (w0 : World) :
  (0 < fuel)%nat →
  column_ready name w0 →
  Forall (has_type ty) vs →
  ty ≠ STRING →
  length vs = 128%nat →
  next_page_id w0 + 384 < 2 ^ 51 →
  ∃ c w,
    run_appends fuel (create name ty) vs w0 = Ret (c, w)
    ∧ size c = 128
    ∧ (∀ (r : nat) (v : Value), vs !! r = Some v →
         ∃ w', get c (N.of_nat r) w = Ret (as_stored v, w'))
    ∧ (∃ w', BPlusTreeIndex.getNode (index_ c)
               (BPlusTreeIndex.root_page_id_ (index_ c)) w
             = Ret (new_BPlusTreeNode true, w'))
    ∧ ∀ v, ∃ w', findRecords fuel c v w = Ret ([], w').
Proof.
  intros Hfuel Hready Hty Hns Hlen Hnp.
  destruct (appends_hold fuel name ty vs w0)
    as (c & w & Hrun & Hholds & _ & Hnp' & Hroot); try done; [rewrite Hlen; lia|].
  exists c, w. split; [done|].
  pose proof Hholds as (_ & _ & _ & Hsize & _ & Hidx & _).
  split; [unfold size; rewrite Hsize, Hlen; done|].
  assert (index_entries [] 0 vs = []) as Hnone.
  { rewrite <- (take_drop 127 vs), index_entries_app.
    pose proof (length_index_entries (take 127 vs) [] 0) as Hfull.
    rewrite length_take, Hlen in Hfull. cbn [length] in Hfull.
    destruct (drop 127 vs) as [|x rest] eqn:Hlast.
    { apply (f_equal length) in Hlast. rewrite length_drop, Hlen in Hlast. done. }
    destruct rest.
    2:{ apply (f_equal length) in Hlast. rewrite length_drop, Hlen in Hlast. done. }
    cbn [index_entries]. unfold index_step. rewrite decide_False; [done|].
    rewrite Hfull by lia. lia. }
  rewrite Hnone in Hidx.
  split; [|split].
  - intros r v Hv.
    destruct (get_holds c w vs _ r v Hholds Hv) as (v' & w' & Hget & -> & _).
    { apply lookup_lt_Some in Hv. lia. }
    by exists w'.
  - destruct (index_holds_root_page (index_ c) w [] Hidx) as (ci & Hci & Haddr & Hparse);
      [lia| |].
    { apply Hroot. intros ->. done. }
    destruct (getNode_returns (index_ c) (BPlusTreeIndex.root_page_id_ (index_ c)) w ci
                (new_BPlusTreeNode true) (λ node _, node = new_BPlusTreeNode true)
                Hci Haddr Hparse)
      as (node & w' & Hnode & ->); [done|].
    by exists w'.
  - intros v.
    destruct (search_holds fuel (index_ c) w [] v Hfuel Hidx)
      as (rs & w' & Hfind & -> & _); [lia|].
    by exists w'.
Qed.

Lemma first_keys_typed (n : nat) :
  (n < 1000)%nat → Forall (has_type INT32) (first_keys n).
Proof.
  intros Hn. unfold first_keys. apply Forall_fmap, Forall_fmap, Forall_forall.
  intros i Hi%elem_of_seq. cbn. lia.
Qed.

(** C4. The code at the first root split: 128 appends with the keys
    1 ... 128 to a new column, the last of which splits the root leaf.
    Record 0 then still holds key 1, but the root that the index tracks
    reads as an empty leaf (no key, no child): the internal node that
    [insert] built was never written, and a search for key 1 finds
    nothing. *)
Theorem root_split_leaves_an_empty_root :
  ∃ c w,
    run_appends 1 (create "t/id" INT32) (first_keys 128) new_World = Ret (c, w)
    ∧ size c = 128
    ∧ (∃ w', get c 0 w = Ret (VInt32 1, w'))
    ∧ (∃ w', BPlusTreeIndex.getNode (index_ c)
               (BPlusTreeIndex.root_page_id_ (index_ c)) w
             = Ret (new_BPlusTreeNode true, w'))
    ∧ ∃ w', findRecords 1 c (VInt32 1) w = Ret ([], w').
Proof.
  destruct (root_split_forgets_all_keys 1 "t/id" INT32 (first_keys 128) new_World)
    as (c & w & Hrun & Hsize & Hget & Hnode & Hfind).
  - lia.
  - apply new_World_ready.
  - apply first_keys_typed. lia.
  - discriminate.
  - unfold first_keys. by rewrite !length_fmap, length_seq.
  - vm_compute. reflexivity.
  - exists c, w. split; [done|]. split; [done|].
    split; [exact (Hget 0%nat (VInt32 1) eq_refl)|]. split; [done|]. apply Hfind.
Qed.

(** C9. The code at a far record id: after one append of 7 to a new
    32-bit column, [get] of record id 2^62, whose slot nothing has
    written, returns 7. Its page id is 2^52, the byte offset
    [page_id * PAGE_SIZE] wraps to 0, and the read yields page 0. *)
Theorem get_far_record_reads_first_page :
  result_of (c ←$ run_appends 1 (create "t/id" INT32) [VInt32 7];
             far ←$ get c (2 ^ 62);
             ret (size c, far)) new_World
  = Ret (1, VInt32 7).
Proof. vm_compute. reflexivity. Qed.

End root_split.

(** ** The properties at sample inputs *)

Section samples.
Import DiskBasedColumn.

(** C2 as stated fails: a string of 256 letters comes back shortened to
    255. *)
Lemma get_returns_a_shortened_string :
  result_of (c ←$ run_appends 1 (create "t/note" STRING) [VString long_note];
             get c 0) new_World
  = Ret (VString (string_of_list_ascii (replicate 255 "a"%char)))
  ∧ VString (string_of_list_ascii (replicate 255 "a"%char)) ≠ VString long_note.
Proof. split; [vm_compute; reflexivity|]. vm_compute. discriminate. Qed.

Lemma get_returns_what_was_appended_witness :
  ∃ c w,
    run_appends 1 (create "t/name" STRING) [VString "Alice"; VString "Bob"]
      new_World = Ret (c, w)
    ∧ size c = 2
    ∧ ∀ (r : nat) (v : Value),
        [VString "Alice"; VString "Bob"] !! r = Some v →
        ∃ w', get c (N.of_nat r) w = Ret (as_stored v, w').
Proof.
  apply (get_returns_what_was_appended 1 "t/name" STRING
           [VString "Alice"; VString "Bob"] new_World).
  - lia.
  - apply new_World_ready.
  - repeat constructor.
  - intros _. simpl. lia.
  - vm_compute. reflexivity.
Defined.

(** C1 as stated fails: of two records with the same value, the later is
    listed first. *)
Lemma find_records_lists_equal_keys_backwards :
  result_of (c ←$ run_appends 1 (create "t/dept" INT32) [VInt32 5; VInt32 5];
             findRecords 1 c (VInt32 5)) new_World
  = Ret [1; 0].
Proof. vm_compute. reflexivity. Qed.

Lemma comparable_int32 (z : Z) :
  (- 2 ^ 31 ≤ z < 2 ^ 31)%Z → comparable INT32 (VInt32 z).
Proof. intros Hz. split; [split; [exact Hz|intros s Hs; discriminate]|exact I]. Qed.

Lemma sample_keys_comparable :
  Forall (comparable INT32) [VInt32 5; VInt32 3; VInt32 5].
Proof.
  apply Forall_cons_2; [apply comparable_int32; lia|].
  apply Forall_cons_2; [apply comparable_int32; lia|].
  apply Forall_cons_2; [apply comparable_int32; lia|].
  apply Forall_nil_2.
Qed.

Lemma find_records_lists_latest_first_witness :
  ∃ c w,
    run_appends 1 (create "t/dept" INT32) [VInt32 5; VInt32 3; VInt32 5]
      new_World = Ret (c, w)
    ∧ ∀ v, ∃ w',
        findRecords 1 c v w
        = Ret (reverse (records_equal v [VInt32 5; VInt32 3; VInt32 5]), w').
Proof.
  apply (find_records_lists_latest_first 1 "t/dept" INT32
           [VInt32 5; VInt32 3; VInt32 5] new_World).
  - lia.
  - apply new_World_ready.
  - apply sample_keys_comparable.
  - simpl. lia.
  - vm_compute. reflexivity.
Defined.



(** The salaries 50000.0 and 60000.0, as IEEE 754 bit patterns: their
    average is their sum over 2. *)
Lemma average_is_sum_over_count_witness :
  ∃ c w s w',
    run_appends 1 (create "t/salary" DOUBLE)
      [VDouble 4677104761256804352; VDouble 4678479150791524352] new_World
    = Ret (c, w)
    ∧ sum 2 c w = Ret (s, w')
    ∧ average 2 c w = Ret (PrimFloat.div s (double_of_N 2), w').
Proof.
  destruct (appends_hold 1 "t/salary" DOUBLE
              [VDouble 4677104761256804352; VDouble 4678479150791524352]
              new_World)
    as (c & w & Hrun & Hholds & Hty & _ & _).
  - lia.
  - apply new_World_ready.
  - repeat constructor.
  - discriminate.
  - vm_compute. reflexivity.
  - destruct Hholds as (Hlay & _ & _ & Hsize & _ & _ & cd & Hfile & _).
    destruct (average_is_sum_over_count 2 c w cd) as (s & w' & Hsum & Havg).
    + exact Hlay.
    + exact Hfile.
    + unfold size. rewrite Hsize. vm_compute. reflexivity.
    + unfold size. rewrite Hsize, Hlay, Hty. vm_compute. reflexivity.
    + exists c, w, s, w'. split; [exact Hrun|]. split; [exact Hsum|].
      rewrite Havg. unfold size. rewrite Hsize. reflexivity.
Defined.

End samples.

Section table_samples.
Import DiskBasedTable.


(** C8 as stated fails: a select on a column the table does not have
    returns normally, with an empty result. *)
Lemma select_on_unknown_column_does_not_fail :
  result_of (tb ←$ run_table_ops 1 (create "employees")
                     [AddColumn "id" INT32; InsertRow {[ "id" := VInt32 1 ]}];
             indexedSelect 1 tb "department_id" (VInt32 1) []) new_World
  = Ret []
  ∧ result_of (tb ←$ run_table_ops 1 (create "employees")
                       [AddColumn "id" INT32; InsertRow {[ "id" := VInt32 1 ]}];
               rangeSelect 1 tb "department_id" (VInt32 0) (VInt32 9) [])
      new_World
    = Ret [].
Proof. split; vm_compute; reflexivity. Qed.

Lemma select_on_unknown_column_returns_no_rows_witness :
  indexedSelect 1 employees "department_id" (VInt32 1) [] new_World
  = Ret ([], new_World)
  ∧ rangeSelect 1 employees "department_id" (VInt32 0) (VInt32 9) [] new_World
    = Ret ([], new_World).
Proof.
  apply (select_on_unknown_column_returns_no_rows 1 employees "department_id"
           (VInt32 1) (VInt32 0) (VInt32 9) [] new_World).
  vm_compute. reflexivity.
Defined.

Lemma insertRow_ignores_undeclared_entries_witness :
  insertRow 1 employees {[ "id" := VInt32 1; "nickname" := VString "Al" ]}
    new_World
  = insertRow 1 employees {[ "id" := VInt32 1 ]} new_World
  ∧ ∃ tb' w',
      insertRow 1 employees {[ "id" := VInt32 1; "nickname" := VString "Al" ]}
        new_World = Ret (tb', w')
      ∧ getRowCount tb' = 1.
Proof.
  destruct (insertRow_ignores_undeclared_entries 1 employees
              {[ "id" := VInt32 1; "nickname" := VString "Al" ]} new_World)
    as [Hsame Hcount].
  split.
  - rewrite Hsame. f_equal.
  - destruct (insertRow 1 employees
                {[ "id" := VInt32 1; "nickname" := VString "Al" ]} new_World)
      as [[tb' w']|e] eqn:Hrun.
    + exists tb', w'. split; [reflexivity|].
      destruct (Hcount tb' w' eq_refl) as [-> _]. reflexivity.
    + vm_compute in Hrun. discriminate Hrun.
Defined.

End table_samples.


(** * Further properties of the engine *)

(** ** Disk manager *)

Section disk.

(** X1. A page written at an addressable page id reads back as written,
    whatever state the stream was in; the pages of other files are
    untouched, and so are the other addressable pages of the same file
    when its stream had not failed. *)
Theorem written_page_reads_back :
  ∀ (dm : DiskManager.t) (f : string) (p : PageId) (page : Page),
    addressable p →
    let dm' := DiskManager.writePage f p page dm in
    disk_page dm' f p = data page
    ∧ (∀ f' q, f' ≠ f → disk_page dm' f' q = disk_page dm f' q)
    ∧ (DiskManager.failbit (DiskManager.getFileStream f dm) = false →
       ∀ q, addressable q → q ≠ p → disk_page dm' f q = disk_page dm f q).
Proof.
  intros dm f p page Hp dm'.
  pose proof (writePage_streams f p page dm f (λ _, Hp)) as Hsame.
  rewrite decide_True in Hsame by done. fold dm' in Hsame.
  split; [|split].
  - rewrite disk_page_good; [|by rewrite Hsame|done].
    rewrite Hsame. cbn. by rewrite lookup_insert_eq.
  - intros f' q Hf. apply disk_page_ext. unfold dm'.
    rewrite writePage_streams by done. by rewrite decide_False.
  - intros Hgood q Hq Hne.
    rewrite !disk_page_good; [|done|done|by rewrite Hsame|done].
    rewrite Hsame. cbn. by rewrite lookup_insert_ne.
Qed.

Lemma written_page_reads_back_witness :
  disk_page (DiskManager.writePage "t.data" 3
               (written (new_Page 3) (replicate 4096 7)) DiskManager.create)
    "t.data" 3
  = replicate 4096 7.
Proof.
  destruct (written_page_reads_back DiskManager.create "t.data" 3
              (written (new_Page 3) (replicate 4096 7))) as [Hsame _].
  - vm_compute. reflexivity.
  - exact Hsame.
Defined.

End disk.

(** ** Buffer pool *)

Section pool.
Import BufferPoolManager.

(** What the disk holds after the writes of [flushAllPages]. *)
Lemma flushAll_fold (dm : DiskManager.t) (f : string) (m : gmap key Page) :
  let dm' := map_fold (λ k page dm,
                         if is_dirty page
                         then DiskManager.writePage k.1 k.2 page dm else dm)
                      dm m in
  DiskManager.failbit (DiskManager.getFileStream f dm) = false →
  (∀ i bytes, DiskManager.contents (DiskManager.getFileStream f dm) !! i = Some bytes →
              page_sized bytes) →
  (∀ q pg, m !! (f, q) = Some pg → addressable q ∧ page_sized (data pg)) →
  DiskManager.failbit (DiskManager.getFileStream f dm') = false
  ∧ (∀ i bytes, DiskManager.contents (DiskManager.getFileStream f dm') !! i = Some bytes →
                page_sized bytes)
  ∧ ∀ p, addressable p →
         disk_page dm' f p
         = match m !! (f, p) with
           | Some pg => if is_dirty pg then data pg else disk_page dm f p
           | None => disk_page dm f p
           end.
Proof.
  intros dm' Hgood Hsized. unfold dm'. clear dm'.
  induction m as [|i x m Hi Hfold IH] using map_first_key_ind.
  { intros _. rewrite map_fold_empty. split; [done|]. split; [done|].
    intros p Hp. by rewrite lookup_empty. }
  intros Hres. rewrite map_fold_insert_first_key by done.
  destruct IH as (Hgood' & Hsized' & Hdisk').
  { intros q pg Hq. apply Hres. rewrite lookup_insert_ne; [done|]. by intros ->; simplify_eq. }
  destruct (is_dirty x) eqn:Hdirty.
  2:{ split; [done|]. split; [done|]. intros p Hp. rewrite Hdisk' by done.
      destruct (decide (i = (f, p))) as [->|Hne].
      - rewrite lookup_insert_eq, Hi, Hdirty. done.
      - by rewrite lookup_insert_ne. }
  destruct i as [fi pi]. cbn [fst snd].
  destruct (decide (fi = f)) as [->|Hf].
  - destruct (Hres pi x) as [Hpi Hx]; [by rewrite lookup_insert_eq|].
    set (dm1 := map_fold _ dm m) in *.
    pose proof (writePage_streams f pi x dm1 f (λ _, Hpi)) as Hsame.
    rewrite decide_True in Hsame by done.
    split; [by rewrite Hsame|]. split.
    + intros j bytes. rewrite Hsame. cbn. rewrite lookup_insert.
      case_decide; [by intros [= <-]|apply Hsized'].
    + intros p Hp. rewrite disk_page_good; [|by rewrite Hsame|done].
      rewrite Hsame. cbn.
      destruct (decide (pi = p)) as [->|Hne].
      * by rewrite !lookup_insert_eq, Hdirty.
      * rewrite !lookup_insert_ne by congruence.
        rewrite <- (disk_page_good dm1 f p) by done. by apply Hdisk'.
  - set (dm1 := map_fold _ dm m) in *.
    assert (DiskManager.getFileStream f (DiskManager.writePage fi pi x dm1)
            = DiskManager.getFileStream f dm1) as Hsame.
    { rewrite writePage_streams by (intros; congruence). by rewrite decide_False. }
    split; [by rewrite Hsame|]. split; [by rewrite Hsame|].
    intros p Hp. rewrite (disk_page_ext dm1) by done.
    rewrite lookup_insert_ne by congruence. by apply Hdisk'.
Qed.

Lemma flushAllPages_same_views (bp : t) : same_views bp (flushAllPages bp).
Proof.
  intros f ((Hdisk & Hres) & Hgood & Hclean).
  destruct (flushAll_fold (disk_manager_ bp) f (pages_ bp) Hgood Hdisk)
    as (Hgood' & Hsized' & Hdisk').
  { intros q pg Hq. split; [by apply (Hclean q pg)|by apply (Hres q pg)]. }
  assert (∀ p, addressable p →
            disk_page (disk_manager_ (flushAllPages bp)) f p = view bp f p) as Hview.
  { intros p Hp. unfold flushAllPages. cbn [disk_manager_]. rewrite Hdisk' by done.
    unfold view. destruct (pages_ bp !! (f, p)) as [pg|] eqn:E; [|done].
    destruct (is_dirty pg) eqn:Hd; [done|]. symmetry. by apply (Hclean p pg). }
  split.
  - split; [split|split].
    + exact Hsized'.
    + intros p pg. unfold flushAllPages. cbn [pages_]. rewrite lookup_fmap.
      destruct (pages_ bp !! (f, p)) as [pg0|] eqn:E; [|done].
      intros [= <-]. cbn. by apply (Hres p pg0).
    + exact Hgood'.
    + intros p pg. unfold flushAllPages at 1. cbn [pages_]. rewrite lookup_fmap.
      destruct (pages_ bp !! (f, p)) as [pg0|] eqn:E; [|done].
      intros [= <-]. destruct (Hclean p pg0 E) as [Hp _]. split; [done|].
      intros _. cbn [clean data]. rewrite Hview by done. unfold view. by rewrite E.
  - intros p Hp. unfold view at 1. unfold flushAllPages at 1. cbn [pages_].
    rewrite lookup_fmap.
    destruct (pages_ bp !! (f, p)) as [pg0|] eqn:E; cbn.
    + unfold view. by rewrite E.
    + by apply Hview.
Qed.

Lemma reads_only_same_views (bp : t) (op : pool_op) :
  reads_only op → same_views bp (run_pool_op bp op).
Proof.
  destruct op as [f p|f p| |f p bytes]; cbn; intros Hop.
  - by apply fetchPage_spec.
  - apply flushPage_same_views.
  - apply flushAllPages_same_views.
  - done.
Qed.

Lemma reads_only_ops_same_views (ops : list pool_op) :
  Forall reads_only ops → ∀ bp, same_views bp (run_pool_ops bp ops).
Proof.
  induction 1 as [|op ops Hop _ IH]; intros bp; [apply same_views_refl|].
  unfold run_pool_ops. cbn [foldl]. eapply same_views_trans; [|apply IH].
  by apply reads_only_same_views.
Qed.

(** X2. What a client has written to a page through the pool is what a
    later fetch of the page returns, whatever fetches and flushes happen in
    between, evictions of the page included. *)
Theorem written_page_survives_fetches_and_flushes :
  ∀ (bp : t) (f : string) (p : PageId) (bytes : list N) (ops : list pool_op),
    file_ok bp f → addressable p → page_sized bytes →
    Forall reads_only ops →
    data (fetchPage f p
            (run_pool_ops (run_pool_op bp (WriteThrough f p bytes)) ops)).1
    = bytes.
Proof.
  intros bp f p bytes ops Hok Hp Hbytes Hops.
  destruct (fetchPage_spec f p bp (λ _, Hp)) as (Hsame1 & _ & Hres1).
  destruct (Hsame1 f Hok) as [Hok1 _].
  cbn [run_pool_op]. destruct (fetchPage f p bp) as [page bp1] eqn:Hfetch.
  cbn [fst snd] in *.
  destruct (store_views f p page bytes bp1) with (f := f) as [Hok2 Hview2];
    [by eexists|done|done|].
  set (bp2 := store f p (written page bytes) bp1) in *.
  destruct (reads_only_ops_same_views ops Hops bp2 f Hok2) as [Hok3 Hview3].
  set (bp3 := run_pool_ops bp2 ops) in *.
  destruct (fetchPage_spec f p bp3 (λ _, Hp)) as (_ & -> & _).
  rewrite Hview3, Hview2 by done. by rewrite decide_True.
Qed.

(** X3. After [flushAllPages] the disk holds, for every file in good order,
    what the pool showed for each of its pages: nothing written through the
    pool is left only in memory. *)
Theorem flush_all_makes_the_disk_current :
  ∀ (bp : t) (f : string) (p : PageId),
    file_ok bp f → addressable p →
    disk_page (disk_manager_ (flushAllPages bp)) f p = view bp f p
    ∧ view (flushAllPages bp) f p = view bp f p.
Proof.
  intros bp f p Hok Hp.
  destruct (flushAllPages_same_views bp f Hok) as [Hok' Hview']. split; [|by apply Hview'].
  pose proof Hok as ((Hdisk & Hres) & Hgood & Hclean).
  destruct (flushAll_fold (disk_manager_ bp) f (pages_ bp) Hgood Hdisk)
    as (_ & _ & Hdisk').
  { intros q pg Hq. split; [by apply (Hclean q pg)|by apply (Hres q pg)]. }
  unfold flushAllPages. cbn [disk_manager_]. rewrite Hdisk' by done.
  unfold view. destruct (pages_ bp !! (f, p)) as [pg|] eqn:E; [|done].
  destruct (is_dirty pg) eqn:Hd; [done|]. symmetry. by apply (Hclean p pg).
Qed.

Lemma flushPage_other (f : string) (p : PageId) (bp : t) (k : key) :
  k ≠ (f, p) → pages_ (flushPage f p bp) !! k = pages_ bp !! k.
Proof.
  intros Hk. unfold flushPage. destruct (pages_ bp !! (f, p)) as [pg|]; [|done].
  destruct (is_dirty pg); [|done]. cbn. by rewrite lookup_insert_ne.
Qed.

Lemma flushPage_lru (f : string) (p : PageId) (bp : t) :
  lru_list_ (flushPage f p bp) = lru_list_ bp.
Proof.
  unfold flushPage. destruct (pages_ bp !! (f, p)) as [pg|]; [|done].
  by destruct (is_dirty pg).
Qed.

(** X4. A fetch of a page that is not resident, into a full pool, evicts
    exactly the least recently used page (the back of the LRU list): every
    other page stays resident as it was, the fetched page becomes the most
    recently used, and the pool is full again. *)
Theorem fetch_into_full_pool_evicts_least_recently_used :
  ∀ (bp : t) (f : string) (p : PageId) (victim : key),
    pool_inv bp →
    getTotalPages bp = BUFFER_POOL_SIZE →
    pages_ bp !! (f, p) = None →
    list.last (lru_list_ bp) = Some victim →
    let bp' := (fetchPage f p bp).2 in
    lru_list_ bp' = (f, p) :: removelast (lru_list_ bp)
    ∧ is_Some (pages_ bp' !! (f, p))
    ∧ pages_ bp' !! victim = None
    ∧ (∀ k, k ≠ victim → k ≠ (f, p) → pages_ bp' !! k = pages_ bp !! k)
    ∧ getTotalPages bp' = BUFFER_POOL_SIZE.
Proof.
  intros bp f p victim Hinv Hfull Hmiss Hlast bp'.
  pose proof Hinv as (Hsz & Hnd & Hdom & Hle).
  assert (victim ≠ (f, p)) as Hvictim.
  { intros ->. apply last_Some in Hlast as [l Hl].
    assert ((f, p) ∈ dom (pages_ bp)) as Hin.
    { rewrite Hdom, elem_of_list_to_set, Hl. set_solver. }
    apply elem_of_dom in Hin as [pg Hpg]. congruence. }
  assert (is_Some (pages_ bp !! victim)) as Hres.
  { apply elem_of_dom. apply last_Some in Hlast as [l Hl].
    rewrite Hdom, elem_of_list_to_set, Hl. set_solver. }
  pose proof (fetchPage_inv f p bp Hinv) as Hinv'. fold bp' in Hinv'.
  revert Hinv'. unfold bp', fetchPage. rewrite Hmiss.
  destruct (DiskManager.readPage f p (disk_manager_ bp)) as [bytes dm].
  cbn [pool_size_ pages_ lru_list_ disk_manager_ snd].
  replace (pool_size_ bp <=? getTotalPages _) with true.
  2:{ symmetry. apply N.leb_le. unfold getTotalPages in *. cbn. rewrite Hsz. lia. }
  unfold evictPage. cbn [pool_size_ pages_ lru_list_ disk_manager_].
  rewrite Hlast. destruct victim as [vf vp].
  cbn [pool_size_ pages_ lru_list_ disk_manager_].
  rewrite flushPage_lru. cbn [lru_list_]. intros Hinv'.
  split; [done|]. split; [by rewrite lookup_insert_eq|]. split.
  { rewrite lookup_insert_ne by done. by rewrite lookup_delete_eq. }
  split.
  { intros k Hk1 Hk2. rewrite lookup_insert_ne by done.
    rewrite lookup_delete_ne by done. by rewrite flushPage_other. }
  unfold getTotalPages in *. cbn [pages_].
  rewrite map_size_insert_None.
  2:{ rewrite lookup_delete_ne by done. by rewrite flushPage_other. }
  destruct Hres as [pg Hpg].
  rewrite map_size_delete_Some.
  2:{ apply elem_of_dom. rewrite flushPage_pages_dom. cbn. by apply elem_of_dom. }
  rewrite <- (size_dom (pages_ (flushPage _ _ _))), flushPage_pages_dom, size_dom.
  cbn [pages_]. unfold BUFFER_POOL_SIZE in *. lia.
Qed.

End pool.

Section pool_samples.
Import BufferPoolManager.

Lemma new_pool_file_ok (f : string) : file_ok (create DiskManager.create) f.
Proof.
  split; [split|split]; cbn.
  - intros i bytes. unfold DiskManager.getFileStream, DiskManager.create.
    rewrite lookup_empty. cbn. by rewrite lookup_empty.
  - intros p page. by rewrite lookup_empty.
  - unfold DiskManager.getFileStream, DiskManager.create. by rewrite lookup_empty.
  - intros p page. by rewrite lookup_empty.
Qed.

Lemma write_through_file_ok (bp : t) (f : string) (p : PageId) (bytes : list N) :
  file_ok bp f → addressable p → page_sized bytes →
  file_ok (run_pool_op bp (WriteThrough f p bytes)) f
  ∧ view (run_pool_op bp (WriteThrough f p bytes)) f p = bytes.
Proof.
  intros Hok Hp Hbytes.
  destruct (fetchPage_spec f p bp (λ _, Hp)) as (Hsame1 & _ & Hres1).
  destruct (Hsame1 f Hok) as [Hok1 _].
  cbn [run_pool_op]. destruct (fetchPage f p bp) as [page bp1] eqn:Hfetch.
  cbn [fst snd] in *.
  destruct (store_views f p page bytes bp1) with (f := f) as [Hok2 Hview2];
    [by eexists|done|done|].
  split; [done|]. rewrite Hview2 by done. by rewrite decide_True.
Qed.

Lemma written_page_survives_fetches_and_flushes_witness :
  data (fetchPage "t.data" 0
          (run_pool_ops
             (run_pool_op (create DiskManager.create)
                (WriteThrough "t.data" 0 (replicate 4096 7)))
             [Fetch "t.data" 1; FlushAll; Flush "t.data" 0; Fetch "u.idx" 2])).1
  = replicate 4096 7.
Proof.
  apply written_page_survives_fetches_and_flushes.
  - apply new_pool_file_ok.
  - vm_compute. reflexivity.
  - vm_compute. reflexivity.
  - apply Forall_cons_2; [vm_compute; reflexivity|].
    apply Forall_cons_2; [exact I|].
    apply Forall_cons_2; [exact I|].
    apply Forall_cons_2; [vm_compute; reflexivity|].
    apply Forall_nil_2.
Defined.

Lemma flush_all_makes_the_disk_current_witness :
  disk_page
    (disk_manager_
       (flushAllPages
          (run_pool_op (create DiskManager.create)
             (WriteThrough "t.data" 0 (replicate 4096 7)))))
    "t.data" 0
  = replicate 4096 7.
Proof.
  destruct (write_through_file_ok (create DiskManager.create) "t.data" 0
              (replicate 4096 7)) as [Hok Hview].
  - apply new_pool_file_ok.
  - vm_compute. reflexivity.
  - vm_compute. reflexivity.
  - destruct (flush_all_makes_the_disk_current
                (run_pool_op (create DiskManager.create)
                   (WriteThrough "t.data" 0 (replicate 4096 7)))
                "t.data" 0 Hok) as [Hdisk _].
    + vm_compute. reflexivity.
    + rewrite Hdisk. exact Hview.
Defined.

(** Fetching the first [n] pages of a file into a new pool, [n] up to the
    pool size: they are all resident, the last fetched first in the LRU
    list. *)
Lemma fetch_first_pool (f : string) (n : nat) :
  (n ≤ 1000)%nat →
  let bp := run_pool_ops (create DiskManager.create) (fetch_first f n) in
  lru_list_ bp = reverse ((λ i, (f, N.of_nat i)) <$> seq 0 n)
  ∧ size (pages_ bp) = n
  ∧ ∀ q, is_Some (pages_ bp !! (f, q)) → (q < N.of_nat n).
Proof.
  induction n as [|n IH]; intros Hn; cbn zeta.
  { cbn. split; [done|]. split; [done|]. intros q [pg Hpg].
    by rewrite lookup_empty in Hpg. }
  destruct IH as (Hlru & Hsize & Hdom); [lia|].
  unfold fetch_first in *. rewrite seq_S, fmap_app. cbn [fmap list_fmap].
  unfold run_pool_ops in *. rewrite foldl_app. cbn [foldl].
  set (bp := foldl run_pool_op (create DiskManager.create)
               ((λ i, Fetch f (N.of_nat i)) <$> seq 0 n)) in *.
  assert (pool_size_ bp = BUFFER_POOL_SIZE) as Hps.
  { apply (run_pool_ops_inv _ _ (pool_inv_create DiskManager.create)). }
  assert (pages_ bp !! (f, N.of_nat n) = None) as Hmiss.
  { destruct (pages_ bp !! (f, N.of_nat n)) as [pg|] eqn:E; [|done].
    assert (N.of_nat n < N.of_nat n); [|lia]. apply Hdom. by eexists. }
  change (0 + n)%nat with n.
  cbn [run_pool_op]. unfold fetchPage. rewrite Hmiss.
  destruct (DiskManager.readPage f (N.of_nat n) (disk_manager_ bp)) as [bytes dm].
  cbn [pool_size_ pages_ lru_list_ disk_manager_ snd].
  replace (pool_size_ bp <=? getTotalPages _) with false.
  2:{ symmetry. apply N.leb_gt. unfold getTotalPages. cbn. rewrite Hps, Hsize.
      unfold BUFFER_POOL_SIZE. lia. }
  cbn [pool_size_ pages_ lru_list_ disk_manager_].
  split; [|split].
  - rewrite fmap_app, reverse_app, Hlru. done.
  - rewrite map_size_insert_None by done. lia.
  - intros q. rewrite lookup_insert. case_decide as Hq.
    + injection Hq as <-. lia.
    + intros Hres%Hdom. lia.
Qed.

Lemma fetch_into_full_pool_evicts_least_recently_used_witness :
  let bp := run_pool_ops (create DiskManager.create) (fetch_first "t.data" 1000) in
  pages_ (fetchPage "t.data" 1000 bp).2 !! ("t.data", 0) = None
  ∧ is_Some (pages_ (fetchPage "t.data" 1000 bp).2 !! ("t.data", 1000))
  ∧ pages_ (fetchPage "t.data" 1000 bp).2 !! ("t.data", 1)
    = pages_ bp !! ("t.data", 1).
Proof.
  intros bp.
  destruct (fetch_first_pool "t.data" 1000) as (Hlru & Hsize & Hdom); [lia|].
  fold bp in Hlru, Hsize, Hdom.
  destruct (fetch_into_full_pool_evicts_least_recently_used bp "t.data" 1000
              ("t.data", 0)) as (_ & Hin & Hout & Hkeep & _).
  - apply (run_pool_ops_inv _ _ (pool_inv_create DiskManager.create)).
  - unfold getTotalPages. rewrite Hsize. reflexivity.
  - destruct (pages_ bp !! ("t.data", 1000)) as [pg|] eqn:E; [|reflexivity].
    assert (1000 < N.of_nat 1000) as Habs by (apply Hdom; by eexists).
    vm_compute in Habs. discriminate Habs.
  - rewrite Hlru, last_reverse. reflexivity.
  - split; [exact Hout|]. split; [exact Hin|]. apply Hkeep; discriminate.
Defined.

End pool_samples.


(** ** Values in slots and in index nodes *)

Section slots.
Import DiskBasedColumn.

(** X5. Writing a value of the column's type into a slot of a page and
    reading the slot back gives the value as stored (a string cut to 255
    bytes and at its first NUL); the page stays a full page, and every
    other slot of the page reads as before. *)
Theorem slot_write_then_read :
  ∀ (c : t) (page_data : list N) (offset : N) (v : Value),
    column_layout c → page_sized page_data →
    offset < records_per_page_ c → has_type (type_ c) v →
    ∃ page_data',
      writeValueToPage c page_data offset v = Ret page_data'
      ∧ page_sized page_data'
      ∧ readValueFromPage c page_data' offset = Ret (as_stored v)
      ∧ ∀ offset', offset' < records_per_page_ c → offset' ≠ offset →
          readValueFromPage c page_data' offset'
          = readValueFromPage c page_data offset'.
Proof.
  intros c page_data offset v Hlay Hsized Hoff Hv.
  rewrite Hlay in Hoff.
  destruct (slot_in_page (type_ c) offset Hoff) as [Hin Hwrap].
  destruct (value_bytes_typed (type_ c) v Hv) as [Hbytes Hwidth].
  unfold page_sized in *.
  assert (∃ page_data', poke page_data (offset * getRecordSize (type_ c))
                          (enc (type_ c) v) = Ret page_data') as [page_data' Hpoke].
  { eexists. apply poke_Ret. rewrite Hsized, Hwidth.
    rewrite record_size_width in *. unfold PAGE_SIZE in *. lia. }
  exists page_data'. split; [|split; [|split]].
  - unfold writeValueToPage. rewrite Hbytes, Hwrap. cbn [obind]. exact Hpoke.
  - by rewrite (poke_length _ _ _ _ Hpoke).
  - unfold readValueFromPage. rewrite Hwrap, <- Hwidth.
    rewrite (poke_same _ _ _ _ Hpoke). cbn [obind]. f_equal.
    by apply stored_as_stored.
  - intros offset' Hoff' Hne. rewrite Hlay in Hoff'.
    destruct (slot_in_page (type_ c) offset' Hoff') as [Hin' Hwrap'].
    unfold readValueFromPage. rewrite Hwrap'.
    rewrite (poke_other _ _ _ _ _ _ Hpoke); [done|].
    rewrite Hwidth. rewrite record_size_width in *.
    assert (0 < value_width (type_ c))%nat by apply has_type_width_pos. nia.
Qed.

Lemma slot_write_then_read_witness :
  ∃ page_data',
    writeValueToPage (create "t/id" INT32) zero_page 5 (VInt32 (-3))
    = Ret page_data'
    ∧ readValueFromPage (create "t/id" INT32) page_data' 5 = Ret (VInt32 (-3)).
Proof.
  destruct (slot_write_then_read (create "t/id" INT32) zero_page 5 (VInt32 (-3)))
    as (page_data' & Hwrite & _ & Hread & _).
  - reflexivity.
  - apply zero_page_sized.
  - vm_compute. reflexivity.
  - simpl. lia.
  - exists page_data'. split; [exact Hwrite|exact Hread].
Defined.

(** X6. An append of a value that is not of the column's variant fails
    with [bad_variant_access]: values are never converted. *)
Theorem append_of_a_mistyped_value_fails :
  ∀ (fuel : nat) (c : t) (v : Value) (w : World),
    variant_index v ≠ data_type_code (type_ c) →
    append fuel c v w = Fail BadVariantAccess.
Proof.
  intros fuel c v w Hv. unfold append, bind, fetch.
  destruct (BufferPoolManager.fetchPage _ _ _) as [page bp].
  unfold lift, writeValueToPage, value_bytes.
  destruct (type_ c), v; cbn in *; done.
Qed.

Lemma append_of_a_mistyped_value_fails_witness :
  append 1 (create "t/id" INT32) (VString "seven") new_World
  = Fail BadVariantAccess.
Proof.
  apply append_of_a_mistyped_value_fails. vm_compute. discriminate.
Defined.

End slots.

Section keys.
Import BPlusTreeIndex.

(** X7. A key serialized into a node's page by [serializeValue] is what
    [deserializeValue] reads at the same offset, as stored, and both advance
    the offset by the width of the key type. *)
Theorem key_serialize_then_deserialize :
  ∀ (ty : DataType) (data : list N) (offset : N) (v : Value),
    has_type ty v →
    (N.to_nat offset + value_width ty ≤ length data)%nat →
    ∃ data',
      serializeValue data offset v ty
      = Ret (data', offset + N.of_nat (value_width ty))
      ∧ length data' = length data
      ∧ deserializeValue data' offset (Some ty)
        = Ret (as_stored v, offset + N.of_nat (value_width ty)).
Proof.
  intros ty data offset v Hv Hin.
  destruct (value_bytes_typed ty v Hv) as [Hbytes Hwidth].
  assert (∃ data', poke data offset (enc ty v) = Ret data') as [data' Hpoke].
  { eexists. apply poke_Ret. rewrite Hwidth. lia. }
  exists data'. split; [|split].
  - unfold serializeValue. rewrite Hbytes. cbn [obind]. rewrite Hpoke. done.
  - by apply (poke_length _ _ _ _ Hpoke).
  - unfold deserializeValue. rewrite <- Hwidth at 1.
    rewrite (poke_same _ _ _ _ Hpoke). cbn [obind]. do 2 f_equal.
    by apply stored_as_stored.
Qed.

Lemma key_serialize_then_deserialize_witness :
  ∃ data',
    serializeValue zero_page 13 (VString "Alice") STRING = Ret (data', 269)
    ∧ deserializeValue data' 13 (Some STRING) = Ret (VString "Alice", 269).
Proof.
  destruct (key_serialize_then_deserialize STRING zero_page 13 (VString "Alice"))
    as (data' & Hwrite & _ & Hread).
  - exact I.
  - vm_compute. lia.
  - exists data'. split; [exact Hwrite|exact Hread].
Defined.

(** X8. On the values of one type that are not NaN, [compareValues] is a
    total preorder: a value compares equal to itself, swapping the operands
    negates the result, and "at most" is transitive. *)
Theorem compareValues_orders_values_of_one_type :
  ∀ (ty : DataType) (a b c : Value),
    comparable ty a → comparable ty b → comparable ty c →
    compareValues a a = 0%Z
    ∧ compareValues b a = (- compareValues a b)%Z
    ∧ ((compareValues a b ≤ 0)%Z → (compareValues b c ≤ 0)%Z →
       (compareValues a c ≤ 0)%Z).
Proof.
  intros ty a b c Ha Hb Hc.
  assert (∀ x y, comparable ty x → comparable ty y →
            (compareValues x y ≤ 0)%Z ↔ value_ltb y x = false) as Hle.
  { intros x y Hx Hy. unfold compareValues.
    destruct (value_eqb x y) eqn:Heq.
    - destruct (value_eqb_not_ltb ty x y Hx Hy Heq) as [_ ->]. done.
    - destruct (value_ltb x y) eqn:Hlt.
      + rewrite (value_ltb_asym ty x y Hx Hy Hlt). done.
      + destruct (value_ltb y x) eqn:Hgt; [done|].
        rewrite (value_total ty x y Hx Hy Hlt Hgt) in Heq. done. }
  split; [|split].
  - unfold compareValues.
    assert (value_ltb a a = false) as Hirr.
    { destruct (value_ltb a a) eqn:E; [|done].
      by rewrite (value_ltb_asym ty a a Ha Ha E) in E. }
    by rewrite (value_total ty a a Ha Ha Hirr Hirr).
  - unfold compareValues.
    destruct (value_eqb a b) eqn:Heq.
    + by rewrite (value_eqb_sym ty a b Ha Hb Heq).
    + assert (value_eqb b a = false) as ->.
      { destruct (value_eqb b a) eqn:E; [|done].
        by rewrite (value_eqb_sym ty b a Hb Ha E) in Heq. }
      destruct (value_ltb a b) eqn:Hlt.
      * by rewrite (value_ltb_asym ty a b Ha Hb Hlt).
      * destruct (value_ltb b a) eqn:Hgt; [done|].
        rewrite (value_total ty a b Ha Hb Hlt Hgt) in Heq. done.
  - rewrite !Hle by done. intros Hab Hbc.
    by apply (value_neg_trans ty c b a).
Qed.

Lemma compareValues_orders_values_of_one_type_witness :
  compareValues (VInt32 3) (VInt32 3) = 0%Z
  ∧ compareValues (VInt32 5) (VInt32 3) = (- compareValues (VInt32 3) (VInt32 5))%Z
  ∧ ((compareValues (VInt32 3) (VInt32 5) ≤ 0)%Z →
     (compareValues (VInt32 5) (VInt32 7) ≤ 0)%Z →
     (compareValues (VInt32 3) (VInt32 7) ≤ 0)%Z).
Proof.
  apply (compareValues_orders_values_of_one_type INT32);
    apply comparable_int32; lia.
Defined.

End keys.


(** ** Index nodes on their pages *)

Section nodes.
Import BPlusTreeIndex.

Lemma stored_keys (ty : DataType) (ks : list Value) :
  Forall (has_type ty) ks → map (stored ty) ks = as_stored <$> ks.
Proof.
  induction 1 as [|k ks Hk _ IH]; [done|]. cbn [map fmap list_fmap].
  rewrite stored_as_stored by done. f_equal. exact IH.
Qed.

(** X9. A leaf that passes the check of [saveNode] and fits its page is
    what [getNode] reads back from the page, its keys as stored. *)
Theorem saved_leaf_reads_back :
  ∀ (idx : t) (p : PageId) (node : BPlusTreeNode) (w : World)
    (c : PageId → list N),
    file_is w (index_name_ idx) c → addressable p →
    max_keys_ idx = 127 →
    is_leaf node = true →
    Forall (has_type (key_type_ idx)) (keys node) →
    length (records node) = length (keys node) →
    Forall (λ x, x < 2 ^ 64) (records node) →
    next_leaf node < 2 ^ 64 →
    (length (keys node) ≤ 127)%nat →
    (leaf_size (key_type_ idx) (length (keys node)) ≤ N.to_nat PAGE_SIZE)%nat →
    returns (saved ←$ saveNode idx p node; getNode idx p) w
      (λ node' _,
         node' = leaf_node (as_stored <$> keys node) (records node)
                   (next_leaf node)).
Proof.
  intros idx p node w c Hc Hp Hmax Hleaf Hks Hrs Hsmall Hnext Hn Hfit.
  destruct (parse_saved_leaf (key_type_ idx) node)
    as (bytes & Hbytes & Hsz & Hparse); try done.
  apply returns_bind.
  eapply (saveNode_returns idx p node bytes w c); try done.
  { unfold node_consistent. by rewrite Hleaf. }
  intros w' Hc' _ _.
  eapply (getNode_returns idx p w'); [exact Hc'|done| |].
  { rewrite Hmax, with_page_same. exact Hparse. }
  intros w'' _ _. by rewrite stored_keys.
Qed.

(** X10. [createNewNode(false)] hands out the next page id but writes
    nothing: the empty internal node fails the check of [saveNode], the page
    stays blank, and [getNode] reads it back as an empty leaf. *)
Theorem new_internal_node_reads_back_as_a_leaf :
  ∀ (idx : t) (w : World) (c : PageId → list N),
    file_is w (index_name_ idx) c →
    next_page_id w + 1 < 2 ^ 51 →
    c (next_page_id w) = zero_page →
    max_keys_ idx = 127 →
    returns (p ←$ createNewNode idx false; node ←$ getNode idx p; ret (p, node)) w
      (λ r w',
         r = (next_page_id w, new_BPlusTreeNode true)
         ∧ next_page_id w' = next_page_id w + 1
         ∧ file_is w' (index_name_ idx) c).
Proof.
  intros idx w c Hc Hnp Hblank Hmax.
  apply returns_bind.
  exists (next_page_id w),
    {| buffer_manager := buffer_manager w;
       next_page_id := wrap64 (next_page_id w + 1) |}.
  split; [apply createNewNode_internal|].
  apply returns_bind.
  eapply (getNode_returns idx _ _ c); [exact Hc|unfold addressable; lia| |].
  { rewrite Hmax, Hblank. apply parse_zero_page. }
  intros w' Hnp' Hkeep. apply returns_ret.
  split; [done|]. split.
  - rewrite Hnp'. cbn. unfold wrap64. apply N.mod_small. lia.
  - apply Hkeep. exact Hc.
Qed.

Lemma forallb_zero_false (a rest : list N) (x : N) :
  x ≠ 0 → forallb (N.eqb 0) (a ++ x :: rest) = false.
Proof.
  intros Hx. induction a as [|y a IH]; cbn [app forallb].
  - destruct (N.eqb_spec 0 x); [congruence|done].
  - rewrite IH. apply andb_false_r.
Qed.

Lemma node_bytes_internal (ty : DataType) (ks : list Value) (cs : list PageId) :
  Forall (has_type ty) ks →
  length cs = (length ks + 1)%nat →
  (internal_size ty (length ks) ≤ N.to_nat PAGE_SIZE)%nat →
  node_bytes ty (internal_node ks cs) = Ret (internal_image ty ks cs).
Proof.
  intros Hks Hcs Hfit. unfold node_bytes, internal_size, internal_node in *.
  cbn [is_leaf keys children].
  change zero_page with ([] ++ replicate (N.to_nat PAGE_SIZE) 0).
  set (n := length ks) in *.
  assert (N.to_nat PAGE_SIZE = 4096%nat) as HP by done. rewrite HP in *.
  rewrite poke_zeros by (simpl; lia). cbn [obind].
  rewrite poke_zeros by (rewrite ?length_le_bytes; simpl; lia). cbn [obind].
  rewrite poke_zeros by (rewrite ?length_app, ?length_le_bytes; simpl; lia).
  cbn [obind].
  rewrite write_keys_zeros
    by (rewrite ?length_app, ?length_le_bytes; simpl; try done; lia).
  cbn [obind]. fold n.
  rewrite write_words_zeros
    by (rewrite ?length_app, ?length_le_bytes, ?length_enc_keys by done;
        simpl; lia).
  cbn [obind].
  unfold internal_image. f_equal.
  rewrite !length_app, !length_le_bytes, length_enc_keys, length_words by done.
  rewrite HP, Hcs. fold n. cbn [length bool_byte].
  rewrite <- !app_assoc. cbn [app]. do 6 f_equal. lia.
Qed.

Lemma internal_image_sized (ty : DataType) (ks : list Value) (cs : list PageId) :
  Forall (has_type ty) ks → length cs = (length ks + 1)%nat →
  (internal_size ty (length ks) ≤ N.to_nat PAGE_SIZE)%nat →
  page_sized (internal_image ty ks cs).
Proof.
  intros Hks Hcs Hfit. unfold page_sized, internal_image, internal_size in *.
  rewrite length_app, length_replicate.
  rewrite !length_app, !length_le_bytes, length_enc_keys, length_words by done.
  cbn [length]. lia.
Qed.

Lemma parse_internal_image (ty : DataType) (ks : list Value) (cs : list PageId) :
  Forall (has_type ty) ks →
  length cs = (length ks + 1)%nat →
  (0 < length ks ≤ 127)%nat →
  Forall (λ x, x < 2 ^ 64) cs →
  parse_node 127 (internal_image ty ks cs)
  = Ret (internal_node (map (stored ty) ks) cs).
Proof.
  intros Hks Hcs Hn Hsmall. unfold parse_node, internal_image.
  set (zeros := replicate _ 0).
  rewrite <- !app_assoc.
  set (K := concat (map (enc ty) ks)). set (R := concat (map (le_bytes 8) cs)).
  set (C := le_bytes 8 (N.of_nat (length ks))).
  set (T := le_bytes 4 (data_type_code ty)).
  assert (forallb (N.eqb 0) ([0] ++ T ++ C ++ K ++ R ++ zeros) = false) as ->.
  { replace ([0] ++ T ++ C ++ K ++ R ++ zeros)
      with (([0] ++ T) ++ (N.of_nat (length ks) mod 256)
              :: le_bytes 7 (N.of_nat (length ks) / 256) ++ K ++ R ++ zeros)
      by (by rewrite <- !app_assoc).
    apply forallb_zero_false. rewrite N.mod_small by lia. lia. }
  rewrite (peek_split _ [] [0] (T ++ C ++ K ++ R ++ zeros)) by done.
  cbn [obind]. change (negb (le_value [0] =? 0)) with false. cbv iota.
  rewrite (peek_split _ [0] T (C ++ K ++ R ++ zeros))
    by (unfold T; rewrite ?length_le_bytes; done).
  cbn [obind].
  rewrite (peek_split _ ([0] ++ T) C (K ++ R ++ zeros))
    by (unfold T, C; rewrite <- ?app_assoc, ?length_app, ?length_le_bytes; done).
  cbn [obind]. unfold T, C.
  destruct (data_type_code_inv ty) as [Hcode Hcode_small].
  rewrite !le_value_le_bytes_small by (try done; simpl; lia).
  rewrite Hcode.
  destruct (N.ltb_spec 127 (N.of_nat (length ks))) as [Hbad|_]; [lia|].
  rewrite Nat2N.id.
  fold T C.
  replace ([0] ++ T ++ C ++ K ++ R ++ zeros)
    with (([0] ++ T ++ C) ++ K ++ R ++ zeros)
    by (by rewrite <- !app_assoc).
  unfold K. rewrite read_keys_split
    by (unfold T, C; rewrite ?length_app, ?length_le_bytes; done).
  cbn [obind]. fold K.
  replace (([0] ++ T ++ C) ++ K ++ R ++ zeros)
    with (([0] ++ T ++ C ++ K) ++ R ++ zeros)
    by (by rewrite <- !app_assoc).
  rewrite <- Hcs. unfold R.
  assert (length ([0] ++ T ++ C ++ K) = (13 + length ks * value_width ty)%nat) as HlenK.
  { unfold T, C, K. rewrite !length_app, !length_le_bytes, length_enc_keys by done.
    simpl. lia. }
  rewrite read_words_split by (try done; rewrite HlenK; lia).
  cbn [obind]. rewrite length_map. rewrite decide_True by lia. done.
Qed.

(** X11. An internal node with at least one key that passes the check of
    [saveNode] (one child more than keys) and fits its page is what
    [getNode] reads back from the page, its keys as stored. *)
Theorem saved_internal_node_reads_back :
  ∀ (idx : t) (p : PageId) (ks : list Value) (cs : list PageId) (w : World)
    (c : PageId → list N),
    file_is w (index_name_ idx) c → addressable p →
    max_keys_ idx = 127 →
    Forall (has_type (key_type_ idx)) ks →
    length cs = (length ks + 1)%nat →
    Forall (λ x, x < 2 ^ 64) cs →
    (0 < length ks ≤ 127)%nat →
    (internal_size (key_type_ idx) (length ks) ≤ N.to_nat PAGE_SIZE)%nat →
    returns (saved ←$ saveNode idx p (internal_node ks cs); getNode idx p) w
      (λ node' _, node' = internal_node (as_stored <$> ks) cs).
Proof.
  intros idx p ks cs w c Hc Hp Hmax Hks Hcs Hsmall Hn Hfit.
  apply returns_bind.
  eapply (saveNode_returns idx p _ (internal_image (key_type_ idx) ks cs) w c);
    try done.
  { by apply node_bytes_internal. }
  { by apply internal_image_sized. }
  intros w' Hc' _ _.
  eapply (getNode_returns idx p w'); [exact Hc'|done| |].
  { rewrite Hmax, with_page_same. by apply parse_internal_image. }
  intros w'' _ _. by rewrite stored_keys.
Qed.

End nodes.

Section node_samples.
Import BPlusTreeIndex.

Lemma saved_leaf_reads_back_witness :
  ∃ node' w',
    (saved ←$ saveNode (create "t.idx" STRING) 1
                (leaf_node [VString "Bob"; VString "Eve"] [1; 0] 0);
     getNode (create "t.idx" STRING) 1) new_World
    = Ret (node', w')
    ∧ node' = leaf_node [VString "Bob"; VString "Eve"] [1; 0] 0.
Proof.
  destruct (new_World_ready "t") as (_ & _ & ci & Hci & _).
  apply (saved_leaf_reads_back (create "t.idx" STRING) 1
           (leaf_node [VString "Bob"; VString "Eve"] [1; 0] 0) new_World ci).
  - exact Hci.
  - vm_compute. reflexivity.
  - reflexivity.
  - reflexivity.
  - repeat constructor.
  - reflexivity.
  - repeat constructor.
  - vm_compute. reflexivity.
  - simpl. lia.
  - vm_compute. lia.
Defined.

Lemma new_internal_node_reads_back_as_a_leaf_witness :
  ∃ r w',
    (p ←$ createNewNode (create "t.idx" INT32) false;
     node ←$ getNode (create "t.idx" INT32) p;
     ret (p, node)) new_World
    = Ret (r, w')
    ∧ r = (1, new_BPlusTreeNode true)
    ∧ next_page_id w' = 2.
Proof.
  destruct (new_World_ready "t") as (_ & _ & ci & Hci & Hblank).
  destruct (new_internal_node_reads_back_as_a_leaf (create "t.idx" INT32)
              new_World ci) as (r & w' & Hrun & Hr & Hnp & _).
  - exact Hci.
  - vm_compute. reflexivity.
  - apply Hblank. vm_compute. discriminate.
  - reflexivity.
  - exists r, w'. split; [exact Hrun|]. split; [exact Hr|exact Hnp].
Defined.

Lemma saved_internal_node_reads_back_witness :
  ∃ node' w',
    (saved ←$ saveNode (create "t.idx" INT32) 3
                (internal_node [VInt32 64] [1; 2]);
     getNode (create "t.idx" INT32) 3) new_World
    = Ret (node', w')
    ∧ node' = internal_node [VInt32 64] [1; 2].
Proof.
  destruct (new_World_ready "t") as (_ & _ & ci & Hci & _).
  apply (saved_internal_node_reads_back (create "t.idx" INT32) 3
           [VInt32 64] [1; 2] new_World ci).
  - exact Hci.
  - vm_compute. reflexivity.
  - reflexivity.
  - apply Forall_cons_2; [simpl; lia|apply Forall_nil_2].
  - reflexivity.
  - repeat constructor.
  - simpl. lia.
  - vm_compute. lia.
Defined.

End node_samples.

(** ** Insertion into a leaf *)

Section leaf_insertion.
Import BPlusTreeIndex.

Lemma keys_split (ty : DataType) (key : Value) (ks : list Value) :
  comparable ty key → Forall (comparable ty) ks → non_decreasing ks →
  ∃ l1 l2, ks = l1 ++ l2
           ∧ Forall (λ a, value_ltb a key = true) l1
           ∧ Forall (λ a, value_ltb a key = false) l2.
Proof.
  intros Hk. induction ks as [|a ks IH]; intros Hcomp Hsorted.
  { exists [], []. by repeat constructor. }
  apply list.Forall_cons in Hcomp as [Ha Hcomp].
  apply StronglySorted_cons in Hsorted as [Hafter Hsorted].
  destruct (value_ltb a key) eqn:Hlt.
  - destruct (IH Hcomp Hsorted) as (l1 & l2 & -> & H1 & H2).
    exists (a :: l1), l2. split; [done|]. split; [by constructor|done].
  - exists [], (a :: ks). split; [done|]. split; [constructor|].
    constructor; [done|]. apply Forall_forall. intros b Hb.
    pose proof (proj1 (Forall_forall _ _) Hafter b Hb) as Hab. cbn in Hab.
    pose proof (proj1 (Forall_forall _ _) Hcomp b Hb) as Hbc.
    destruct (value_ltb b key) eqn:Hbk; [|done].
    (* b < key, not (a < key), not (b < a): then not (b < key) *)
    rewrite <- Hbk. apply (value_neg_trans ty b a key); done.
Qed.

(** X12. [insertIntoLeaf] keeps a leaf in order: into keys in
    non-decreasing order the new key goes after every smaller key and
    before every other one (so before the keys equal to it), the record id
    goes to the same position, and keys and record ids stay aligned. *)
Theorem insertIntoLeaf_keeps_the_leaf_sorted :
  ∀ (ty : DataType) (node : BPlusTreeNode) (key : Value) (record_id : RecordId),
    comparable ty key →
    Forall (comparable ty) (keys node) →
    non_decreasing (keys node) →
    length (records node) = length (keys node) →
    let node' := insertIntoLeaf node key record_id in
    non_decreasing (keys node')
    ∧ ∃ i, keys node' = take i (keys node) ++ key :: drop i (keys node)
           ∧ records node' = take i (records node) ++ record_id :: drop i (records node)
           ∧ Forall (λ a, value_ltb a key = true) (take i (keys node))
           ∧ Forall (λ a, value_ltb a key = false) (drop i (keys node)).
Proof.
  intros ty node key record_id Hk Hcomp Hsorted Hrs node'.
  destruct (keys_split ty key (keys node) Hk Hcomp Hsorted) as (l1 & l2 & Hks & H1 & H2).
  assert (lower_bound (key_less key) (keys node) = length l1) as Hi.
  { rewrite Hks. apply lower_bound_partition.
    - rewrite Hks in Hcomp. apply Forall_app in Hcomp as [Hc1 _].
      apply Forall_forall. intros a Ha.
      rewrite (key_less_ltb ty) by (try done; by apply (proj1 (Forall_forall _ _) Hc1)).
      by apply (proj1 (Forall_forall _ _) H1).
    - rewrite Hks in Hcomp. apply Forall_app in Hcomp as [_ Hc2].
      apply Forall_forall. intros a Ha.
      rewrite (key_less_ltb ty) by (try done; by apply (proj1 (Forall_forall _ _) Hc2)).
      by apply (proj1 (Forall_forall _ _) H2). }
  assert (take (length l1) (keys node) = l1) as Htake
    by (by rewrite Hks, take_app_length).
  assert (drop (length l1) (keys node) = l2) as Hdrop
    by (by rewrite Hks, drop_app_length).
  unfold node', insertIntoLeaf. cbn [keys records].
  rewrite decide_True by done. rewrite Hi. unfold insert_at.
  split.
  - rewrite Htake, Hdrop. rewrite Hks in Hsorted, Hcomp.
    apply StronglySorted_app in Hsorted as (Hcross & Hs1 & Hs2).
    apply Forall_app in Hcomp as [Hc1 Hc2].
    apply StronglySorted_app_2; [|done|].
    + intros a b Ha [->|Hb]%elem_of_cons; [|by apply Hcross].
      apply (value_ltb_asym ty); [by apply (proj1 (Forall_forall _ _) Hc1)|done|].
      by apply (proj1 (Forall_forall _ _) H1).
    + apply StronglySorted_cons. split; [|done].
      apply Forall_forall. intros b Hb. cbn.
      by apply (proj1 (Forall_forall _ _) H2).
  - exists (length l1). rewrite Htake, Hdrop. done.
Qed.

Lemma insertIntoLeaf_keeps_the_leaf_sorted_witness :
  insertIntoLeaf (leaf_node [VInt32 3; VInt32 5; VInt32 5; VInt32 7] [1; 2; 0; 3] 0)
    (VInt32 5) 4
  = leaf_node [VInt32 3; VInt32 5; VInt32 5; VInt32 5; VInt32 7] [1; 4; 2; 0; 3] 0
  ∧ non_decreasing [VInt32 3; VInt32 5; VInt32 5; VInt32 5; VInt32 7].
Proof.
  destruct (insertIntoLeaf_keeps_the_leaf_sorted INT32
              (leaf_node [VInt32 3; VInt32 5; VInt32 5; VInt32 7] [1; 2; 0; 3] 0)
              (VInt32 5) 4) as [Hsorted _].
  - apply comparable_int32. lia.
  - repeat (apply Forall_cons_2; [apply comparable_int32; lia|]). apply Forall_nil_2.
  - repeat (apply SSorted_cons || apply SSorted_nil || apply Forall_cons_2
            || apply Forall_nil_2 || reflexivity).
  - reflexivity.
  - split; [reflexivity|exact Hsorted].
Defined.

End leaf_insertion.


(** ** Searches in a column *)

Section searches.
Import DiskBasedColumn.

Lemma elem_of_insert_at {A} (i : nat) (x y : A) (l : list A) :
  y ∈ insert_at i x l → y = x ∨ y ∈ l.
Proof.
  unfold insert_at. rewrite elem_of_app, elem_of_cons.
  intros [Hin|[->|Hin]]; [right|by left|right];
    rewrite <- (take_drop i l), elem_of_app; tauto.
Qed.

(** Every entry of the root leaf comes from an append. *)
Lemma index_entries_sound (vs : list Value) :
  ∀ (es : list (Value * RecordId)) (first : N) (e : Value * RecordId),
    e ∈ index_entries es first vs →
    e ∈ es ∨ ∃ i x, vs !! i = Some x ∧ e = (as_stored x, first + N.of_nat i).
Proof.
  induction vs as [|v vs IH]; intros es first e He; cbn [index_entries] in He.
  { by left. }
  apply IH in He as [He|(i & x & Hx & ->)].
  - unfold index_step in He. case_decide; [|by apply elem_of_nil in He].
    unfold leaf_insert in He. apply elem_of_insert_at in He as [->|He]; [|by left].
    right. exists 0%nat, v. split; [done|]. f_equal. lia.
  - right. exists (S i), x. split; [done|]. f_equal. lia.
Qed.

(** X13. [findRecords] has no false positives, whatever has been appended
    and however many records: every record id it returns is that of an
    append whose value, as stored, is [==] to the value searched for. *)
Theorem find_records_returns_only_matching_records :
  ∀ (fuel : nat) (name : string) (ty : DataType) (vs : list Value) (w0 : World),
    (0 < fuel)%nat →
    column_ready name w0 →
    Forall (has_type ty) vs →
    (ty = STRING → length vs ≤ 15)%nat →
    next_page_id w0 + 3 * N.of_nat (length vs) < 2 ^ 51 →
    ∃ c w,
      run_appends fuel (create name ty) vs w0 = Ret (c, w)
      ∧ ∀ v, ∃ rs w',
          findRecords fuel c v w = Ret (rs, w')
          ∧ ∀ r, r ∈ rs →
              ∃ x, vs !! N.to_nat r = Some x
                   ∧ value_eqb (as_stored x) v = true.
Proof.
  intros fuel name ty vs w0 Hfuel Hready Hty Hstr Hnp.
  destruct (appends_hold fuel name ty vs w0)
    as (c & w & Hrun & Hholds & _ & Hnp' & _); try done.
  exists c, w. split; [done|]. intros v.
  destruct Hholds as (_ & _ & _ & _ & _ & Hidx & _).
  destruct (search_holds fuel (index_ c) w _ v Hfuel Hidx)
    as (rs & w' & Hfind & -> & _); [lia|].
  eexists _, w'. split; [exact Hfind|].
  intros r ([k r'] & -> & [Heq Hin]%list_elem_of_filter)%list_elem_of_fmap.
  cbn [fst snd] in *.
  apply index_entries_sound in Hin as [Hin|(i & x & Hx & [= -> ->])].
  { by apply elem_of_nil in Hin. }
  exists x. split; [|done]. by rewrite N.add_0_l, Nat2N.id.
Qed.

Lemma find_records_returns_only_matching_records_witness :
  ∃ c w,
    run_appends 1 (create "t/dept" INT32) [VInt32 5; VInt32 3; VInt32 5]
      new_World = Ret (c, w)
    ∧ ∀ v, ∃ rs w',
        findRecords 1 c v w = Ret (rs, w')
        ∧ ∀ r, r ∈ rs →
            ∃ x, [VInt32 5; VInt32 3; VInt32 5] !! N.to_nat r = Some x
                 ∧ value_eqb (as_stored x) v = true.
Proof.
  apply (find_records_returns_only_matching_records 1 "t/dept" INT32
           [VInt32 5; VInt32 3; VInt32 5] new_World).
  - lia.
  - apply new_World_ready.
  - apply comparable_has_type, sample_keys_comparable.
  - discriminate.
  - vm_compute. reflexivity.
Defined.

Lemma value_eqb_nan (a v : Value) : ¬ not_nan v → value_eqb a v = false.
Proof.
  destruct v as [| |y|y| |]; cbn; try tauto; intros Hnan;
    destruct a as [| |x|x| |]; cbn; try done; unfold fp_eqb;
    destruct (fp_is_nan _ _ y); try done; by rewrite andb_false_r.
Qed.

(** X14. A NaN is never found: [findRecords] of a NaN returns no record,
    even when NaNs have been appended, because [==] is false on them. *)
Theorem appended_nan_is_never_found :
  ∀ (fuel : nat) (name : string) (ty : DataType) (vs : list Value) (w0 : World)
    (nan : Value),
    (0 < fuel)%nat →
    column_ready name w0 →
    Forall (has_type ty) vs →
    (ty = STRING → length vs ≤ 15)%nat →
    next_page_id w0 + 3 * N.of_nat (length vs) < 2 ^ 51 →
    ¬ not_nan nan →
    ∃ c w,
      run_appends fuel (create name ty) vs w0 = Ret (c, w)
      ∧ ∃ w', findRecords fuel c nan w = Ret ([], w').
Proof.
  intros fuel name ty vs w0 nan Hfuel Hready Hty Hstr Hnp Hnan.
  destruct (appends_hold fuel name ty vs w0)
    as (c & w & Hrun & Hholds & _ & Hnp' & _); try done.
  exists c, w. split; [done|].
  destruct Hholds as (_ & _ & _ & _ & _ & Hidx & _).
  destruct (search_holds fuel (index_ c) w _ nan Hfuel Hidx)
    as (rs & w' & Hfind & -> & _); [lia|].
  exists w'. unfold findRecords. rewrite Hfind. do 2 f_equal.
  rewrite filter_none; [done|]. apply Forall_forall. intros e _.
  by rewrite value_eqb_nan.
Qed.

Lemma appended_nan_is_never_found_witness :
  ∃ c w,
    run_appends 1 (create "t/x" DOUBLE)
      [VDouble 9221120237041090560; VDouble 4609434218613702656] new_World
    = Ret (c, w)
    ∧ ∃ w', findRecords 1 c (VDouble 9221120237041090560) w = Ret ([], w').
Proof.
  apply (appended_nan_is_never_found 1 "t/x" DOUBLE
           [VDouble 9221120237041090560; VDouble 4609434218613702656]
           new_World (VDouble 9221120237041090560)).
  - lia.
  - apply new_World_ready.
  - apply Forall_cons_2; [vm_compute; reflexivity|].
    apply Forall_cons_2; [vm_compute; reflexivity|]. apply Forall_nil_2.
  - discriminate.
  - vm_compute. reflexivity.
  - vm_compute. intros H. discriminate H.
Defined.

(** X15. A range whose upper bound is below its lower bound selects
    nothing. *)
Theorem inverted_range_selects_nothing :
  ∀ (fuel : nat) (name : string) (ty : DataType) (vs : list Value) (w0 : World)
    (lo hi : Value),
    (1 < fuel)%nat →
    column_ready name w0 →
    Forall (comparable ty) vs →
    (length vs ≤ leaf_capacity ty)%nat →
    next_page_id w0 + 3 * N.of_nat (length vs) < 2 ^ 51 →
    comparable ty lo → comparable ty hi →
    value_ltb hi lo = true →
    ∃ c w,
      run_appends fuel (create name ty) vs w0 = Ret (c, w)
      ∧ ∃ w', findRecordsInRange fuel c lo hi w = Ret ([], w').
Proof.
  intros fuel name ty vs w0 lo hi Hfuel Hready Hcomp Hcap Hnp Hlo Hhi Hinv.
  destruct (capacity_string ty _ Hcap) as [H127 Hstr].
  destruct (appends_hold fuel name ty vs w0)
    as (c & w & Hrun & Hholds & _ & Hnp' & _);
    try done; [lia|by apply comparable_has_type|].
  exists c, w. split; [done|].
  destruct Hholds as (_ & _ & _ & _ & _ & Hidx & _).
  destruct (rangeSearch_holds fuel (index_ c) w _ lo hi Hfuel Hidx)
    as (rs & w' & Hfind & -> & _); [lia|].
  destruct (entries_of_index_entries ty vs [] [] (entries_of_nil ty) Hcomp H127)
    as (Hkeys & Hsorted & _).
  cbn [app length] in *. change (N.of_nat 0) with 0 in *.
  exists w'. unfold findRecordsInRange. rewrite Hfind. do 2 f_equal.
  rewrite (range_scan_filter ty) by done.
  rewrite filter_none; [done|]. apply Forall_forall. intros e He.
  assert (comparable ty e.1) as Hk.
  { apply (proj1 (Forall_forall _ _) Hkeys). by apply list_elem_of_fmap_2. }
  unfold in_range. intros [Hge Hle]%andb_prop.
  apply negb_true_iff in Hge, Hle.
  by rewrite (value_neg_trans ty hi e.1 lo Hhi Hk Hlo Hle Hge) in Hinv.
Qed.

Lemma inverted_range_selects_nothing_witness :
  ∃ c w,
    run_appends 2 (create "t/dept" INT32) [VInt32 5; VInt32 3; VInt32 5]
      new_World = Ret (c, w)
    ∧ ∃ w', findRecordsInRange 2 c (VInt32 5) (VInt32 3) w = Ret ([], w').
Proof.
  apply (inverted_range_selects_nothing 2 "t/dept" INT32
           [VInt32 5; VInt32 3; VInt32 5] new_World (VInt32 5) (VInt32 3)).
  - lia.
  - apply new_World_ready.
  - apply sample_keys_comparable.
  - simpl. lia.
  - vm_compute. reflexivity.
  - apply comparable_int32. lia.
  - apply comparable_int32. lia.
  - reflexivity.
Defined.

End searches.


(** ** Columns: slots nothing was appended to, and aggregates *)

Section column_slots.
Import DiskBasedColumn.

Lemma peek_zero_page (offset : N) (len : nat) :
  (N.to_nat offset + len ≤ 4096)%nat →
  peek zero_page offset len = Ret (replicate len 0).
Proof.
  intros Hin. rewrite peek_Ret.
  2:{ unfold zero_page. rewrite length_replicate. exact Hin. }
  unfold zero_page. rewrite drop_replicate, take_replicate. do 2 f_equal.
  change (N.to_nat PAGE_SIZE) with 4096%nat. lia.
Qed.

Lemma value_of_zero_bytes (ty : DataType) :
  value_of_bytes ty (replicate (value_width ty) 0) = default_value ty.
Proof. destruct ty; vm_compute; reflexivity. Qed.

Lemma file_is_agree (w : World) (f : string) (c c' : PageId → list N) :
  file_is w f c → file_is w f c' → ∀ p, addressable p → c' p = c p.
Proof. intros [_ Hv] [_ Hv'] p Hp. by rewrite <- Hv, <- Hv'. Qed.

Lemma column_new_blank (name : string) (ty : DataType) (w : World)
    (cd : PageId → list N) :
  column_new name w → file_is w (name ++ ".data") cd →
  blank_from (create name ty) cd 0.
Proof.
  intros [_ Hblank] Hcd r _ Hr. rewrite (Hblank cd Hcd) by done.
  apply peek_zero_page.
  destruct (slot_in_page ty (r mod records_per_page_ (create name ty))) as [Hin _].
  { apply N.mod_lt. cbn. by destruct ty. }
  cbn [type_ create] in *. rewrite record_size_width in *.
  unfold PAGE_SIZE in *. lia.
Qed.

(** The appends of [vs] leave the slots after them blank. *)
Lemma run_appends_blank (fuel : nat) (vs : list Value) :
  (0 < fuel)%nat →
  ∀ (c : t) (w : World) (done : list Value) (es : list (Value * RecordId)),
    column_holds c w done es →
    (∀ cd, file_is w (data_file_ c) cd → blank_from c cd (N.of_nat (length done))) →
    Forall (has_type (type_ c)) vs →
    (length es ≤ length done)%nat →
    (type_ c = STRING → length done + length vs ≤ 15)%nat →
    N.of_nat (length done + length vs) < 2 ^ 51 →
    next_page_id w + 3 * N.of_nat (length vs) < 2 ^ 51 →
    returns (run_appends fuel c vs) w
      (λ c' w',
         column_holds c' w' (done ++ vs)
           (index_entries es (N.of_nat (length done)) vs)
         ∧ type_ c' = type_ c
         ∧ ∀ cd, file_is w' (data_file_ c') cd →
                 blank_from c' cd (N.of_nat (length done + length vs))).
Proof.
  intros Hfuel. induction vs as [|v vs IH];
    intros c w done es Hc Hblank Hty Hes Hstr Hlen Hnp.
  { apply returns_ret. rewrite app_nil_r, Nat.add_0_r. done. }
  cbn [run_appends index_entries]. cbn [length] in *.
  apply list.Forall_cons in Hty as [Hv Hty].
  pose proof Hc as (Hlay & _ & _ & _ & _ & (_ & _ & _ & Hes127 & _) & cd0 & Hcd0 & _).
  pose proof (records_per_page_pos c Hlay) as Hrpp.
  destruct (append_holds fuel c w done es v) as ([r c1] & w1 & Hrun & Hpost);
    try done; try lia.
  { apply leaf_fits. destruct (decide (type_ c = STRING)) as [Hs|Hs].
    - rewrite Hs. cbn. specialize (Hstr Hs). lia.
    - destruct (type_ c); cbn; try done; lia. }
  { intros Hroom. apply leaf_fits. destruct (decide (type_ c = STRING)) as [Hs|Hs].
    - rewrite Hs. cbn. specialize (Hstr Hs). lia.
    - destruct (type_ c); cbn; try done; lia. }
  destruct Hpost as (Hr & Hc1 & Hnp1 & Hname1 & Hty1 & Hroot1 & [bytes Hdata] & _).
  destruct (append_fields _ _ _ _ _ _ _ Hrun) as (_ & _ & _ & _ & Hfile1 & Hrpp1).
  cbn [fst snd] in *.
  apply returns_bind. exists (r, c1), w1. split; [exact Hrun|]. cbn [snd].
  eapply returns_mono.
  { apply (IH c1 w1 (done ++ [v]) (index_step v (N.of_nat (length done)) es));
      rewrite ?length_app, ?Hty1; cbn [length]; try done; try lia.
    - intros cd1 Hcd1 q Hq Haddr. rewrite Hrpp1, Hty1 in *.
      destruct (Hdata cd0 Hcd0) as [Hpoke Hcd0'].
      rewrite Hfile1 in Hcd1.
      rewrite (file_is_agree _ _ _ _ Hcd0' Hcd1) by done.
      unfold with_page. case_decide as Hpage.
      + rewrite (poke_other _ _ _ _ _ _ Hpoke).
        * rewrite <- Hpage. apply (Hblank cd0 Hcd0); [lia|done].
        * destruct (value_bytes_typed (type_ c) v Hv) as [_ ->].
          rewrite record_size_width.
          assert (q mod records_per_page_ c
                  ≠ N.of_nat (length done) mod records_per_page_ c) as Hslot.
          { intros Heq.
            pose proof (N.Div0.div_mod q (records_per_page_ c)).
            pose proof (N.Div0.div_mod (N.of_nat (length done)) (records_per_page_ c)).
            rewrite Hpage, Heq in *. lia. }
          assert (0 < value_width (type_ c))%nat by apply has_type_width_pos. nia.
      + apply (Hblank cd0 Hcd0); [lia|done].
    - pose proof (length_index_step v (N.of_nat (length done)) es). lia.
    - intros Hs. specialize (Hstr Hs). lia. }
  intros c' w' (Hc' & Hty' & Hblank'). cbn beta.
  rewrite <- app_assoc in Hc'. cbn [app] in Hc'.
  rewrite length_app in Hc', Hblank'. cbn [length] in Hc', Hblank'.
  replace (N.of_nat (length done + 1)) with (N.of_nat (length done) + 1) in Hc' by lia.
  split; [done|]. split; [congruence|].
  intros cd Hcd. replace (length done + S (length vs))%nat
    with (length done + 1 + length vs)%nat by lia. by apply Hblank'.
Qed.

(** X16. In a column whose data file was new, a slot that no append has
    written reads as the default value of the column's type (0, 0.0, the
    empty string, false), for every record id whose page can be addressed. *)
Theorem unwritten_slot_reads_as_default :
  ∀ (fuel : nat) (name : string) (ty : DataType) (vs : list Value) (w0 : World),
    (0 < fuel)%nat →
    column_new name w0 →
    Forall (has_type ty) vs →
    (ty = STRING → length vs ≤ 15)%nat →
    N.of_nat (length vs) < 2 ^ 51 →
    next_page_id w0 + 3 * N.of_nat (length vs) < 2 ^ 51 →
    ∃ c w,
      run_appends fuel (create name ty) vs w0 = Ret (c, w)
      ∧ size c = N.of_nat (length vs)
      ∧ ∀ r, size c ≤ r → r / (PAGE_SIZE / getRecordSize ty) < 2 ^ 51 →
             ∃ w', get c r w = Ret (default_value ty, w').
Proof.
  intros fuel name ty vs w0 Hfuel Hnew Hty Hstr Hlen Hnp.
  destruct (run_appends_blank fuel vs Hfuel (create name ty) w0 [] [])
    as (c & w & Hrun & Hholds & Htype & Hblank); try done.
  - apply column_ready_holds. apply Hnew.
  - intros cd Hcd. by apply (column_new_blank name ty w0).
  - exists c, w. split; [done|].
    destruct Hholds as (Hlay & _ & _ & Hsize & _ & _ & cd & Hcd & _).
    cbn [app length Nat.add] in *. unfold size. split; [done|].
    intros r Hr Haddr. rewrite Hsize in Hr.
    pose proof (records_per_page_pos c Hlay) as Hrpp.
    cbn [type_ create] in Htype.
    unfold column_layout in Hlay. rewrite Htype in Hlay. rewrite <- Hlay in Haddr.
    destruct (fetch_returns (data_file_ c) (r / records_per_page_ c) w cd
                (λ page w', data page = cd (r / records_per_page_ c)) Hcd Haddr)
      as (page & w' & Hfetch & Hdata); [done|].
    exists w'. unfold get, bind. rewrite Hfetch. unfold lift, readValueFromPage.
    rewrite Hdata.
    destruct (slot_in_page (type_ c) (r mod records_per_page_ c)) as [_ ->].
    { rewrite Htype, <- Hlay. by apply N.mod_lt, N.neq_0_lt_0. }
    rewrite (Hblank cd Hcd r) by done. cbn [obind].
    by rewrite Htype, value_of_zero_bytes.
Qed.

Lemma new_World_column_new (name : string) : column_new name new_World.
Proof.
  split; [apply new_World_ready|]. intros cd [_ Hview] p Hp.
  rewrite <- Hview by done. unfold view. cbn. rewrite lookup_empty.
  rewrite disk_page_good; [|done|done].
  unfold DiskManager.getFileStream, DiskManager.create.
  rewrite lookup_empty. cbn. by rewrite lookup_empty.
Qed.

Lemma unwritten_slot_reads_as_default_witness :
  ∃ c w,
    run_appends 1 (create "t/id" INT32) [VInt32 7] new_World = Ret (c, w)
    ∧ size c = 1
    ∧ ∀ r, size c ≤ r → r / (PAGE_SIZE / getRecordSize INT32) < 2 ^ 51 →
           ∃ w', get c r w = Ret (VInt32 0, w').
Proof.
  apply (unwritten_slot_reads_as_default 1 "t/id" INT32 [VInt32 7] new_World).
  - lia.
  - apply new_World_column_new.
  - apply Forall_cons_2; [simpl; lia|apply Forall_nil_2].
  - discriminate.
  - vm_compute. reflexivity.
  - vm_compute. reflexivity.
Defined.

End column_slots.

Section column_sums.
Import DiskBasedColumn.

Lemma getNumericValue_stored (c : t) (x : Value) :
  has_type (type_ c) x →
  getNumericValue c (value_of_bytes (type_ c) (enc (type_ c) x))
  = Ret (as_double x).
Proof.
  intros Hx. change (value_of_bytes (type_ c) (enc (type_ c) x))
    with (stored (type_ c) x).
  rewrite stored_as_stored by done. unfold getNumericValue.
  destruct (type_ c), x; cbn in *; done.
Qed.

(** The inner loop of [sum] over the records of one page. *)
Lemma sum_page_running (c : t) (page_data : list N) (start : N) :
  column_layout c →
  ∀ (xs : list Value) (i : N) (result : float),
    start ≤ i → i - start + N.of_nat (length xs) ≤ records_per_page_ c →
    Forall (has_type (type_ c)) xs →
    (∀ k x, xs !! k = Some x →
       peek page_data ((i - start + N.of_nat k) * getRecordSize (type_ c))
            (value_width (type_ c)) = Ret (enc (type_ c) x)) →
    sum_page (length xs) c page_data i start result
    = Ret (running_sum result xs).
Proof.
  intros Hlay. induction xs as [|x xs IH]; intros i result Hi Hin Hty Hslots;
    [done|].
  apply list.Forall_cons in Hty as [Hx Hty]. cbn [length sum_page] in *.
  unfold readValueFromPage.
  destruct (slot_in_page (type_ c) (i - start)) as [_ ->].
  { rewrite <- Hlay. lia. }
  pose proof (Hslots 0%nat x eq_refl) as Hfirst.
  rewrite N.add_0_r in Hfirst. rewrite Hfirst. cbn [obind].
  rewrite getNumericValue_stored by done. cbn [obind].
  rewrite IH; [done|lia|lia|done|].
  intros k y Hy. specialize (Hslots (S k) y Hy).
  replace (i + 1 - start + N.of_nat k) with (i - start + N.of_nat (S k)) by lia.
  exact Hslots.
Qed.

Lemma running_sum_app (start : float) (xs ys : list Value) :
  running_sum start (xs ++ ys) = running_sum (running_sum start xs) ys.
Proof. unfold running_sum. by rewrite foldl_app. Qed.

Lemma sum_loop_running (c : t) (vs : list Value) (cd : PageId → list N) :
  column_layout c →
  total_records_ c = N.of_nat (length vs) →
  N.of_nat (length vs) < 2 ^ 51 →
  Forall (has_type (type_ c)) vs →
  (∀ (r : nat) v, vs !! r = Some v →
     peek (cd (N.of_nat r / records_per_page_ c))
          (N.of_nat r mod records_per_page_ c * getRecordSize (type_ c))
          (value_width (type_ c)) = Ret (enc (type_ c) v)) →
  ∀ (fuel : nat) (page_id : PageId) (result : float) (w : World),
    file_is w (data_file_ c) cd →
    page_id * records_per_page_ c ≤ total_records_ c + records_per_page_ c →
    (0 < fuel)%nat →
    total_records_ c + records_per_page_ c
      ≤ (page_id + N.of_nat fuel) * records_per_page_ c →
    returns (sum_loop fuel c page_id result) w
      (λ s _,
         s = running_sum result
               (drop (N.to_nat (page_id * records_per_page_ c)) vs)).
Proof.
  intros Hlay Htot Hlen Hty Hslots.
  pose proof (records_per_page_pos c Hlay) as Hpos.
  assert (records_per_page_ c ≤ 4096) as Hrpp.
  { rewrite Hlay. unfold PAGE_SIZE. apply N.Div0.div_le_upper_bound.
    destruct (type_ c); cbn [getRecordSize]; lia. }
  induction fuel as [|fuel IH]; intros page_id result w Hfile Hpage Hfuel Hend;
    [lia|].
  cbn [sum_loop].
  assert (wrap64 (page_id * records_per_page_ c) = page_id * records_per_page_ c)
    as ->.
  { unfold wrap64. apply N.mod_small.
    change (2 ^ 64) with 18446744073709551616.
    change (2 ^ 51) with 2251799813685248 in Hlen. lia. }
  set (start := page_id * records_per_page_ c) in *.
  destruct (N.ltb_spec start (total_records_ c)) as [Hmore|Hdone].
  2:{ apply returns_ret. rewrite drop_ge by lia. done. }
  assert (page_id < 2 ^ 51) as Haddr by (unfold start in *; nia).
  apply returns_bind. eapply fetch_returns; [exact Hfile|exact Haddr|].
  intros page w1 Hdata _ _ Hkeep.
  assert (wrap64 (start + records_per_page_ c) = start + records_per_page_ c) as ->.
  { unfold wrap64. apply N.mod_small.
    change (2 ^ 64) with 18446744073709551616.
    change (2 ^ 51) with 2251799813685248 in Hlen. lia. }
  set (end_record := N.min (start + records_per_page_ c) (total_records_ c)).
  set (xs := take (N.to_nat (end_record - start)) (drop (N.to_nat start) vs)).
  assert (length xs = N.to_nat (end_record - start)) as Hxs.
  { unfold xs. rewrite length_take, length_drop. unfold end_record. lia. }
  apply returns_bind. eapply returns_lift.
  { rewrite <- Hxs. apply (sum_page_running c (data page) start Hlay xs).
    - lia.
    - rewrite Hxs. unfold end_record. lia.
    - unfold xs. by apply Forall_take, Forall_drop.
    - intros k x Hx. unfold xs in Hx.
      apply lookup_take_Some in Hx as [Hx Hk]. rewrite lookup_drop in Hx.
      specialize (Hslots _ _ Hx).
      assert (N.of_nat (N.to_nat start + k) = start + N.of_nat k) as Hr by lia.
      rewrite Hr in Hslots.
      assert (N.of_nat k < records_per_page_ c) as Hkk by (unfold end_record in *; lia).
      replace ((start + N.of_nat k) / records_per_page_ c) with page_id in Hslots.
      2:{ apply (N.div_unique _ _ _ (N.of_nat k)); [done|]. unfold start. lia. }
      replace ((start + N.of_nat k) mod records_per_page_ c) with (N.of_nat k)
        in Hslots.
      2:{ apply (N.mod_unique _ _ page_id); [done|]. unfold start. lia. }
      rewrite Hdata. replace (start - start + N.of_nat k) with (N.of_nat k) by lia.
      exact Hslots. }
  assert (wrap64 (page_id + 1) = page_id + 1) as ->.
  { unfold wrap64. apply N.mod_small.
    change (2 ^ 64) with 18446744073709551616.
    change (2 ^ 51) with 2251799813685248 in Haddr. lia. }
  eapply returns_mono.
  { apply IH; [by apply Hkeep|unfold start in *; lia|unfold start in *; nia
               |unfold start in *; lia]. }
  intros s _ ->. cbn beta.
  rewrite <- (take_drop (N.to_nat (end_record - start)) (drop (N.to_nat start) vs))
    at 1.
  fold xs. rewrite running_sum_app. f_equal. rewrite drop_drop.
  unfold end_record, start.
  destruct (N.min_spec (page_id * records_per_page_ c + records_per_page_ c)
              (total_records_ c)) as [[Hlt ->]|[Hge ->]].
  - f_equal. lia.
  - rewrite !drop_ge; [done|lia|lia].
Qed.

(** X17. [sum()] of a column is the sum, left to right in double
    arithmetic, of the numbers of the appended values (0.0 for every value
    of a string or boolean column), and [average()] is that sum over the
    record count, or 0.0 for an empty column. *)
Theorem sum_adds_the_appended_values :
  ∀ (fuel : nat) (name : string) (ty : DataType) (vs : list Value) (w0 : World),
    column_ready name w0 →
    Forall (has_type ty) vs →
    (ty = STRING → length vs ≤ 15)%nat →
    N.of_nat (length vs) < 2 ^ 51 →
    next_page_id w0 + 3 * N.of_nat (length vs) < 2 ^ 51 →
    N.of_nat (length vs) / (PAGE_SIZE / getRecordSize ty) + 1 < N.of_nat fuel →
    ∃ c w,
      run_appends fuel (create name ty) vs w0 = Ret (c, w)
      ∧ (∃ w', sum fuel c w = Ret (running_sum 0%float vs, w'))
      ∧ ∃ w', average fuel c w
              = Ret (if N.of_nat (length vs) =? 0 then 0%float
                     else PrimFloat.div (running_sum 0%float vs)
                            (double_of_N (N.of_nat (length vs))), w').
Proof.
  intros fuel name ty vs w0 Hready Hty Hstr Hlen Hnp Hfuel.
  assert (0 < fuel)%nat as Hsome.
  { destruct fuel; [|lia]. exfalso. revert Hfuel.
    generalize (N.of_nat (length vs) / (PAGE_SIZE / getRecordSize ty)). lia. }
  destruct (appends_hold fuel name ty vs w0)
    as (c & w & Hrun & Hholds & Htype & _ & _); try done.
  exists c, w. split; [done|].
  destruct Hholds as (Hlay & _ & _ & Htot & Htyped & _ & cd & Hcd & Hslots).
  pose proof (records_per_page_pos c Hlay) as Hpos.
  pose proof Hlay as Hlay'. unfold column_layout in Hlay'. rewrite Htype in Hlay'.
  rewrite <- Hlay' in Hfuel.
  pose proof (N.mul_succ_div_gt (N.of_nat (length vs)) (records_per_page_ c)) as Hdiv.
  destruct (sum_loop_running c vs cd Hlay Htot Hlen Htyped Hslots fuel 0 0%float w Hcd)
    as (s & w' & Hsum & ->); [lia|lia| |].
  { rewrite Htot. revert Hfuel Hdiv.
    generalize (N.of_nat (length vs) / records_per_page_ c). intros q Hfuel Hdiv.
    nia. }
  cbn [N.mul N.to_nat drop] in Hsum.
  split; [by exists w'|].
  unfold average. rewrite Htot.
  destruct (N.eqb_spec (N.of_nat (length vs)) 0) as [Hzero|Hnz].
  - by exists w.
  - exists w'. unfold bind. fold (sum fuel c). unfold sum. by rewrite Hsum.
Qed.

Lemma sum_adds_the_appended_values_witness :
  ∃ c w,
    run_appends 2 (create "t/n" INT32) [VInt32 3; VInt32 4; VInt32 (-1)] new_World
    = Ret (c, w)
    ∧ (∃ w', sum 2 c w = Ret (6%float, w'))
    ∧ ∃ w', average 2 c w = Ret (2%float, w').
Proof.
  destruct (sum_adds_the_appended_values 2 "t/n" INT32
              [VInt32 3; VInt32 4; VInt32 (-1)] new_World)
    as (c & w & Hrun & Hsum & Havg).
  - apply new_World_ready.
  - repeat (apply Forall_cons_2; [simpl; lia|]). apply Forall_nil_2.
  - discriminate.
  - vm_compute. reflexivity.
  - vm_compute. reflexivity.
  - vm_compute. reflexivity.
  - exists c, w. split; [exact Hrun|]. split; [exact Hsum|exact Havg].
Defined.

End column_sums.


(** ** Tables: rows in, rows out *)

Section file_names.

Lemma list_ascii_app (a b : string) :
  list_ascii_of_string (a +:+ b)
  = list_ascii_of_string a ++ list_ascii_of_string b.
Proof.
  induction a as [|x a IH]; [done|].
  change (String x a +:+ b) with (String x (a +:+ b)).
  cbn [list_ascii_of_string app]. by rewrite IH.
Qed.

Lemma string_app_inj_r (a b s : string) : a +:+ s = b +:+ s → a = b.
Proof.
  intros H. apply (f_equal list_ascii_of_string) in H.
  rewrite !list_ascii_app in H. apply app_inv_tail in H.
  apply (f_equal string_of_list_ascii) in H.
  by rewrite !string_of_list_ascii_of_string in H.
Qed.

Lemma data_is_not_idx (a b : string) : a +:+ ".data" ≠ b +:+ ".idx".
Proof.
  intros H. apply (f_equal list_ascii_of_string) in H.
  rewrite !list_ascii_app in H.
  apply (f_equal (@list.last _)) in H.
  change (list_ascii_of_string ".data") with ([] ++ ["."; "d"; "a"; "t"] ++ ["a"])%char in H.
  change (list_ascii_of_string ".idx") with ([] ++ ["."; "i"; "d"] ++ ["x"])%char in H.
  rewrite !app_assoc, !last_snoc in H. discriminate H.
Qed.

(** The files of two columns of one table are different files. *)
Lemma column_files_apart (path n1 n2 : string) (ty1 ty2 : DataType)
    (c1 c2 : DiskBasedColumn.t) :
  n1 ≠ n2 → column_of path n1 ty1 c1 → column_of path n2 ty2 c2 →
  DiskBasedColumn.data_file_ c2 ≠ DiskBasedColumn.data_file_ c1
  ∧ DiskBasedColumn.data_file_ c2
    ≠ BPlusTreeIndex.index_name_ (DiskBasedColumn.index_ c1)
  ∧ BPlusTreeIndex.index_name_ (DiskBasedColumn.index_ c2)
    ≠ DiskBasedColumn.data_file_ c1
  ∧ BPlusTreeIndex.index_name_ (DiskBasedColumn.index_ c2)
    ≠ BPlusTreeIndex.index_name_ (DiskBasedColumn.index_ c1).
Proof.
  intros Hne (_ & Hd1 & Hi1) (_ & Hd2 & Hi2). rewrite Hd1, Hd2, Hi1, Hi2.
  split; [|split; [|split]].
  - intros H%string_app_inj_r. apply string_app_inj, string_app_inj in H. congruence.
  - apply data_is_not_idx.
  - intros H. symmetry in H. by apply data_is_not_idx in H.
  - intros H%string_app_inj_r. apply string_app_inj, string_app_inj in H. congruence.
Qed.

End file_names.

Section table_rows.
Import DiskBasedTable.

Lemma column_holds_frame (c : DiskBasedColumn.t) (w w' : World)
    (vs : list Value) (es : list (Value * RecordId)) :
  column_holds c w vs es →
  next_page_id w ≤ next_page_id w' →
  (∀ cf, file_is w (DiskBasedColumn.data_file_ c) cf →
         file_is w' (DiskBasedColumn.data_file_ c) cf) →
  (∀ cf, file_is w (BPlusTreeIndex.index_name_ (DiskBasedColumn.index_ c)) cf →
         file_is w' (BPlusTreeIndex.index_name_ (DiskBasedColumn.index_ c)) cf) →
  column_holds c w' vs es.
Proof.
  intros (Hlay & Hfiles & Hkty & Htot & Hty & Hidx & cd & Hcd & Hslots) Hnp Hd Hi.
  repeat (split; [done|]). split.
  - destruct Hidx as (Hmax & Hnorm & Hr64 & Hlen & Hroot & ci & Hci & Hfresh & Hleaf).
    repeat (split; [done|]). split; [lia|]. exists ci.
    split; [by apply Hi|]. split; [|done]. intros p Hp. apply Hfresh. lia.
  - exists cd. split; [by apply Hd|done].
Qed.

Lemma get_keeps (c : DiskBasedColumn.t) (w : World) (vs : list Value)
    (es : list (Value * RecordId)) (r : nat) (v : Value) :
  column_holds c w vs es → vs !! r = Some v → N.of_nat r < 2 ^ 51 →
  returns (DiskBasedColumn.get c (N.of_nat r)) w
    (λ v' w', v' = as_stored v
              ∧ next_page_id w' = next_page_id w
              ∧ ∀ f' c', file_is w f' c' → file_is w' f' c').
Proof.
  intros Hholds Hv Hr.
  destruct (get_holds c w vs es r v Hholds Hv Hr) as (v' & w' & Hget & -> & _ & Hnp).
  exists (as_stored v), w'. split; [done|]. split; [done|]. split; [done|].
  unfold DiskBasedColumn.get in Hget. inv_bind Hget.
  apply lift_Ret in Hget as [_ ->].
  destruct Hholds as (Hlay & _ & _ & _ & _ & _ & cd & Hcd & _).
  pose proof (records_per_page_pos c Hlay) as Hrpp.
  destruct (fetch_returns (DiskBasedColumn.data_file_ c)
              (N.of_nat r / DiskBasedColumn.records_per_page_ c) w cd
              (λ _ w1, ∀ f' c', file_is w f' c' → file_is w1 f' c') Hcd)
    as (pg & w1 & Hfetch & Hkeep).
  - unfold addressable.
    pose proof (N.Div0.div_le_upper_bound (N.of_nat r)
                  (DiskBasedColumn.records_per_page_ c) (N.of_nat r)). nia.
  - intros page w2 _ _ _ Hk. exact Hk.
  - rewrite Hfetch in Hget_. by injection Hget_ as _ <-.
Qed.

Lemma schema_type_elem (schema : Schema) (name : string) (ty : DataType) :
  NoDup schema.*1 → schema_type schema name = Some ty ↔ (name, ty) ∈ schema.
Proof. intros Hnd. unfold schema_type. symmetry. by apply elem_of_list_to_map. Qed.

Lemma schema_functional (schema : Schema) (name : string) (ty ty' : DataType) :
  NoDup schema.*1 → (name, ty) ∈ schema → (name, ty') ∈ schema → ty = ty'.
Proof.
  intros Hnd H1%(schema_type_elem _ _ _ Hnd) H2%(schema_type_elem _ _ _ Hnd).
  congruence.
Qed.

Lemma columns_hold_ext (tb : t) (w : World) (schema : Schema)
    (rows_of rows_of' : string → list Row) :
  (∀ name, name ∈ schema.*1 → rows_of name = rows_of' name) →
  columns_hold tb w schema rows_of → columns_hold tb w schema rows_of'.
Proof.
  intros Hext [Hdom Hcols]. split; [done|]. intros name ty Hin.
  destruct (Hcols name ty Hin) as (c & Hc & Hof & Hholds).
  exists c. split; [done|]. split; [done|].
  rewrite <- Hext; [done|]. apply list_elem_of_fmap. by exists (name, ty).
Qed.

Lemma index_entries_snoc (vs : list Value) (v : Value) :
  index_entries [] 0 (vs ++ [v])
  = index_step v (N.of_nat (length vs)) (index_entries [] 0 vs).
Proof. rewrite index_entries_app. cbn [index_entries]. by rewrite N.add_0_l. Qed.

Lemma length_index_entries_le (vs : list Value) :
  ∀ (es : list (Value * RecordId)) (first : N),
    (length (index_entries es first vs) ≤ length es + length vs)%nat.
Proof.
  induction vs as [|v vs IH]; intros es first; cbn [index_entries length]; [lia|].
  specialize (IH (index_step v first es) (first + 1)).
  pose proof (length_index_step v first es). lia.
Qed.

End table_rows.

Section table_inserts.
Import DiskBasedTable.

Lemma default_value_typed (ty : DataType) : has_type ty (default_value ty).
Proof. destruct ty; cbn; try done; lia. Qed.

(** The loop of [insertRow]: the columns still to do hold the old rows, the
    others the old rows and the new one. *)
Lemma insertRow_loop_holds (fuel : nat) (schema : Schema) (rows : list Row)
    (row : Row) :
  (0 < fuel)%nat → NoDup schema.*1 → row_typed schema row →
  strings_fit schema (S (length rows)) →
  N.of_nat (length rows) < 2 ^ 51 →
  ∀ (todo : Schema) (tb : t) (w : World),
    (∀ x, x ∈ todo → x ∈ schema) → NoDup todo.*1 →
    columns_hold tb w schema
      (λ name, if decide (name ∈ todo.*1) then rows else rows ++ [row]) →
    next_page_id w + 3 * N.of_nat (length todo) < 2 ^ 51 →
    returns (insertRow_loop fuel todo.*1 tb row) w
      (λ tb' w',
         columns_hold tb' w' schema (λ _, rows ++ [row])
         ∧ column_order_ tb' = column_order_ tb
         ∧ row_count_ tb' = row_count_ tb
         ∧ table_path_ tb' = table_path_ tb
         ∧ name_ tb' = name_ tb
         ∧ next_page_id w ≤ next_page_id w'
         ∧ next_page_id w' ≤ next_page_id w + 3 * N.of_nat (length todo)
         ∧ ∀ f' cf, ¬ table_file (table_path_ tb) schema f' →
                    file_is w f' cf → file_is w' f' cf).
Proof.
  intros Hfuel Hnd Hrow Hstr Hlen.
  induction todo as [|[n ty] todo IH]; intros tb w Hsub Hndt Hcols Hnp.
  { apply returns_ret.
    split; [|repeat (split; [first [done|cbn [length]; lia]|]); done].
    eapply columns_hold_ext; [|exact Hcols]. intros name _. cbn.
    rewrite decide_False; [done|]. apply not_elem_of_nil. }
  cbn [fmap list_fmap fst insertRow_loop length] in *.
  apply list.NoDup_cons in Hndt as [Hfresh Hndt].
  assert ((n, ty) ∈ schema) as Hin by (apply Hsub; left).
  pose proof Hcols as [Hdom Hall].
  destruct (Hall n ty Hin) as (c & Hc & Hof & Hholds).
  rewrite decide_True in Hholds by left.
  rewrite Hc. pose proof Hof as (Hty & Hdata & Hidx).
  unfold DiskBasedColumn.getType. rewrite Hty.
  change (match row !! n with Some v => v | None => default_value ty end)
    with (cell ty row n).
  set (vs := column_values ty n rows) in *.
  assert (length vs = length rows) as Hvs by (unfold vs, column_values; by rewrite length_fmap).
  pose proof (length_index_entries_le vs [] 0) as Hes. cbn [length] in Hes.
  assert (leaf_capacity_ok :
            (DiskBasedColumn.type_ c = STRING → S (length vs) ≤ 15)%nat).
  { intros Hs. rewrite Hvs. apply (Hstr n). by rewrite <- Hs, Hty. }
  destruct (append_holds fuel c w vs (index_entries [] 0 vs) (cell ty row n))
    as ([r c1] & w1 & Hrun & Hpost); try done; try lia.
  { rewrite Hty. by apply Hrow. }
  { apply leaf_fits. destruct (decide (DiskBasedColumn.type_ c = STRING)) as [Hs|Hs].
    - rewrite Hs. cbn. specialize (leaf_capacity_ok Hs). lia.
    - destruct (DiskBasedColumn.type_ c); cbn; try done; lia. }
  { intros Hroom. apply leaf_fits.
    destruct (decide (DiskBasedColumn.type_ c = STRING)) as [Hs|Hs].
    - rewrite Hs. cbn. specialize (leaf_capacity_ok Hs). lia.
    - destruct (DiskBasedColumn.type_ c); cbn; try done; lia. }
  destruct Hpost as (_ & Hholds1 & Hnp1 & _ & Hty1 & _ & _ & Hframe).
  cbn [fst snd] in *.
  destruct (append_fields _ _ _ _ _ _ _ Hrun) as (_ & _ & _ & _ & Hfile1 & _).
  pose proof (append_index_name _ _ _ _ _ _ _ Hrun) as Hiname1.
  apply returns_bind. exists (r, c1), w1. split; [exact Hrun|]. cbn [snd].
  eapply returns_mono.
  { apply (IH (set_column tb n c1) w1); [by intros x Hx; apply Hsub; right|done| |lia].
    split.
    - intros name. cbn [set_column columns_]. rewrite lookup_insert.
      case_decide as Hname; [|apply Hdom].
      intros _. subst name. apply list_elem_of_fmap. by exists (n, ty).
    - intros name ty' Hin'. cbn [set_column columns_ table_path_].
      destruct (decide (name = n)) as [->|Hname].
      + rewrite (schema_functional schema n ty' ty Hnd Hin' Hin).
        exists c1. rewrite lookup_insert_eq. split; [done|]. split.
        { split; [by rewrite Hty1|]. split; [by rewrite Hfile1|by rewrite Hiname1]. }
        rewrite decide_False by done.
        unfold column_values. rewrite fmap_app. cbn [fmap list_fmap].
        fold (column_values ty n rows). fold vs.
        rewrite index_entries_snoc. exact Hholds1.
      + destruct (Hall name ty' Hin') as (c2 & Hc2 & Hof2 & Hholds2).
        exists c2. rewrite lookup_insert_ne by done. split; [done|]. split; [done|].
        destruct (column_files_apart (table_path_ tb) n name ty ty' c c2)
          as (Hdd & Hdi & Hid & Hii); [done..|].
        assert ((if decide (name ∈ todo.*1) then rows else rows ++ [row])
                = (if decide (name ∈ n :: todo.*1) then rows else rows ++ [row]))
          as ->.
        { destruct (decide (name ∈ todo.*1)) as [Ht|Ht].
          - rewrite decide_True; [done|]. by right.
          - rewrite decide_False; [done|]. intros [?|?]%elem_of_cons; done. }
        eapply column_holds_frame; [exact Hholds2|lia| |].
        * intros cf. by apply Hframe.
        * intros cf. by apply Hframe. }
  intros tb' w' (Hcols' & Hco & Hrc & Hpath & Hname & Hlo & Hhi & Hkeep).
  cbn beta.
  split; [done|]. cbn [set_column column_order_ row_count_ table_path_ name_] in *.
  repeat (split; [done|]). split; [lia|]. split; [lia|].
  intros f' cf Hf' Hcf. apply Hkeep; [done|]. apply Hframe; [| |done].
  - intros ->. apply Hf'. exists n, ty. split; [done|]. by left.
  - intros ->. apply Hf'. exists n, ty. split; [done|]. by right.
Qed.

(** One [insertRow]: the table holds one row more. *)
Lemma insertRow_holds (fuel : nat) (schema : Schema) (rows : list Row)
    (row : Row) (tb : t) (w : World) :
  (0 < fuel)%nat → table_holds tb w schema rows → row_typed schema row →
  strings_fit schema (S (length rows)) →
  N.of_nat (length rows) + 1 < 2 ^ 51 →
  next_page_id w + 3 * N.of_nat (length schema) < 2 ^ 51 →
  returns (insertRow fuel tb row) w
    (λ tb' w',
       table_holds tb' w' schema (rows ++ [row])
       ∧ table_path_ tb' = table_path_ tb
       ∧ name_ tb' = name_ tb
       ∧ next_page_id w ≤ next_page_id w'
       ∧ next_page_id w' ≤ next_page_id w + 3 * N.of_nat (length schema)
       ∧ ∀ f' cf, ¬ table_file (table_path_ tb) schema f' →
                  file_is w f' cf → file_is w' f' cf).
Proof.
  intros Hfuel (Horder & Hnd & Hrc & Hcols) Hrow Hstr Hlen Hnp.
  unfold insertRow. rewrite Horder. apply returns_bind.
  eapply returns_mono.
  { apply (insertRow_loop_holds fuel schema rows row); try done; try lia.
    eapply columns_hold_ext; [|exact Hcols]. intros name Hname. cbn.
    by rewrite decide_True. }
  intros tb' w' (Hcols' & Hco & Hrc' & Hpath & Hname & Hlo & Hhi & Hkeep).
  cbn beta. apply returns_ret. cbn [column_order_ row_count_ table_path_ name_].
  split; [|done]. split; [by rewrite Hco|]. split; [done|]. split.
  - cbn [row_count_]. rewrite Hrc', Hrc, length_app. cbn [length]. unfold wrap64.
    rewrite N.mod_small; [lia|].
    change (2 ^ 64) with 18446744073709551616.
    change (2 ^ 51) with 2251799813685248 in Hlen. lia.
  - destruct Hcols' as [Hdom Hall]. split; [done|]. exact Hall.
Qed.

End table_inserts.

Section table_setup.
Import DiskBasedTable.

Lemma run_table_ops_app (fuel : nat) (ops1 ops2 : list table_op) :
  ∀ (tb : t) (w : World),
    run_table_ops fuel tb (ops1 ++ ops2) w
    = bind (run_table_ops fuel tb ops1) (λ tb', run_table_ops fuel tb' ops2) w.
Proof.
  induction ops1 as [|op ops1 IH]; intros tb w; [done|].
  cbn [app run_table_ops]. unfold bind.
  destruct (run_table_op fuel tb op w) as [[tb1 w1]|e]; [|done].
  rewrite IH. done.
Qed.

Lemma table_holds_keep (tb : t) (w w' : World) (schema : Schema)
    (rows : list Row) :
  table_holds tb w schema rows →
  next_page_id w ≤ next_page_id w' →
  (∀ f' c', file_is w f' c' → file_is w' f' c') →
  table_holds tb w' schema rows.
Proof.
  intros (Horder & Hnd & Hrc & Hdom & Hall) Hnp Hkeep.
  repeat (split; [done|]). intros name ty Hin.
  destruct (Hall name ty Hin) as (c & Hc & Hof & Hholds).
  exists c. split; [done|]. split; [done|].
  eapply column_holds_frame; [exact Hholds|done|..]; intros cf; apply Hkeep.
Qed.

(** The [addColumn] calls on a table without rows create the columns and
    leave the world as it is. *)
Lemma add_columns_hold (fuel : nat) (path : string) (w : World) :
  ∀ (post pre : Schema) (tb : t),
    NoDup (pre ++ post).*1 →
    table_ready path (pre ++ post) w →
    table_holds tb w pre [] → table_path_ tb = path →
    ∃ tb', run_table_ops fuel tb (add_columns post) w = Ret (tb', w)
           ∧ table_holds tb' w (pre ++ post) []
           ∧ table_path_ tb' = path.
Proof.
  induction post as [|[n ty] post IH]; intros pre tb Hnd Hready Hholds Hpath.
  { exists tb. rewrite app_nil_r. done. }
  destruct Hholds as (Horder & Hndpre & Hrc & Hdom & Hall).
  assert (n ∉ pre.*1) as Hfresh.
  { rewrite fmap_app in Hnd. apply list.NoDup_app in Hnd as (_ & Hnot & _).
    intros Hin. apply (Hnot n Hin). cbn. left. }
  assert (columns_ tb !! n = None) as Hnone.
  { destruct (columns_ tb !! n) as [c|] eqn:E; [|done].
    exfalso. apply Hfresh, Hdom. by eexists. }
  set (tb1 := {| name_ := name_ tb; table_path_ := table_path_ tb;
                 columns_ := <[n := DiskBasedColumn.create
                                      (table_path_ tb +:+ "/" +:+ n) ty]> (columns_ tb);
                 column_order_ := column_order_ tb ++ [n];
                 row_count_ := row_count_ tb |}).
  assert (addColumn fuel tb n ty w = Ret (tb1, w)) as Hadd.
  { unfold addColumn, tb1. rewrite Hnone, Hrc. cbn [length].
    change (N.to_nat (N.of_nat 0)) with 0%nat. reflexivity. }
  destruct (IH (pre ++ [(n, ty)]) tb1) as (tb' & Hrun & Hholds' & Hpath').
  - by rewrite <- app_assoc.
  - by rewrite <- app_assoc.
  - split; [|split; [|split; [done|split]]].
    + cbn. by rewrite Horder, fmap_app.
    + replace (pre ++ (n, ty) :: post) with ((pre ++ [(n, ty)]) ++ post) in Hnd
        by (by rewrite <- app_assoc).
      rewrite fmap_app in Hnd. by apply list.NoDup_app in Hnd as [Hnd _].
    + intros name. cbn. rewrite lookup_insert. case_decide as Hname.
      * intros _. subst name. rewrite fmap_app. set_solver.
      * intros Hsome%Hdom. rewrite fmap_app. set_solver.
    + intros name ty' [Hin|Hin%list_elem_of_singleton]%elem_of_app.
      * destruct (Hall name ty' Hin) as (c & Hc & Hof & Hc').
        exists c. cbn. rewrite lookup_insert_ne; [done|].
        intros <-. apply Hfresh, list_elem_of_fmap. by exists (n, ty').
      * injection Hin as -> ->. eexists. cbn. rewrite lookup_insert_eq.
        split; [done|]. split; [done|].
        apply column_ready_holds. rewrite Hpath.
        apply (Hready n ty). set_solver.
  - done.
  - exists tb'. split; [|split; [by rewrite <- app_assoc in Hholds'|done]].
    cbn [add_columns fmap list_fmap run_table_ops run_table_op fst snd].
    unfold bind. rewrite Hadd. exact Hrun.
Qed.

Lemma table_holds_create (path : string) (w : World) :
  table_holds (create path) w [] [].
Proof.
  split; [done|]. split; [constructor|]. split; [done|]. split.
  - intros name [c Hc]. cbn in Hc. by rewrite lookup_empty in Hc.
  - intros name ty Hin. by apply elem_of_nil in Hin.
Qed.

(** The [insertRow] calls, one after the other. *)
Lemma insert_rows_hold (fuel : nat) (schema : Schema) :
  (0 < fuel)%nat →
  ∀ (new rows : list Row) (tb : t) (w : World),
    table_holds tb w schema rows →
    Forall (row_typed schema) new →
    strings_fit schema (length rows + length new) →
    N.of_nat (length rows + length new) < 2 ^ 51 →
    next_page_id w + 3 * N.of_nat (length schema) * N.of_nat (length new) < 2 ^ 51 →
    returns (run_table_ops fuel tb (insert_rows new)) w
      (λ tb' w',
         table_holds tb' w' schema (rows ++ new)
         ∧ table_path_ tb' = table_path_ tb
         ∧ next_page_id w'
           ≤ next_page_id w + 3 * N.of_nat (length schema) * N.of_nat (length new)
         ∧ next_page_id w ≤ next_page_id w'
         ∧ ∀ f' cf, ¬ table_file (table_path_ tb) schema f' →
                    file_is w f' cf → file_is w' f' cf).
Proof.
  intros Hfuel. induction new as [|row new IH];
    intros rows tb w Hholds Htyped Hstr Hlen Hnp.
  { apply returns_ret. rewrite app_nil_r. split; [done|]. split; [done|].
    split; [lia|]. split; [lia|]. done. }
  apply list.Forall_cons in Htyped as [Hrow Htyped]. cbn [length] in *.
  cbn [insert_rows fmap list_fmap run_table_ops run_table_op].
  apply returns_bind. eapply returns_mono.
  { apply (insertRow_holds fuel schema rows row tb w); try done; try lia; try nia.
    intros name Hname. specialize (Hstr name Hname). lia. }
  intros tb1 w1 (Hholds1 & Hpath1 & _ & Hlo1 & Hhi1 & Hkeep1). cbn beta.
  eapply returns_mono.
  { apply (IH (rows ++ [row]) tb1 w1); try done;
      rewrite ?length_app; cbn [length]; try lia; try nia.
    intros name Hname. specialize (Hstr name Hname). lia. }
  intros tb' w' (Hholds' & Hpath' & Hhi' & Hlo' & Hkeep'). cbn beta.
  rewrite <- app_assoc in Hholds'. split; [done|]. split; [congruence|].
  split; [nia|]. split; [lia|].
  intros f' cf Hf' Hcf. apply Hkeep'; [by rewrite Hpath1|]. by apply Hkeep1.
Qed.

End table_setup.

Section table_selects.
Import DiskBasedTable.

(** One result row: every selected name that is a column is read at the
    record id; the other names are skipped. *)
Lemma build_row_holds (tb : t) (schema : Schema) (rows : list Row) (rid : nat)
    (row : Row) :
  rows !! rid = Some row → N.of_nat rid < 2 ^ 51 →
  ∀ (cols : list string) (w : World) (acc : Row),
    table_holds tb w schema rows →
    returns (build_row tb cols (N.of_nat rid) acc) w
      (λ m w',
         m = foldl (λ (m : gmap string Value) name,
                      match schema_type schema name with
                      | Some type => <[name := as_stored (cell type row name)]> m
                      | None => m
                      end) acc cols
         ∧ next_page_id w' = next_page_id w
         ∧ ∀ f' c', file_is w f' c' → file_is w' f' c').
Proof.
  intros Hrow Hrid. induction cols as [|name cols IH]; intros w acc Hholds.
  { by apply returns_ret. }
  cbn [build_row foldl]. unfold getColumn.
  pose proof Hholds as (Horder & Hnd & Hrc & Hdom & Hall).
  destruct (schema_type schema name) as [ty|] eqn:Hty.
  - apply schema_type_elem in Hty; [|done].
    destruct (Hall name ty Hty) as (c & -> & Hof & Hc).
    apply returns_bind. eapply returns_mono.
    { apply (get_keeps c w _ _ rid (cell ty row name) Hc); [|done].
      unfold column_values. by rewrite list_lookup_fmap, Hrow. }
    intros v w1 (-> & Hnp1 & Hkeep1). cbn beta.
    eapply returns_mono.
    { apply IH. eapply table_holds_keep; [done|lia|done]. }
    intros m w' (-> & Hnp' & Hkeep'). split; [done|]. split; [congruence|].
    intros f' c' Hf. by apply Hkeep', Hkeep1.
  - assert (columns_ tb !! name = None) as ->.
    { destruct (columns_ tb !! name) as [c|] eqn:E; [|done]. exfalso.
      unfold schema_type in Hty. apply not_elem_of_list_to_map in Hty.
      apply Hty, Hdom. by eexists. }
    by apply IH.
Qed.

Lemma build_rows_hold (tb : t) (schema : Schema) (rows : list Row)
    (cols : list string) :
  N.of_nat (length rows) ≤ 2 ^ 51 →
  ∀ (rids : list RecordId) (w : World),
    table_holds tb w schema rows →
    Forall (λ rid, rid < N.of_nat (length rows)) rids →
    returns (build_rows tb cols rids) w
      (λ result w',
         result = (λ rid, selected_row schema cols (row_at rows rid)) <$> rids
         ∧ next_page_id w' = next_page_id w
         ∧ ∀ f' c', file_is w f' c' → file_is w' f' c').
Proof.
  intros Hlen. induction rids as [|rid rids IH]; intros w Hholds Hrids.
  { by apply returns_ret. }
  apply list.Forall_cons in Hrids as [Hrid Hrids].
  cbn [build_rows fmap list_fmap].
  destruct (lookup_lt_is_Some_2 rows (N.to_nat rid)) as [row Hrow]; [lia|].
  apply returns_bind. rewrite <- (N2Nat.id rid) at 1.
  eapply returns_mono.
  { apply (build_row_holds tb schema rows (N.to_nat rid) row Hrow); [lia|done]. }
  intros m w1 (-> & Hnp1 & Hkeep1). cbn beta.
  apply returns_bind. eapply returns_mono.
  { apply IH; [|done]. eapply table_holds_keep; [done|lia|done]. }
  intros rest w' (-> & Hnp' & Hkeep'). cbn beta. apply returns_ret.
  split; [|split; [congruence|]].
  - unfold selected_row, row_at. by rewrite Hrow.
  - intros f' c' Hf. by apply Hkeep', Hkeep1.
Qed.

Lemma records_equal_bound (v : Value) (vs : list Value) (r : RecordId) :
  r ∈ records_equal v vs → r < N.of_nat (length vs).
Proof.
  unfold records_equal.
  intros ([x r'] & -> & [_ Hin]%list_elem_of_filter)%list_elem_of_fmap.
  apply elem_of_zip_r in Hin. cbn.
  apply list_elem_of_fmap in Hin as (i & -> & Hi%elem_of_seq). lia.
Qed.

Lemma table_after_inserts (fuel : nat) (path : string) (schema : Schema)
    (rows : list Row) (w0 : World) :
  (0 < fuel)%nat →
  NoDup schema.*1 →
  table_ready path schema w0 →
  Forall (row_typed schema) rows →
  strings_fit schema (length rows) →
  N.of_nat (length rows) < 2 ^ 51 →
  next_page_id w0 + 3 * N.of_nat (length schema) * N.of_nat (length rows) < 2 ^ 51 →
  ∃ tb w,
    run_table_ops fuel (create path) (add_columns schema ++ insert_rows rows) w0
    = Ret (tb, w)
    ∧ table_holds tb w schema rows
    ∧ next_page_id w < 2 ^ 51.
Proof.
  intros Hfuel Hnd Hready Htyped Hstr Hlen Hnp.
  destruct (add_columns_hold fuel path w0 schema [] (create path))
    as (tb0 & Hrun0 & Hholds0 & Hpath0); try done.
  { apply table_holds_create. }
  destruct (insert_rows_hold fuel schema Hfuel rows [] tb0 w0)
    as (tb & w & Hrun & Hholds & _ & Hhi & _); try done.
  exists tb, w. split; [|split; [done|lia]].
  rewrite run_table_ops_app. unfold bind. by rewrite Hrun0.
Qed.

(** A select on a table that holds [rows]. *)
Lemma indexedSelect_holds (fuel : nat) (tb : t) (w : World) (schema : Schema)
    (rows : list Row) (index_column : string) (index_type : DataType)
    (key : Value) (selected_columns : list string) :
  (0 < fuel)%nat →
  table_holds tb w schema rows →
  next_page_id w < 2 ^ 51 →
  (index_column, index_type) ∈ schema →
  Forall (λ row, comparable index_type (cell index_type row index_column)) rows →
  (length rows ≤ 127)%nat →
  ∃ w',
    indexedSelect fuel tb index_column key selected_columns w
    = Ret ((λ rid, selected_row schema (projection schema selected_columns)
                     (row_at rows rid))
             <$> reverse (records_equal key
                            (column_values index_type index_column rows)),
           w').
Proof.
  intros Hfuel Hholds Hnpw Hin Hcomp H127.
  pose proof Hholds as (Horder & _ & Hrc & Hdom & Hall).
  destruct (Hall index_column index_type Hin) as (c & Hc & Hof & Hcol).
  unfold indexedSelect, getColumn. rewrite Hc.
  set (vs := column_values index_type index_column rows) in *.
  assert (length vs = length rows) as Hvs
    by (unfold vs, column_values; by rewrite length_fmap).
  pose proof Hcol as (_ & _ & _ & _ & _ & Hidx & _).
  destruct (search_holds fuel (DiskBasedColumn.index_ c) w _ key Hfuel Hidx)
    as (rs & w1 & Hfind & Hrs & Hnp1 & Hkeep1); [lia|].
  assert (rs = reverse (records_equal key vs)) as ->.
  { rewrite Hrs.
    apply (entries_of_index_entries index_type vs [] [] (entries_of_nil index_type)).
    - unfold vs, column_values. by apply Forall_fmap.
    - cbn. lia. }
  destruct (build_rows_hold tb schema rows (projection schema selected_columns))
    with (rids := reverse (records_equal key vs)) (w := w1)
    as (result & w' & Hbuild & -> & _); [lia| | |].
  { eapply table_holds_keep; [done|lia|done]. }
  { apply Forall_forall. intros r Hr. rewrite elem_of_reverse in Hr.
    apply records_equal_bound in Hr. lia. }
  exists w'. unfold bind, DiskBasedColumn.findRecords. rewrite Hfind.
  rewrite Horder. exact Hbuild.
Qed.

(** X18. A table built by [addColumn] calls on a new table followed by
    [insertRow] calls (at most as many as the root leaf of the index column
    holds) answers [indexedSelect]: the result has one row per inserted row
    whose cell in the index column is the key, the latest row first, and
    each result row gives, for every selected name that is a column, the
    value inserted for it, or the default of the column's type where the
    inserted row had no entry. Selected names that are not columns are
    skipped; with no selected names all columns are listed. *)
Theorem indexed_select_returns_the_matching_rows :
  ∀ (fuel : nat) (path : string) (schema : Schema) (rows : list Row)
    (w0 : World) (index_column : string) (index_type : DataType) (key : Value)
    (selected_columns : list string),
    (0 < fuel)%nat →
    NoDup schema.*1 →
    table_ready path schema w0 →
    Forall (row_typed schema) rows →
    strings_fit schema (length rows) →
    next_page_id w0 + 3 * N.of_nat (length schema) * N.of_nat (length rows)
      < 2 ^ 51 →
    (index_column, index_type) ∈ schema →
    Forall (λ row, comparable index_type (cell index_type row index_column)) rows →
    (length rows ≤ leaf_capacity index_type)%nat →
    ∃ tb w,
      run_table_ops fuel (create path) (add_columns schema ++ insert_rows rows) w0
      = Ret (tb, w)
      ∧ getRowCount tb = N.of_nat (length rows)
      ∧ ∃ w',
          indexedSelect fuel tb index_column key selected_columns w
          = Ret ((λ rid, selected_row schema (projection schema selected_columns)
                           (row_at rows rid))
                   <$> reverse (records_equal key
                                  (column_values index_type index_column rows)),
                 w').
Proof.
  intros fuel path schema rows w0 index_column ity key selected_columns
    Hfuel Hnd Hready Htyped Hstr Hnp Hin Hcomp Hcap.
  destruct (capacity_string ity _ Hcap) as [H127 _].
  destruct (table_after_inserts fuel path schema rows w0)
    as (tb & w & Hrun & Hholds & Hnpw); try done; [lia|].
  exists tb, w. split; [done|]. split; [apply Hholds|].
  by apply (indexedSelect_holds fuel tb w schema rows index_column ity).
Qed.

(** A range select on a table that holds [rows]. *)
Lemma rangeSelect_holds (fuel : nat) (tb : t) (w : World) (schema : Schema)
    (rows : list Row) (index_column : string) (index_type : DataType)
    (lo hi : Value) (selected_columns : list string) :
  (1 < fuel)%nat →
  table_holds tb w schema rows →
  next_page_id w < 2 ^ 51 →
  (index_column, index_type) ∈ schema →
  Forall (λ row, comparable index_type (cell index_type row index_column)) rows →
  (length rows ≤ 127)%nat →
  comparable index_type lo → comparable index_type hi →
  ∃ found w',
    rangeSelect fuel tb index_column lo hi selected_columns w
    = Ret ((λ rid, selected_row schema (projection schema selected_columns)
                     (row_at rows rid)) <$> found.*2, w')
    ∧ StronglySorted entry_before found
    ∧ NoDup found.*2
    ∧ ∀ v r, (v, r) ∈ found
             ↔ column_values index_type index_column rows !! N.to_nat r = Some v
               ∧ in_range lo hi v = true.
Proof.
  intros Hfuel Hholds Hnpw Hin Hcomp H127 Hlo Hhi.
  pose proof Hholds as (Horder & _ & Hrc & Hdom & Hall).
  destruct (Hall index_column index_type Hin) as (c & Hc & Hof & Hcol).
  unfold rangeSelect, getColumn. rewrite Hc.
  set (vs := column_values index_type index_column rows) in *.
  assert (length vs = length rows) as Hvs
    by (unfold vs, column_values; by rewrite length_fmap).
  pose proof Hcol as (_ & _ & _ & _ & _ & Hidx & _).
  destruct (rangeSearch_holds fuel (DiskBasedColumn.index_ c) w _ lo hi Hfuel Hidx)
    as (rs & w1 & Hfind & Hrs & Hnp1 & Hkeep1); [lia|].
  destruct (entries_of_index_entries index_type vs [] []
              (entries_of_nil index_type))
    as (Hkeys & Hsorted & Hnd & _ & Hmem & _).
  { unfold vs, column_values. by apply Forall_fmap. }
  { cbn. lia. }
  cbn [app length] in *. change (N.of_nat 0) with 0 in *.
  set (es := index_entries [] 0 vs) in *.
  set (found := filter (λ e, in_range lo hi e.1 = true) es).
  assert (rs = found.*2) as ->.
  { rewrite Hrs. by apply (range_scan_filter index_type). }
  assert (∀ v r, (v, r) ∈ found ↔ vs !! N.to_nat r = Some v ∧ in_range lo hi v = true)
    as Hfound.
  { intros v r. unfold found. rewrite list_elem_of_filter, Hmem. cbn. tauto. }
  destruct (build_rows_hold tb schema rows (projection schema selected_columns))
    with (rids := found.*2) (w := w1)
    as (result & w' & Hbuild & -> & _); [lia| | |].
  { eapply table_holds_keep; [done|lia|done]. }
  { apply Forall_forall. intros r ([v r'] & -> & Hr%Hfound)%list_elem_of_fmap.
    destruct Hr as [Hr _]. apply lookup_lt_Some in Hr. cbn. lia. }
  exists found, w'. split; [|split; [|split; [|done]]].
  - unfold bind, DiskBasedColumn.findRecordsInRange. rewrite Hfind.
    rewrite Horder. exact Hbuild.
  - by apply StronglySorted_filter.
  - apply (sublist_NoDup _ es.*2); [exact Hnd|].
    apply (fmap_sublist snd), sublist_filter.
Qed.

(** X19. On such a table [rangeSelect] returns one row per inserted row
    whose cell in the index column lies in [lo, hi], in ascending order of
    these cells and, among equal cells, from the latest row to the earliest;
    each result row is built as by [indexedSelect]. *)
Theorem range_select_returns_the_rows_in_range :
  ∀ (fuel : nat) (path : string) (schema : Schema) (rows : list Row)
    (w0 : World) (index_column : string) (index_type : DataType) (lo hi : Value)
    (selected_columns : list string),
    (1 < fuel)%nat →
    NoDup schema.*1 →
    table_ready path schema w0 →
    Forall (row_typed schema) rows →
    strings_fit schema (length rows) →
    next_page_id w0 + 3 * N.of_nat (length schema) * N.of_nat (length rows)
      < 2 ^ 51 →
    (index_column, index_type) ∈ schema →
    Forall (λ row, comparable index_type (cell index_type row index_column)) rows →
    (length rows ≤ leaf_capacity index_type)%nat →
    comparable index_type lo → comparable index_type hi →
    ∃ tb w,
      run_table_ops fuel (create path) (add_columns schema ++ insert_rows rows) w0
      = Ret (tb, w)
      ∧ ∃ found w',
          rangeSelect fuel tb index_column lo hi selected_columns w
          = Ret ((λ rid, selected_row schema (projection schema selected_columns)
                           (row_at rows rid)) <$> found.*2, w')
          ∧ StronglySorted entry_before found
          ∧ NoDup found.*2
          ∧ ∀ v r, (v, r) ∈ found
                   ↔ column_values index_type index_column rows !! N.to_nat r
                     = Some v
                     ∧ in_range lo hi v = true.
Proof.
  intros fuel path schema rows w0 index_column ity lo hi selected_columns
    Hfuel Hnd Hready Htyped Hstr Hnp Hin Hcomp Hcap Hlo Hhi.
  destruct (capacity_string ity _ Hcap) as [H127 _].
  destruct (table_after_inserts fuel path schema rows w0)
    as (tb & w & Hrun & Hholds & Hnpw); try done; [lia|lia|].
  exists tb, w. split; [done|].
  by apply (rangeSelect_holds fuel tb w schema rows index_column ity).
Qed.

Lemma staff_schema_NoDup : NoDup staff_schema.*1.
Proof.
  cbn. repeat (apply list.NoDup_cons; split; [set_solver|]). apply NoDup_nil_2.
Qed.

Lemma staff_rows_typed : Forall (row_typed staff_schema) staff_rows.
Proof.
  repeat (apply Forall_cons_2; [|]); [..|apply Forall_nil_2];
    intros name type Hin; unfold staff_schema in Hin;
    repeat (apply elem_of_cons in Hin as [[= -> ->]|Hin]);
    try (by apply elem_of_nil in Hin); vm_compute; try done; split; congruence.
Qed.

Lemma staff_rows_comparable :
  Forall (λ row, comparable INT32 (cell INT32 row "dept")) staff_rows.
Proof.
  repeat (apply Forall_cons_2; [apply comparable_int32; lia|]). apply Forall_nil_2.
Qed.

Lemma staff_strings_fit : strings_fit staff_schema (length staff_rows).
Proof. intros name _. cbn. lia. Qed.

Lemma indexed_select_returns_the_matching_rows_witness :
  ∃ tb w,
    run_table_ops 1 (create "staff")
      (add_columns staff_schema ++ insert_rows staff_rows) new_World
    = Ret (tb, w)
    ∧ getRowCount tb = 3
    ∧ ∃ w',
        indexedSelect 1 tb "dept" (VInt32 5) ["name"; "salary"; "id"] w
        = Ret ([ {[ "name" := VString "Eve"; "id" := VInt32 3 ]};
                 {[ "name" := VString "Ann"; "id" := VInt32 1 ]} ], w').
Proof.
  apply (indexed_select_returns_the_matching_rows 1 "staff" staff_schema
           staff_rows new_World "dept" INT32 (VInt32 5) ["name"; "salary"; "id"]).
  - lia.
  - apply staff_schema_NoDup.
  - intros name type _. apply new_World_ready.
  - apply staff_rows_typed.
  - apply staff_strings_fit.
  - vm_compute. reflexivity.
  - set_solver.
  - apply staff_rows_comparable.
  - simpl. lia.
Defined.

Lemma range_select_returns_the_rows_in_range_witness :
  ∃ tb w,
    run_table_ops 2 (create "staff")
      (add_columns staff_schema ++ insert_rows staff_rows) new_World
    = Ret (tb, w)
    ∧ ∃ found w',
        rangeSelect 2 tb "dept" (VInt32 4) (VInt32 9) [] w
        = Ret ((λ rid, selected_row staff_schema (projection staff_schema [])
                         (row_at staff_rows rid)) <$> found.*2, w')
        ∧ StronglySorted entry_before found
        ∧ NoDup found.*2
        ∧ ∀ v r, (v, r) ∈ found
                 ↔ column_values INT32 "dept" staff_rows !! N.to_nat r = Some v
                   ∧ in_range (VInt32 4) (VInt32 9) v = true.
Proof.
  apply (range_select_returns_the_rows_in_range 2 "staff" staff_schema
           staff_rows new_World "dept" INT32 (VInt32 4) (VInt32 9) []).
  - lia.
  - apply staff_schema_NoDup.
  - intros name type _. apply new_World_ready.
  - apply staff_rows_typed.
  - apply staff_strings_fit.
  - vm_compute. reflexivity.
  - set_solver.
  - apply staff_rows_comparable.
  - simpl. lia.
  - apply comparable_int32. lia.
  - apply comparable_int32. lia.
Defined.

End table_selects.


(** ** Tables: bulk inserts and added columns *)

Section table_bulk.
Import DiskBasedTable.

Lemma flush_all_keeps (w : World) :
  returns (with_pool BufferPoolManager.flushAllPages) w
    (λ _ w', next_page_id w' = next_page_id w
             ∧ ∀ f c, file_is w f c → file_is w' f c).
Proof.
  eexists tt, _. split; [reflexivity|]. split; [done|].
  intros f c [Hok Hview].
  destruct (flushAllPages_same_views (buffer_manager w) f Hok) as [Hok' Hsame].
  split; [done|]. intros p Hp. cbn. rewrite Hsame by done. by apply Hview.
Qed.

(** [bulkInsert]: the rows are inserted one after the other; the flushes
    in between change no file's pages. *)
Lemma bulkInsert_holds (fuel : nat) (schema : Schema) :
  (0 < fuel)%nat →
  ∀ (new rows : list Row) (tb : t) (w : World),
    table_holds tb w schema rows →
    Forall (row_typed schema) new →
    strings_fit schema (length rows + length new) →
    N.of_nat (length rows + length new) < 2 ^ 51 →
    next_page_id w + 3 * N.of_nat (length schema) * N.of_nat (length new) < 2 ^ 51 →
    returns (bulkInsert fuel tb new) w
      (λ tb' w',
         table_holds tb' w' schema (rows ++ new)
         ∧ table_path_ tb' = table_path_ tb
         ∧ next_page_id w'
           ≤ next_page_id w + 3 * N.of_nat (length schema) * N.of_nat (length new)
         ∧ next_page_id w ≤ next_page_id w'
         ∧ ∀ f' cf, ¬ table_file (table_path_ tb) schema f' →
                    file_is w f' cf → file_is w' f' cf).
Proof.
  intros Hfuel. induction new as [|row new IH];
    intros rows tb w Hholds Htyped Hstr Hlen Hnp.
  { apply returns_ret. rewrite app_nil_r. split; [done|]. split; [done|].
    split; [lia|]. split; [lia|]. done. }
  apply list.Forall_cons in Htyped as [Hrow Htyped]. cbn [length] in *.
  cbn [bulkInsert].
  apply returns_bind. eapply returns_mono.
  { apply (insertRow_holds fuel schema rows row tb w); try done; try lia; try nia.
    intros name Hname. specialize (Hstr name Hname). lia. }
  intros tb1 w1 (Hholds1 & Hpath1 & _ & Hlo1 & Hhi1 & Hkeep1). cbn beta.
  apply returns_bind.
  assert (returns (if row_count_ tb1 mod 1000 =? 0
                   then with_pool BufferPoolManager.flushAllPages
                   else ret tt) w1
            (λ _ w2, next_page_id w2 = next_page_id w1
                     ∧ ∀ f c, file_is w1 f c → file_is w2 f c)) as Hflush.
  { destruct (row_count_ tb1 mod 1000 =? 0); [apply flush_all_keeps|].
    by apply returns_ret. }
  eapply returns_mono; [exact Hflush|].
  intros [] w2 (Hnp2 & Hkeep2). cbn beta.
  eapply returns_mono.
  { apply (IH (rows ++ [row]) tb1 w2); try done;
      rewrite ?length_app; cbn [length]; try lia; try nia.
    - eapply table_holds_keep; [done|lia|done].
    - intros name Hname. specialize (Hstr name Hname). lia. }
  intros tb' w' (Hholds' & Hpath' & Hhi' & Hlo' & Hkeep'). cbn beta.
  rewrite <- app_assoc in Hholds'. split; [done|]. split; [congruence|].
  split; [nia|]. split; [lia|].
  intros f' cf Hf' Hcf. apply Hkeep'; [by rewrite Hpath1|].
  by apply Hkeep2, Hkeep1.
Qed.

(** Reading a cell of a table that holds [rows]. *)
Lemma table_holds_get (tb : t) (w : World) (schema : Schema) (rows : list Row)
    (name : string) (type : DataType) (rid : nat) (row : Row) :
  table_holds tb w schema rows →
  N.of_nat (length rows) < 2 ^ 51 →
  (name, type) ∈ schema → rows !! rid = Some row →
  ∃ c w', getColumn tb name = Some c
          ∧ DiskBasedColumn.size c = N.of_nat (length rows)
          ∧ DiskBasedColumn.get c (N.of_nat rid) w
            = Ret (as_stored (cell type row name), w').
Proof.
  intros (_ & _ & _ & _ & Hall) Hlen Hin Hrow.
  destruct (Hall name type Hin) as (c & Hc & _ & Hholds).
  pose proof Hholds as (_ & _ & _ & Htot & _).
  unfold column_values in Htot. rewrite length_fmap in Htot.
  destruct (get_holds c w _ _ rid (cell type row name) Hholds)
    as (v & w' & Hget & -> & _).
  { unfold column_values. by rewrite list_lookup_fmap, Hrow. }
  { apply lookup_lt_Some in Hrow. lia. }
  by exists c, w'.
Qed.

(** X20. [bulkInsert] on a new table with the declared columns stores
    every row: the row count is the number of rows, and reading any column
    at the position of a row returns the stored form of the row's entry for
    that column, or of the type's default where the row has no entry. This
    holds across the flushes of the buffer pool that [bulkInsert] makes. *)
Theorem bulk_insert_stores_every_row :
  ∀ (fuel : nat) (path : string) (schema : Schema) (rows : list Row)
    (w0 : World),
    (0 < fuel)%nat →
    NoDup schema.*1 →
    table_ready path schema w0 →
    Forall (row_typed schema) rows →
    strings_fit schema (length rows) →
    N.of_nat (length rows) < 2 ^ 51 →
    next_page_id w0 + 3 * N.of_nat (length schema) * N.of_nat (length rows)
      < 2 ^ 51 →
    ∃ tb w,
      run_table_ops fuel (create path) (add_columns schema ++ [BulkInsert rows]) w0
      = Ret (tb, w)
      ∧ getRowCount tb = N.of_nat (length rows)
      ∧ getColumnNames tb = schema.*1
      ∧ ∀ name type (rid : nat) row,
          (name, type) ∈ schema → rows !! rid = Some row →
          ∃ c w', getColumn tb name = Some c
                  ∧ DiskBasedColumn.size c = N.of_nat (length rows)
                  ∧ DiskBasedColumn.get c (N.of_nat rid) w
                    = Ret (as_stored (cell type row name), w').
Proof.
  intros fuel path schema rows w0 Hfuel Hnd Hready Htyped Hstr Hlen Hnp.
  destruct (add_columns_hold fuel path w0 schema [] (create path))
    as (tb0 & Hrun0 & Hholds0 & Hpath0); try done.
  { apply table_holds_create. }
  destruct (bulkInsert_holds fuel schema Hfuel rows [] tb0 w0)
    as (tb & w & Hrun & Hholds & _); try done.
  cbn [app] in Hholds.
  exists tb, w. split; [|split; [apply Hholds|split; [apply Hholds|]]].
  - rewrite run_table_ops_app. unfold bind. rewrite Hrun0.
    cbn [run_table_ops run_table_op]. unfold bind. by rewrite Hrun.
  - intros name type rid row Hin Hrow.
    by apply (table_holds_get tb w schema rows).
Qed.

Lemma bulk_insert_stores_every_row_witness :
  ∃ tb w,
    run_table_ops 1 (create "staff")
      (add_columns staff_schema ++ [BulkInsert staff_rows]) new_World
    = Ret (tb, w)
    ∧ getRowCount tb = 3
    ∧ getColumnNames tb = ["id"; "name"; "dept"]
    ∧ ∀ name type (rid : nat) row,
        (name, type) ∈ staff_schema → staff_rows !! rid = Some row →
        ∃ c w', getColumn tb name = Some c
                ∧ DiskBasedColumn.size c = 3
                ∧ DiskBasedColumn.get c (N.of_nat rid) w
                  = Ret (as_stored (cell type row name), w').
Proof.
  apply (bulk_insert_stores_every_row 1 "staff" staff_schema staff_rows new_World).
  - lia.
  - apply staff_schema_NoDup.
  - intros name type _. apply new_World_ready.
  - apply staff_rows_typed.
  - apply staff_strings_fit.
  - vm_compute. reflexivity.
  - vm_compute. reflexivity.
Defined.

End table_bulk.

Section table_columns.
Import DiskBasedTable.

Lemma append_defaults_run (fuel : nat) (type : DataType) (count : nat) :
  ∀ (c : DiskBasedColumn.t) (w : World),
    append_defaults fuel count c type w
    = run_appends fuel c (replicate count (default_value type)) w.
Proof.
  induction count as [|count IH]; intros c w; [done|].
  cbn [append_defaults replicate run_appends]. unfold bind.
  destruct (DiskBasedColumn.append fuel c (default_value type) w)
    as [[rc w1]|e]; [|done].
  apply IH.
Qed.

(** The columns of a table can be created again where the table's are. *)
Lemma table_holds_ready (tb : t) (w : World) (schema : Schema)
    (rows : list Row) :
  table_holds tb w schema rows → table_ready (table_path_ tb) schema w.
Proof.
  intros (_ & _ & _ & _ & Hall) name type Hin.
  destruct (Hall name type Hin) as (c & _ & (_ & Hdata & Hidx) & Hholds).
  destruct Hholds as (_ & _ & _ & _ & _ & Hindex & cd & Hcd & _).
  destruct Hindex as (_ & _ & _ & _ & Hroot & ci & Hci & Hfresh & _).
  split; [lia|]. split.
  - exists cd. by rewrite <- Hdata.
  - exists ci. by rewrite <- Hidx.
Qed.

Lemma column_ready_keep (name : string) (w w' : World) :
  column_ready name w →
  next_page_id w ≤ next_page_id w' →
  (∀ cf, file_is w (name +:+ ".data") cf → file_is w' (name +:+ ".data") cf) →
  (∀ cf, file_is w (name +:+ ".idx") cf → file_is w' (name +:+ ".idx") cf) →
  column_ready name w'.
Proof.
  intros (Hnp & [cd Hcd] & ci & Hci & Hfresh) Hle Hd Hi.
  split; [lia|]. split; [exists cd; by apply Hd|].
  exists ci. split; [by apply Hi|]. intros p Hp. apply Hfresh. lia.
Qed.

Lemma cell_delete (type : DataType) (row : Row) (n name : string) :
  name ≠ n → cell type (delete n row) name = cell type row name.
Proof. intros Hne. unfold cell. by rewrite lookup_delete_ne. Qed.

Lemma cell_deleted (type : DataType) (row : Row) (n : string) :
  cell type (delete n row) n = default_value type.
Proof. unfold cell. by rewrite lookup_delete_eq. Qed.

(** [addColumn] on a table that holds rows: the new column is filled with
    the default of its type, one for each row, and the other columns stay. *)
Lemma addColumn_holds (fuel : nat) (tb : t) (w : World) (schema : Schema)
    (rows : list Row) (n : string) (ty : DataType) :
  (0 < fuel)%nat →
  table_holds tb w schema rows →
  n ∉ schema.*1 →
  column_ready (table_path_ tb +:+ "/" +:+ n) w →
  (ty = STRING → length rows ≤ 15)%nat →
  N.of_nat (length rows) < 2 ^ 51 →
  next_page_id w + 3 * N.of_nat (length rows) < 2 ^ 51 →
  returns (addColumn fuel tb n ty) w
    (λ tb' w',
       table_holds tb' w' (schema ++ [(n, ty)]) (delete n <$> rows)
       ∧ table_path_ tb' = table_path_ tb
       ∧ next_page_id w ≤ next_page_id w'
       ∧ next_page_id w' ≤ next_page_id w + 3 * N.of_nat (length rows)).
Proof.
  intros Hfuel (Horder & Hnd & Hrc & Hdom & Hall) Hfresh Hready Hstr Hlen Hnp.
  assert (columns_ tb !! n = None) as Hnone.
  { destruct (columns_ tb !! n) as [c|] eqn:E; [|done].
    exfalso. apply Hfresh, Hdom. by eexists. }
  unfold addColumn. rewrite Hnone, Hrc, Nat2N.id.
  set (column := DiskBasedColumn.create (table_path_ tb +:+ "/" +:+ n) ty).
  set (vs := replicate (length rows) (default_value ty)).
  destruct (run_appends_holds fuel vs Hfuel column w [] [])
    as (c' & w' & Hrun & Hholds & Htype & _ & Hhi & _ & Hlo & Hfile & Hiname
        & Hframe).
  { by apply column_ready_holds. }
  { apply Forall_replicate. apply default_value_typed. }
  { done. }
  { intros Hs. unfold vs. rewrite length_replicate. cbn. by apply Hstr. }
  { unfold vs. rewrite length_replicate. cbn. lia. }
  { unfold vs. rewrite length_replicate. lia. }
  unfold vs in Hhi. rewrite length_replicate in Hhi.
  apply returns_bind. exists c', w'.
  split; [by rewrite append_defaults_run|].
  apply returns_ret. cbn [app length] in Hholds. change (N.of_nat 0) with 0 in Hholds.
  cbn [table_path_]. split; [|done].
  split; [|split; [|split; [|split]]].
  - cbn. by rewrite Horder, fmap_app.
  - rewrite fmap_app. apply list.NoDup_app. split; [done|]. split.
    + intros x Hx [->|[]%elem_of_nil]%elem_of_cons. done.
    + apply list.NoDup_cons. split; [apply not_elem_of_nil|apply NoDup_nil_2].
  - cbn. by rewrite length_fmap.
  - intros name. cbn. rewrite lookup_insert. case_decide as Hname.
    + intros _. subst name. rewrite fmap_app. set_solver.
    + intros Hsome%Hdom. rewrite fmap_app. set_solver.
  - intros name ty' [Hin|Hin%list_elem_of_singleton]%elem_of_app.
    + assert (name ≠ n) as Hne.
      { intros ->. apply Hfresh, list_elem_of_fmap. by exists (n, ty'). }
      destruct (Hall name ty' Hin) as (c & Hc & Hof & Hc').
      exists c. cbn [columns_ table_path_]. rewrite lookup_insert_ne by done.
      split; [done|]. split; [done|].
      assert (column_values ty' name (delete n <$> rows)
              = column_values ty' name rows) as ->.
      { unfold column_values. rewrite <- list_fmap_compose.
        apply list_fmap_ext. intros i row _. cbn. by apply cell_delete. }
      destruct (column_files_apart (table_path_ tb) n name ty ty' column c)
        as (Hdd & Hdi & Hid & Hii); [done|done|done|].
      eapply column_holds_frame; [exact Hc'|lia| |];
        intros cf; by apply Hframe.
    + injection Hin as -> ->. exists c'. cbn [columns_ table_path_].
      rewrite lookup_insert_eq. split; [done|]. split.
      { split; [done|]. split; [by rewrite Hfile|by rewrite Hiname]. }
      assert (column_values ty n (delete n <$> rows) = vs) as ->; [|done].
      unfold column_values, vs. rewrite <- list_fmap_compose.
      clear. induction rows as [|row rows IH]; [done|].
      cbn [fmap list_fmap length replicate]. rewrite <- IH. f_equal.
      cbn. apply cell_deleted.
Qed.

(** X21. [addColumn] on a table that already has rows fills the new column
    with the default of its type: afterwards every row reads back as it was
    inserted in the old columns and as the default in the new one, also
    when the inserted row had an entry under the new column's name. *)
Theorem added_column_reads_as_default :
  ∀ (fuel : nat) (path : string) (schema : Schema) (rows : list Row)
    (w0 : World) (n : string) (ty : DataType),
    (0 < fuel)%nat →
    NoDup (schema ++ [(n, ty)]).*1 →
    table_ready path (schema ++ [(n, ty)]) w0 →
    Forall (row_typed schema) rows →
    strings_fit (schema ++ [(n, ty)]) (length rows) →
    next_page_id w0
      + 3 * N.of_nat (length (schema ++ [(n, ty)])) * N.of_nat (length rows)
      < 2 ^ 51 →
    ∃ tb w,
      run_table_ops fuel (create path)
        (add_columns schema ++ insert_rows rows ++ [AddColumn n ty]) w0
      = Ret (tb, w)
      ∧ getRowCount tb = N.of_nat (length rows)
      ∧ getColumnNames tb = schema.*1 ++ [n]
      ∧ ∀ name type (rid : nat) row,
          (name, type) ∈ schema ++ [(n, ty)] → rows !! rid = Some row →
          ∃ c w', getColumn tb name = Some c
                  ∧ DiskBasedColumn.size c = N.of_nat (length rows)
                  ∧ DiskBasedColumn.get c (N.of_nat rid) w
                    = Ret (as_stored (cell type (delete n row) name), w').
Proof.
  intros fuel path schema rows w0 n ty Hfuel Hnd Hready Htyped Hstr Hnp.
  rewrite length_app in Hnp. cbn [length] in Hnp.
  assert (N.of_nat (length rows) < 2 ^ 51) as Hlen by nia.
  assert (NoDup schema.*1 ∧ n ∉ schema.*1) as [Hnds Hfresh].
  { rewrite fmap_app in Hnd. apply list.NoDup_app in Hnd as (Hnds & Hnot & _).
    split; [done|]. intros Hin. apply (Hnot n Hin). cbn. left. }
  destruct (add_columns_hold fuel path w0 schema [] (create path))
    as (tb0 & Hrun0 & Hholds0 & Hpath0); try done.
  { intros name type Hin. apply (Hready name type). set_solver. }
  { apply table_holds_create. }
  destruct (insert_rows_hold fuel schema Hfuel rows [] tb0 w0)
    as (tb1 & w1 & Hrun1 & Hholds1 & Hpath1 & Hhi1 & Hlo1 & Hkeep1); try done.
  { intros name Hname. apply (Hstr name). set_solver. }
  { nia. }
  cbn [app] in Hholds1.
  assert (¬ table_file path schema ((path +:+ "/" +:+ n) +:+ ".data")
          ∧ ¬ table_file path schema ((path +:+ "/" +:+ n) +:+ ".idx"))
    as [Hnd1 Hnd2].
  { split; intros (name & type & Hin & [H|H]).
    - apply string_app_inj_r in H. apply string_app_inj, string_app_inj in H.
      subst name. apply Hfresh, list_elem_of_fmap. by exists (n, type).
    - by apply data_is_not_idx in H.
    - symmetry in H. by apply data_is_not_idx in H.
    - apply string_app_inj_r in H. apply string_app_inj, string_app_inj in H.
      subst name. apply Hfresh, list_elem_of_fmap. by exists (n, type). }
  destruct (addColumn_holds fuel tb1 w1 schema rows n ty)
    as (tb & w & Hrun & Hholds & _); try done.
  { rewrite Hpath1, Hpath0.
    eapply column_ready_keep; [apply (Hready n ty); set_solver|lia| |];
      intros cf; apply Hkeep1; by rewrite Hpath0. }
  { intros ->. apply (Hstr n). set_solver. }
  { nia. }
  exists tb, w. split; [|split; [|split]].
  - rewrite run_table_ops_app. unfold bind. rewrite Hrun0.
    rewrite run_table_ops_app. unfold bind. rewrite Hrun1.
    cbn [run_table_ops run_table_op]. unfold bind. by rewrite Hrun.
  - destruct Hholds as (_ & _ & Hrc & _). unfold getRowCount.
    by rewrite Hrc, length_fmap.
  - destruct Hholds as (Hco & _). unfold getColumnNames.
    by rewrite Hco, fmap_app.
  - intros name type rid row Hin Hrow.
    destruct (table_holds_get tb w (schema ++ [(n, ty)]) (delete n <$> rows)
                name type rid (delete n row))
      as (c & w' & Hc & Hsize & Hget); try done.
    { by rewrite length_fmap. }
    { by rewrite list_lookup_fmap, Hrow. }
    exists c, w'. rewrite length_fmap in Hsize. done.
Qed.

Lemma added_column_reads_as_default_witness :
  ∃ tb w,
    run_table_ops 1 (create "staff")
      (add_columns staff_schema ++ insert_rows staff_rows
       ++ [AddColumn "salary" DOUBLE]) new_World
    = Ret (tb, w)
    ∧ getRowCount tb = 3
    ∧ getColumnNames tb = ["id"; "name"; "dept"; "salary"]
    ∧ ∀ name type (rid : nat) row,
        (name, type) ∈ staff_schema ++ [("salary", DOUBLE)] →
        staff_rows !! rid = Some row →
        ∃ c w', getColumn tb name = Some c
                ∧ DiskBasedColumn.size c = 3
                ∧ DiskBasedColumn.get c (N.of_nat rid) w
                  = Ret (as_stored (cell type (delete "salary" row) name), w').
Proof.
  apply (added_column_reads_as_default 1 "staff" staff_schema staff_rows
           new_World "salary" DOUBLE).
  - lia.
  - cbn. repeat (apply list.NoDup_cons; split; [set_solver|]). apply NoDup_nil_2.
  - intros name type _. apply new_World_ready.
  - apply staff_rows_typed.
  - intros name _. cbn. lia.
  - vm_compute. reflexivity.
Defined.

End table_columns.

(** ** The database *)

Section database.
Import LargeScaleDatabase.

Lemma get_same (c c' : DiskBasedColumn.t) (record_id : RecordId) (w : World) :
  DiskBasedColumn.data_file_ c' = DiskBasedColumn.data_file_ c →
  DiskBasedColumn.type_ c' = DiskBasedColumn.type_ c →
  DiskBasedColumn.records_per_page_ c' = DiskBasedColumn.records_per_page_ c →
  DiskBasedColumn.get c' record_id w = DiskBasedColumn.get c record_id w.
Proof.
  intros Hfile Htype Hrpp.
  unfold DiskBasedColumn.get, DiskBasedColumn.readValueFromPage.
  by rewrite Hfile, Htype, Hrpp.
Qed.

Lemma run_database_ops_cons (fuel : nat) (db : t) (op : database_op)
    (ops : list database_op) (w : World) :
  run_database_ops fuel db (op :: ops) w
  = match run_database_op fuel db op w with
    | Ret (db', w') => run_database_ops fuel db' ops w'
    | Fail e => Fail e
    end.
Proof. reflexivity. Qed.

Lemma createTable_new (fuel : nat) (db : t) (table_name : string) (w : World) :
  tables_ db !! table_name = None →
  run_database_op fuel db (CreateTable table_name) w
  = Ret ({| name_ := name_ db; db_path_ := db_path_ db;
            tables_ := <[table_name := DiskBasedTable.create table_name]>
                         (tables_ db) |}, w).
Proof.
  intros Hnone. cbn [run_database_op]. unfold createTable. by rewrite Hnone.
Qed.

Lemma on_table_run (fuel : nat) (db : t) (table_name : string)
    (ops : list table_op) (tb tb' : DiskBasedTable.t) (w w' : World) :
  tables_ db !! table_name = Some tb →
  run_table_ops fuel tb ops w = Ret (tb', w') →
  run_database_op fuel db (OnTable table_name ops) w
  = Ret ({| name_ := name_ db; db_path_ := db_path_ db;
            tables_ := <[table_name := tb']> (tables_ db) |}, w').
Proof.
  intros Htb Hrun. cbn [run_database_op]. unfold getTable. rewrite Htb.
  unfold bind. by rewrite Hrun.
Qed.

(** X22. [dropTable] removes the table from the database but not its
    records from the files: when a table of the same name is created again
    with the same columns, it has no rows, and yet reading any of its
    columns at the position of a row of the dropped table returns what that
    row stored there. *)
Theorem dropped_table_leaves_its_records :
  ∀ (fuel : nat) (name db_path table_name : string) (schema : Schema)
    (rows : list Row) (w0 : World),
    (0 < fuel)%nat →
    NoDup schema.*1 →
    table_ready table_name schema w0 →
    Forall (row_typed schema) rows →
    strings_fit schema (length rows) →
    N.of_nat (length rows) < 2 ^ 51 →
    next_page_id w0 + 3 * N.of_nat (length schema) * N.of_nat (length rows)
      < 2 ^ 51 →
    ∃ db w tb,
      run_database_ops fuel (create name db_path)
        [CreateTable table_name;
         OnTable table_name (add_columns schema ++ insert_rows rows);
         DropTable table_name;
         CreateTable table_name;
         OnTable table_name (add_columns schema)] w0
      = Ret (db, w)
      ∧ getTable db table_name = Some tb
      ∧ DiskBasedTable.getRowCount tb = 0
      ∧ ∀ column_name type (rid : nat) row,
          (column_name, type) ∈ schema → rows !! rid = Some row →
          ∃ c w', DiskBasedTable.getColumn tb column_name = Some c
                  ∧ DiskBasedColumn.size c = 0
                  ∧ DiskBasedColumn.get c (N.of_nat rid) w
                    = Ret (as_stored (cell type row column_name), w').
Proof.
  intros fuel name db_path T schema rows w0 Hfuel Hnd Hready Htyped Hstr Hlen Hnp.
  destruct (table_after_inserts fuel T schema rows w0)
    as (tb1 & w & Hrun1 & Hholds1 & Hnpw); try done.
  assert (DiskBasedTable.table_path_ tb1 = T) as Hpath1.
  { destruct (add_columns_hold fuel T w0 schema [] (DiskBasedTable.create T))
      as (tb0 & Hrun0 & Hholds0 & Hpath0); try done.
    { apply table_holds_create. }
    rewrite run_table_ops_app in Hrun1. unfold bind in Hrun1.
    rewrite Hrun0 in Hrun1.
    destruct (insert_rows_hold fuel schema Hfuel rows [] tb0 w0)
      as (tb & w' & Hrun & _ & Hpath & _); try done.
    rewrite Hrun in Hrun1. injection Hrun1 as <- <-. congruence. }
  destruct (add_columns_hold fuel T w schema [] (DiskBasedTable.create T))
    as (tb2 & Hrun2 & Hholds2 & Hpath2); try done.
  { rewrite <- Hpath1. by eapply table_holds_ready. }
  { apply table_holds_create. }
  eexists _, w, tb2. split; [|split; [|split]].
  - rewrite run_database_ops_cons, createTable_new by apply lookup_empty.
    rewrite run_database_ops_cons.
    erewrite on_table_run; [|apply lookup_insert_eq|exact Hrun1].
    rewrite run_database_ops_cons. cbn [run_database_op ret dropTable tables_].
    rewrite run_database_ops_cons, createTable_new by apply lookup_delete_eq.
    rewrite run_database_ops_cons.
    erewrite on_table_run; [|apply lookup_insert_eq|exact Hrun2].
    reflexivity.
  - unfold getTable. cbn [tables_]. apply lookup_insert_eq.
  - apply Hholds2.
  - intros cn type rid row Hin Hrow.
    destruct (table_holds_get tb1 w schema rows cn type rid row)
      as (c1 & w' & Hc1 & _ & Hget); try done.
    destruct Hholds1 as (_ & _ & _ & _ & Hall1).
    destruct Hholds2 as (_ & _ & _ & _ & Hall2).
    destruct (Hall1 cn type Hin) as (c1' & Hc1' & (Hty1 & Hd1 & _) & Hh1).
    unfold DiskBasedTable.getColumn in Hc1.
    rewrite Hc1' in Hc1. injection Hc1 as ->.
    destruct (Hall2 cn type Hin) as (c2 & Hc2 & (Hty2 & Hd2 & _) & Hh2).
    exists c2, w'. split; [done|]. split; [apply Hh2|].
    rewrite <- Hget. apply get_same.
    + rewrite Hd1, Hd2. congruence.
    + congruence.
    + destruct Hh1 as (Hl1 & _). destruct Hh2 as (Hl2 & _).
      unfold column_layout in *. congruence.
Qed.

Lemma dropped_table_leaves_its_records_witness :
  ∃ db w tb,
    run_database_ops 1 (create "db" "./db")
      [CreateTable "staff";
       OnTable "staff" (add_columns staff_schema ++ insert_rows staff_rows);
       DropTable "staff";
       CreateTable "staff";
       OnTable "staff" (add_columns staff_schema)] new_World
    = Ret (db, w)
    ∧ getTable db "staff" = Some tb
    ∧ DiskBasedTable.getRowCount tb = 0
    ∧ ∀ column_name type (rid : nat) row,
        (column_name, type) ∈ staff_schema → staff_rows !! rid = Some row →
        ∃ c w', DiskBasedTable.getColumn tb column_name = Some c
                ∧ DiskBasedColumn.size c = 0
                ∧ DiskBasedColumn.get c (N.of_nat rid) w
                  = Ret (as_stored (cell type row column_name), w').
Proof.
  apply (dropped_table_leaves_its_records 1 "db" "./db" "staff" staff_schema
           staff_rows new_World).
  - lia.
  - apply staff_schema_NoDup.
  - intros name type _. apply new_World_ready.
  - apply staff_rows_typed.
  - apply staff_strings_fit.
  - vm_compute. reflexivity.
  - vm_compute. reflexivity.
Defined.

Lemma table_holds_keep_files (tb : DiskBasedTable.t) (w w' : World)
    (schema : Schema) (rows : list Row) :
  table_holds tb w schema rows →
  next_page_id w ≤ next_page_id w' →
  (∀ f' cf, table_file (DiskBasedTable.table_path_ tb) schema f' →
            file_is w f' cf → file_is w' f' cf) →
  table_holds tb w' schema rows.
Proof.
  intros (Horder & Hnd & Hrc & Hdom & Hall) Hnp Hkeep.
  repeat (split; [done|]). intros name ty Hin.
  destruct (Hall name ty Hin) as (c & Hc & Hof & Hholds).
  exists c. split; [done|]. split; [done|].
  destruct Hof as (_ & Hdata & Hidx).
  eapply column_holds_frame; [exact Hholds|done|..]; intros cf; apply Hkeep;
    exists name, ty; (split; [done|]); [left|right]; done.
Qed.

Lemma table_ready_keep (path : string) (schema : Schema) (w w' : World) :
  table_ready path schema w →
  next_page_id w ≤ next_page_id w' →
  (∀ f' cf, table_file path schema f' → file_is w f' cf → file_is w' f' cf) →
  table_ready path schema w'.
Proof.
  intros Hready Hnp Hkeep name type Hin.
  eapply column_ready_keep; [by eapply Hready|done|..]; intros cf; apply Hkeep;
    exists name, type; (split; [done|]); [left|right]; done.
Qed.

(** X23. Two tables of one database, whose columns use different files,
    do not disturb each other, though they share the buffer pool and the
    page counter: with inserts into the one between inserts into the
    other, each table reads back its own rows. *)
Theorem tables_of_a_database_keep_apart :
  ∀ (fuel : nat) (name db_path : string) (table_a table_b : string)
    (schema_a schema_b : Schema) (rows_a more_a rows_b : list Row) (w0 : World),
    (0 < fuel)%nat →
    table_a ≠ table_b →
    (∀ f, table_file table_a schema_a f → ¬ table_file table_b schema_b f) →
    NoDup schema_a.*1 → NoDup schema_b.*1 →
    table_ready table_a schema_a w0 → table_ready table_b schema_b w0 →
    Forall (row_typed schema_a) (rows_a ++ more_a) →
    Forall (row_typed schema_b) rows_b →
    strings_fit schema_a (length (rows_a ++ more_a)) →
    strings_fit schema_b (length rows_b) →
    N.of_nat (length (rows_a ++ more_a)) < 2 ^ 51 →
    N.of_nat (length rows_b) < 2 ^ 51 →
    next_page_id w0
      + 3 * N.of_nat (length schema_a) * N.of_nat (length (rows_a ++ more_a))
      + 3 * N.of_nat (length schema_b) * N.of_nat (length rows_b) < 2 ^ 51 →
    ∃ db w tb_a tb_b,
      run_database_ops fuel (create name db_path)
        [CreateTable table_a;
         CreateTable table_b;
         OnTable table_a (add_columns schema_a ++ insert_rows rows_a);
         OnTable table_b (add_columns schema_b ++ insert_rows rows_b);
         OnTable table_a (insert_rows more_a)] w0
      = Ret (db, w)
      ∧ getTable db table_a = Some tb_a
      ∧ getTable db table_b = Some tb_b
      ∧ DiskBasedTable.getRowCount tb_a = N.of_nat (length (rows_a ++ more_a))
      ∧ DiskBasedTable.getRowCount tb_b = N.of_nat (length rows_b)
      ∧ (∀ column_name type (rid : nat) row,
           (column_name, type) ∈ schema_a →
           (rows_a ++ more_a) !! rid = Some row →
           ∃ c w', DiskBasedTable.getColumn tb_a column_name = Some c
                   ∧ DiskBasedColumn.get c (N.of_nat rid) w
                     = Ret (as_stored (cell type row column_name), w'))
      ∧ (∀ column_name type (rid : nat) row,
           (column_name, type) ∈ schema_b → rows_b !! rid = Some row →
           ∃ c w', DiskBasedTable.getColumn tb_b column_name = Some c
                   ∧ DiskBasedColumn.get c (N.of_nat rid) w
                     = Ret (as_stored (cell type row column_name), w')).
Proof.
  intros fuel name db_path A B sa sb ra ma rb w0 Hfuel Hab Hapart Hnda Hndb
    Hreadya Hreadyb Htypeda Htypedb Hstra Hstrb Hlena Hlenb Hnp.
  rewrite length_app in *.
  apply Forall_app in Htypeda as [Htypeda Htypedm].
  (* the first rows of table a *)
  destruct (add_columns_hold fuel A w0 sa [] (DiskBasedTable.create A))
    as (ta0 & Hrun0 & Hholds0 & Hpath0); try done.
  { apply table_holds_create. }
  destruct (insert_rows_hold fuel sa Hfuel ra [] ta0 w0)
    as (ta1 & w1 & Hrun1 & Hholds1 & Hpath1 & Hhi1 & Hlo1 & Hkeep1); try done.
  { intros n Hn. specialize (Hstra n Hn). cbn [length]. lia. }
  { cbn [length]. lia. }
  { nia. }
  cbn [app] in Hholds1. rewrite Hpath0 in Hpath1, Hkeep1.
  (* table b *)
  destruct (add_columns_hold fuel B w1 sb [] (DiskBasedTable.create B))
    as (tb0 & Hrun2 & Hholds2 & Hpath2); try done.
  { eapply table_ready_keep; [exact Hreadyb|done|].
    intros f' cf Hf'. apply Hkeep1. intros Hfa. by apply (Hapart f'). }
  { apply table_holds_create. }
  destruct (insert_rows_hold fuel sb Hfuel rb [] tb0 w1)
    as (tb1 & w2 & Hrun3 & Hholds3 & Hpath3 & Hhi3 & Hlo3 & Hkeep3); try done.
  { nia. }
  cbn [app] in Hholds3. rewrite Hpath2 in Hpath3, Hkeep3.
  (* more rows of table a *)
  destruct (insert_rows_hold fuel sa Hfuel ma ra ta1 w2)
    as (ta2 & w3 & Hrun4 & Hholds4 & Hpath4 & Hhi4 & Hlo4 & Hkeep4); try done.
  { eapply table_holds_keep_files; [exact Hholds1|done|].
    rewrite Hpath1. intros f' cf Hf'. apply Hkeep3. by apply Hapart. }
  { rewrite Nat2N.inj_add, N.mul_add_distr_l in Hnp. lia. }
  rewrite Hpath1 in Hpath4, Hkeep4.
  assert (table_holds tb1 w3 sb rb) as Hholds5.
  { eapply table_holds_keep_files; [exact Hholds3|done|].
    rewrite Hpath3. intros f' cf Hf'. apply Hkeep4.
    intros Hfa. by apply (Hapart f'). }
  eexists _, w3, ta2, tb1. split; [|split; [|split; [|split; [|split; [|split]]]]].
  - rewrite run_database_ops_cons, createTable_new by apply lookup_empty.
    rewrite run_database_ops_cons, createTable_new
      by (cbn [tables_]; rewrite lookup_insert_ne by done; apply lookup_empty).
    rewrite run_database_ops_cons.
    erewrite on_table_run; cycle 1.
    { cbn [tables_]. rewrite lookup_insert_ne by done. apply lookup_insert_eq. }
    { rewrite run_table_ops_app. unfold bind. rewrite Hrun0. exact Hrun1. }
    rewrite run_database_ops_cons.
    erewrite on_table_run; cycle 1.
    { cbn [tables_]. rewrite lookup_insert_ne by done. apply lookup_insert_eq. }
    { rewrite run_table_ops_app. unfold bind. rewrite Hrun2. exact Hrun3. }
    rewrite run_database_ops_cons.
    erewrite on_table_run; cycle 1.
    { cbn [tables_]. rewrite lookup_insert_ne by done. apply lookup_insert_eq. }
    { exact Hrun4. }
    reflexivity.
  - unfold getTable. cbn [tables_]. apply lookup_insert_eq.
  - unfold getTable. cbn [tables_]. rewrite lookup_insert_ne by done.
    apply lookup_insert_eq.
  - destruct Hholds4 as (_ & _ & Hrc & _). unfold DiskBasedTable.getRowCount.
    by rewrite Hrc, length_app.
  - apply Hholds5.
  - intros cn type rid row Hin Hrow.
    destruct (table_holds_get ta2 w3 sa (ra ++ ma) cn type rid row)
      as (c & w' & Hc & _ & Hget); try done.
    { rewrite length_app. lia. }
    by exists c, w'.
  - intros cn type rid row Hin Hrow.
    destruct (table_holds_get tb1 w3 sb rb cn type rid row)
      as (c & w' & Hc & _ & Hget); try done.
    by exists c, w'.
Qed.

Lemma depts_schema_NoDup : NoDup depts_schema.*1.
Proof.
  cbn. repeat (apply list.NoDup_cons; split; [set_solver|]). apply NoDup_nil_2.
Qed.

Lemma depts_rows_typed : Forall (row_typed depts_schema) depts_rows.
Proof.
  repeat (apply Forall_cons_2; [|]); [..|apply Forall_nil_2];
    intros name type Hin; unfold depts_schema in Hin;
    repeat (apply elem_of_cons in Hin as [[= -> ->]|Hin]);
    try (by apply elem_of_nil in Hin); vm_compute; try done; split; congruence.
Qed.

Lemma staff_depts_apart (f : string) :
  table_file "staff" staff_schema f → ¬ table_file "depts" depts_schema f.
Proof.
  intros (n & ty & Hin & Hf) (n' & ty' & Hin' & Hf').
  unfold staff_schema in Hin. unfold depts_schema in Hin'.
  repeat (apply elem_of_cons in Hin as [[= -> ->]|Hin]);
    try (by apply elem_of_nil in Hin);
    repeat (apply elem_of_cons in Hin' as [[= -> ->]|Hin']);
    try (by apply elem_of_nil in Hin');
    destruct Hf as [->| ->]; destruct Hf' as [Hf'|Hf'];
    vm_compute in Hf'; discriminate Hf'.
Qed.

Lemma tables_of_a_database_keep_apart_witness :
  ∃ db w tb_a tb_b,
    run_database_ops 1 (create "db" "./db")
      [CreateTable "staff";
       CreateTable "depts";
       OnTable "staff" (add_columns staff_schema ++ insert_rows staff_rows);
       OnTable "depts" (add_columns depts_schema ++ insert_rows depts_rows);
       OnTable "staff" (insert_rows staff_rows)] new_World
    = Ret (db, w)
    ∧ getTable db "staff" = Some tb_a
    ∧ getTable db "depts" = Some tb_b
    ∧ DiskBasedTable.getRowCount tb_a = 6
    ∧ DiskBasedTable.getRowCount tb_b = 2
    ∧ (∀ column_name type (rid : nat) row,
         (column_name, type) ∈ staff_schema →
         (staff_rows ++ staff_rows) !! rid = Some row →
         ∃ c w', DiskBasedTable.getColumn tb_a column_name = Some c
                 ∧ DiskBasedColumn.get c (N.of_nat rid) w
                   = Ret (as_stored (cell type row column_name), w'))
    ∧ (∀ column_name type (rid : nat) row,
         (column_name, type) ∈ depts_schema → depts_rows !! rid = Some row →
         ∃ c w', DiskBasedTable.getColumn tb_b column_name = Some c
                 ∧ DiskBasedColumn.get c (N.of_nat rid) w
                   = Ret (as_stored (cell type row column_name), w')).
Proof.
  apply (tables_of_a_database_keep_apart 1 "db" "./db" "staff" "depts"
           staff_schema depts_schema staff_rows staff_rows depts_rows new_World).
  - lia.
  - discriminate.
  - apply staff_depts_apart.
  - apply staff_schema_NoDup.
  - apply depts_schema_NoDup.
  - intros name type _. apply new_World_ready.
  - intros name type _. apply new_World_ready.
  - apply Forall_app. split; apply staff_rows_typed.
  - apply depts_rows_typed.
  - intros name _. cbn. lia.
  - intros name _. cbn. lia.
  - vm_compute. reflexivity.
  - vm_compute. reflexivity.
  - vm_compute. reflexivity.
Defined.

End database.


(** ** The index across root splits *)

Section index_window.
Import DiskBasedColumn.

Lemma index_step_shift (b : N) (v : Value) (first : N)
    (es : list (Value * RecordId)) :
  index_step v (b + first) ((λ e, (e.1, b + e.2)) <$> es)
  = (λ e, (e.1, b + e.2)) <$> index_step v first es.
Proof.
  unfold index_step. rewrite length_fmap. case_decide; [|done].
  unfold leaf_insert. rewrite fmap_insert_at. cbn [fst snd].
  rewrite <- list_fmap_compose.
  replace (fst ∘ (λ e : Value * RecordId, (e.1, b + e.2)) <$> es) with es.*1;
    [done|].
  by apply list_fmap_ext.
Qed.

Lemma index_entries_shift (b : N) (vs : list Value) :
  ∀ (es : list (Value * RecordId)) (first : N),
    index_entries ((λ e, (e.1, b + e.2)) <$> es) (b + first) vs
    = (λ e, (e.1, b + e.2)) <$> index_entries es first vs.
Proof.
  induction vs as [|v vs IH]; intros es first; cbn [index_entries]; [done|].
  rewrite index_step_shift, <- N.add_assoc. apply IH.
Qed.

(** 128 appends to an empty root leaf end in an empty root leaf. *)
Lemma index_entries_reset (xs : list Value) (first : N) :
  length xs = 128%nat → index_entries [] first xs = [].
Proof.
  intros Hlen. rewrite <- (take_drop 127 xs), index_entries_app.
  pose proof (length_index_entries (take 127 xs) [] first) as Hfull.
  rewrite length_take, Hlen in Hfull. cbn [length] in Hfull.
  destruct (drop 127 xs) as [|x rest] eqn:Hlast.
  { apply (f_equal length) in Hlast. rewrite length_drop, Hlen in Hlast. done. }
  destruct rest.
  2:{ apply (f_equal length) in Hlast. rewrite length_drop, Hlen in Hlast. done. }
  cbn [index_entries]. unfold index_step. rewrite decide_False; [done|].
  rewrite Hfull by lia. lia.
Qed.

Lemma index_entries_window (k : nat) :
  ∀ (vs : list Value) (first : N),
    (128 * k ≤ length vs)%nat →
    index_entries [] first vs
    = index_entries [] (first + N.of_nat (128 * k)) (drop (128 * k) vs).
Proof.
  induction k as [|k IH]; intros vs first Hlen.
  { cbn. by rewrite N.add_0_r. }
  rewrite <- (take_drop 128 vs) at 1. rewrite index_entries_app.
  rewrite index_entries_reset by (rewrite length_take; lia).
  rewrite length_take, Nat.min_l by lia.
  rewrite (IH (drop 128 vs)) by (rewrite length_drop; lia).
  rewrite drop_drop. f_equal; [lia|]. f_equal. lia.
Qed.

Lemma filter_shift (b : N) (v : Value) (es : list (Value * RecordId)) :
  (filter (λ e, value_eqb e.1 v = true) ((λ e, (e.1, b + e.2)) <$> es)).*2
  = N.add b <$> (filter (λ e, value_eqb e.1 v = true) es).*2.
Proof.
  induction es as [|e es IH]; [done|].
  rewrite fmap_cons, !filter_cons. cbn [fst].
  case_decide; [|done]. rewrite !fmap_cons, IH. done.
Qed.

(** X24. [findRecords] after any number of appends to a column that is
    not of strings: every 128th append splits the root leaf of the index
    and starts an empty one, so the search sees only the records appended
    since the last multiple of 128. It returns exactly those of them whose
    value equals the one searched for, the latest first. *)
Theorem find_records_sees_the_appends_since_the_last_split :
  ∀ (fuel : nat) (name : string) (ty : DataType) (vs : list Value) (w0 : World)
    (v : Value),
    (0 < fuel)%nat →
    column_ready name w0 →
    Forall (comparable ty) vs →
    ty ≠ STRING →
    next_page_id w0 + 3 * N.of_nat (length vs) < 2 ^ 51 →
    ∃ c w w',
      run_appends fuel (create name ty) vs w0 = Ret (c, w)
      ∧ size c = N.of_nat (length vs)
      ∧ findRecords fuel c v w
        = Ret ((λ r, N.of_nat (128 * (length vs / 128)) + r)
                 <$> reverse (records_equal v
                                (drop (128 * (length vs / 128)) vs)),
               w').
Proof.
  intros fuel name ty vs w0 v Hfuel Hready Hcomp Hns Hnp.
  destruct (appends_hold fuel name ty vs w0) as (c & w & Hrun & Hholds & _ & Hnp' & _);
    try done.
  { by apply comparable_has_type. }
  pose proof Hholds as (_ & _ & _ & Hsize & _ & Hidx & _).
  destruct (search_holds fuel (index_ c) w _ v Hfuel Hidx) as (rs & w' & Hfind & -> & _);
    [lia|].
  exists c, w, w'. split; [done|]. split; [done|].
  unfold findRecords. rewrite Hfind. do 2 f_equal.
  set (base := (128 * (length vs / 128))%nat).
  set (tail := drop base vs).
  assert (base ≤ length vs)%nat as Hbase.
  { unfold base. apply Nat.Div0.mul_div_le. }
  assert (length tail ≤ 127)%nat as Htail.
  { unfold tail, base. rewrite length_drop.
    pose proof (Nat.Div0.div_mod (length vs) 128).
    pose proof (Nat.mod_upper_bound (length vs) 128 ltac:(lia)). lia. }
  rewrite (index_entries_window (length vs / 128) vs 0) by done.
  fold base tail. rewrite N.add_0_l.
  pose proof (index_entries_shift (N.of_nat base) tail [] 0) as Hshift.
  cbn [fmap list_fmap] in Hshift. rewrite N.add_0_r in Hshift.
  rewrite Hshift, filter_shift. f_equal.
  apply (entries_of_index_entries ty tail [] [] (entries_of_nil ty)).
  - unfold tail. by apply Forall_drop.
  - cbn [length]. lia.
Qed.

Lemma find_records_sees_the_appends_since_the_last_split_witness :
  ∃ c w w',
    run_appends 1 (create "t/n" INT32) (replicate 130 (VInt32 7)) new_World
    = Ret (c, w)
    ∧ size c = 130
    ∧ findRecords 1 c (VInt32 7) w = Ret ([129; 128], w').
Proof.
  apply (find_records_sees_the_appends_since_the_last_split 1 "t/n" INT32
           (replicate 130 (VInt32 7)) new_World (VInt32 7)).
  - lia.
  - apply new_World_ready.
  - apply Forall_replicate. apply comparable_int32. lia.
  - discriminate.
  - vm_compute. reflexivity.
Defined.

End index_window.

(** ** String columns: the leaf that does not fit its page *)

Section string_overrun.
Import DiskBasedColumn.

Lemma bind_fails {A B} (m : M A) (f : A → M B) (w : World) (e : failure) :
  returns m w (λ a w1, f a w1 = Fail e) → bind m f w = Fail e.
Proof. intros (a & w1 & Hm & Hf). unfold bind. by rewrite Hm. Qed.

Lemma bind_fails_l {A B} (m : M A) (f : A → M B) (w : World) (e : failure) :
  m w = Fail e → bind m f w = Fail e.
Proof. intros Hm. unfold bind. by rewrite Hm. Qed.

Lemma poke_fails (data : list N) (offset : N) (src : list N) (e : failure) :
  poke data offset src = Fail e → e = OutOfRange.
Proof. unfold poke. case_decide; [done|]. by intros [= <-]. Qed.

(** Keys that do not fit between [offset] and the end of the buffer: one
    of the copies runs past the end. *)
Lemma write_keys_overrun (ty : DataType) (ks : list Value) :
  ∀ (data : list N) (offset : N),
    Forall (has_type ty) ks →
    (length data < N.to_nat offset + length ks * value_width ty)%nat →
    (N.to_nat offset ≤ length data)%nat →
    BPlusTreeIndex.write_keys ks data offset ty = Fail OutOfRange.
Proof.
  induction ks as [|k ks IH]; intros data offset Hty Hover Hin;
    cbn [length] in *; [lia|].
  apply list.Forall_cons in Hty as [Hk Hty].
  destruct (value_bytes_typed ty k Hk) as [Hbytes Hwidth].
  cbn [BPlusTreeIndex.write_keys]. unfold BPlusTreeIndex.serializeValue.
  rewrite Hbytes. cbn [obind].
  destruct (poke data offset (enc ty k)) as [data1|e] eqn:Hpoke; cbn [obind].
  - pose proof (poke_length _ _ _ _ Hpoke) as Hlen.
    apply IH; [done|rewrite Hlen; lia|rewrite Hlen].
    unfold poke in Hpoke. case_decide; [lia|done].
  - by rewrite (poke_fails _ _ _ _ Hpoke).
Qed.

Lemma node_bytes_overrun (ty : DataType) (node : BPlusTreeNode) :
  Forall (has_type ty) (keys node) →
  (N.to_nat PAGE_SIZE < 13 + length (keys node) * value_width ty)%nat →
  BPlusTreeIndex.node_bytes ty node = Fail OutOfRange.
Proof.
  intros Hty Hover. unfold BPlusTreeIndex.node_bytes.
  destruct (poke zero_page 0 _) as [d0|e] eqn:H0; cbn [obind];
    [|by rewrite (poke_fails _ _ _ _ H0)].
  destruct (poke d0 1 _) as [d1|e] eqn:H1; cbn [obind];
    [|by rewrite (poke_fails _ _ _ _ H1)].
  destruct (poke d1 5 _) as [d2|e] eqn:H2; cbn [obind];
    [|by rewrite (poke_fails _ _ _ _ H2)].
  assert (length d2 = N.to_nat PAGE_SIZE) as Hlen.
  { rewrite (poke_length _ _ _ _ H2), (poke_length _ _ _ _ H1),
      (poke_length _ _ _ _ H0). apply zero_page_sized. }
  rewrite write_keys_overrun; [done|done|rewrite Hlen..].
  - change (N.to_nat 13) with 13%nat. lia.
  - unfold PAGE_SIZE. lia.
Qed.

(** An append whose key makes the root leaf larger than a page. *)
Lemma append_overrun (fuel : nat) (c : t) (w : World) (vs : list Value)
    (es : list (Value * RecordId)) (v : Value) :
  (0 < fuel)%nat →
  column_holds c w vs es →
  has_type (type_ c) v →
  N.of_nat (length vs) < 2 ^ 51 →
  next_page_id w + 3 < 2 ^ 51 →
  es ≠ [] → (length es < 127)%nat →
  (N.to_nat PAGE_SIZE < 13 + S (length es) * value_width (type_ c))%nat →
  append fuel c v w = Fail OutOfRange.
Proof.
  intros Hfuel (Hlay & Hfiles & Hkty & Htot & Hty & Hidx & cd & Hcd & Hslots)
    Hv Hlen Hnp Hsome Hroom Hover.
  pose proof (records_per_page_pos c Hlay) as Hrpp.
  unfold append. rewrite Htot.
  set (r := N.of_nat (length vs)).
  set (pid := r / records_per_page_ c).
  set (off := r mod records_per_page_ c).
  assert (addressable pid) as Hpid.
  { unfold addressable, pid. pose proof (N.Div0.div_le_upper_bound r
      (records_per_page_ c) r). nia. }
  assert (off < PAGE_SIZE / getRecordSize (type_ c)) as Hoff.
  { rewrite <- Hlay. by apply N.mod_lt, N.neq_0_lt_0. }
  destruct (slot_in_page (type_ c) off Hoff) as [Hin Hwrap].
  destruct (value_bytes_typed (type_ c) v Hv) as [Hbytes Hwidth].
  apply bind_fails. eapply fetch_returns; [done..|].
  intros page w1 Hdata Hres Hnp1 Hkeep1.
  pose proof (file_is_sized w (data_file_ c) cd pid Hcd Hpid) as Hsz.
  assert (∃ bytes, poke (cd pid) (off * getRecordSize (type_ c)) (enc (type_ c) v)
                   = Ret bytes) as [bytes Hpoke].
  { eexists. apply poke_Ret. unfold page_sized in Hsz.
    rewrite Hsz, Hwidth. rewrite record_size_width in *. unfold PAGE_SIZE in *. lia. }
  apply bind_fails. eapply returns_lift.
  { unfold writeValueToPage. rewrite Hbytes, Hdata, Hwrap. cbn [obind]. exact Hpoke. }
  apply bind_fails.
  eapply store_returns; [by apply Hkeep1|done| |by rewrite Hres|].
  { unfold page_sized. rewrite (poke_length _ _ _ _ Hpoke). exact Hsz. }
  intros w2 Hcd2 Hnp2 Honly2.
  assert (index_holds (index_ c) w2 es) as Hidx2.
  { eapply index_holds_transfer; [done|congruence|].
    intros ci Hci. apply Honly2; [done|]. by apply Hkeep1. }
  apply bind_fails_l.
  (* the index: the root leaf takes the key and is serialized *)
  assert (BPlusTreeIndex.root_page_id_ (index_ c) ≠ 0) as Hroot.
  { intros Hz. by apply Hsome, (index_holds_empty (index_ c) w2). }
  destruct (index_holds_root_page (index_ c) w2 es Hidx2) as (ci & Hci & Haddr & Hparse);
    [lia|done|].
  pose proof Hidx2 as (Hmax & Hnorm & _).
  unfold BPlusTreeIndex.insert.
  destruct (N.eqb_spec (BPlusTreeIndex.root_page_id_ (index_ c)) 0) as [|_]; [done|].
  apply bind_fails. apply returns_ret. apply bind_fails_l.
  destruct fuel as [|fuel]; [lia|]. cbn [BPlusTreeIndex.insertInternal].
  apply bind_fails. eapply getNode_returns; [done..|].
  intros w3 Hnp3 Hkeep3. cbn [is_leaf leaf_node].
  set (node1 := BPlusTreeIndex.insertIntoLeaf (leaf_node es.*1 es.*2 0) v r).
  assert (length (keys node1) = S (length es)) as Hkeys.
  { unfold node1, BPlusTreeIndex.insertIntoLeaf. cbn [keys leaf_node].
    by rewrite length_insert_at, length_fmap. }
  assert (length (records node1) = S (length es)) as Hrecs.
  { unfold node1, BPlusTreeIndex.insertIntoLeaf. cbn [keys records leaf_node].
    rewrite decide_True by (by rewrite !length_fmap).
    by rewrite length_insert_at, length_fmap. }
  rewrite Hkeys, Hmax.
  destruct (N.ltb_spec 127 (N.of_nat (S (length es)))) as [|_]; [lia|].
  apply bind_fails_l. unfold BPlusTreeIndex.saveNode.
  assert (is_leaf node1 = true) as -> by done.
  rewrite bool_decide_false by (rewrite Hkeys, Hrecs; by intros []).
  apply bind_fails. eapply fetch_returns; [by apply Hkeep3|done|].
  intros page' w4 _ _ _ _. apply bind_fails_l.
  unfold lift. rewrite node_bytes_overrun; [done| |].
  - unfold node1, BPlusTreeIndex.insertIntoLeaf. cbn [keys leaf_node].
    apply Forall_insert_at; [by rewrite Hkty|].
    by apply normal_has_type.
  - rewrite Hkeys, Hkty. exact Hover.
Qed.

Lemma run_appends_app (fuel : nat) (a b : list Value) :
  ∀ (c : t) (w : World),
    run_appends fuel c (a ++ b) w
    = bind (run_appends fuel c a) (λ c', run_appends fuel c' b) w.
Proof.
  induction a as [|x a IH]; intros c w; [done|].
  cbn [app run_appends]. unfold bind.
  destruct (append fuel c x w) as [[rc w1]|e]; [|done].
  rewrite IH. done.
Qed.

(** X25. A column of strings takes 15 appends and no more: with the 16th
    key the root leaf of its index needs 13 + 16 * 256 bytes, and
    [saveNode], which checks the size only after the copies, writes past
    the end of the page (reported as [OutOfRange]; in C++ the behaviour is
    undefined). *)
Theorem sixteenth_string_append_overruns_the_index_page :
  ∀ (fuel : nat) (name : string) (vs : list Value) (w0 : World),
    (0 < fuel)%nat →
    column_ready name w0 →
    Forall (has_type STRING) vs →
    (16 ≤ length vs)%nat →
    next_page_id w0 + 48 < 2 ^ 51 →
    run_appends fuel (create name STRING) vs w0 = Fail OutOfRange.
Proof.
  intros fuel name vs w0 Hfuel Hready Hty Hlen Hnp.
  rewrite <- (take_drop 15 vs) in Hty |- *.
  apply Forall_app in Hty as [Hty1 Hty2].
  destruct (drop 15 vs) as [|x rest] eqn:Hrest.
  { apply (f_equal length) in Hrest. rewrite length_drop in Hrest. cbn in Hrest. lia. }
  apply list.Forall_cons in Hty2 as [Hx _].
  assert (length (take 15 vs) = 15%nat) as Hlen15 by (rewrite length_take; lia).
  destruct (run_appends_holds fuel (take 15 vs) Hfuel (create name STRING) w0 [] [])
    as (c & w & Hrun & Hholds & Htype & _ & Hhi & _); try done.
  { by apply column_ready_holds. }
  { rewrite Hlen15. cbn. lia. }
  { rewrite Hlen15. cbn. lia. }
  { rewrite Hlen15. lia. }
  rewrite Hlen15 in Hhi. cbn [app length] in Hholds.
  change (N.of_nat 0) with 0 in Hholds.
  pose proof (length_index_entries (take 15 vs) [] 0) as Hes.
  rewrite Hlen15 in Hes. cbn [length] in Hes. specialize (Hes ltac:(lia)).
  rewrite run_appends_app. unfold bind. rewrite Hrun. cbn [run_appends].
  apply bind_fails_l.
  apply (append_overrun fuel c w (take 15 vs) (index_entries [] 0 (take 15 vs)) x);
    try done.
  - by rewrite Htype.
  - rewrite Hlen15. lia.
  - lia.
  - intros Hnil. by rewrite Hnil in Hes.
  - lia.
  - rewrite Hes, Htype. unfold PAGE_SIZE. cbn [value_width type_ create]. lia.
Qed.

Lemma sixteenth_string_append_overruns_the_index_page_witness :
  run_appends 1 (create "t/s" STRING) (replicate 16 (VString "a")) new_World
  = Fail OutOfRange.
Proof.
  apply (sixteenth_string_append_overruns_the_index_page 1 "t/s"
           (replicate 16 (VString "a")) new_World).
  - lia.
  - apply new_World_ready.
  - apply Forall_replicate. exact I.
  - cbn. lia.
  - vm_compute. reflexivity.
Defined.

End string_overrun.

